(* ===== verification/_CoqProject ===== *)
-Q . S2P
Prelude.v
BTree.v
ToMap.v
FromMap.v
Externals.v
Versions.v
StatusCodes.v
Body.v
HttpError.v
Config.v
Tls.v
Acceptor.v
Schema.v
OpenApi.v
SchemaUtil.v
SchemaTranslate.v
SchemaSemantics.v
SchemaCorrect.v
TypeUtil.v
ApiEndpoint.v
Metadata.v
Router.v
RouterSpec.v
RouterLookup.v
RouterIter.v
Versioning.v
Pagination.v
ApiDescription.v
GenOpenApi.v
GenOpenApiSpec.v
GenOpenApiTotal.v
HandlerErasure.v
Handler.v
Responses.v
ErrorSchema.v
WebSocket.v
Extractors.v
TypedExtractors.v
Compression.v
Server.v
Tracing.v
TypedEndpoints.v
ServerStart.v
HandlerTasks.v
TestClient.v
TestClientSpec.v
Logging.v
TestServer.v
ErrorStore.v
MacroSyn.v
MacroDoc.v
MacroModuleDoc.v
MacroMetadata.v
MacroParams.v
MacroEndpoint.v
MacroTrait.v
MacroTraitSpec.v
MacroEntry.v
MacroFactory.v
MacroStub.v
MacroParsing.v
Models.v
Witnesses.v
OpenApiWitnesses.v
MacroWitnesses.v
ClientWitnesses.v
ServerWitnesses.v
TypedWitnesses.v
