(* ===== verification/Prelude.v ===== *)
(** * Dropshot: a verification development

    Dropshot is a Rust library for HTTP servers with REST APIs: a program
    registers endpoints (functions with extractor arguments) in an
    [ApiDescription], and the server routes each request by method, path and
    API version to one of them, reads its arguments from the request, runs it
    and turns its result into a response.  This development models that path,
    from registration to response, and proves what makes it correct.

    ** Conventions

    A Rust function that can fail or panic is a function into [rust E A] (this
    file), with the constructors [Ok], [Err] and [Panic]; [panics A] is a body
    without a [Result].  Strings are byte strings.  A [BTreeMap<String, _>] is a
    sorted association list ([BTree]).  A [&mut] argument is passed and
    returned.  Code that is not part of the repository (the crates [http],
    [semver], [serde_json], [base64], [schemars]' generator, the gzip encoder)
    is a class of operations with a class of laws ([Externals], [Handler],
    [Compression]) or a parameter; [Models] has a concrete instance of each, with
    its laws proved, and [Witnesses] and the other files of that name apply the
    theorems to concrete inputs there.  The plain data of [schemars] and [serde_json] that the code takes
    apart is in [Schema].

    ** Parts of the program

    - Registration: [Versions] (version ranges), [Schema] and [TypeUtil]
      (parameter type checks, [type_util.rs]), [ApiEndpoint] (endpoints and the
      metadata of extractors, [api_description.rs], [extractor/common.rs]),
      [ApiDescription] ([register] and its checks).
    - Routing ([router.rs]): [Router] has the trie with [insert] and
      [lookup_route]; [RouterSpec] the abstract view of a trie as the list of
      endpoints inserted, [Rep], and what [insert] accepts; [RouterLookup] what a
      lookup returns; [RouterIter] the iterator over endpoints.
    - OpenAPI documents: [Schema] and [OpenApi] (the data of the crates),
      [SchemaUtil] and [SchemaTranslate] ([schema_util.rs]: the members of a
      structure, and [j2oas_schema]), [SchemaSemantics] (what schemas accept),
      [SchemaCorrect] (that translation keeps it), [Metadata] (the parameters of
      an extractor's type, [extractor/metadata.rs]), [GenOpenApi] ([gen_openapi]
      of [api_description.rs]) with [GenOpenApiSpec] and [GenOpenApiTotal]; and
      [HandlerErasure], neither registration nor documents look at handlers.
    - Requests: [Versioning] (the version a request asks for, [versioning.rs]),
      [FromMap] (the deserializer of [from_map.rs]), [Extractors] (bodies with
      their size limit, path, query and header parameters, [extractor/]) with
      [TypedExtractors] (the traits, the extractor types and their tuples),
      [Pagination] ([pagination.rs]).
    - Responses: [StatusCodes] ([error_status_code.rs]), [HttpError] ([error.rs]),
      [ToMap] ([to_map.rs]), [Handler] (responses, their headers, and the adapter
      around endpoint functions, [handler.rs]) with [Responses] (the response
      traits and types), [ErrorSchema] (the schemas of error bodies, [error.rs], and
      of pages),
      [WebSocket] (upgrades, [websocket.rs]), [Body] ([body.rs]), [Compression]
      ([compression.rs]).
    - The server ([server.rs]): [Config], [Server] ([http_request_handle] and its
      wrapper, built from all of the above), [Tracing] (what is logged and traced of
      a request, [dtrace.rs]), [HandlerTasks] (the tasks a request
      runs on, disconnecting clients and shutdown, as a step relation), [Tls] (the
      TLS configuration), [Acceptor] (the task that accepts connections and
      negotiates TLS, as turns on events), [ServerStart] (building and starting a
      server, and the services of its connections).  [TypedEndpoints] makes
      endpoints of typed functions and joins registration, documents and handling.
    - Tests: [TestClient] (the client of [test_util.rs] and its checks) with
      [TestClientSpec], [Logging] ([logging.rs], and the logs of tests), and
      [TestServer] (a server with its client, started and torn down).
    - Macros ([dropshot_endpoint]): [MacroParsing] (traits and functions are read
      from tokens and printed, [syn_parsing.rs]), [ErrorStore] (the sinks that errors are
      pushed to, with a Hoare-style predicate [runs] for computations that do),
      [MacroSyn] (the parts of [syn]'s trees that are looked at), [MacroDoc]
      (documentation, [doc.rs]) with
      [MacroModuleDoc] (that of the generated module), [MacroMetadata] (attributes and the expression
      that builds an endpoint, [metadata.rs]), [MacroParams] (signatures,
      [params.rs]), [MacroEndpoint] ([do_endpoint] and [do_channel]),
      [MacroTrait] and [MacroTraitSpec] ([do_trait], [api_trait.rs]) and
      [MacroFactory] (a run of the generated functions, with [register]) with
      [MacroStub] (the stub of a trait); [MacroEntry] (the macros themselves, [lib.rs]).

    ** What the theorems show

    - Routing: [build_spec] says which lists of endpoints can be registered;
      [lookup_route_spec] gives the result of every lookup in terms of the
      registered endpoints alone; [leads_deterministic], [registered_reachable],
      [wildcard_shadows] and [allow_header_spec] are consequences for a user of
      the API; [endpoints_spec] relates the iterator's state machine to the
      recursive traversal, and [route_path_roundtrip] shows that the paths it
      returns parse to the patterns the endpoints were registered with, wildcards
      apart.
    - Registration: [register_spec], and [registered_variables] and
      [registered_path_params]: a handler gets a value of the right shape for
      each path parameter it declares.
    - The whole: [request_served_as_documented], requests and responses are what
      the server's own OpenAPI document says of their operation; its parts for the
      two sides are [handler_gets_documented_request] and [responses_documented].
    - The server: [request_answered], the whole response, in terms of the error or of
      the handler's response; [every_request_answered], [request_traced],
      [unversioned_server_spec]; [build_starter_spec], when a server is built;
      [accept_task_spec] and [connection_served], the accepted connections are
      served, whatever fails in between; shutdown and disconnection in
      [close_waits_for_handlers], [detached_handler_completes],
      [cancelled_handler_stops] and [request_log_spec].
    - Documents: [j2oas_schema_spec], a translated schema accepts what the schema
      does; [gen_openapi_spec], the operations of a document are the visible
      endpoints of the version, as they declare themselves; [gen_openapi_total],
      when a document can be made; [gen_tags_spec] and, on a defect of the names
      of error responses, [error_response_names_collide]; [get_metadata_spec] and
      [schema2struct_members] on the parameters that operations have.
    - WebSockets: [websocket_from_request_spec], [websocket_accept_spec].
    - The client and the server: [server_error_received], the test client reads
      each error as the server made it; [iter_collection_spec], it reads every
      item of a paginated collection once; [test_leaves_no_files], a test that is
      torn down leaves no log.
    - Macros: [trait_roundtrip], a trait that is printed is read back;
      [do_trait_spec], [do_endpoint_spec] and [do_channel_spec], what is
      accepted and what is then generated, with the errors of what is not;
      [macro_endpoint_spec], the generated expression builds the endpoint that
      the attribute describes; [adapter_call_spec], how a channel's adapter
      calls the function; [stub_has_same_documents], the stub of a trait gives the
      documents of its implementations; [run_factory_spec] and [trait_method_registered], a
      marked method of a trait is an endpoint of the API; [error_store_spec],
      no error is lost and each sink knows of those below it, in the tree that the
      operations declare; [from_attrs_spec], the documentation.
    - Components: [to_map_from_map], a struct of strings survives being a map; version ranges, page tokens, bodies within their limit, error
      codes and responses, deserialization and serialization of string maps,
      schemas of parameters, compression.

    ** Fuel

    [type_is_scalar] recurses through references and may not terminate, which
    [type_is_scalar_recursive_schema] shows; its fuel is a parameter of
    [ApiDescription], theorems about registration hold for every answer, and
    [register_spec] says when there is one.
    [schema2struct] follows references, too, and has fuel; its theorems hold for
    every answer, and [schema2struct_members] says when there is one.  [HttpRouterIter] has fuel for its loop; [endpoints_spec] gives an amount
    that is enough.  The visitors' loops of [FromMap] have one turn more than
    the map has entries, which [drive_map_fold] shows to be enough.  A push to an
    error sink marks the sinks above it with one turn for each sink there is,
    which [error_store_spec] shows to be enough.  The loops of [MacroParsing] have
    a turn for each token, which is enough by [trait_roundtrip].  [iter_collection] has fuel for
    its requests; the number of items is enough, by [iter_collection_spec].

    ** Not modelled

    Reading and writing sockets, and where logs and probes are written to are input and output,
    and [rustls] and the listeners of [tokio] are classes ([TlsCrate], [TcpNet]).
    The parsers of [syn]
    that [MacroParsing] calls are a class; the other files on macros start from
    parsed trees, [serde_tokenstream] is a parameter, what the macros generate is
    data and not tokens, and the positions of errors are left out.  Code of users
    (handlers, the [Deserialize] and [JsonSchema] of their types) is
    arbitrary; where a theorem is about both a type's values and its schema, that
    its derived implementations agree is a class ([DerivesStruct], [QueryStruct],
    [SerializesMembers]). *)
From stdpp Require Export base list strings option sets gmap sorting.
From stdpp Require Export pretty.


(** ** Rust computations that may fail or panic *)

(** [rust E A]: a Rust function body of type [Result<A, E>] (or [A], with an
    uninhabited [E]).  [Ok] and [Err] are the two variants of [Result];
    [Panic] is an unwinding [panic!], [assert!], [unwrap] or [unreachable!],
    with the text it panics with. *)
Inductive rust (E A : Type) : Type :=
| Ok (a : A)
| Err (e : E)
| Panic (msg : string).
Arguments Ok {E A} a.
Arguments Err {E A} e.
Arguments Panic {E A} msg.

(** A body that does not return a [Result]. *)
Abbreviation panics := (rust Empty_set).

#[export] Instance rust_ret {E} : MRet (rust E) := λ A a, Ok a.

#[export] Instance rust_bind {E} : MBind (rust E) := λ A B k m,
  match m with Ok a => k a | Err e => Err e | Panic msg => Panic msg end.

#[export] Instance rust_fmap {E} : FMap (rust E) := λ A B f m,
  match m with Ok a => Ok (f a) | Err e => Err e | Panic msg => Panic msg end.

(** [Result::map_err]. *)
Definition map_err {E E' A} (f : E → E') (m : rust E A) : rust E' A :=
  match m with Ok a => Ok a | Err e => Err (f e) | Panic msg => Panic msg end.

(** A body without a [Result], called from one with a [Result]. *)
Definition lift_panics {E A} (m : panics A) : rust E A :=
  map_err (λ e : Empty_set, match e with end) m.

(** [Option::ok_or]. *)
Definition ok_or {E A} (o : option A) (e : E) : rust E A :=
  match o with Some a => Ok a | None => Err e end.

(** [Option::expect] / [unwrap]. *)
Definition expect {E A} (o : option A) (msg : string) : rust E A :=
  match o with Some a => Ok a | None => Panic msg end.

Definition is_ok {E A} (m : rust E A) : bool :=
  match m with Ok _ => true | _ => false end.

(** The computation does not panic. *)
Definition no_panic {E A} (m : rust E A) : Prop :=
  match m with Panic _ => False | _ => True end.

Lemma rust_bind_ok {E A B} (m : rust E A) (k : A → rust E B) b :
  m ≫= k = Ok b ↔ ∃ a, m = Ok a ∧ k a = Ok b.
Proof. destruct m; naive_solver. Qed.

Lemma rust_fmap_ok {E A B} (f : A → B) (m : rust E A) b :
  f <$> m = Ok b ↔ ∃ a, m = Ok a ∧ f a = b.
Proof. destruct m; naive_solver. Qed.

Lemma map_err_ok {E E' A} (f : E → E') (m : rust E A) a :
  map_err f m = Ok a ↔ m = Ok a.
Proof. destruct m; naive_solver. Qed.

Lemma lift_panics_ok {E A} (m : panics A) a :
  lift_panics (E := E) m = Ok a ↔ m = Ok a.
Proof. apply map_err_ok. Qed.

Lemma ok_or_ok {E A} (o : option A) (e : E) a :
  ok_or o e = Ok a ↔ o = Some a.
Proof. destruct o; naive_solver. Qed.

Lemma expect_ok {E A} (o : option A) msg a :
  expect (E := E) o msg = Ok a ↔ o = Some a.
Proof. destruct o; naive_solver. Qed.

Create Rewrite HintDb rust.
#[export] Hint Rewrite @rust_bind_ok @rust_fmap_ok @map_err_ok @lift_panics_ok
  @ok_or_ok @expect_ok : rust.

(** [inv_ok]: turn every hypothesis that says a computation returned [Ok] into
    the intermediate results of its binds. *)
Ltac inv_ok :=
  repeat match goal with
  | H : _ ≫= _ = Ok _ |- _ => apply rust_bind_ok in H as (? & ? & ?)
  | H : _ <$> _ = Ok _ |- _ => apply rust_fmap_ok in H as (? & ? & ?)
  | H : map_err _ _ = Ok _ |- _ => apply map_err_ok in H
  | H : lift_panics _ = Ok _ |- _ => apply lift_panics_ok in H
  | H : ok_or _ _ = Ok _ |- _ => apply ok_or_ok in H
  | H : expect _ _ = Ok _ |- _ => apply expect_ok in H
  end; simplify_eq.

(** Computations that return or panic, but give no error. *)
Definition never_err {E A} (m : rust E A) : Prop := ∀ e, m ≠ Err e.

Lemma never_err_ok {E A} (a : A) : never_err (E := E) (Ok a).
Proof. done. Qed.

Lemma never_err_expect {E A} (o : option A) msg : never_err (E := E) (expect o msg).
Proof. by destruct o. Qed.

Lemma never_err_bind {E A B} (m : rust E A) (k : A → rust E B) :
  never_err m → (∀ a, never_err (k a)) → never_err (m ≫= k).
Proof. intros Hm Hk e. destruct m as [a|e'|]; [apply Hk|by destruct (Hm e')|done]. Qed.

Lemma never_err_if {E A} (b : bool) (m1 m2 : rust E A) :
  never_err m1 → never_err m2 → never_err (if b then m1 else m2).
Proof. by destruct b. Qed.

Create HintDb never_err discriminated.
#[export] Hint Resolve never_err_ok never_err_expect never_err_bind never_err_if : never_err.

(** ** Loops over lists with early return *)

(** [for x in l { f(x)?; }]. *)
Fixpoint for_each {E A} (f : A → rust E ()) (l : list A) : rust E () :=
  match l with
  | [] => Ok ()
  | x :: l => _ ← f x; for_each f l
  end.

Lemma for_each_ok {E A} (f : A → rust E ()) l :
  for_each f l = Ok () ↔ Forall (λ x, f x = Ok ()) l.
Proof.
  induction l as [|x l IH]; simpl; [naive_solver|].
  rewrite Forall_cons, <-IH, rust_bind_ok. split; [intros ([] & ? & ?)|]; naive_solver.
Qed.

(** [iter.map(f).collect::<Result<Vec<_>, _>>()]: the first error wins. *)
Section try_map.
Context {E A B : Type} (f : A → rust E B).

Fixpoint try_map (l : list A) : rust E (list B) :=
  match l with
  | [] => Ok []
  | x :: l => y ← f x; ys ← try_map l; Ok (y :: ys)
  end.

(** The same on an optional value, and on the values of a map. *)
Definition try_opt (o : option A) : rust E (option B) :=
  match o with None => Ok None | Some x => y ← f x; Ok (Some y) end.

Fixpoint try_values (m : list (string * A)) : rust E (list (string * B)) :=
  match m with
  | [] => Ok []
  | (k, x) :: m => y ← f x; ys ← try_values m; Ok ((k, y) :: ys)
  end.
End try_map.

Lemma try_map_ok {E A B} (f : A → rust E B) l ys :
  try_map f l = Ok ys ↔ Forall2 (λ x y, f x = Ok y) l ys.
Proof.
  revert ys. induction l as [|x l IH]; intros ys; simpl.
  - split; [intros [= <-]; constructor|]. intros H. by inversion H.
  - rewrite rust_bind_ok. setoid_rewrite rust_bind_ok. setoid_rewrite IH.
    split; [naive_solver|]. intros H. inversion H; naive_solver.
Qed.

Lemma try_map_cons_ok {E A B} (f : A → rust E B) x l zs :
  try_map f (x :: l) = Ok zs ↔ ∃ y ys, f x = Ok y ∧ try_map f l = Ok ys ∧ zs = y :: ys.
Proof.
  simpl. rewrite rust_bind_ok. setoid_rewrite rust_bind_ok. naive_solver.
Qed.

Lemma filter_id {A} (P : A → Prop) `{∀ x, Decision (P x)} (l : list A) :
  Forall P l → filter P l = l.
Proof. induction 1 as [|x l Hx Hl IH]; [done|]. by rewrite filter_cons_True, IH. Qed.

(** ** Strings

    A Rust [str] is the sequence of its UTF-8 bytes; a Rocq [string] is a
    sequence of bytes.  The operations below are the [str] methods the code
    uses with ASCII arguments, where working on bytes and on characters
    agree. *)
Open Scope string_scope.
Open Scope nat_scope.
Open Scope list_scope.

Export Ascii.AsciiSyntax.
Delimit Scope char_scope with char.
Abbreviation ascii := Ascii.ascii.

#[global] Arguments String.eqb : simpl never.

Definition char_str (c : ascii) : string := String c "".

(** A text in double quotes. *)
Definition quoted (s : string) : string := char_str "034"%char +:+ s +:+ char_str "034"%char.

(** [str::split] with a character predicate: always at least one piece. *)
Fixpoint split_pred (p : ascii → bool) (s : string) : list string :=
  match s with
  | "" => [""]
  | String a s =>
      if p a then "" :: split_pred p s
      else match split_pred p s with
           | x :: xs => String a x :: xs
           | [] => [char_str a]
           end
  end.

(** [str::split(c)]. *)
Definition split_on (c : ascii) : string → list string := split_pred (Ascii.eqb c).

(** [str::split_once(c)]. *)
Fixpoint split_once (c : ascii) (s : string) : option (string * string) :=
  match s with
  | "" => None
  | String a s =>
      if Ascii.eqb c a then Some ("", s)
      else '(x, y) ← split_once c s; Some (String a x, y)
  end.

(** [str::splitn(2, c)]. *)
Definition splitn2 (c : ascii) (s : string) : list string :=
  match split_once c s with Some (x, y) => [x; y] | None => [s] end.

Definition is_empty_str (s : string) : bool :=
  match s with "" => true | _ => false end.

(** [str::starts_with] / [ends_with] with a character. *)
Definition starts_with_char (c : ascii) (s : string) : bool :=
  match s with String a _ => Ascii.eqb c a | "" => false end.

Fixpoint ends_with_char (c : ascii) (s : string) : bool :=
  match s with
  | "" => false
  | String a "" => Ascii.eqb c a
  | String _ s => ends_with_char c s
  end.

(** The slice [&s[1..s.len() - 1]]. *)
Fixpoint drop_last_char (s : string) : string :=
  match s with
  | "" | String _ "" => ""
  | String a s => String a (drop_last_char s)
  end.

Definition inner_slice (s : string) : string :=
  match s with "" => "" | String _ s => drop_last_char s end.

(** [str::starts_with] with a string. *)
Definition starts_with (pre s : string) : bool := String.prefix pre s.

(** The slice [&s[pre.len()..]]. *)
Definition drop_prefix_len (pre s : string) : string :=
  String.substring (String.length pre) (String.length s - String.length pre) s.

(** [str::contains] with a string. *)
Fixpoint str_contains (sub s : string) : bool :=
  starts_with sub s || match s with "" => false | String _ s => str_contains sub s end.

Definition ascii_lower (a : ascii) : ascii :=
  let n := Ascii.N_of_ascii a in
  if (65 <=? n)%N && (n <=? 90)%N then Ascii.ascii_of_N (n + 32) else a.

Definition ascii_upper (a : ascii) : ascii :=
  let n := Ascii.N_of_ascii a in
  if (97 <=? n)%N && (n <=? 122)%N then Ascii.ascii_of_N (n - 32) else a.

Fixpoint str_map (f : ascii → ascii) (s : string) : string :=
  match s with "" => "" | String a s => String (f a) (str_map f s) end.

(** [str::to_ascii_lowercase] / [to_ascii_uppercase]. *)
Definition to_ascii_lowercase : string → string := str_map ascii_lower.
Definition to_ascii_uppercase : string → string := str_map ascii_upper.

(** [str::eq_ignore_ascii_case]. *)
Definition eq_ignore_ascii_case (s t : string) : bool :=
  String.eqb (to_ascii_lowercase s) (to_ascii_lowercase t).

(** Decimal digits, and the number they write. *)
Definition digit (a : ascii) : option N :=
  let n := Ascii.N_of_ascii a in
  if ((48 <=? n) && (n <=? 57))%N then Some (n - 48)%N else None.

Fixpoint parse_N_from (acc : N) (s : string) : option N :=
  match s with
  | "" => Some acc
  | String a s => d ← digit a; parse_N_from (10 * acc + d) s
  end.

Definition parse_N (s : string) : option N :=
  if is_empty_str s then None else parse_N_from 0 s.

(** [str::parse] at an unsigned integer type of [w] bits: an optional plus
    sign, then digits that do not overflow. *)
Definition parse_unsigned (w : N) (s : string) : option N :=
  let digits := match s with String "+"%char s' => s' | _ => s end in
  n ← parse_N digits; if (n <? 2 ^ w)%N then Some n else None.

Definition parse_u64 : string → option N := parse_unsigned 64.

(** [usize] addition, 64 bits wide, which wraps in a release build. *)
Definition usize_add (a b : N) : N := ((a + b) mod 2 ^ 64)%N.

(** [str::trim_start], [trim_end] and [trim], on ASCII white space. *)
Definition is_space (a : ascii) : bool :=
  let n := Ascii.N_of_ascii a in ((9 <=? n) && (n <=? 13) || (n =? 32))%N.

Fixpoint trim_start (s : string) : string :=
  match s with
  | String a s' => if is_space a then trim_start s' else s
  | "" => ""
  end.

Fixpoint trim_end (s : string) : string :=
  match s with
  | "" => ""
  | String a s =>
      match trim_end s with
      | "" => if is_space a then "" else char_str a
      | s' => String a s'
      end
  end.

Definition trim (s : string) : string := trim_end (trim_start s).

(** [[&str]::join(sep)]. *)
Definition join (sep : string) (l : list string) : string := String.concat sep l.

(** Whether the character occurs in the string. *)
Fixpoint has_char (c : ascii) (s : string) : bool :=
  match s with "" => false | String a s => Ascii.eqb c a || has_char c s end.

(** [format!("{}", n)] for an unsigned integer. *)
Definition show_N (n : N) : string := pretty n.
Definition show_Z (z : Z) : string := pretty z.

(** *** Lemmas on splitting and joining *)

Lemma split_pred_cons p s : ∃ x xs, split_pred p s = x :: xs.
Proof.
  induction s as [|a s (x & xs & IH)]; simpl; [by eauto|].
  rewrite IH. destruct (p a); by eauto.
Qed.

Lemma split_on_not_nil c s : split_on c s ≠ [].
Proof. unfold split_on. destruct (split_pred_cons (Ascii.eqb c) s) as (? & ? & ->). done. Qed.

Lemma join_cons_cons sep x y l : join sep (x :: y :: l) = x +:+ sep +:+ join sep (y :: l).
Proof. done. Qed.

Lemma join_string_cons c a x l : join c (String a x :: l) = String a (join c (x :: l)).
Proof. by destruct l. Qed.

(** Joining the pieces gives the string back. *)
Lemma join_split_on c s : join (char_str c) (split_on c s) = s.
Proof.
  unfold split_on. induction s as [|a s IH]; [done|]. simpl.
  destruct (split_pred_cons (Ascii.eqb c) s) as (x & xs & E).
  rewrite E in IH |- *. destruct (Ascii.eqb_spec c a) as [->|].
  - rewrite join_cons_cons, IH. done.
  - by rewrite join_string_cons, IH.
Qed.

Lemma has_char_app c s t : has_char c (s +:+ t) = has_char c s || has_char c t.
Proof. induction s as [|a s IH]; simpl; [done|]. by rewrite IH, orb_assoc. Qed.

Lemma split_on_no_char c s : has_char c s = false → split_on c s = [s].
Proof.
  unfold split_on. induction s as [|a s IH]; simpl; [done|].
  intros [-> H]%orb_false_iff. by rewrite IH.
Qed.

Lemma split_on_app c s t :
  has_char c s = false → split_on c (s +:+ char_str c +:+ t) = s :: split_on c t.
Proof.
  unfold split_on. induction s as [|a s IH]; simpl.
  - by rewrite Ascii.eqb_refl.
  - intros [-> H]%orb_false_iff. by rewrite (IH H).
Qed.

(** Splitting a joined list of pieces gives the pieces back. *)
Lemma split_on_join c l :
  l ≠ [] → Forall (λ x, has_char c x = false) l → split_on c (join (char_str c) l) = l.
Proof.
  intros Hl H. destruct l as [|x l]; [done|]. clear Hl.
  revert x H. induction l as [|y l IH]; intros x H.
  - apply split_on_no_char. by inversion H.
  - inversion H as [|?? Hx Hl]; subst.
    rewrite join_cons_cons, split_on_app by done. by rewrite IH.
Qed.

Lemma split_on_pieces c s : Forall (λ x, has_char c x = false) (split_on c s).
Proof.
  unfold split_on. induction s as [|a s IH]; simpl; [by repeat constructor|].
  destruct (Ascii.eqb_spec c a) as [->|Hc]; [by constructor|].
  destruct (split_pred_cons (Ascii.eqb c) s) as (x & xs & E).
  rewrite E in IH |- *. inversion IH; subst. constructor; [|done].
  simpl. apply orb_false_iff. split; [|done]. by apply Ascii.eqb_neq.
Qed.

Lemma split_once_spec c s x y :
  split_once c s = Some (x, y) ↔ s = x +:+ char_str c +:+ y ∧ has_char c x = false.
Proof.
  revert x. induction s as [|a s IH]; intros x; simpl.
  - split; [done|]. intros [E _]. by destruct x.
  - destruct (Ascii.eqb_spec c a) as [<-|Hc]; simpl.
    + split; [by intros [= <- <-]|]. intros [E Hx]. destruct x as [|b x]; simpl in *.
      * by injection E as ->.
      * injection E as <- _. by rewrite Ascii.eqb_refl in Hx.
    + destruct (split_once c s) as [[x' y']|]; simpl.
      * split.
        -- intros [= <- <-]. destruct (proj1 (IH x') eq_refl) as [-> Hx']. simpl.
           apply Ascii.eqb_neq in Hc. by rewrite Hc, Hx'.
        -- intros [E Hx]. destruct x as [|b x]; simpl in *; [by injection E as ->|].
           injection E as <- E. apply orb_false_iff in Hx as [_ Hx].
           pose proof (proj2 (IH x) (conj E Hx)). by simplify_eq.
      * split; [done|]. intros [E Hx]. destruct x as [|b x]; simpl in *; [by injection E as ->|].
        injection E as <- E. apply orb_false_iff in Hx as [_ Hx].
        by pose proof (proj2 (IH x) (conj E Hx)).
Qed.

Lemma string_app_nil_r s : s +:+ "" = s.
Proof. induction s as [|a s IH]; [done|]. exact (f_equal (String a) IH). Qed.

Lemma concat_cons c l : String.concat "" (c :: l) = c +:+ String.concat "" l.
Proof. destruct l; [|done]. symmetry. apply string_app_nil_r. Qed.

Lemma string_app_assoc s t u : s +:+ (t +:+ u) = (s +:+ t) +:+ u.
Proof.
  induction s as [|a s IH]; [done|].
  change (String a (s +:+ (t +:+ u)) = String a ((s +:+ t) +:+ u)). by rewrite IH.
Qed.

Lemma split_once_none c s : split_once c s = None ↔ has_char c s = false.
Proof.
  induction s as [|a s IH]; simpl; [done|].
  destruct (Ascii.eqb c a); simpl; [done|]. rewrite <-IH.
  by destruct (split_once c s) as [[x y]|].
Qed.

Lemma drop_last_char_snoc s c : drop_last_char (s +:+ char_str c) = s.
Proof.
  induction s as [|a s IH]; [done|]. change (String a s +:+ char_str c) with (String a (s +:+ char_str c)).
  simpl. rewrite IH. by destruct s.
Qed.

Lemma ends_with_char_snoc c s : ends_with_char c s = true ↔ s = drop_last_char s +:+ char_str c.
Proof.
  induction s as [|a s IH]; [done|]. simpl. destruct s as [|b s].
  - destruct (Ascii.eqb_spec c a) as [->|]; [done|]. split; [done|]. by intros [= ->].
  - rewrite IH. change (String a (drop_last_char (String b s)) +:+ char_str c)
      with (String a (drop_last_char (String b s) +:+ char_str c)). split; congruence.
Qed.

(** A string in braces is its inner slice in braces. *)
Lemma inner_slice_braces a b s :
  a ≠ b →
  starts_with_char a s = true ∧ ends_with_char b s = true ↔
  s = char_str a +:+ inner_slice s +:+ char_str b.
Proof.
  intros Hab. destruct s as [|x s]; [by split; [intros []|]|]. simpl.
  change (char_str a +:+ drop_last_char s +:+ char_str b) with (String a (drop_last_char s +:+ char_str b)).
  destruct (Ascii.eqb_spec a x) as [->|]; [|by split; [intros []|congruence]].
  destruct s as [|y s].
  - simpl. destruct (Ascii.eqb_spec b x); [congruence|]. by split; [intros []|].
  - rewrite ends_with_char_snoc. split; [intros [_ H]; by f_equal|]. intros [= H]. done.
Qed.

Lemma is_empty_str_true s : is_empty_str s = true ↔ s = "".
Proof. by destruct s. Qed.

Lemma is_empty_str_false s : is_empty_str s = false ↔ s ≠ "".
Proof. by destruct s. Qed.

Lemma str_map_compose f g s : str_map f (str_map g s) = str_map (λ a, f (g a)) s.
Proof. induction s as [|a s IH]; simpl; congruence. Qed.

Lemma str_map_ext f g s : (∀ a, f a = g a) → str_map f s = str_map g s.
Proof. intros H. induction s as [|a s IH]; simpl; congruence. Qed.

(** [strip_prefix]: a string is its prefix and what follows. *)
Lemma prefix_split p s :
  String.prefix p s = true → s = p +:+ drop_prefix_len p s.
Proof.
  unfold drop_prefix_len. revert s. induction p as [|a p IH]; intros s; simpl.
  - intros _. rewrite Nat.sub_0_r. induction s as [|b s IH]; [done|].
    change (String b s = String b (String.substring 0 (String.length s) s)). f_equal. exact IH.
  - destruct s as [|b s]; [done|]. simpl. destruct (Ascii.ascii_dec a b) as [->|]; [|done].
    intros H. apply (f_equal (String b)), (IH s H).
Qed.

(** A property of single bytes is decided by trying the 256 of them. *)
Definition all_ascii (P : ascii → bool) : bool :=
  forallb (λ n, P (Ascii.ascii_of_nat n)) (seq 0 256).

Lemma all_ascii_true P : all_ascii P = true → ∀ a, P a = true.
Proof.
  unfold all_ascii. rewrite forallb_forall. intros H a.
  rewrite <-(Ascii.ascii_nat_embedding a). apply H, in_seq.
  pose proof (Ascii.nat_ascii_bounded a). lia.
Qed.

Lemma ascii_upper_idem a : ascii_upper (ascii_upper a) = ascii_upper a.
Proof.
  apply Ascii.eqb_eq.
  apply (all_ascii_true (λ a, Ascii.eqb (ascii_upper (ascii_upper a)) (ascii_upper a))).
  by vm_compute.
Qed.

Lemma ascii_lower_idem a : ascii_lower (ascii_lower a) = ascii_lower a.
Proof.
  apply Ascii.eqb_eq.
  apply (all_ascii_true (λ a, Ascii.eqb (ascii_lower (ascii_lower a)) (ascii_lower a))).
  by vm_compute.
Qed.

Lemma to_ascii_uppercase_idem s : to_ascii_uppercase (to_ascii_uppercase s) = to_ascii_uppercase s.
Proof. unfold to_ascii_uppercase. rewrite str_map_compose. apply str_map_ext, ascii_upper_idem. Qed.

Lemma to_ascii_lowercase_idem s : to_ascii_lowercase (to_ascii_lowercase s) = to_ascii_lowercase s.
Proof. unfold to_ascii_lowercase. rewrite str_map_compose. apply str_map_ext, ascii_lower_idem. Qed.

(** *** Numbers and their decimal digits *)

Lemma digit_pretty_char n : (n < 10)%N → digit (pretty_N_char n) = Some n.
Proof.
  intros Hn. assert (n = 0 ∨ n = 1 ∨ n = 2 ∨ n = 3 ∨ n = 4 ∨ n = 5 ∨ n = 6 ∨ n = 7 ∨ n = 8 ∨ n = 9)%N by lia.
  by repeat destruct H as [->|H] || subst.
Qed.

Lemma parse_N_from_pretty n s : parse_N_from 0 (pretty_N_go n s) = parse_N_from n s.
Proof.
  revert s. induction (N.lt_wf_0 n) as [n _ IH]; intros s.
  destruct (decide (n = 0)%N) as [->|]; [done|].
  rewrite pretty_N_go_step by lia. rewrite IH by (apply N.div_lt; lia). cbn [parse_N_from].
  rewrite digit_pretty_char by (apply N.mod_lt; lia). simpl. f_equal.
  pose proof (N.div_mod n 10). lia.
Qed.

Lemma parse_N_show n : parse_N (show_N n) = Some n.
Proof.
  unfold show_N, pretty, pretty_N. destruct (decide (n = 0)%N) as [->|Hn]; [done|].
  pose proof (parse_N_from_pretty n "") as H. unfold parse_N.
  destruct (pretty_N_go n "") eqn:E; [simpl in H; congruence|]. done.
Qed.

Lemma parse_N_digit a s n : parse_N (String a s) = Some n → is_Some (digit a).
Proof. unfold parse_N. simpl. destruct (digit a); naive_solver. Qed.
