(* ===== verification/BTree.v ===== *)
(** * The ordered maps of the standard library

    [std::collections::BTreeMap<String, V>] as a list of bindings in strictly
    increasing key order (Rust orders [String]s by their bytes, as
    [String.compare] does).  The order is visible to the code through
    iteration: the order of routes, of [Allow] headers, of parameters. *)
From S2P Require Import Prelude.

(** ** The order on strings *)

Definition str_lt (s t : string) : Prop := String.compare s t = Lt.

#[export] Instance str_lt_dec s t : Decision (str_lt s t).
Proof. unfold str_lt. destruct (String.compare s t); [right|left|right]; done. Defined.

Lemma ascii_compare_trans a b c :
  Ascii.compare a b = Lt → Ascii.compare b c = Lt → Ascii.compare a c = Lt.
Proof. unfold Ascii.compare. rewrite !N.compare_lt_iff. lia. Qed.

Lemma ascii_compare_eq a b : Ascii.compare a b = Eq ↔ a = b.
Proof.
  split; [apply Ascii.compare_eq_iff|]. intros ->.
  unfold Ascii.compare. apply N.compare_refl.
Qed.

Lemma str_compare_refl s : String.compare s s = Eq.
Proof.
  induction s as [|a s IH]; [done|]. simpl.
  by rewrite (proj2 (ascii_compare_eq a a)).
Qed.

Lemma str_compare_eq s t : String.compare s t = Eq ↔ s = t.
Proof. split; [apply String.compare_eq_iff|]. intros ->. apply str_compare_refl. Qed.

#[export] Instance str_lt_trans : Transitive str_lt.
Proof.
  unfold str_lt. intros s. induction s as [|a s IH]; intros [|b t] [|c u]; simpl; try done.
  destruct (Ascii.compare a b) eqn:Eab; [|intros _|done].
  - apply ascii_compare_eq in Eab as ->. destruct (Ascii.compare b c); [|done..].
    apply IH.
  - destruct (Ascii.compare b c) eqn:Ebc; [|intros _|done].
    + apply ascii_compare_eq in Ebc as ->. by rewrite Eab.
    + by rewrite (ascii_compare_trans a b c).
Qed.

#[export] Instance str_lt_irrefl : Irreflexive str_lt.
Proof. intros s. unfold complement, str_lt. by rewrite str_compare_refl. Qed.

Lemma str_compare_gt s t : String.compare s t = Gt ↔ str_lt t s.
Proof.
  unfold str_lt. rewrite String.compare_antisym. by destruct (String.compare t s).
Qed.

Lemma str_lt_ne s t : str_lt s t → s ≠ t.
Proof. intros H ->. by apply (irreflexivity str_lt t). Qed.

(** [Ordering] by cases. *)
Inductive str_compare_spec (s t : string) : comparison → Prop :=
| StrEq : s = t → str_compare_spec s t Eq
| StrLt : str_lt s t → str_compare_spec s t Lt
| StrGt : str_lt t s → str_compare_spec s t Gt.

Lemma str_comparison s t : str_compare_spec s t (String.compare s t).
Proof.
  destruct (String.compare s t) eqn:E; constructor.
  - by apply str_compare_eq.
  - done.
  - by apply str_compare_gt.
Qed.

(** [sort] on a vector of strings orders it by [str_le]. *)
Definition str_le (s t : string) : Prop := String.compare s t ≠ Gt.

#[export] Instance str_le_dec s t : Decision (str_le s t).
Proof. unfold str_le. destruct (String.compare s t); [left|left|right]; naive_solver. Defined.

#[export] Instance str_le_total : Total str_le.
Proof.
  intros s t. unfold str_le. rewrite (String.compare_antisym t s).
  destruct (String.compare s t); naive_solver.
Qed.

#[export] Instance str_le_trans : Transitive str_le.
Proof.
  intros s t u. unfold str_le.
  destruct (str_comparison s t) as [->|Hst|Hst]; [done| |done].
  destruct (str_comparison t u) as [<-|Htu|Htu]; [|intros _ _|done].
  - intros _ _. unfold str_lt in Hst. by rewrite Hst.
  - assert (Hsu : str_lt s u) by (by trans t). unfold str_lt in Hsu. by rewrite Hsu.
Qed.

(** ** Maps *)

Abbreviation btree V := (list (string * V)).

(** [BTreeMap::get]. *)
Fixpoint bt_get {V} (k : string) (m : btree V) : option V :=
  match m with
  | [] => None
  | (k', v) :: m => if String.eqb k k' then Some v else bt_get k m
  end.

(** [BTreeMap::insert], and [*entry(k).or_insert(..) = v]. *)
Fixpoint bt_insert {V} (k : string) (v : V) (m : btree V) : btree V :=
  match m with
  | [] => [(k, v)]
  | (k', v') :: m' =>
      match String.compare k k' with
      | Lt => (k, v) :: m
      | Eq => (k, v) :: m'
      | Gt => (k', v') :: bt_insert k v m'
      end
  end.

Definition bt_contains {V} (k : string) (m : btree V) : bool :=
  match bt_get k m with Some _ => true | None => false end.

(** [BTreeMap::keys] and [values]. *)
Definition bt_keys {V} (m : btree V) : list string := m.*1.
Definition bt_values {V} (m : btree V) : list V := m.*2.

(** [collect::<BTreeMap<_, _>>()]: later bindings replace earlier ones. *)
Definition bt_collect {V} (l : list (string * V)) : btree V :=
  foldl (λ m '(k, v), bt_insert k v m) [] l.

(** The invariant of the type. *)
Definition bt_wf {V} (m : btree V) : Prop := StronglySorted str_lt (bt_keys m).

Section lemmas.
Context {V : Type}.
Implicit Types (m : btree V) (k : string) (v : V).

Lemma bt_get_insert k k' v m :
  bt_get k' (bt_insert k v m) = if String.eqb k' k then Some v else bt_get k' m.
Proof.
  induction m as [|[k1 v1] m IH]; simpl; [done|].
  destruct (str_comparison k k1) as [->|H|H]; simpl; [by destruct (String.eqb k' k1)|done|].
  rewrite IH. destruct (String.eqb_spec k' k1) as [->|]; [|done].
  destruct (String.eqb_spec k1 k) as [->|]; [|done]. by apply str_lt_ne in H.
Qed.

Lemma bt_get_insert_eq k v m : bt_get k (bt_insert k v m) = Some v.
Proof. by rewrite bt_get_insert, String.eqb_refl. Qed.

Lemma bt_get_insert_ne k k' v m : k' ≠ k → bt_get k' (bt_insert k v m) = bt_get k' m.
Proof. intros H. rewrite bt_get_insert. by destruct (String.eqb_spec k' k). Qed.

Lemma bt_insert_elem k v m k' v' :
  (k', v') ∈ bt_insert k v m → (k' = k ∧ v' = v) ∨ (k', v') ∈ m.
Proof.
  induction m as [|[k1 v1] m IH]; simpl; [set_solver|].
  destruct (String.compare k k1); set_solver.
Qed.

Lemma bt_insert_keys k v m k' :
  k' ∈ bt_keys (bt_insert k v m) ↔ k' = k ∨ k' ∈ bt_keys m.
Proof.
  unfold bt_keys. induction m as [|[k1 v1] m IH]; simpl; [set_solver|].
  destruct (str_comparison k k1) as [->|H|H]; simpl; [set_solver..|].
  rewrite !elem_of_cons, IH. naive_solver.
Qed.

Lemma bt_wf_nil : bt_wf ([] : btree V).
Proof. constructor. Qed.

Lemma bt_wf_insert k v m : bt_wf m → bt_wf (bt_insert k v m).
Proof.
  unfold bt_wf. induction m as [|[k1 v1] m IH]; simpl.
  - intros _. repeat constructor.
  - intros Hm. inversion Hm as [|?? Hs Hf]; subst. simpl in *.
    destruct (str_comparison k k1) as [->|H|H]; simpl; [done| |].
    + constructor; [done|]. constructor; [done|].
      eapply Forall_impl; [exact Hf|]. intros x Hx. by trans k1.
    + constructor; [by apply IH|]. rewrite Forall_forall in Hf |- *. intros x Hx.
      change (x ∈ bt_keys (bt_insert k v m)) in Hx.
      apply bt_insert_keys in Hx as [->|Hx]; [done|]. by apply Hf.
Qed.

Lemma bt_get_elem k v m : bt_get k m = Some v → (k, v) ∈ m.
Proof.
  induction m as [|[k1 v1] m IH]; simpl; [done|].
  destruct (String.eqb_spec k k1) as [->|]; set_solver.
Qed.

Lemma bt_wf_nodup m : bt_wf m → NoDup (bt_keys m).
Proof.
  unfold bt_wf. induction 1 as [|x l _ IH Hf]; constructor; [|done].
  intros Hx. rewrite Forall_forall in Hf. by apply (irreflexivity str_lt x), Hf.
Qed.

Lemma bt_elem_get k v m : bt_wf m → (k, v) ∈ m → bt_get k m = Some v.
Proof.
  intros Hm%bt_wf_nodup. unfold bt_keys in Hm.
  induction m as [|[k1 v1] m IH]; simpl in *; [by intros ?%not_elem_of_nil|].
  inversion Hm as [|?? Hn Hd]; subst. intros [[= -> ->]|H]%elem_of_cons.
  - by rewrite String.eqb_refl.
  - destruct (String.eqb_spec k k1) as [->|]; [|by apply IH].
    destruct Hn. apply list_elem_of_fmap. by exists (k1, v).
Qed.

Lemma bt_get_is_some k m : is_Some (bt_get k m) ↔ k ∈ bt_keys m.
Proof.
  unfold bt_keys. induction m as [|[k1 v1] m IH]; simpl.
  - rewrite list.elem_of_nil. by split; [intros []|].
  - rewrite elem_of_cons, <-IH. destruct (String.eqb_spec k k1); naive_solver.
Qed.

Lemma bt_contains_spec k m : bt_contains k m = true ↔ k ∈ bt_keys m.
Proof.
  rewrite <-bt_get_is_some. unfold bt_contains.
  destruct (bt_get k m); split; naive_solver.
Qed.

Lemma bt_wf_collect (l : list (string * V)) : bt_wf (bt_collect l).
Proof.
  unfold bt_collect. assert (H : bt_wf ([] : btree V)) by constructor.
  revert H. generalize ([] : btree V) as m.
  induction l as [|[k v] l IH]; intros m H; simpl; [done|]. by apply IH, bt_wf_insert.
Qed.

Lemma bt_get_collect_from l m k :
  NoDup l.*1 →
  bt_get k (foldl (λ m '(k, v), bt_insert k v m) m l) =
  match bt_get k l with Some v => Some v | None => bt_get k m end.
Proof.
  revert m. induction l as [|[k1 v1] l IH]; intros m Hnd; simpl in *; [done|].
  apply NoDup_cons in Hnd as [Hk Hnd]. rewrite IH, bt_get_insert by done.
  destruct (String.eqb_spec k k1) as [->|]; [|done].
  destruct (bt_get k1 l) as [v|] eqn:E; [|done].
  destruct Hk. apply bt_get_elem in E. apply list_elem_of_fmap. by exists (k1, v).
Qed.

(** In a list without repeated keys, in whatever order. *)
Lemma bt_get_nodup (l : list (string * V)) k v : NoDup l.*1 → bt_get k l = Some v ↔ (k, v) ∈ l.
Proof.
  intros Hnd. split; [apply bt_get_elem|]. revert Hnd.
  induction l as [|[k1 v1] l IH]; simpl; [by intros _ ?%not_elem_of_nil|].
  intros [Hk Hnd]%NoDup_cons [[= -> ->]|Hin]%elem_of_cons; [by rewrite String.eqb_refl|].
  destruct (String.eqb_spec k k1) as [->|]; [|by apply IH].
  destruct Hk. apply list_elem_of_fmap. by exists (k1, v).
Qed.

Lemma bt_get_collect (l : list (string * V)) k v :
  NoDup l.*1 → bt_get k (bt_collect l) = Some v ↔ (k, v) ∈ l.
Proof.
  intros Hnd. unfold bt_collect. rewrite bt_get_collect_from, <-(bt_get_nodup l) by done.
  by destruct (bt_get k l).
Qed.

Lemma bt_collect_keys (l : list (string * V)) k : k ∈ bt_keys (bt_collect l) ↔ k ∈ l.*1.
Proof.
  unfold bt_collect. assert (∀ m, k ∈ bt_keys (foldl (λ m '(k, v), bt_insert k v m) m l) ↔
    k ∈ bt_keys m ∨ k ∈ l.*1) as Hgen.
  { induction l as [|[k1 v1] l IH]; intros m; simpl; [set_solver|].
    rewrite IH, bt_insert_keys, elem_of_cons. naive_solver. }
  rewrite Hgen. unfold bt_keys at 1. simpl. set_solver.
Qed.

(** Two maps with the same bindings are the same. *)
Lemma bt_ext m1 m2 : bt_wf m1 → bt_wf m2 → (∀ k, bt_get k m1 = bt_get k m2) → m1 = m2.
Proof.
  assert (∀ k k' v m, bt_wf ((k', v) :: m) → str_lt k k' → bt_get k ((k', v) :: m) = None) as Hnone.
  { intros k k' v m Hw Hlt. apply eq_None_not_Some. rewrite bt_get_is_some. unfold bt_wf, bt_keys in *.
    simpl in *. apply StronglySorted_inv in Hw as [_ Hw]. rewrite Forall_forall in Hw.
    intros [E|Hin]%elem_of_cons; [by apply (str_lt_ne k k')|].
    apply (str_lt_ne k k); [|done]. trans k'; [done|]. by apply Hw. }
  revert m2. induction m1 as [|[k1 v1] m1 IH]; intros [|[k2 v2] m2] H1 H2 Hg; [done|..].
  - specialize (Hg k2). simpl in Hg. by rewrite String.eqb_refl in Hg.
  - specialize (Hg k1). simpl in Hg. by rewrite String.eqb_refl in Hg.
  - assert (k1 = k2) as <-.
    { destruct (str_comparison k1 k2) as [|Hlt|Hlt]; [done| |]; exfalso.
      - specialize (Hg k1). rewrite (Hnone k1 k2 v2 m2 H2 Hlt) in Hg. simpl in Hg. by rewrite String.eqb_refl in Hg.
      - specialize (Hg k2). rewrite (Hnone k2 k1 v1 m1 H1 Hlt) in Hg. simpl in Hg. by rewrite String.eqb_refl in Hg. }
    assert (v1 = v2) as <-.
    { specialize (Hg k1). simpl in Hg. rewrite !String.eqb_refl in Hg. congruence. }
    f_equal. unfold bt_wf, bt_keys in *. simpl in *.
    pose proof (StronglySorted_inv H1) as [H1' Hf1]. pose proof (StronglySorted_inv H2) as [H2' Hf2].
    apply IH; [done|done|]. intros k. specialize (Hg k). simpl in Hg.
    destruct (String.eqb_spec k k1) as [E|]; [rewrite E|done].
    assert (∀ m : btree V, Forall (str_lt k1) m.*1 → bt_get k1 m = None) as Hno.
    { intros m Hf. apply eq_None_not_Some. rewrite bt_get_is_some. intros Hin. rewrite Forall_forall in Hf.
      by apply (str_lt_ne k1 k1); [apply Hf|]. }
    by rewrite !Hno.
Qed.
End lemmas.

Create HintDb bt discriminated.
#[export] Hint Resolve bt_wf_nil bt_wf_insert bt_wf_collect bt_wf_nodup bt_get_elem : bt.
Create Rewrite HintDb bt.
#[export] Hint Rewrite @bt_get_insert_eq : bt.
