(* ===== verification/ToMap.v ===== *)
(** * Structs as string maps

    [to_map] of [dropshot/src/to_map.rs]: the serializer that turns a struct of
    strings into a [BTreeMap], used for response headers.  A value is known by
    the calls its [Serialize] makes: [ser] has one constructor for each method
    of serde's [Serializer], with the arguments the two serializers here look
    at (neither visits the elements of sequences, maps and variants). *)
From S2P Require Import Prelude BTree.

Inductive scalar_kind :=
| KBool | KI8 | KI16 | KI32 | KI64 | KU8 | KU16 | KU32 | KU64 | KF32 | KF64 | KChar | KBytes.

Inductive ser :=
| SScalar (k : scalar_kind)
| SStr (v : string)
| SNone
| SSome (value : ser)
| SUnit
| SUnitStruct
| SUnitVariant
| SNewtypeStruct (value : ser)
| SNewtypeVariant (value : ser)
| SSeq
| STuple
| STupleStruct
| STupleVariant
| SMap
| SStruct (fields : list (string * ser))
| SStructVariant.

Definition scalar_name (k : scalar_kind) : string :=
  match k with
  | KBool => "bool" | KI8 => "i8" | KI16 => "i16" | KI32 => "i32" | KI64 => "i64"
  | KU8 => "u8" | KU16 => "u16" | KU32 => "u32" | KU64 => "u64"
  | KF32 => "f32" | KF64 => "f64" | KChar => "char" | KBytes => "bytes"
  end.

(** [ser_err!] and [ser_t_err!]: the method's name without [serialize_]. *)
Definition invalid_type {A} (name : string) : rust string A := Err ("invalid type: " +:+ name).

(** The methods that fail with a text of their own. *)
Definition cannot_serialize {A} (what : string) : rust string A := Err ("cannot serialize a " +:+ what).

(** [ValueSerializer]: the field [key] of the output. *)
Fixpoint serialize_value (key : string) (output : btree string) (value : ser) : rust string (btree string) :=
  match value with
  | SSome value => serialize_value key output value
  | SNone => Ok output
  | SStr v => Ok (bt_insert key v output)
  | SScalar k => invalid_type (scalar_name k)
  | SUnit => invalid_type "unit"
  | SUnitStruct => invalid_type "unit_struct"
  | SUnitVariant => invalid_type "unit_variant"
  | SNewtypeVariant _ => invalid_type "newtype_variant"
  | SNewtypeStruct _ => invalid_type "newtype_struct"
  | SSeq => cannot_serialize "sequence"
  | STuple => cannot_serialize "tuple"
  | STupleStruct => cannot_serialize "tuple struct"
  | STupleVariant => cannot_serialize "tuple variant"
  | SMap => cannot_serialize "map"
  | SStruct _ => cannot_serialize "struct"
  | SStructVariant => cannot_serialize "struct variant"
  end.

(** [MapSerializeStruct]: one [serialize_field] for each field, then [end]. *)
Fixpoint serialize_fields (output : btree string) (fields : list (string * ser)) : rust string (btree string) :=
  match fields with
  | [] => Ok output
  | (key, value) :: fields => output ← serialize_value key output value; serialize_fields output fields
  end.

(** [MapSerializer]. *)
Definition to_map (input : ser) : rust string (btree string) :=
  match input with
  | SStruct fields => serialize_fields [] fields
  | SScalar k => invalid_type (scalar_name k)
  | SStr _ => invalid_type "str"
  | SNone => invalid_type "none"
  | SSome _ => invalid_type "some"
  | SUnit => invalid_type "unit"
  | SUnitStruct => invalid_type "unit_struct"
  | SUnitVariant => invalid_type "unit_variant"
  | SNewtypeVariant _ => invalid_type "newtype_variant"
  | SNewtypeStruct _ => invalid_type "newtype_struct"
  | SSeq => cannot_serialize "sequence"
  | STuple => cannot_serialize "tuple"
  | STupleStruct => cannot_serialize "tuple struct"
  | STupleVariant => cannot_serialize "tuple variant"
  | SMap => cannot_serialize "map"
  | SStructVariant => cannot_serialize "struct variant"
  end.

(** ** Specification *)

(** The string an optional string field has; [None] for a field of another
    type. *)
Fixpoint field_string (value : ser) : option (option string) :=
  match value with
  | SStr v => Some (Some v)
  | SNone => Some None
  | SSome value => field_string value
  | _ => None
  end.

(** The entries that the fields give, in their order. *)
Definition field_entries (fields : list (string * ser)) : list (string * string) :=
  omap (λ p, match field_string p.2 with Some (Some v) => Some (p.1, v) | _ => None end) fields.

Lemma serialize_value_spec key output value :
  match field_string value with
  | Some (Some v) => serialize_value key output value = Ok (bt_insert key v output)
  | Some None => serialize_value key output value = Ok output
  | None => ∃ e, serialize_value key output value = Err e
  end.
Proof. induction value; simpl; try done; by eexists. Qed.

Lemma serialize_fields_ok output fields m :
  serialize_fields output fields = Ok m ↔
  Forall (λ p, is_Some (field_string p.2)) fields ∧
  m = foldl (λ m '(k, v), bt_insert k v m) output (field_entries fields).
Proof.
  revert output. induction fields as [|[key value] fields IH]; intros output; simpl.
  - split; [intros [= <-]; by split|by intros [_ ->]].
  - rewrite Forall_cons. simpl. pose proof (serialize_value_spec key output value) as Hv.
    unfold field_entries in *. simpl. destruct (field_string value) as [[v|]|]; simpl.
    + rewrite Hv. simpl. rewrite IH. simpl. naive_solver.
    + rewrite Hv. simpl. rewrite IH. naive_solver.
    + destruct Hv as [e ->]. simpl. split; [done|]. by intros [[[? ?] _] _].
Qed.

Lemma serialize_fields_no_panic output fields msg : serialize_fields output fields ≠ Panic msg.
Proof.
  revert output. induction fields as [|[key value] fields IH]; intros output; simpl; [done|].
  pose proof (serialize_value_spec key output value) as Hv.
  destruct (field_string value) as [[v|]|]; [rewrite Hv; apply IH|rewrite Hv; apply IH|].
  by destruct Hv as [e ->].
Qed.

(** [to_map] succeeds exactly on structs all of whose fields are strings or
    optional strings, and then holds each string under its field's name, a
    later field replacing an earlier one of the same name, and nothing for the
    absent ones; everything else is an error, never a panic. *)
Lemma to_map_spec input :
  (∀ m, to_map input = Ok m ↔
     ∃ fields, input = SStruct fields ∧ Forall (λ p, is_Some (field_string p.2)) fields ∧
       m = bt_collect (field_entries fields)) ∧
  (∀ msg, to_map input ≠ Panic msg).
Proof.
  split.
  - intros m. destruct input as [k|v| |value| | | |value|value| | | | | |fields|]; simpl;
      try (split; [done|by intros (? & [=] & _)]).
    rewrite serialize_fields_ok. split; [by intros [? ->]; exists fields|]. by intros (? & [= <-] & ?).
  - destruct input; try done. apply serialize_fields_no_panic.
Qed.
