(* ===== verification/FromMap.v ===== *)
(** * Structs from string maps

    [from_map] and [from_map_insensitive] of [dropshot/src/from_map.rs]: the
    deserializer that reads path parameters, the page parameters and request
    headers from a [BTreeMap] of strings.

    The type read is known by what its [Deserialize] does: [de] has one
    constructor for each method of serde's [Deserializer], with the visitor's
    code as functions.  The visitor of a map is the loop that serde documents
    for it, a key and then its value until there are no more keys, and that of
    a sequence likewise; their states and what they do with an entry are
    arbitrary. *)
From S2P Require Import Prelude BTree ToMap.

(** [trait MapValue]; the texts are those of [MapError]. *)
Class MapValue (Z : Type) := {
  as_value : Z → rust string string;
  as_seq : Z → rust string (list string);
}.

#[export] Instance string_MapValue : MapValue string := {
  as_value s := Ok s;
  as_seq _ := Err "a string may not be used in place of a sequence of values";
}.

(** ** Casing *)

Inductive casing := CaseSensitive | CaseInsensitive.

(** [Casing::rename]; the names of fields are ASCII. *)
Definition rename (c : casing) (fields : list string) : btree string :=
  match c with
  | CaseSensitive => []
  | CaseInsensitive => bt_collect ((λ field, (to_ascii_lowercase field, field)) <$> fields)
  end.

(** ** Primitive values *)

Inductive int_type := I8 | I16 | I32 | I64 | U8 | U16 | U32 | U64.

Definition int_bits (t : int_type) : Z :=
  match t with I8 | U8 => 8 | I16 | U16 => 16 | I32 | U32 => 32 | I64 | U64 => 64 end.

Definition int_signed (t : int_type) : bool :=
  match t with I8 | I16 | I32 | I64 => true | _ => false end.

(** [type_name]. *)
Definition int_name (t : int_type) : string :=
  match t with
  | I8 => "i8" | I16 => "i16" | I32 => "i32" | I64 => "i64"
  | U8 => "u8" | U16 => "u16" | U32 => "u32" | U64 => "u64"
  end.

Definition int_min (t : int_type) : Z := if int_signed t then - 2 ^ (int_bits t - 1) else 0.
Definition int_max (t : int_type) : Z := 2 ^ (if int_signed t then int_bits t - 1 else int_bits t) - 1.

(** [str::parse] at the integer types: a sign, minus only at signed types, and
    decimal digits that do not overflow. *)
Definition parse_int (t : int_type) (s : string) : option Z :=
  z ← match s with
      | String "-"%char s' => if int_signed t then n ← parse_N s'; Some (- Z.of_N n)%Z else None
      | String "+"%char s' => Z.of_N <$> parse_N s'
      | _ => Z.of_N <$> parse_N s
      end;
  if ((int_min t <=? z) && (z <=? int_max t))%Z then Some z else None.

Definition parse_bool (s : string) : option bool :=
  if String.eqb s "true" then Some true else if String.eqb s "false" then Some false else None.

(** A [char] is given by its UTF-8 encoding, whose length its first byte tells;
    a string is well-formed UTF-8. *)
Definition utf8_len (a : ascii) : nat :=
  let n := Ascii.nat_of_ascii a in if n <? 128 then 1 else if n <? 224 then 2 else if n <? 240 then 3 else 4.

Definition parse_char (s : string) : option string :=
  match s with
  | "" => None
  | String a _ => if Nat.eqb (String.length s) (utf8_len a) then Some s else None
  end.

Inductive float_type := FloatF32 | FloatF64.
Definition float_name (t : float_type) : string := match t with FloatF32 => "f32" | FloatF64 => "f64" end.

(** The methods that hand over the string as it is. *)
Inductive str_method := MStr | MString | MIdentifier | MIgnoredAny | MAny.

(** ** The deserializer *)

(** [MapDeserializer]: a map to go through, or a single value. *)
Inductive map_deserializer (Z : Type) :=
| DMap (c : casing) (map : btree Z)
| DValue (raw_value : Z).
Arguments DMap {Z} c map.
Arguments DValue {Z} raw_value.

(** [MapDeserializer::value]. *)
Definition dz_value {Z A : Type} (self : map_deserializer Z) (deserialize : Z → rust string A) : rust string A :=
  match self with
  | DValue raw_value => deserialize raw_value
  | DMap _ _ => Err "must be applied to a flattened struct rather than a raw type"
  end.

(** [de_value!]. *)
Definition de_value {Z : Type} `{MapValue Z} {P A : Type} (self : map_deserializer Z) (type_name : string)
    (parse : string → option P) (visit : P → rust string A) : rust string A :=
  dz_value self (λ raw_value,
    s ← as_value raw_value;
    match parse s with
    | Some value => visit value
    | None => Err ("unable to parse '" +:+ s +:+ "' as " +:+ type_name)
    end).

(** [de_unimp!] and the stubs of [VariantAccess]. *)
Definition unimplemented {A} (method : string) : rust string A := Panic ("not implemented: " +:+ method).

(** [MapMapAccess]. *)
Record MapMapAccess (Z : Type) := mk_access {
  ma_iter : list (string * Z);
  ma_value : option Z;
  ma_rename : btree string;
}.
Arguments mk_access {Z} _ _ _.
Arguments ma_iter {Z} _.
Arguments ma_value {Z} _.
Arguments ma_rename {Z} _.

Definition access_new {Z : Type} (c : casing) (map : btree Z) (fields : list string) : MapMapAccess Z :=
  mk_access map None (rename c fields).

Definition renamed (rename : btree string) (key : string) : string := default key (bt_get key rename).

(** A seed is what it does with the deserializer it is given. *)
Definition next_key_seed {Z K : Type} (self : MapMapAccess Z) (seed : map_deserializer string → rust string K) :
    rust string (option K) * MapMapAccess Z :=
  match ma_iter self with
  | (key, value) :: iter =>
      (Some <$> seed (DValue (renamed (ma_rename self) key)), mk_access iter (Some value) (ma_rename self))
  | [] => (Ok None, self)
  end.

Definition next_value_seed {Z V : Type} (self : MapMapAccess Z) (seed : map_deserializer Z → rust string V) :
    rust string V * MapMapAccess Z :=
  match ma_value self with
  | Some value => (seed (DValue value), mk_access (ma_iter self) None (ma_rename self))
  | None => (Panic "internal error: entered unreachable code", self)
  end.

(** [MapSeqAccess]: the strings to come. *)
Definition next_element_seed {V} (iter : list string) (seed : map_deserializer string → rust string V) :
    rust string (option V) * list string :=
  match iter with
  | value :: iter => (Some <$> seed (DValue value), iter)
  | [] => (Ok None, iter)
  end.

(** The visitors' loops, with fuel for the calls of [next_key] and
    [next_element]. *)
Definition out_of_fuel {A} : rust string A := Panic "out of fuel".

Fixpoint drive_map {Z K V S A : Type} (key : map_deserializer string → rust string K)
    (check : S → K → rust string ()) (value : S → K → map_deserializer Z → rust string V)
    (next : S → K → V → rust string S) (finish : S → rust string A) (fuel : nat) (st : S)
    (access : MapMapAccess Z) : rust string A :=
  match fuel with
  | 0 => out_of_fuel
  | Datatypes.S fuel =>
      let '(k, access) := next_key_seed access key in
      k ← k;
      match k with
      | None => finish st
      | Some k =>
          _ ← check st k;
          let '(v, access) := next_value_seed access (value st k) in
          v ← v;
          st ← next st k v;
          drive_map key check value next finish fuel st access
      end
  end.

Fixpoint drive_seq {V S A} (element : S → map_deserializer string → rust string V)
    (next : S → V → rust string S) (finish : S → rust string A) (fuel : nat) (st : S)
    (iter : list string) : rust string A :=
  match fuel with
  | 0 => out_of_fuel
  | Datatypes.S fuel =>
      let '(v, iter) := next_element_seed iter (element st) in
      v ← v;
      match v with
      | None => finish st
      | Some v => st ← next st v; drive_seq element next finish fuel st iter
      end
  end.

Section deserializer.
(** [f32] and [f64], and their [parse]. *)
Context {float : Type} (parse_float : float_type → string → option float).

(** ** What a type asks of the deserializer *)

(** [visit_enum] reads the variant's name with [ident] and then asks for the
    contents of the variant: none ([unit_variant]), or one of the three others. *)
Inductive variant (A : Type) : Type :=
| unit_variant (result : rust string A)
| newtype_variant
| tuple_variant
| struct_variant.

Inductive de (A : Type) : Type :=
| de_bool (visit : bool → rust string A)
| de_int (t : int_type) (visit : Z → rust string A)
| de_float (t : float_type) (visit : float → rust string A)
| de_char (visit : string → rust string A)
| de_str (m : str_method) (visit : string → rust string A)
| de_option (visit_some : de A)
| de_newtype_struct (visit : de A)
| de_struct (fields : list string) (visit : map_visitor A)
| de_map (visit : map_visitor A)
| de_enum (I : Type) (ident : de I) (visit : I → variant A)
| de_seq (visit : seq_visitor A)
| de_unimplemented (method : string)
(** Until there are no keys: read a key, check it, read the value the key asks
    for, go on. *)
with map_visitor (A : Type) : Type :=
| visit_map (K V S : Type) (key : de K) (check : S → K → rust string ()) (value : S → K → de V)
    (next : S → K → V → rust string S) (init : S) (finish : S → rust string A)
with seq_visitor (A : Type) : Type :=
| visit_seq (V S : Type) (element : S → de V) (next : S → V → rust string S)
    (init : S) (finish : S → rust string A).

Fixpoint run {A Z : Type} `{MapValue Z} (d : de A) (self : map_deserializer Z) {struct d} : rust string A :=
  match d with
  | de_bool _ visit => de_value self "bool" parse_bool visit
  | de_int _ t visit => de_value self (int_name t) (parse_int t) visit
  | de_float _ t visit => de_value self (float_name t) (parse_float t) visit
  | de_char _ visit => de_value self "char" parse_char visit
  | de_str _ _ visit => dz_value self (λ raw_value, s ← as_value raw_value; visit s)
  | de_option _ visit_some => run visit_some self
  | de_newtype_struct _ visit => run visit self
  | de_struct _ fields visit =>
      match self with
      | DMap c map => run_map visit map (access_new c map fields)
      | DValue _ => Err "deserialization container must be fully flattened"
      end
  | de_map _ visit =>
      match self with
      | DMap c map => run_map visit map (access_new c map [])
      | DValue _ => Err "deserialization container must be fully flattened"
      end
  | de_enum _ _ ident visit =>
      i ← run ident self;
      match visit i with
      | unit_variant _ result => result
      | newtype_variant _ => unimplemented "newtype_variant_seed"
      | tuple_variant _ => unimplemented "tuple_variant"
      | struct_variant _ => unimplemented "struct_variant"
      end
  | de_seq _ visit => dz_value self (λ raw_value, l ← as_seq raw_value; run_seq visit l)
  | de_unimplemented _ method => unimplemented method
  end
with run_map {A Z : Type} `{MapValue Z} (v : map_visitor A) (map : btree Z) (access : MapMapAccess Z) {struct v} :
    rust string A :=
  match v with
  | visit_map _ _ _ _ key check value next init finish =>
      drive_map (λ d, run key d) check (λ st k d, run (value st k) d) next finish
        (Datatypes.S (length map)) init access
  end
with run_seq {A} (v : seq_visitor A) (l : list string) {struct v} : rust string A :=
  match v with
  | visit_seq _ _ _ element next init finish =>
      drive_seq (λ st d, run (element st) d) next finish (Datatypes.S (length l)) init l
  end.

(** [from_map] and [from_map_insensitive]. *)
Definition from_map {A Z : Type} `{MapValue Z} (d : de A) (map : btree Z) : rust string A :=
  run d (DMap CaseSensitive map).

Definition from_map_insensitive {A Z : Type} `{MapValue Z} (d : de A) (map : btree Z) : rust string A :=
  run d (DMap CaseInsensitive map).
End deserializer.
Arguments de float A : clear implicits.
Arguments map_visitor float A : clear implicits.
Arguments seq_visitor float A : clear implicits.
Arguments de_bool {float A} visit.
Arguments de_int {float A} t visit.
Arguments de_float {float A} t visit.
Arguments de_char {float A} visit.
Arguments de_str {float A} m visit.
Arguments de_option {float A} visit_some.
Arguments de_newtype_struct {float A} visit.
Arguments de_struct {float A} fields visit.
Arguments de_map {float A} visit.
Arguments de_enum {float A I} ident visit.
Arguments de_seq {float A} visit.
Arguments de_unimplemented {float A} method.
Arguments visit_map {float A K V S} key check value next init finish.
Arguments visit_seq {float A V S} element next init finish.
Arguments unit_variant {A} result.
Arguments newtype_variant {A}.
Arguments tuple_variant {A}.
Arguments struct_variant {A}.

(** ** Facts on numbers *)

Lemma show_Z_cases z :
  (0 ≤ z)%Z ∧ show_Z z = show_N (Z.to_N z) ∨ (z < 0)%Z ∧ show_Z z = String "-"%char (show_N (Z.to_N (- z))).
Proof. destruct z; [left..|right]; (split; [lia|done]). Qed.

Lemma parse_int_show t z :
  parse_int t (show_Z z) = if ((int_min t <=? z) && (z <=? int_max t))%Z then Some z else None.
Proof.
  unfold parse_int. destruct (show_Z_cases z) as [[Hz ->]|[Hz ->]].
  - pose proof (parse_N_show (Z.to_N z)) as Hp. destruct (show_N (Z.to_N z)) as [|a s] eqn:E; [done|].
    destruct (parse_N_digit a s _ Hp) as [d Hd].
    assert (match String a s with
      | String "-"%char s' => if int_signed t then n ← parse_N s'; Some (- Z.of_N n)%Z else None
      | String "+"%char s' => Z.of_N <$> parse_N s'
      | _ => Z.of_N <$> parse_N (String a s) end = Some z) as ->; [|done].
    rewrite Hp. simpl. rewrite Z2N.id by done.
    destruct a as [[] [] [] [] [] [] [] []]; done.
  - rewrite parse_N_show. cbn [option_bind mbind]. rewrite Z2N.id by lia. rewrite Z.opp_involutive.
    destruct (int_signed t) eqn:Es; [done|]. simpl.
    unfold int_min. rewrite Es. by replace (0 <=? z)%Z with false by lia.
Qed.

Lemma parse_int_range t s z : parse_int t s = Some z → (int_min t ≤ z ≤ int_max t)%Z.
Proof.
  unfold parse_int. intros (z' & _ & H)%bind_Some.
  destruct ((int_min t <=? z') && (z' <=? int_max t))%Z eqn:E; [|done]. simplify_eq. lia.
Qed.

(** ** The visitors' loops as folds *)

Section folds.
Context {Z K V S A : Type} (key : map_deserializer string → rust string K).
Variables (check : S → K → rust string ()) (value : S → K → map_deserializer Z → rust string V).
Variables (next : S → K → V → rust string S) (finish : S → rust string A).

(** The fold over a map's entries. *)
Fixpoint fold_entries (st : S) (entries : list (string * Z)) : rust string A :=
  match entries with
  | [] => finish st
  | (k, z) :: entries =>
      k ← key (DValue k);
      _ ← check st k;
      v ← value st k (DValue z);
      st ← next st k v;
      fold_entries st entries
  end.

(** The entries with the keys as the visitor sees them. *)
Definition renamed_entries (rn : btree string) (m : btree Z) : list (string * Z) :=
  (λ '(k, z), (renamed rn k, z)) <$> m.

(** The loop needs one turn more than there are entries; it never asks for a
    value without a key. *)
Lemma drive_map_fold fuel st m pending rn :
  length m < fuel →
  drive_map key check value next finish fuel st (mk_access m pending rn) =
  fold_entries st (renamed_entries rn m).
Proof.
  revert st m pending. induction fuel as [|fuel IH]; intros st m pending Hlt; [lia|].
  destruct m as [|[k z] m]; [done|]. cbn [drive_map next_key_seed ma_iter ma_rename renamed_entries fmap list_fmap fold_entries].
  destruct (key _) as [k'| |]; [|done..]. cbn [mbind rust_bind fmap rust_fmap].
  destruct (check st k') as [[]| |]; [|done..]. cbn [mbind rust_bind next_value_seed ma_value ma_iter ma_rename].
  destruct (value st k' _) as [v| |]; [|done..]. cbn [mbind rust_bind].
  destruct (next st k' v) as [st'| |]; [|done..]. apply IH. simpl in Hlt. lia.
Qed.

Lemma fold_entries_no_panic st entries :
  (∀ k z, (k, z) ∈ entries → no_panic (key (DValue k)) ∧ ∀ st k', no_panic (value st k' (DValue z))) →
  (∀ st k, no_panic (check st k)) → (∀ st k v, no_panic (next st k v)) → (∀ st, no_panic (finish st)) →
  no_panic (fold_entries st entries).
Proof.
  intros He Hc Hn Hf. revert st. induction entries as [|[k z] entries IH]; intros st; simpl; [done|].
  destruct (He k z ltac:(left)) as [Hk Hv].
  destruct (key _) as [k'| |]; [|done..]. simpl. specialize (Hc st k').
  destruct (check st k') as [[]| |]; [|done..]. simpl. specialize (Hv st k').
  destruct (value st k' _) as [v| |]; [|done..]. simpl. specialize (Hn st k' v).
  destruct (next st k' v) as [st'| |]; [|done..]. apply IH. intros k1 z1 H1. apply He. by right.
Qed.
End folds.

Section seq_folds.
Context {V S A : Type} (element : S → map_deserializer string → rust string V).
Variables (next : S → V → rust string S) (finish : S → rust string A).

Fixpoint fold_elements (st : S) (l : list string) : rust string A :=
  match l with
  | [] => finish st
  | x :: l => v ← element st (DValue x); st ← next st v; fold_elements st l
  end.

Lemma drive_seq_fold fuel st l :
  length l < fuel → drive_seq element next finish fuel st l = fold_elements st l.
Proof.
  revert st l. induction fuel as [|fuel IH]; intros st l Hlt; [lia|]. destruct l as [|x l]; [done|]. simpl.
  destruct (element st _) as [v| |]; [|done..]. simpl.
  destruct (next st v) as [st'| |]; [|done..]. apply IH. simpl in Hlt. lia.
Qed.
End seq_folds.

(** ** Types that do not panic *)

Section run_facts.
Context {float : Type} (parse_float : float_type → string → option float).

(** The type asks for nothing the deserializer does not implement, and its own
    code does not panic. *)
Fixpoint supported {A} (d : de float A) : Prop :=
  match d with
  | de_bool visit => ∀ x, no_panic (visit x)
  | de_int _ visit => ∀ x, no_panic (visit x)
  | de_float _ visit => ∀ x, no_panic (visit x)
  | de_char visit => ∀ x, no_panic (visit x)
  | de_str _ visit => ∀ x, no_panic (visit x)
  | de_option d | de_newtype_struct d => supported d
  | de_struct _ visit | de_map visit => supported_map visit
  | de_enum ident visit =>
      supported ident ∧ ∀ i, match visit i with unit_variant r => no_panic r | _ => False end
  | de_seq visit => supported_seq visit
  | de_unimplemented _ => False
  end
with supported_map {A} (v : map_visitor float A) : Prop :=
  match v with
  | visit_map key check value next _ finish =>
      supported key ∧ (∀ st k, no_panic (check st k)) ∧ (∀ st k, supported (value st k)) ∧
      (∀ st k v, no_panic (next st k v)) ∧ ∀ st, no_panic (finish st)
  end
with supported_seq {A} (v : seq_visitor float A) : Prop :=
  match v with
  | visit_seq element next _ finish =>
      (∀ st, supported (element st)) ∧ (∀ st v, no_panic (next st v)) ∧ ∀ st, no_panic (finish st)
  end.

(** The strings of a map's values can be had without a panic. *)
Definition values_no_panic (Z : Type) `{MapValue Z} : Prop :=
  ∀ z, no_panic (as_value z) ∧ no_panic (as_seq z).

Lemma string_values_no_panic : values_no_panic string.
Proof. done. Qed.

Lemma de_value_no_panic {Z P A} `{MapValue Z} (self : map_deserializer Z) tn (parse : string → option P)
    (visit : P → rust string A) :
  values_no_panic Z → (∀ x, no_panic (visit x)) → no_panic (de_value self tn parse visit).
Proof.
  intros Hz Hv. unfold de_value, dz_value. destruct self as [|z]; [done|]. destruct (Hz z) as [Ha _].
  destruct (as_value z) as [s| |]; [|done..]. simpl. by destruct (parse s).
Qed.

Lemma run_map_fold {A K V S Z} `{MapValue Z} (key : de float K) (check : S → K → rust string ())
    (value : S → K → de float V) (next : S → K → V → rust string S) (init : S) (finish : S → rust string A)
    c (map : btree Z) fields :
  run_map parse_float (visit_map key check value next init finish) map (access_new c map fields) =
  fold_entries (λ d, run parse_float key d) check (λ st k d, run parse_float (value st k) d) next finish init
    (renamed_entries (rename c fields) map).
Proof. cbn [run_map]. unfold access_new. apply drive_map_fold. lia. Qed.

Lemma run_seq_fold {A V S} (element : S → de float V) (next : S → V → rust string S) (init : S)
    (finish : S → rust string A) l :
  run_seq parse_float (visit_seq element next init finish) l =
  fold_elements (λ st d, run parse_float (element st) d) next finish init l.
Proof. cbn [run_seq]. apply drive_seq_fold. lia. Qed.

Lemma run_map_no_panic {A Z : Type} `{MapValue Z} (v : map_visitor float A) c (map : btree Z) fields :
  (∀ K V S (key : de float K) check (value : S → K → de float V) next init (finish : S → rust string A),
     v = visit_map key check value next init finish →
     (∀ d : map_deserializer string, no_panic (run parse_float key d)) ∧
     (∀ st k (d : map_deserializer Z), no_panic (run parse_float (value st k) d))) →
  supported_map v → no_panic (run_map parse_float v map (access_new c map fields)).
Proof.
  destruct v as [K V S key check value next init finish]. intros Hr (_ & Hc & _ & Hn & Hf).
  destruct (Hr _ _ _ _ _ _ _ _ _ eq_refl) as [Hk Hv]. rewrite run_map_fold.
  by apply fold_entries_no_panic; [intros k z _; split; [|intros st k']|..].
Qed.

Scheme de_ind' := Induction for de Sort Prop
with map_visitor_ind' := Induction for map_visitor Sort Prop
with seq_visitor_ind' := Induction for seq_visitor Sort Prop.

Definition run_safe {A} (d : de float A) : Prop :=
  supported d → ∀ (Z : Type) (HZ : MapValue Z) (self : map_deserializer Z), values_no_panic Z → no_panic (run parse_float d self).

Lemma run_no_panic {A} (d : de float A) : run_safe d.
Proof.
  revert A d. apply (de_ind' float (λ A d, run_safe d)
    (λ A v, match v with visit_map key _ value _ _ _ => run_safe key ∧ ∀ st k, run_safe (value st k) end)
    (λ A v, match v with visit_seq element _ _ _ => ∀ st, run_safe (element st) end)); unfold run_safe.
  all: try (intros; cbn [run supported] in *; by apply de_value_no_panic).
  - intros A m visit Hs Z HZ self Hz. cbn [run supported] in *. unfold dz_value. destruct self as [|z]; [done|].
    destruct (Hz z) as [Ha _]. destruct (as_value z); [apply Hs|done|done].
  - intros A d IH Hs Z HZ self Hz. by apply IH.
  - intros A d IH Hs Z HZ self Hz. by apply IH.
  - intros A fields v IH Hs Z HZ self Hz. cbn [run supported] in *. destruct self as [c m|]; [|done].
    apply run_map_no_panic; [|done]. intros K V S key check value next init finish ->.
    destruct IH as [IHk IHv], Hs as (Hk & _ & Hv & _). split; intros; [by apply IHk|by apply IHv].
  - intros A v IH Hs Z HZ self Hz. cbn [run supported] in *. destruct self as [c m|]; [|done].
    apply run_map_no_panic; [|done]. intros K V S key check value next init finish ->.
    destruct IH as [IHk IHv], Hs as (Hk & _ & Hv & _). split; intros; [by apply IHk|by apply IHv].
  - intros A I ident IH visit [Hi Hs] Z HZ self Hz. cbn [run]. specialize (IH Hi Z HZ self Hz).
    destruct (run parse_float ident self) as [i| |]; [|done..]. simpl. specialize (Hs i). by destruct (visit i).
  - intros A v IH Hs Z HZ self Hz. cbn [run supported] in *. unfold dz_value. destruct self as [|z]; [done|].
    destruct (Hz z) as [_ Ha]. destruct (as_seq z) as [l| |]; [|done..]. simpl.
    destruct v as [V S element next init finish].
    change (no_panic (run_seq parse_float (visit_seq element next init finish) l)). rewrite run_seq_fold. destruct Hs as (He & Hn & Hf).
    clear Ha. generalize init as st. induction l as [|x l IHl]; intros st; simpl; [done|].
    specialize (IH st (He st) string _ (DValue x) string_values_no_panic).
    destruct (run parse_float (element st) _) as [y| |]; [|done..]. simpl. specialize (Hn st y).
    destruct (next st y); [|done..]. apply IHl.
  - intros A method Hs. destruct Hs.
  - done.
  - done.
Qed.
End run_facts.

(** ** Structs

    The visitor of a struct, in the way serde derives it: every field has a
    type of its own, here with the values in one type [V] ([None] is a value
    that is not kept); a field that comes twice is an error, a field that the
    struct does not have is ignored, and a required field must come. *)

Section structs.
Context {float : Type} (parse_float : float_type → string → option float) {V : Type}.
Implicit Types (fields : btree (de float (option V))) (required : list string).

Definition duplicate_field (k : string) : string := "duplicate field `" +:+ k +:+ "`".
Definition missing_field (k : string) : string := "missing field `" +:+ k +:+ "`".

Definition field_de fields (k : string) : de float (option V) :=
  default (de_str MIgnoredAny (λ _, Ok None)) (bt_get k fields).

Definition check_field fields (st : list string * btree V) (k : string) : rust string () :=
  if bt_contains k fields && bool_decide (k ∈ st.1) then Err (duplicate_field k) else Ok ().

Definition keep_field (st : list string * btree V) (k : string) (v : option V) :
    rust string (list string * btree V) :=
  Ok (k :: st.1, match v with Some v => bt_insert k v st.2 | None => st.2 end).

Definition finish_struct required (st : list string * btree V) : rust string (btree V) :=
  _ ← for_each (λ k, if bool_decide (k ∈ st.1) then Ok () else Err (missing_field k)) required;
  Ok st.2.

Definition struct_visitor fields required : map_visitor float (btree V) :=
  visit_map (de_str MIdentifier Ok) (check_field fields) (λ _, field_de fields) keep_field ([], [])
    (finish_struct required).

Definition struct_de fields required : de float (btree V) :=
  de_struct (bt_keys fields) (struct_visitor fields required).

Context {Z : Type} `{MapValue Z}.
Implicit Types (m : btree Z) (entries : list (string * Z)).

(** Reading the field [k] from the value [z]. *)
Definition read_field fields (k : string) (z : Z) : rust string (option V) := run parse_float (field_de fields k) (DValue z).

Definition read_struct fields required (st : list string * btree V) entries : rust string (btree V) :=
  fold_entries (λ d, run parse_float (de_str MIdentifier Ok) d) (check_field fields)
    (λ _ k d, run parse_float (field_de fields k) d) keep_field (finish_struct required) st entries.

Lemma read_struct_cons fields required st k z entries :
  k ∉ st.1 →
  read_struct fields required st ((k, z) :: entries) =
  (v ← read_field fields k z;
   read_struct fields required (k :: st.1, match v with Some v => bt_insert k v st.2 | None => st.2 end) entries).
Proof.
  intros Hk. unfold read_struct at 1. cbn [fold_entries run dz_value as_value string_MapValue mbind rust_bind].
  unfold check_field. rewrite (bool_decide_false _ Hk), andb_false_r. cbn [mbind rust_bind].
  fold (read_field fields k z). by destruct (read_field fields k z) as [[v|]| |].
Qed.

Lemma read_struct_answer fields required st entries :
  NoDup entries.*1 → (∀ k, k ∈ st.1 → k ∉ entries.*1) →
  match read_struct fields required st entries with
  | Ok r =>
      (∀ k z, (k, z) ∈ entries → ∃ o, read_field fields k z = Ok o) ∧
      (∀ k, k ∈ required → k ∈ st.1 ∨ k ∈ entries.*1) ∧ (bt_wf st.2 → bt_wf r) ∧
      (∀ k, bt_get k r = match bt_get k entries with
         | None => bt_get k st.2
         | Some z => match read_field fields k z with Ok (Some v) => Some v | _ => bt_get k st.2 end
         end)
  | Err e =>
      (∃ k z, (k, z) ∈ entries ∧ read_field fields k z = Err e) ∨
      (∃ k, k ∈ required ∧ k ∉ st.1 ∧ k ∉ entries.*1 ∧ e = missing_field k)
  | Panic msg => ∃ k z, (k, z) ∈ entries ∧ read_field fields k z = Panic msg
  end.
Proof.
  revert st. induction entries as [|[k z] entries IH]; intros st Hnd Hst.
  - unfold read_struct. cbn [fold_entries]. unfold finish_struct.
    destruct (for_each _ required) as [[]|e|msg] eqn:E; cbn [mbind rust_bind].
    + apply for_each_ok in E. rewrite Forall_forall in E. split_and!; [set_solver| |done|done].
      intros k Hk. specialize (E k Hk). simpl in E. case_bool_decide; [by left|done].
    + right. induction required as [|k l IHl]; simpl in E; [done|]. case_bool_decide as Hk.
      * destruct (IHl E) as (k' & ? & ?). exists k'. split; [by right|done].
      * simplify_eq/=. exists k. split_and!; [by left|done|set_solver|done].
    + exfalso. induction required as [|k l IHl]; simpl in E; [done|]. by case_bool_decide; [apply IHl|].
  - simpl in Hnd. apply NoDup_cons in Hnd as [Hk Hnd].
    rewrite read_struct_cons by (intros Hin; apply (Hst k Hin); left).
    destruct (read_field fields k z) as [v|e|msg] eqn:Er; cbn [mbind rust_bind].
    2: { left. exists k, z. split; [left|done]. }
    2: { exists k, z. split; [left|done]. }
    specialize (IH (k :: st.1, match v with Some v => bt_insert k v st.2 | None => st.2 end) Hnd). simpl in IH.
    assert (∀ k', k' ∈ k :: st.1 → k' ∉ entries.*1) as Hst'.
    { intros k' [->|Hk']%elem_of_cons; [done|]. intros Hin. apply (Hst k' Hk'). by right. }
    specialize (IH Hst').
    destruct (read_struct _ _ _ entries) as [r|e|msg].
    + destruct IH as (Hr & Hreq & Hwf & Hget). split_and!.
      * intros k' z' [[= -> ->]|Hin]%elem_of_cons; [by exists v|by apply Hr].
      * intros k' Hk'. destruct (Hreq k' Hk') as [Hin|Hin]; [|right; by right].
        apply elem_of_cons in Hin as [->|Hin]; [right; left|by left].
      * intros Hw. apply Hwf. destruct v; [by apply bt_wf_insert|done].
      * intros k'. rewrite Hget. simpl. destruct (String.eqb_spec k' k) as [->|Hne].
        -- assert (bt_get k entries = None) as ->.
           { apply eq_None_not_Some. by rewrite bt_get_is_some. }
           rewrite Er. destruct v as [v|]; [apply bt_get_insert_eq|done].
        -- destruct v as [v|]; [|done]. by rewrite bt_get_insert_ne.
    + destruct IH as [(k' & z' & Hin & He)|(k' & Hreq & Hn & Hn' & ->)].
      * left. exists k', z'. split; [by right|done].
      * right. exists k'. rewrite elem_of_cons in Hn. split_and!; [done|naive_solver| |done]. simpl.
        rewrite elem_of_cons. naive_solver.
    + destruct IH as (k' & z' & Hin & He). exists k', z'. split; [by right|done].
Qed.

(** A struct from the entries, whatever the casing did to their keys. *)
Lemma struct_from_entries fields required c m :
  run parse_float (struct_de fields required) (DMap c m) =
  read_struct fields required ([], []) (renamed_entries (rename c (bt_keys fields)) m).
Proof. apply (run_map_fold parse_float). Qed.

Lemma renamed_entries_nil m : renamed_entries [] m = m.
Proof. unfold renamed_entries. rewrite <-(list_fmap_id m) at 2. apply list_fmap_ext. by intros ? []. Qed.

(** Field names that differ in more than their case. *)
Definition distinct_names fields : Prop := NoDup (to_ascii_lowercase <$> bt_keys fields).

Definition lowercase_keys m : Prop := ∀ k, k ∈ bt_keys m → to_ascii_lowercase k = k.

Lemma rename_get fields low f :
  distinct_names fields →
  bt_get low (rename CaseInsensitive (bt_keys fields)) = Some f ↔ f ∈ bt_keys fields ∧ to_ascii_lowercase f = low.
Proof.
  intros Hd. unfold rename. rewrite bt_get_collect.
  - rewrite list_elem_of_fmap. naive_solver.
  - by rewrite <-list_fmap_compose.
Qed.

(** The key that the visitor sees for a lowercase key: the field's name, or a
    name that no field has. *)
Lemma renamed_spec fields low k :
  distinct_names fields → to_ascii_lowercase low = low →
  renamed (rename CaseInsensitive (bt_keys fields)) low = k →
  k ∈ bt_keys fields ∧ to_ascii_lowercase k = low ∨ k = low ∧ k ∉ bt_keys fields.
Proof.
  intros Hd Hl. unfold renamed. destruct (bt_get low _) as [f|] eqn:E; simpl.
  - intros <-. apply (rename_get fields low f Hd) in E. by left.
  - intros <-. right. split; [done|]. intros Hin.
    assert (bt_get low (rename CaseInsensitive (bt_keys fields)) = Some low) by (by apply rename_get). congruence.
Qed.

Lemma renamed_entries_nodup fields m :
  distinct_names fields → lowercase_keys m → NoDup (bt_keys m) →
  NoDup (renamed_entries (rename CaseInsensitive (bt_keys fields)) m).*1.
Proof.
  intros Hd Hl Hn. set (rn := renamed (rename CaseInsensitive (bt_keys fields))).
  assert ((renamed_entries (rename CaseInsensitive (bt_keys fields)) m).*1 = rn <$> bt_keys m) as ->.
  { unfold renamed_entries, bt_keys. rewrite <-!list_fmap_compose. apply list_fmap_ext. by intros ? []. }
  assert (∀ low, low ∈ bt_keys m → to_ascii_lowercase (rn low) = low) as Hinv.
  { intros low Hin. destruct (renamed_spec fields low (rn low) Hd (Hl low Hin) eq_refl) as [[_ ?]|[-> _]]; [done|].
    by apply Hl. }
  clear Hl. induction (bt_keys m) as [|k l IH]; simpl; [constructor|].
  apply NoDup_cons in Hn as [Hk Hn]. apply NoDup_cons. split.
  - intros (k' & E & Hin)%list_elem_of_fmap. apply Hk.
    rewrite <-(Hinv k) by left. rewrite E, (Hinv k'); [done|by right].
  - apply IH; [done|]. intros low Hin. apply Hinv. by right.
Qed.

Lemma renamed_entries_get fields m k :
  distinct_names fields → lowercase_keys m → k ∈ bt_keys fields →
  bt_get k (renamed_entries (rename CaseInsensitive (bt_keys fields)) m) = bt_get (to_ascii_lowercase k) m.
Proof.
  intros Hd Hl Hk. induction m as [|[low z] m IH]; [done|]. cbn [renamed_entries fmap list_fmap bt_get].
  assert (to_ascii_lowercase low = low) as Hlow by (apply Hl; left).
  fold (renamed_entries (rename CaseInsensitive (bt_keys fields)) m). rewrite IH by (intros k' Hin; apply Hl; by right).
  destruct (String.eqb_spec k (renamed (rename CaseInsensitive (bt_keys fields)) low)) as [E|E].
  - symmetry in E. destruct (renamed_spec _ _ _ Hd Hlow E) as [[_ <-]|[-> Hn]]; [by rewrite String.eqb_refl|done].
  - destruct (String.eqb_spec (to_ascii_lowercase k) low) as [E'|]; [|done]. destruct E. unfold renamed.
    assert (bt_get low (rename CaseInsensitive (bt_keys fields)) = Some k) as -> by (by apply rename_get). done.
Qed.

Lemma case_sensitive_entries fields m : renamed_entries (rename CaseSensitive (bt_keys fields)) m = m.
Proof. apply renamed_entries_nil. Qed.

Lemma from_map_answer fields required m :
  bt_wf m →
  match from_map parse_float (struct_de fields required) m with
  | Ok r =>
      (∀ k z, (k, z) ∈ m → ∃ o, read_field fields k z = Ok o) ∧ (∀ k, k ∈ required → k ∈ bt_keys m) ∧
      bt_wf r ∧
      (∀ k, bt_get k r = (z ← bt_get k m; match read_field fields k z with Ok o => o | _ => None end))
  | Err e =>
      (∃ k z, (k, z) ∈ m ∧ read_field fields k z = Err e) ∨
      (∃ k, k ∈ required ∧ k ∉ bt_keys m ∧ e = missing_field k)
  | Panic msg => ∃ k z, (k, z) ∈ m ∧ read_field fields k z = Panic msg
  end.
Proof.
  intros Hw. unfold from_map. rewrite struct_from_entries, case_sensitive_entries.
  pose proof (read_struct_answer fields required ([], []) m (bt_wf_nodup _ Hw)) as Ha. simpl in Ha.
  specialize (Ha ltac:(set_solver)). destruct (read_struct _ _ _ m) as [r|e|msg]; [| |done].
  - destruct Ha as (Hr & Hreq & Hwf & Hget). split_and!; [done| |by apply Hwf, bt_wf_nil|].
    + intros k Hk. destruct (Hreq k Hk) as [?%not_elem_of_nil|]; [done|]. done.
    + intros k. rewrite Hget. destruct (bt_get k m) as [z|]; [|done]. simpl.
      by destruct (read_field fields k z) as [[v|]| |].
  - destruct Ha as [?|(k & Hk & _ & Hn & ->)]; [by left|]. right. by exists k.
Qed.
End structs.

(** ** Properties *)

Section properties.
Context {float : Type} (parse_float : float_type → string → option float).

(** deserializing a map never panics, at any type that asks only for what
    the deserializer implements and whose own code does not panic, whatever the
    map holds and with either casing; in particular a value is never asked for
    without its key. *)
Lemma from_map_no_panic {A Z} `{MapValue Z} (d : de float A) (m : btree Z) :
  supported d → values_no_panic Z →
  no_panic (from_map parse_float d m) ∧ no_panic (from_map_insensitive parse_float d m).
Proof. intros Hs Hz. split; by apply run_no_panic. Qed.

(** a struct is read from a map exactly when every value with the name of a
    field, or of no field, can be read and every required field is there; each
    field then has what its own type reads from its value.  Otherwise the error
    is that of a value, or names a missing field. *)
Lemma from_map_struct_spec {V Z} `{MapValue Z} (fields : btree (de float (option V))) required (m : btree Z) :
  bt_wf m → (∀ k z, (k, z) ∈ m → no_panic (read_field parse_float fields k z)) →
  ((∃ r, from_map parse_float (struct_de fields required) m = Ok r) ↔
     (∀ k z, (k, z) ∈ m → ∃ o, read_field parse_float fields k z = Ok o) ∧
     (∀ k, k ∈ required → k ∈ bt_keys m)) ∧
  (∀ r, from_map parse_float (struct_de fields required) m = Ok r →
     ∀ k, bt_get k r = (z ← bt_get k m; match read_field parse_float fields k z with Ok o => o | _ => None end)) ∧
  (∀ e, from_map parse_float (struct_de fields required) m = Err e →
     (∃ k z, (k, z) ∈ m ∧ read_field parse_float fields k z = Err e) ∨
     (∃ k, k ∈ required ∧ k ∉ bt_keys m ∧ e = missing_field k)).
Proof.
  intros Hw Hp. pose proof (from_map_answer parse_float fields required m Hw) as Ha.
  destruct (from_map _ _ m) as [r|e|msg].
  - destruct Ha as (Hr & Hreq & _ & Hget). split_and!; [|by intros ? [= <-]|done].
    split; [done|]. by exists r.
  - split_and!; [|done|by intros ? [= <-]]. split; [by intros [? ?]|]. intros [Hr Hreq].
    destruct Ha as [(k & z & Hin & He)|(k & Hk & Hn & _)]; [|by destruct (Hn (Hreq k Hk))].
    destruct (Hr k z Hin). congruence.
  - destruct Ha as (k & z & Hin & He). specialize (Hp k z Hin). by rewrite He in Hp.
Qed.

(** With [from_map_insensitive], on a map with lowercase keys such as the
    headers of a request, a field is read from the value under its name in
    lowercase, whatever the case of its name. *)
Lemma from_map_insensitive_spec {V Z} `{MapValue Z} (fields : btree (de float (option V))) required (m : btree Z) r :
  bt_wf m → lowercase_keys m → distinct_names fields →
  from_map_insensitive parse_float (struct_de fields required) m = Ok r →
  (∀ k, k ∈ bt_keys fields → bt_get k r = (z ← bt_get (to_ascii_lowercase k) m;
     match read_field parse_float fields k z with Ok o => o | _ => None end)) ∧
  (∀ k, k ∈ bt_keys fields → k ∈ required → to_ascii_lowercase k ∈ bt_keys m).
Proof.
  intros Hw Hl Hd. unfold from_map_insensitive. rewrite struct_from_entries.
  set (es := renamed_entries _ m).
  assert (NoDup es.*1) as Hnd by (by apply renamed_entries_nodup; [..|apply bt_wf_nodup]).
  pose proof (read_struct_answer parse_float fields required ([], []) es Hnd) as Ha. simpl in Ha.
  specialize (Ha ltac:(set_solver)). destruct (read_struct _ _ _ _ es) as [r'|e|msg]; try done.
  destruct Ha as (_ & Hreq & _ & Hget). intros [= <-]. split.
  - intros k Hk. rewrite Hget. unfold es. rewrite renamed_entries_get by done.
    destruct (bt_get _ m) as [z|]; [|done]. simpl. by destruct (read_field _ fields k z) as [[v|]| |].
  - intros k Hk Hr. apply bt_get_is_some. rewrite <-(renamed_entries_get fields m k Hd Hl Hk).
    apply bt_get_is_some. destruct (Hreq k Hr) as [?%not_elem_of_nil|]; [done|]. done.
Qed.

(** an integer parameter is read from its decimal digits exactly when it is
    in the range of its type, and what is not is an error that names value and
    type; no text gives a number out of range. *)
Lemma int_parameter_spec {A Z} `{MapValue Z} (t : int_type) (visit : BinNums.Z → rust string A) (z : Z) (s : string) n :
  as_value z = Ok s →
  (s = show_Z n → run parse_float (de_int t visit) (DValue z) =
     if ((int_min t <=? n) && (n <=? int_max t))%Z then visit n
     else Err ("unable to parse '" +:+ s +:+ "' as " +:+ int_name t)) ∧
  (∀ k, parse_int t s = Some k → (int_min t ≤ k ≤ int_max t)%Z).
Proof.
  intros Hz. split.
  - intros ->. cbn [run]. unfold de_value, dz_value. rewrite Hz. cbn [mbind rust_bind]. rewrite parse_int_show.
    by destruct (_ && _).
  - apply parse_int_range.
Qed.

(** A field that holds its string. *)
Definition string_field : de float (option string) := de_str MString (λ s, Ok (Some s)).

Lemma field_entries_names fields : (field_entries fields).*1 ⊆ fields.*1.
Proof.
  intros k (p & -> & Hin)%list_elem_of_fmap. unfold field_entries in Hin.
  apply list_elem_of_omap in Hin as ([k' v] & Hin & Hf). apply list_elem_of_fmap. exists (k', v). split; [|done].
  simpl in *. destruct (field_string v) as [[s|]|]; naive_solver.
Qed.

Lemma field_entries_nodup fields : NoDup fields.*1 → NoDup (field_entries fields).*1.
Proof.
  induction fields as [|[k v] fields IH]; [done|]. intros [Hk Hnd]%NoDup_cons. specialize (IH Hnd).
  unfold field_entries in *. simpl. destruct (field_string v) as [[s|]|]; simpl; try done.
  apply NoDup_cons. split; [|done]. intros H. apply Hk. by apply field_entries_names.
Qed.

(** ** A struct of strings there and back

    A struct of strings and optional strings is its fields with their names; its
    type is their names and which of them are required.  The definitions are
    what the derived [Serialize] and [Deserialize] do: an optional field that was
    not in the map is [None]. *)
Inductive StringField :=
| RequiredString (s : string)
| OptionalString (o : option string).

Definition is_required (f : StringField) : bool :=
  match f with RequiredString _ => true | OptionalString _ => false end.

Definition field_text (f : StringField) : option string :=
  match f with RequiredString s => Some s | OptionalString o => o end.

Definition serialize_string_field (f : StringField) : ser :=
  match f with
  | RequiredString s => SStr s
  | OptionalString None => SNone
  | OptionalString (Some s) => SSome (SStr s)
  end.

Definition serialize_string_struct (fields : list (string * StringField)) : ser :=
  SStruct ((λ p, (p.1, serialize_string_field p.2)) <$> fields).

Definition string_field_de (required : bool) : de float (option StringField) :=
  if required then de_str MString (λ s, Ok (Some (RequiredString s)))
  else de_option (de_str MString (λ s, Ok (Some (OptionalString (Some s))))).

Definition string_struct_de (types : list (string * bool)) : de float (btree StringField) :=
  struct_de ((λ p, (p.1, string_field_de p.2)) <$> types) (filter (λ p, p.2 = true) types).*1.

Definition field_read (r : btree StringField) (p : string * bool) : option (string * StringField) :=
  match bt_get p.1 r with
  | Some f => Some (p.1, f)
  | None => if p.2 then None else Some (p.1, OptionalString None)
  end.

(** Reading a struct of the type from a map. *)
Definition read_string_struct (types : list (string * bool)) (m : btree string) :
    rust string (option (list (string * StringField))) :=
  r ← from_map parse_float (string_struct_de types) m;
  Ok (mapM (field_read r) types).

Definition type_of_fields (fields : list (string * StringField)) : list (string * bool) :=
  (λ p, (p.1, is_required p.2)) <$> fields.

Implicit Types (fs : list (string * StringField)).

Lemma written_entries fs k s :
  (k, s) ∈ field_entries ((λ p, (p.1, serialize_string_field p.2)) <$> fs) ↔
  ∃ f, (k, f) ∈ fs ∧ field_text f = Some s.
Proof.
  unfold field_entries. rewrite list_elem_of_omap. setoid_rewrite list_elem_of_fmap. split.
  - intros (? & ([k' f] & -> & Hin) & E). exists f. destruct f as [?|[?|]]; simpl in E; naive_solver.
  - intros (f & Hin & Hf). eexists. split; [by exists (k, f)|]. destruct f as [?|[?|]]; simpl in *; naive_solver.
Qed.

(** What is written are the texts of the fields. *)
Lemma written_struct fs :
  NoDup fs.*1 →
  ∃ m, to_map (serialize_string_struct fs) = Ok m ∧ bt_wf m ∧
    ∀ k s, bt_get k m = Some s ↔ ∃ f, (k, f) ∈ fs ∧ field_text f = Some s.
Proof.
  intros Hnd. eexists. split; [|split; [apply bt_wf_collect|]].
  - apply to_map_spec. eexists. split; [done|]. split; [|done]. apply Forall_fmap, Forall_true.
    intros [k [s|[s|]]]; by eexists.
  - intros k s. rewrite bt_get_collect; [apply written_entries|]. apply field_entries_nodup.
    by rewrite <-list_fmap_compose.
Qed.

(** A field is read from its text. *)
Lemma string_field_read fs k f s :
  NoDup fs.*1 → (k, f) ∈ fs → field_text f = Some s →
  read_field parse_float ((λ p, (p.1, string_field_de p.2)) <$> type_of_fields fs) k s = Ok (Some f).
Proof.
  intros Hnd Hin Hf. unfold read_field, field_de.
  assert (bt_get k ((λ p, (p.1, string_field_de p.2)) <$> type_of_fields fs) = Some (string_field_de (is_required f)))
    as ->.
  { apply bt_get_nodup; [unfold type_of_fields; by rewrite <-!list_fmap_compose|]. unfold type_of_fields. rewrite <-list_fmap_compose.
    apply list_elem_of_fmap. by exists (k, f). }
  destruct f as [?|[?|]]; simpl in *; by simplify_eq.
Qed.

(** C37: a struct of strings and optional strings survives [to_map] and
    [from_map].  [to_map] writes it as a map that holds, under the name of each
    field that has a text, exactly that text, and nothing else; and [from_map],
    asked for a struct of the same type, reads from this map the very same
    struct, each field with its text and the absent ones absent. *)
Theorem to_map_from_map fs :
  NoDup fs.*1 →
  ∃ m, to_map (serialize_string_struct fs) = Ok m ∧
    (∀ k s, bt_get k m = Some s ↔ ∃ f, (k, f) ∈ fs ∧ field_text f = Some s) ∧
    read_string_struct (type_of_fields fs) m = Ok (Some fs).
Proof.
  intros Hnd. destruct (written_struct fs Hnd) as (m & Hm & Hw & Hget). exists m. split; [done|]. split; [done|].
  unfold read_string_struct, string_struct_de. set (readers := (λ p, (p.1, string_field_de p.2)) <$> type_of_fields fs).
  set (req := (filter _ _).*1).
  assert (∀ k z, (k, z) ∈ m → ∃ f, (k, f) ∈ fs ∧ read_field parse_float readers k z = Ok (Some f)) as Hr.
  { intros k z Hkz. apply bt_elem_get, Hget in Hkz as (f & Hf & Ht); [|done]. exists f.
    split; [done|by apply string_field_read]. }
  pose proof (from_map_answer parse_float readers req m Hw) as Ha. destruct (from_map _ _ m) as [r|e|msg]; simpl.
  - f_equal. destruct Ha as (_ & _ & _ & Hgetr). apply mapM_Some_2. unfold type_of_fields.
    rewrite Forall2_fmap_l. apply Forall_Forall2_diag, Forall_forall. intros [k f] Hin. unfold field_read. simpl.
    rewrite Hgetr. destruct (bt_get k m) as [z|] eqn:E; simpl.
    + pose proof E as (f' & Hin' & Ht)%Hget. unfold readers. rewrite (string_field_read fs k f' z Hnd Hin' Ht). simpl.
      apply (bt_get_nodup fs) in Hin; [|done]. apply (bt_get_nodup fs) in Hin'; [|done]. congruence.
    + destruct f as [s|[s|]]; simpl; [| |done]; assert (bt_get k m = Some s) by (apply Hget; by eexists); congruence.
  - exfalso. destruct Ha as [(k & z & Hkz & He)|(k & Hk & Hn & _)].
    + destruct (Hr k z Hkz) as (f & _ & Hf). congruence.
    + apply Hn, bt_get_is_some. unfold req, type_of_fields in Hk.
      apply list_elem_of_fmap in Hk as ([k' b] & -> & [Hb Hin]%list_elem_of_filter).
      apply list_elem_of_fmap in Hin as ([k f] & [= -> ->] & Hin). destruct f as [s|]; [|done].
      exists s. apply Hget. by exists (RequiredString s).
  - exfalso. destruct Ha as (k & z & Hkz & He). destruct (Hr k z Hkz) as (f & _ & Hf). congruence.
Qed.
End properties.
