(* ===== verification/Externals.v ===== *)
(** * Interfaces of the crates dropshot is built on

    Code that is not in the repository is never defined here: each crate is a
    class of operations (a parameter of every definition that uses it) and a
    class of laws, which state the documented behaviour the code relies on.
    The theorems of the other files are proved against the classes; the file
    [Models] has one concrete instance of each, used only to evaluate witnesses
    and to show that the laws can hold together. *)
From S2P Require Import Prelude.

(** ** [semver::Version] *)

Class SemVer (V : Type) := {
  ver_eq_dec :: EqDecision V;
  (** [Ord::cmp] *)
  ver_compare : V → V → comparison;
  (** [Display] *)
  ver_to_string : V → string;
  (** [FromStr]; the error is its [Display] text *)
  ver_parse : string → V + string;
}.

(** [Version] is totally ordered, consistently with its equality. *)
Class SemVerLaws (V : Type) `{SemVer V} : Prop := {
  ver_compare_eq : ∀ a b : V, ver_compare a b = Eq ↔ a = b;
  ver_compare_antisym : ∀ a b : V, ver_compare b a = CompOpp (ver_compare a b);
  ver_compare_trans : ∀ a b c : V,
    ver_compare a b = Lt → ver_compare b c = Lt → ver_compare a c = Lt;
}.

Section semver.
Context {V : Type} `{SemVer V}.

(** The comparison operators of [PartialOrd]. *)
Definition ver_lt (a b : V) : bool := match ver_compare a b with Lt => true | _ => false end.
Definition ver_le (a b : V) : bool := match ver_compare a b with Gt => false | _ => true end.
Definition ver_eqb (a b : V) : bool := bool_decide (a = b).

Context `{!SemVerLaws V}.
Implicit Types a b c : V.

Lemma ver_compare_refl a : ver_compare a a = Eq.
Proof. by apply ver_compare_eq. Qed.

Lemma ver_lt_irrefl a : ver_lt a a = false.
Proof. unfold ver_lt. by rewrite ver_compare_refl. Qed.

Lemma ver_le_refl a : ver_le a a = true.
Proof. unfold ver_le. by rewrite ver_compare_refl. Qed.

Lemma ver_le_lt a b : ver_le a b = negb (ver_lt b a).
Proof. unfold ver_le, ver_lt. rewrite (ver_compare_antisym b a). by destruct (ver_compare b a). Qed.

Lemma ver_lt_le a b : ver_lt a b = negb (ver_le b a).
Proof. rewrite ver_le_lt. by rewrite negb_involutive. Qed.

Lemma ver_eqb_eq a b : ver_eqb a b = true ↔ a = b.
Proof. unfold ver_eqb. apply bool_decide_eq_true. Qed.

Lemma ver_lt_trans a b c : ver_lt a b = true → ver_lt b c = true → ver_lt a c = true.
Proof.
  unfold ver_lt. destruct (ver_compare a b) eqn:E1; [done| |done].
  destruct (ver_compare b c) eqn:E2; [done| |done].
  by rewrite (ver_compare_trans a b c).
Qed.

Lemma ver_lt_le_incl a b : ver_lt a b = true → ver_le a b = true.
Proof. unfold ver_lt, ver_le. by destruct (ver_compare a b). Qed.

Lemma ver_le_cases a b : ver_le a b = true ↔ ver_lt a b = true ∨ a = b.
Proof.
  unfold ver_le, ver_lt. pose proof (ver_compare_eq a b) as Heq.
  destruct (ver_compare a b) eqn:E; naive_solver.
Qed.

Lemma ver_le_trans a b c : ver_le a b = true → ver_le b c = true → ver_le a c = true.
Proof.
  intros [Hab| ->]%ver_le_cases; [|done]. intros [Hbc| <-]%ver_le_cases.
  - apply ver_lt_le_incl, (ver_lt_trans a b c Hab Hbc).
  - by apply ver_lt_le_incl.
Qed.

Lemma ver_lt_le_trans a b c : ver_lt a b = true → ver_le b c = true → ver_lt a c = true.
Proof. intros Hab [Hbc| <-]%ver_le_cases; [by apply (ver_lt_trans a b c)|done]. Qed.

Lemma ver_le_lt_trans a b c : ver_le a b = true → ver_lt b c = true → ver_lt a c = true.
Proof. intros [Hab| ->]%ver_le_cases; [by apply ver_lt_trans|done]. Qed.

Lemma ver_le_antisym a b : ver_le a b = true → ver_le b a = true → a = b.
Proof.
  intros [Hab|]%ver_le_cases; [|done]. intros Hba.
  rewrite ver_le_lt, Hab in Hba. done.
Qed.

Lemma ver_total a b : ver_lt a b = true ∨ a = b ∨ ver_lt b a = true.
Proof.
  destruct (ver_lt a b) eqn:E; [by left|]. rewrite ver_lt_le in E.
  apply negb_false_iff, ver_le_cases in E. naive_solver.
Qed.
End semver.

(** [ver_order]: decide a goal about [ver_lt], [ver_le] and [=] on versions by
    saturating the context with the order's consequences. *)
Ltac ver_norm :=
  repeat match goal with
  | H : negb _ = true |- _ => apply negb_true_iff in H
  | H : negb _ = false |- _ => apply negb_false_iff in H
  | H : _ && _ = true |- _ => apply andb_true_iff in H as [? ?]
  | H : _ || _ = false |- _ => apply orb_false_iff in H as [? ?]
  | H : ver_eqb _ _ = true |- _ => apply ver_eqb_eq in H; subst
  | H : ver_le ?a ?b = false |- _ =>
      rewrite ver_le_lt in H; apply negb_false_iff in H
  | H : ver_lt ?a ?b = false |- _ =>
      rewrite ver_lt_le in H; apply negb_false_iff in H
  | H : ver_lt ?a ?a = true |- _ => rewrite ver_lt_irrefl in H; discriminate H
  end.

Ltac ver_sat :=
  repeat match goal with
  | H1 : ver_lt ?a ?b = true, H2 : ver_lt ?b ?c = true |- _ =>
      lazymatch goal with
      | _ : ver_lt a c = true |- _ => fail
      | _ => pose proof (ver_lt_trans _ _ _ H1 H2)
      end
  | H1 : ver_lt ?a ?b = true, H2 : ver_le ?b ?c = true |- _ =>
      lazymatch goal with
      | _ : ver_lt a c = true |- _ => fail
      | _ => pose proof (ver_lt_le_trans _ _ _ H1 H2)
      end
  | H1 : ver_le ?a ?b = true, H2 : ver_lt ?b ?c = true |- _ =>
      lazymatch goal with
      | _ : ver_lt a c = true |- _ => fail
      | _ => pose proof (ver_le_lt_trans _ _ _ H1 H2)
      end
  | H1 : ver_le ?a ?b = true, H2 : ver_le ?b ?a = true |- _ =>
      lazymatch a with b => fail | _ => pose proof (ver_le_antisym _ _ H1 H2); subst end
  end.

Ltac ver_order := ver_norm; ver_sat; ver_norm; try done; try congruence.

(** ** The [http] crate: status codes, header values, header maps *)

Class HttpCrate := {
  (** [StatusCode], its [from_u16], [from_bytes], [as_u16] and
      [canonical_reason]; [status_const n] is the associated constant with
      number [n] ([StatusCode::NOT_FOUND] is [status_const 404]). *)
  StatusCode : Type;
  status_eq_dec :: EqDecision StatusCode;
  status_from_u16 : Z → option StatusCode;
  status_from_bytes : string → option StatusCode;
  status_as_u16 : StatusCode → Z;
  status_const : Z → StatusCode;
  status_is_informational : StatusCode → bool;
  status_is_client_error : StatusCode → bool;
  status_is_server_error : StatusCode → bool;
  status_canonical_reason : StatusCode → option string;
  status_to_string : StatusCode → string;

  (** [HeaderName::try_from]: names are normalised to lower case, and stand for
      themselves as strings. *)
  header_name_try_from : string → option string;

  (** [HeaderValue]: [from_str] / [try_from], [as_bytes], [to_str]. *)
  HeaderValue : Type;
  hv_eq_dec :: EqDecision HeaderValue;
  hv_from_str : string → option HeaderValue;
  hv_as_bytes : HeaderValue → string;
  hv_to_str : HeaderValue → option string;

  (** [HeaderMap], a multi-map.  [try_append] and [try_insert] fail when the
      map is full; [append] and [insert] then panic. *)
  HeaderMap : Type;
  hm_new : HeaderMap;
  hm_get_all : HeaderMap → string → list HeaderValue;
  hm_iter : HeaderMap → list (string * HeaderValue);
  hm_try_append : HeaderMap → string → HeaderValue → option HeaderMap;
  hm_try_insert : HeaderMap → string → HeaderValue → option HeaderMap;
  hm_remove : HeaderMap → string → HeaderMap;
}.

(** The reason phrases of the status codes dropshot names itself. *)
Definition known_reasons : list (Z * string) :=
  [(400, "Bad Request"); (404, "Not Found"); (405, "Method Not Allowed");
   (500, "Internal Server Error"); (503, "Service Unavailable")]%Z.

Class HttpCrateLaws `{HttpCrate} : Prop := {
  (** A status code is a number from 100 to 999. *)
  status_from_u16_spec : ∀ n s,
    status_from_u16 n = Some s ↔ status_as_u16 s = n ∧ (100 ≤ n < 1000)%Z;
  status_range : ∀ s, (100 ≤ status_as_u16 s < 1000)%Z;
  status_const_u16 : ∀ n, (100 ≤ n < 1000)%Z → status_as_u16 (status_const n) = n;
  status_is_informational_spec : ∀ s,
    status_is_informational s = true ↔ (100 ≤ status_as_u16 s < 200)%Z;
  status_is_client_error_spec : ∀ s,
    status_is_client_error s = true ↔ (400 ≤ status_as_u16 s < 500)%Z;
  status_is_server_error_spec : ∀ s,
    status_is_server_error s = true ↔ (500 ≤ status_as_u16 s < 600)%Z;
  status_reasons : ∀ n r, (n, r) ∈ known_reasons →
    status_canonical_reason (status_const n) = Some r;
  (** The text of a value made from a string is that string. *)
  hv_from_str_bytes : ∀ s v, hv_from_str s = Some v → hv_as_bytes v = s;
  hv_to_str_bytes : ∀ v s, hv_to_str v = Some s → hv_as_bytes v = s;
  hv_to_str_ascii : ∀ v,
    (∀ i c, String.get i (hv_as_bytes v) = Some c →
       (32 ≤ Ascii.nat_of_ascii c < 127)%nat ∨ Ascii.nat_of_ascii c = 9) ↔
    is_Some (hv_to_str v);
  (** Header maps, by what [get_all] returns. *)
  hm_get_all_new : ∀ n, hm_get_all hm_new n = [];
  hm_get_all_append : ∀ h n v h' m, hm_try_append h n v = Some h' →
    hm_get_all h' m = if String.eqb n m then hm_get_all h m ++ [v] else hm_get_all h m;
  hm_get_all_insert : ∀ h n v h' m, hm_try_insert h n v = Some h' →
    hm_get_all h' m = if String.eqb n m then [v] else hm_get_all h m;
  hm_get_all_remove : ∀ h n m,
    hm_get_all (hm_remove h n) m = if String.eqb n m then [] else hm_get_all h m;
  hm_iter_get_all : ∀ h n,
    hm_get_all h n = (filter (λ p : string * HeaderValue, p.1 = n) (hm_iter h)).*2;
}.

(** A header map has room for 32768 values under at most 24576 names; fewer
    than 16384 values always fit. *)
Definition header_room : nat := 16384.

Class HeaderMapRoom `{HttpCrate} : Prop := {
  hm_iter_new : hm_iter hm_new = [];
  hm_iter_append : ∀ h n v h', hm_try_append h n v = Some h' →
    length (hm_iter h') = S (length (hm_iter h));
  hm_iter_insert : ∀ h n v h', hm_try_insert h n v = Some h' →
    length (hm_iter h') ≤ S (length (hm_iter h));
  hm_iter_remove : ∀ h n, length (hm_iter (hm_remove h n)) ≤ length (hm_iter h);
  hm_append_room : ∀ h n v, length (hm_iter h) < header_room → is_Some (hm_try_append h n v);
  hm_insert_room : ∀ h n v, length (hm_iter h) < header_room → is_Some (hm_try_insert h n v);
}.

Section http.
Context `{HttpCrate}.

(** [HeaderMap::get] is the first value; [contains_key]. *)
Definition hm_get (h : HeaderMap) (n : string) : option HeaderValue := head (hm_get_all h n).
Definition hm_contains_key (h : HeaderMap) (n : string) : bool :=
  match hm_get_all h n with [] => false | _ => true end.

(** [HeaderMap::append] and [insert]. *)
Definition hm_append {E} (h : HeaderMap) (n : string) (v : HeaderValue) : rust E HeaderMap :=
  expect (hm_try_append h n v) "size overflows MAX_SIZE".
Definition hm_insert {E} (h : HeaderMap) (n : string) (v : HeaderValue) : rust E HeaderMap :=
  expect (hm_try_insert h n v) "size overflows MAX_SIZE".

Context `{!HttpCrateLaws}.

Lemma status_const_inj n m :
  (100 ≤ n < 1000)%Z → (100 ≤ m < 1000)%Z → status_const n = status_const m → n = m.
Proof. intros Hn Hm E. by rewrite <-(status_const_u16 n Hn), E, status_const_u16. Qed.

Lemma status_as_u16_inj s t : status_as_u16 s = status_as_u16 t → s = t.
Proof.
  intros E. pose proof (status_range s) as Hs. pose proof (status_range t) as Ht.
  assert (status_from_u16 (status_as_u16 s) = Some s) as H1 by by apply status_from_u16_spec.
  assert (status_from_u16 (status_as_u16 t) = Some t) as H2 by by apply status_from_u16_spec.
  congruence.
Qed.

Lemma hm_get_append h n v h' m : hm_try_append h n v = Some h' →
  hm_get h' m = if String.eqb n m then Some (default v (hm_get h m)) else hm_get h m.
Proof.
  intros E. unfold hm_get. rewrite (hm_get_all_append h n v h' m E).
  destruct (String.eqb n m); [|done]. by destruct (hm_get_all h m).
Qed.

Lemma hm_get_insert h n v h' m : hm_try_insert h n v = Some h' →
  hm_get h' m = if String.eqb n m then Some v else hm_get h m.
Proof.
  intros E. unfold hm_get. rewrite (hm_get_all_insert h n v h' m E).
  by destruct (String.eqb n m).
Qed.

Lemma hm_contains_key_spec h n : hm_contains_key h n = true ↔ hm_get_all h n ≠ [].
Proof. unfold hm_contains_key. by destruct (hm_get_all h n). Qed.
End http.

(** ** [http::Response] and its builder

    [Response B] is a response with a body of type [B], by its observable
    parts, of its extensions only whether dropshot's [NoCompression] marker is
    among them.  A builder is known by what its [body] method would use: the status
    and headers set so far, or nothing once an invalid header was given. *)
Record Response `{HttpCrate} (B : Type) := mk_response {
  resp_status : StatusCode;
  resp_headers : HeaderMap;
  resp_no_compression : bool;
  resp_body : B;
}.
Arguments mk_response {_ B} _ _ _ _.
Arguments resp_status {_ B} _.
Arguments resp_headers {_ B} _.
Arguments resp_no_compression {_ B} _.
Arguments resp_body {_ B} _.

(** [http::Request], by its observable parts; the URI by its path and query. *)
Record Request `{HttpCrate} (B : Type) := mk_request {
  req_method : string;
  req_path : string;
  req_query : option string;
  req_headers : HeaderMap;
  req_body : B;
}.
Arguments mk_request {_ B} _ _ _ _ _.
Arguments req_method {_ B} _.
Arguments req_path {_ B} _.
Arguments req_query {_ B} _.
Arguments req_headers {_ B} _.
Arguments req_body {_ B} _.

Class HttpBuilder `{HttpCrate} := {
  Builder : Type;
  builder_inner : Builder → option (StatusCode * HeaderMap);
  (** [Response::builder()] *)
  builder_new : Builder;
  (** [*builder.headers_mut().unwrap() = h] *)
  builder_set_headers : Builder → HeaderMap → Builder;
  (** [builder.status(s)] *)
  builder_status : Builder → StatusCode → Builder;
  (** [builder.header(name, value)] *)
  builder_header : Builder → string → string → Builder;
}.

Class HttpBuilderLaws `{HttpBuilder} : Prop := {
  builder_inner_new : builder_inner builder_new = Some (status_const 200, hm_new);
  builder_inner_set_headers : ∀ b h, builder_inner (builder_set_headers b h) =
    p ← builder_inner b; Some (p.1, h);
  builder_inner_status : ∀ b s, builder_inner (builder_status b s) =
    p ← builder_inner b; Some (s, p.2);
  builder_inner_header : ∀ b n v, builder_inner (builder_header b n v) =
    p ← builder_inner b; n ← header_name_try_from n; v ← hv_from_str v;
    h ← hm_try_append p.2 n v; Some (p.1, h);
}.

(** The header names the code uses are valid and in lower case. *)
Class HeaderNameLaws `{HttpCrate} : Prop := {
  header_name_lower : ∀ s n, header_name_try_from s = Some n → n = to_ascii_lowercase s;
  header_name_token : ∀ s,
    forallb (λ a, let n := Ascii.nat_of_ascii a in
               ((65 <=? n) && (n <=? 90) || (97 <=? n) && (n <=? 122) || (n =? 45))%nat)
      (String.list_ascii_of_string s) = true → s ≠ "" →
    (N.of_nat (String.length s) <=? 65535)%N = true → is_Some (header_name_try_from s);
  hv_from_str_visible : ∀ s,
    forallb (λ a, let n := Ascii.nat_of_ascii a in ((32 <=? n) && (n <? 127))%nat)
      (String.list_ascii_of_string s) = true → is_Some (hv_from_str s);
}.

Definition builder_body `{HttpBuilder} {E B} (b : Builder) (body : B) : rust E (Response B) :=
  '(s, h) ← expect (builder_inner b) "called `Result::unwrap()` on an `Err` value";
  Ok (mk_response s h false body).

(** ** [serde_json] numbers and [f64]

    [f64] values are opaque; [f64_as_i64] is the saturating cast [f as i64],
    [num_as_i64] and [num_as_f64] the methods of [serde_json::Number]. *)
Class JsonCrate := {
  F64 : Type;
  Number : Type;
  number_eqb : Number → Number → bool;
  number_eqb_spec : ∀ a b, reflect (a = b) (number_eqb a b);
  num_as_i64 : Number → option Z;
  num_as_f64 : Number → option F64;
  f64_as_i64 : F64 → Z;
}.

(** ** [base64::engine::general_purpose::URL_SAFE]

    The padded URL-safe alphabet: four characters for every three bytes begun. *)
Class Base64Crate := {
  b64_encode : string → string;
  b64_decode : string → string + string;
}.

Class Base64Laws `{Base64Crate} : Prop := {
  b64_decode_encode : ∀ s, b64_decode (b64_encode s) = inl s;
  b64_encode_length : ∀ s, String.length (b64_encode s) = 4 * ((String.length s + 2) / 3);
}.

(** ** Everything an application is built from

    The crates above, the version type, and the types that the program only
    carries around: handlers ([Arc<dyn RouteHandler>]) and the state of
    [schemars]' generator.  [percent_decode] is [percent_decode_str] followed
    by [decode_utf8]; its error is the error's text. *)
Class Crates := {
  cr_http :: HttpCrate;
  cr_json :: JsonCrate;
  Version : Type;
  cr_semver :: SemVer Version;
  Handler : Type;
  SchemaGenerator : Type;
  percent_decode : string → string + string;
}.
