(* ===== verification/Versions.v ===== *)
(** * API version ranges of endpoints

    [ApiEndpointVersions] of [dropshot/src/api_description.rs]: which versions
    of the API an endpoint is part of, when a request's version is in the
    range, and when the router refuses two ranges for the same route. *)
From S2P Require Import Prelude Externals.

Section versions.
Context {V : Type} `{SemVer V}.

Record OrderedVersionPair := mk_pair { earliest : V; until : V }.

Inductive ApiEndpointVersions :=
| All
| From (v : V)
| FromUntil (p : OrderedVersionPair)
| Until (v : V).

#[export] Instance OrderedVersionPair_eq_dec : EqDecision OrderedVersionPair.
Proof. solve_decision. Defined.

#[export] Instance ApiEndpointVersions_eq_dec : EqDecision ApiEndpointVersions.
Proof. solve_decision. Defined.

(** [ApiEndpointVersions::from_until]. *)
Definition from_until (e u : V) : rust string ApiEndpointVersions :=
  if ver_lt u e
  then Err "versions in a from-until version range must be provided in order"
  else Ok (FromUntil (mk_pair e u)).

(** [ApiEndpointVersions::matches]. *)
Definition matches (self : ApiEndpointVersions) (version : option V) : bool :=
  match version with
  | None => true
  | Some version =>
      match self with
      | All => true
      | From earliest => ver_le earliest version
      | FromUntil (mk_pair earliest until) =>
          ver_le earliest version
          && (ver_lt version until
              || (ver_eqb version until && ver_eqb earliest until))
      | Until until => ver_lt version until
      end
  end.

(** [ApiEndpointVersions::overlaps_with]. *)
Definition overlaps_with (self other : ApiEndpointVersions) : bool :=
  match self, other with
  | All, _ => true
  | _, All => true
  | From _, From _ => true
  | Until _, Until _ => true
  | From earliest, (Until _) as u => matches u (Some earliest)
  | (Until _) as u, From earliest => matches u (Some earliest)
  | From earliest, FromUntil (mk_pair _ until) => ver_lt earliest until
  | FromUntil (mk_pair _ until), From earliest => ver_lt earliest until
  | (Until _) as u, FromUntil (mk_pair earliest _) => matches u (Some earliest)
  | FromUntil (mk_pair earliest _), (Until _) as u => matches u (Some earliest)
  | (FromUntil (mk_pair earliest1 _)) as r1, (FromUntil (mk_pair earliest2 _)) as r2 =>
      matches r1 (Some earliest2) || matches r2 (Some earliest1)
  end.

(** [impl slog::Value for ApiEndpointVersions]: the text logged. *)
Definition versions_serialize (self : ApiEndpointVersions) : string :=
  match self with
  | All => "all"
  | From from => "all starting from " +:+ ver_to_string from
  | FromUntil (mk_pair earliest latest) =>
      "from " +:+ ver_to_string earliest +:+ " to " +:+ ver_to_string latest
  | Until until => "all ending with " +:+ ver_to_string until
  end.

(** The invariant the private fields of [OrderedVersionPair] protect. *)
Definition versions_wf (r : ApiEndpointVersions) : Prop :=
  match r with FromUntil p => ver_le (earliest p) (until p) = true | _ => True end.

(** A one-version range [v..v] next to an open range that starts at [v]. *)
Definition one_version_edge (a b : ApiEndpointVersions) : Prop :=
  ∃ v, (a = From v ∧ b = FromUntil (mk_pair v v)) ∨ (a = FromUntil (mk_pair v v) ∧ b = From v).

Context `{!SemVerLaws V}.
Implicit Types (a b : ApiEndpointVersions) (v : V).

Lemma matches_None a : matches a None = true.
Proof. done. Qed.

Lemma matches_fromuntil e u v :
  matches (FromUntil (mk_pair e u)) (Some v) = true ↔
  ver_le e v = true ∧ (ver_lt v u = true ∨ (v = u ∧ e = u)).
Proof.
  simpl. rewrite andb_true_iff, orb_true_iff, andb_true_iff, !ver_eqb_eq. done.
Qed.

Lemma fromuntil_matches_earliest e u :
  ver_le e u = true → matches (FromUntil (mk_pair e u)) (Some e) = true.
Proof.
  intros H'. apply matches_fromuntil. split; [apply ver_le_refl|].
  apply ver_le_cases in H'. naive_solver.
Qed.

Lemma overlaps_with_sym a b : overlaps_with a b = overlaps_with b a.
Proof.
  destruct a as [|?|[]|?], b as [|?|[]|?]; simpl; try done. by rewrite orb_comm.
Qed.

(** Some version is in the range. *)
Definition inhabited a : Prop := ∃ v, matches a (Some v) = true.
End versions.
Arguments ApiEndpointVersions V : clear implicits.
Arguments OrderedVersionPair V : clear implicits.

Section properties.
Context {V : Type} `{SemVer V} `{!SemVerLaws V}.
Implicit Types (a b : ApiEndpointVersions V) (v e u : V).

(** The lower bound of a range, if any, is at most [e]. *)
Definition starts_by a e : Prop :=
  match a with
  | From x | FromUntil (mk_pair x _) => ver_le x e = true
  | _ => True
  end.

Lemma matches_starts_by a v : matches a (Some v) = true → starts_by a v.
Proof. destruct a as [|x|[x y]|x]; simpl; try done. by intros (? & _)%andb_true_iff. Qed.

(** Ranges have no holes below a version they contain. *)
Lemma matches_convex a e v :
  matches a (Some v) = true → starts_by a e → ver_le e v = true →
  matches a (Some e) = true.
Proof.
  destruct a as [|x|[x y]|x]; simpl starts_by; try done.
  - intros (Hv & [Hy|(-> & ->)])%matches_fromuntil Hx He; apply matches_fromuntil.
    + split; [done|]. left. by apply (ver_le_lt_trans e v y).
    + assert (e = y) as -> by (by apply ver_le_antisym). naive_solver.
  - simpl. intros Hv _ He. by apply (ver_le_lt_trans e v x).
Qed.

Lemma overlaps_with_fromuntil_from p e v :
  matches (FromUntil p) (Some v) = true → ver_le e v = true →
  overlaps_with (From e) (FromUntil p) = true ∨ p = mk_pair e e.
Proof.
  destruct p as [x y]. intros (Hx & [Hy|(-> & ->)])%matches_fromuntil He; simpl.
  - left. by apply (ver_le_lt_trans e v y).
  - apply ver_le_cases in He as [He| ->]; naive_solver.
Qed.

Lemma overlaps_with_common a b v :
  matches a (Some v) = true → matches b (Some v) = true →
  overlaps_with a b = true ∨ one_version_edge a b.
Proof.
  intros Ha Hb. pose proof (matches_starts_by a v Ha) as Sa.
  pose proof (matches_starts_by b v Hb) as Sb.
  destruct a as [|ea|pa|ua], b as [|eb|pb|ub]; try (by left); try (by destruct pa; left).
  - destruct (overlaps_with_fromuntil_from pb ea v) as [| ->]; [done..|by left|].
    right. exists ea. by left.
  - left. by apply (matches_convex (Until ub) ea v).
  - destruct (overlaps_with_fromuntil_from pa eb v) as [| ->]; [done..| |].
    + left. by rewrite overlaps_with_sym.
    + right. exists eb. by right.
  - left. destruct pa as [ea ua], pb as [eb ub].
    apply orb_true_iff. simpl in Sa, Sb.
    destruct (ver_le ea eb) eqn:E; [left|right; ver_norm; apply ver_lt_le_incl in E].
    + by apply (matches_convex (FromUntil (mk_pair ea ua)) eb v).
    + by apply (matches_convex (FromUntil (mk_pair eb ub)) ea v).
  - left. destruct pa as [ea ua]. by apply (matches_convex (Until ub) ea v).
  - left. by apply (matches_convex (Until ua) eb v).
  - left. destruct pb as [eb ub]. by apply (matches_convex (Until ua) eb v).
Qed.

Lemma inhabited_starts_by a e : inhabited a → ∃ v, matches a (Some v) = true ∧
  (starts_by a e → ver_le e v = true → matches a (Some e) = true).
Proof. intros [v Hv]. exists v. split; [done|]. intros. by apply (matches_convex a e v). Qed.

Lemma overlaps_with_inhabited a b :
  versions_wf a → versions_wf b → inhabited a → inhabited b → overlaps_with a b = true →
  ∃ v, matches a (Some v) = true ∧ matches b (Some v) = true.
Proof.
  intros Wa Wb [va Ia] [vb Ib] Ho.
  destruct a as [|ea|[ea ua]|ua]; [by exists vb| | |];
    (destruct b as [|eb|[eb ub]|ub]; [by exists va| | |]).
  - destruct (ver_total ea eb) as [E|[->|E]]; [exists eb|exists eb|exists ea];
      simpl; auto using ver_le_refl, ver_lt_le_incl.
  - simpl in Ho. destruct (ver_le ea eb) eqn:E.
    + exists eb. split; [done|]. by apply fromuntil_matches_earliest.
    + exists ea. split; [apply ver_le_refl|]. apply matches_fromuntil. ver_norm.
      auto using ver_lt_le_incl.
  - exists ea. split; [apply ver_le_refl|done].
  - simpl in Ho. destruct (ver_le eb ea) eqn:E.
    + exists ea. split; [|done]. by apply fromuntil_matches_earliest.
    + exists eb. split; [|apply ver_le_refl]. apply matches_fromuntil. ver_norm.
      auto using ver_lt_le_incl.
  - apply orb_true_iff in Ho as [Ho|Ho]; [exists eb|exists ea];
      split; try done; by apply fromuntil_matches_earliest.
  - exists ea. split; [|done]. by apply fromuntil_matches_earliest.
  - exists eb. split; [done|apply ver_le_refl].
  - exists eb. split; [done|]. by apply fromuntil_matches_earliest.
  - destruct (ver_le va vb) eqn:E; [exists va|exists vb]; split; try done; simpl in *.
    + by apply (ver_le_lt_trans va vb ub).
    + ver_norm. by apply (ver_lt_trans vb va ua).
Qed.

(** C30: [overlaps_with] decides whether two inhabited version ranges have a
    version in common, apart from the pair of a one-version range [v..v]
    with the open range that starts at [v]. *)
Theorem overlaps_with_exact a b :
  versions_wf a → versions_wf b → inhabited a → inhabited b → ¬ one_version_edge a b →
  overlaps_with a b = true ↔ ∃ v, matches a (Some v) = true ∧ matches b (Some v) = true.
Proof.
  intros Wa Wb Ia Ib Hedge. split; [by apply overlaps_with_inhabited|].
  intros (v & Ha & Hb). by destruct (overlaps_with_common a b v Ha Hb).
Qed.

(** For every version [v], [from_until v v] is accepted and contains
    [v], as does the open range from [v]; yet [overlaps_with] says, in both
    argument orders, that the two do not overlap. *)
Lemma overlaps_with_misses_one_version v :
  ∃ r, from_until v v = Ok r ∧
    matches r (Some v) = true ∧ matches (From v) (Some v) = true ∧
    overlaps_with (From v) r = false ∧ overlaps_with r (From v) = false.
Proof.
  exists (FromUntil (mk_pair v v)). unfold from_until. rewrite ver_lt_irrefl.
  split; [done|]. split; [apply fromuntil_matches_earliest, ver_le_refl|].
  simpl. rewrite ver_le_refl, ver_lt_irrefl. done.
Qed.

(** [from_until] accepts exactly the ordered pairs, and a range it
    returns is well formed and contains its first version. *)
Lemma from_until_spec e u :
  (ver_lt u e = true ∧ ∃ msg, from_until e u = Err msg) ∨
  (ver_le e u = true ∧ ∃ r, from_until e u = Ok r ∧ versions_wf r ∧
    ∀ v, matches r (Some v) = true ↔
      (ver_le e v = true ∧ ver_lt v u = true) ∨ (v = e ∧ e = u)).
Proof.
  unfold from_until. destruct (ver_lt u e) eqn:E; [left; eauto|right].
  rewrite ver_le_lt, E. split; [done|]. exists (FromUntil (mk_pair e u)).
  split; [done|]. split; [simpl; by rewrite ver_le_lt, E|]. intros v.
  rewrite matches_fromuntil. pose proof (ver_le_refl u). naive_solver.
Qed.
End properties.
