(* ===== verification/StatusCodes.v ===== *)
(** * Error status codes

    [dropshot/src/error_status_code.rs]: the newtypes [ErrorStatusCode] and
    [ClientErrorStatusCode] around [http::StatusCode], limited to 4xx/5xx and
    to 4xx by construction. *)
From S2P Require Import Prelude Externals.
#[local] Open Scope Z_scope.

Section status_codes.
Context `{HttpCrate}.

(** The wrapped code is private in the source: values come only from the
    constants and the conversions below. *)
Record ErrorStatusCode := mk_error_status { error_status : StatusCode }.
Record ClientErrorStatusCode := mk_client_status { client_status : StatusCode }.

#[export] Instance ErrorStatusCode_eq_dec : EqDecision ErrorStatusCode.
Proof. solve_decision. Defined.
#[export] Instance ClientErrorStatusCode_eq_dec : EqDecision ClientErrorStatusCode.
Proof. solve_decision. Defined.

Record NotAnError := not_an_error { nae_status : StatusCode }.
Record NotAClientError := not_a_client_error { nac_status : StatusCode }.

(** [InvalidStatus] stands for the crate's [InvalidStatusCode], which carries
    no data. *)
Inductive InvalidErrorStatusCode :=
| IES_NotAnError (e : NotAnError)
| IES_InvalidStatus.

Inductive InvalidClientErrorStatusCode :=
| ICS_NotAClientError (e : NotAClientError)
| ICS_InvalidStatus.

(** The associated constants, [error_status_code_constants!]. *)
Definition error_constant (n : Z) : ErrorStatusCode := mk_error_status (status_const n).
Definition client_constant (n : Z) : ClientErrorStatusCode := mk_client_status (status_const n).

Definition client_constants : list (string * Z) :=
  [("BAD_REQUEST", 400); ("UNAUTHORIZED", 401); ("PAYMENT_REQUIRED", 402);
   ("FORBIDDEN", 403); ("NOT_FOUND", 404); ("METHOD_NOT_ALLOWED", 405);
   ("NOT_ACCEPTABLE", 406); ("PROXY_AUTHENTICATION_REQUIRED", 407);
   ("REQUEST_TIMEOUT", 408); ("CONFLICT", 409); ("GONE", 410);
   ("LENGTH_REQUIRED", 411); ("PRECONDITION_FAILED", 412);
   ("PAYLOAD_TOO_LARGE", 413); ("URI_TOO_LONG", 414);
   ("UNSUPPORTED_MEDIA_TYPE", 415); ("RANGE_NOT_SATISFIABLE", 416);
   ("EXPECTATION_FAILED", 417); ("IM_A_TEAPOT", 418);
   ("MISDIRECTED_REQUEST", 421); ("UNPROCESSABLE_ENTITY", 422);
   ("LOCKED", 423); ("FAILED_DEPENDENCY", 424); ("UPGRADE_REQUIRED", 426);
   ("PRECONDITION_REQUIRED", 428); ("TOO_MANY_REQUESTS", 429);
   ("REQUEST_HEADER_FIELDS_TOO_LARGE", 431);
   ("UNAVAILABLE_FOR_LEGAL_REASONS", 451)].

Definition error_constants : list (string * Z) :=
  [("BAD_REQUEST", 400); ("UNAUTHORIZED", 401); ("PAYMENT_REQUIRED", 402);
   ("FORBIDDEN", 403); ("NOT_FOUND", 404); ("METHOD_NOT_ALLOWED", 405);
   ("NOT_ACCEPTABLE", 406); ("PROXY_AUTHENTICATION_REQUIRED", 407);
   ("REQUEST_TIMEOUT", 408); ("CONFLICT", 409); ("GONE", 410);
   ("LENGTH_REQUIRED", 411); ("PRECONDITION_FAILED", 412);
   ("PAYLOAD_TOO_LARGE", 413); ("URI_TOO_LONG", 414);
   ("UNSUPPORTED_MEDIA_TYPE", 415); ("RANGE_NOT_SATISFIABLE", 416);
   ("EXPECTATION_FAILED", 417); ("IM_A_TEAPOT", 418);
   ("MISDIRECTED_REQUEST", 421); ("UNPROCESSABLE_ENTITY", 422);
   ("LOCKED", 423); ("FAILED_DEPENDENCY", 424); ("UPGRADE_REQUIRED", 426);
   ("PRECONDITION_REQUIRED", 428); ("TOO_MANY_REQUESTS", 429);
   ("REQUEST_HEADER_FIELDS_TOO_LARGE", 431);
   ("UNAVAILABLE_FOR_LEGAL_REASONS", 451);
   ("INTERNAL_SERVER_ERROR", 500); ("NOT_IMPLEMENTED", 501);
   ("BAD_GATEWAY", 502); ("SERVICE_UNAVAILABLE", 503);
   ("GATEWAY_TIMEOUT", 504); ("HTTP_VERSION_NOT_SUPPORTED", 505);
   ("VARIANT_ALSO_NEGOTIATES", 506); ("INSUFFICIENT_STORAGE", 507);
   ("LOOP_DETECTED", 508); ("NOT_EXTENDED", 510);
   ("NETWORK_AUTHENTICATION_REQUIRED", 511)].

(** *** [impl ErrorStatusCode] *)

Definition error_from_status (status : StatusCode) : rust NotAnError ErrorStatusCode :=
  if status_is_client_error status || status_is_server_error status
  then Ok (mk_error_status status)
  else Err (not_an_error status).

Definition error_from_u16 (src : Z) : rust InvalidErrorStatusCode ErrorStatusCode :=
  status ← ok_or (status_from_u16 src) IES_InvalidStatus;
  map_err IES_NotAnError (error_from_status status).

Definition error_is_client_error (self : ErrorStatusCode) : bool :=
  status_is_client_error (error_status self).
Definition error_is_server_error (self : ErrorStatusCode) : bool :=
  status_is_server_error (error_status self).

Definition as_client_error (self : ErrorStatusCode) : rust NotAClientError ClientErrorStatusCode :=
  if error_is_client_error self
  then Ok (mk_client_status (error_status self))
  else Err (not_a_client_error (error_status self)).

(** *** [impl ClientErrorStatusCode] *)

Definition client_from_status (status : StatusCode) : rust NotAClientError ClientErrorStatusCode :=
  if status_is_client_error status
  then Ok (mk_client_status status)
  else Err (not_a_client_error status).

Definition client_from_u16 (src : Z) : rust InvalidClientErrorStatusCode ClientErrorStatusCode :=
  status ← ok_or (status_from_u16 src) ICS_InvalidStatus;
  map_err ICS_NotAClientError (client_from_status status).

(** *** [impl_status_code_wrapper!], at both types *)

Definition error_from_bytes (src : string) : rust InvalidErrorStatusCode ErrorStatusCode :=
  status ← ok_or (status_from_bytes src) IES_InvalidStatus;
  map_err IES_NotAnError (error_from_status status).
Definition client_from_bytes (src : string) : rust InvalidClientErrorStatusCode ClientErrorStatusCode :=
  status ← ok_or (status_from_bytes src) ICS_InvalidStatus;
  map_err ICS_NotAClientError (client_from_status status).

Definition error_as_u16 (self : ErrorStatusCode) : Z := status_as_u16 (error_status self).
Definition client_as_u16 (self : ClientErrorStatusCode) : Z := status_as_u16 (client_status self).

Definition error_canonical_reason (self : ErrorStatusCode) : option string :=
  status_canonical_reason (error_status self).
Definition client_canonical_reason (self : ClientErrorStatusCode) : option string :=
  status_canonical_reason (client_status self).

(** [PartialEq<u16>]. *)
Definition error_eq_u16 (self : ErrorStatusCode) (other : Z) : bool := error_as_u16 self =? other.

(** The traits that the macro implements for a type [T] with [from_status] and
    [from_u16], and with the errors [$NotAnError] and [$Invalid].  [FromStr] of
    [StatusCode] reads the bytes of the string. *)
Class StatusCodeWrapper (T NotAn Invalid : Type) := {
  wrapped : T → StatusCode;
  from_status : StatusCode → rust NotAn T;
  from_u16 : Z → rust Invalid T;
  invalid_status : Invalid;
  invalid_not_an_error : NotAn → Invalid;
}.

Section wrapper.
Context `{StatusCodeWrapper T NotAn Invalid}.

Definition as_status (self : T) : StatusCode := wrapped self.
Definition eq_status (self : T) (other : StatusCode) : bool := bool_decide (wrapped self = other).
Definition status_eq (self : StatusCode) (other : T) : bool := bool_decide (self = wrapped other).
Definition u16_of (status : T) : Z := status_as_u16 (wrapped status).

Definition try_from_status (value : StatusCode) : rust NotAn T := from_status value.
Definition try_from_u16 (t : Z) : rust Invalid T := from_u16 t.
Definition from_str (s : string) : rust Invalid T :=
  status ← ok_or (status_from_bytes s) invalid_status;
  map_err invalid_not_an_error (try_from_status status).
Definition try_from_str (t : string) : rust Invalid T := from_str t.
End wrapper.

#[export] Instance error_wrapper : StatusCodeWrapper ErrorStatusCode NotAnError InvalidErrorStatusCode := {
  wrapped := error_status;
  from_status := error_from_status;
  from_u16 := error_from_u16;
  invalid_status := IES_InvalidStatus;
  invalid_not_an_error := IES_NotAnError;
}.

#[export] Instance client_wrapper : StatusCodeWrapper ClientErrorStatusCode NotAClientError InvalidClientErrorStatusCode := {
  wrapped := client_status;
  from_status := client_from_status;
  from_u16 := client_from_u16;
  invalid_status := ICS_InvalidStatus;
  invalid_not_an_error := ICS_NotAClientError;
}.

(** *** Conversions between the two *)

Definition error_of_client (error : ClientErrorStatusCode) : ErrorStatusCode :=
  mk_error_status (client_status error).
Definition client_try_from_error (error : ErrorStatusCode) : rust NotAClientError ClientErrorStatusCode :=
  as_client_error error.

(** [PartialEq] between the two types. *)
Definition client_eq_error (self : ClientErrorStatusCode) (other : ErrorStatusCode) : bool :=
  bool_decide (client_status self = error_status other).

(** ** The invariants of the two types *)

Definition error_wf (e : ErrorStatusCode) : Prop := 400 ≤ error_as_u16 e < 600.
Definition client_wf (e : ClientErrorStatusCode) : Prop := 400 ≤ client_as_u16 e < 500.

Context `{!HttpCrateLaws}.

Lemma error_from_status_ok s e :
  error_from_status s = Ok e ↔ error_status e = s ∧ error_wf e.
Proof.
  unfold error_from_status, error_wf, error_as_u16.
  destruct (status_is_client_error s) eqn:Ec; simpl.
  - apply status_is_client_error_spec in Ec. destruct e; naive_solver lia.
  - destruct (status_is_server_error s) eqn:Es; simpl.
    + apply status_is_server_error_spec in Es. destruct e; naive_solver lia.
    + split; [done|]. intros [<- Hw].
      apply not_true_iff_false in Ec, Es.
      rewrite status_is_client_error_spec in Ec. rewrite status_is_server_error_spec in Es. lia.
Qed.

Lemma client_from_status_ok s e :
  client_from_status s = Ok e ↔ client_status e = s ∧ client_wf e.
Proof.
  unfold client_from_status, client_wf, client_as_u16.
  destruct (status_is_client_error s) eqn:Ec; simpl.
  - apply status_is_client_error_spec in Ec. destruct e; naive_solver lia.
  - split; [done|]. intros [<- Hw].
    apply not_true_iff_false in Ec. by rewrite status_is_client_error_spec in Ec.
Qed.

Lemma as_client_error_ok e c :
  as_client_error e = Ok c ↔ error_of_client c = e ∧ client_wf c.
Proof.
  unfold as_client_error, error_is_client_error, error_of_client, client_wf, client_as_u16.
  destruct (status_is_client_error (error_status e)) eqn:Ec; simpl.
  - apply status_is_client_error_spec in Ec. destruct e, c; naive_solver lia.
  - split; [done|]. intros [<- Hw]. apply not_true_iff_false in Ec.
    by rewrite status_is_client_error_spec in Ec.
Qed.

Lemma error_constant_u16 n : 100 ≤ n < 1000 → error_as_u16 (error_constant n) = n.
Proof. apply status_const_u16. Qed.

Lemma error_constant_wf n : 400 ≤ n < 600 → error_wf (error_constant n).
Proof. intros Hn. unfold error_wf. rewrite error_constant_u16; lia. Qed.

Lemma client_constant_wf n : 400 ≤ n < 500 → client_wf (client_constant n).
Proof. intros Hn. unfold client_wf, client_as_u16. simpl. rewrite status_const_u16; lia. Qed.

Lemma error_of_client_wf c : client_wf c → error_wf (error_of_client c).
Proof. unfold client_wf, error_wf. destruct c; unfold client_as_u16, error_as_u16; simpl; lia. Qed.

(** [ErrorStatusCode::from_u16] accepts exactly the numbers from 400 to
    599 and keeps the number; numbers outside 100..999 are [InvalidStatus]
    and the other status codes [NotAnError]. *)
Lemma error_from_u16_spec n :
  (400 ≤ n < 600 ∧ ∃ e, error_from_u16 n = Ok e ∧ error_as_u16 e = n) ∨
  ((100 ≤ n < 400 ∨ 600 ≤ n < 1000) ∧
     ∃ s, error_from_u16 n = Err (IES_NotAnError (not_an_error s)) ∧ status_as_u16 s = n) ∨
  (¬ 100 ≤ n < 1000 ∧ error_from_u16 n = Err IES_InvalidStatus).
Proof.
  unfold error_from_u16. destruct (status_from_u16 n) as [s|] eqn:E; simpl.
  - pose proof (proj1 (status_from_u16_spec n s) E) as [Hs Hr].
    destruct (error_from_status s) as [e|e|] eqn:Ef; simpl.
    + left. apply error_from_status_ok in Ef as [<- Hw]. unfold error_wf, error_as_u16 in *. eauto with lia.
    + right. left. assert (e = not_an_error s) as ->.
      { unfold error_from_status in Ef. by destruct (_ || _); simplify_eq. }
      split; [|by eauto]. assert (¬ error_wf (mk_error_status s)) as Hn.
      { intros Hw. assert (error_from_status s = Ok (mk_error_status s)) by by apply error_from_status_ok.
        congruence. }
      unfold error_wf, error_as_u16 in Hn. simpl in Hn. lia.
    + exfalso. unfold error_from_status in Ef. by destruct (_ || _).
  - right. right. split; [|done]. intros Hr.
    assert (status_from_u16 n = Some (status_const n)).
    { apply status_from_u16_spec. split; [by apply status_const_u16|done]. }
    congruence.
Qed.

(** The conversions between the two newtypes are inverse where they are
    defined: refining the widened client code gives it back, and a refined
    code widens to the code it came from. *)
Lemma client_error_roundtrip :
  (∀ c, client_wf c → client_try_from_error (error_of_client c) = Ok c) ∧
  (∀ e c, client_try_from_error e = Ok c → error_of_client c = e ∧ client_wf c ∧
     client_eq_error c e = true ∧ client_as_u16 c = error_as_u16 e).
Proof.
  split.
  - intros c Hc. by apply as_client_error_ok.
  - intros e c [<- Hw]%as_client_error_ok. split; [done|]. split; [done|].
    split; [|done]. by apply bool_decide_eq_true.
Qed.

(** C39: every way to make an [ErrorStatusCode] gives a 4xx or 5xx code: the
    listed constants (each with its own number), the conversions from a
    status, a number, bytes or a string, and the widening of a client code; the
    client constants are exactly the 4xx ones among them, and a code's status
    converts back into the code. *)
Theorem error_status_code_invariant :
  Forall (λ p, error_wf (error_constant p.2) ∧ error_as_u16 (error_constant p.2) = p.2) error_constants ∧
  Forall (λ p, client_wf (client_constant p.2)) client_constants ∧
  client_constants = filter (λ p : string * Z, p.2 < 500) error_constants ∧
  (∀ s e, error_from_status s = Ok e → error_wf e) ∧
  (∀ n e, error_from_u16 n = Ok e → error_wf e) ∧
  (∀ b e, error_from_bytes b = Ok e → error_wf e) ∧
  (∀ c, client_wf c → error_wf (error_of_client c)) ∧
  (∀ s e, from_str s = Ok e → error_wf e) ∧
  (∀ e, error_wf e → try_from_status (as_status e) = Ok e) ∧
  (∀ s c, client_from_status s = Ok c → client_wf c) ∧
  (∀ n c, client_from_u16 n = Ok c → client_wf c) ∧
  (∀ b c, client_from_bytes b = Ok c → client_wf c) ∧
  (∀ s c, from_str s = Ok c → client_wf c) ∧
  (∀ c, client_wf c → try_from_status (as_status c) = Ok c).
Proof.
  repeat match goal with |- _ ∧ _ => split end.
  - unfold error_constants. repeat constructor; simpl;
      (apply error_constant_wf || apply error_constant_u16); lia.
  - unfold client_constants. repeat constructor; simpl; apply client_constant_wf; lia.
  - reflexivity.
  - by intros s e [_ ?]%error_from_status_ok.
  - intros n e ?. unfold error_from_u16 in *. inv_ok. by edestruct error_from_status_ok as [[_ ?] _].
  - intros n e ?. unfold error_from_bytes in *. inv_ok. by edestruct error_from_status_ok as [[_ ?] _].
  - apply error_of_client_wf.
  - intros s e (st & _ & Hs%map_err_ok)%rust_bind_ok. by apply (error_from_status_ok st e) in Hs as [_ ?].
  - intros e He. by apply (error_from_status_ok (error_status e) e).
  - by intros s e [_ ?]%client_from_status_ok.
  - intros n e ?. unfold client_from_u16 in *. inv_ok. by edestruct client_from_status_ok as [[_ ?] _].
  - intros n e ?. unfold client_from_bytes in *. inv_ok. by edestruct client_from_status_ok as [[_ ?] _].
  - intros s c (st & _ & Hs%map_err_ok)%rust_bind_ok. by apply (client_from_status_ok st c) in Hs as [_ ?].
  - intros c Hc. by apply (client_from_status_ok (client_status c) c).
Qed.
End status_codes.
