(* ===== verification/Body.v ===== *)
(** * Bodies

    [Body] of [dropshot/src/body.rs], and [http_dump_body] of
    [dropshot/src/http_util.rs].  A body is the sequence of results that
    polling it gives until it ends: data frames, trailer frames, and errors
    (by their text).  Waiting for the next frame is not represented. *)
From S2P Require Import Prelude.

Inductive Frame :=
| Data (bytes : string)
| Trailers.

(** [body_exact] is [size_hint().exact()]. *)
Record Body := mk_body {
  body_frames : list (Frame + string);
  body_exact : option N;
}.

Definition bytes_len (s : string) : N := N.of_nat (String.length s).

Definition empty_body : Body := mk_body [] (Some 0%N).

(** [http_body_util::Full]: one data frame, none for an empty buffer. *)
Definition with_content (buf : string) : Body :=
  mk_body (if is_empty_str buf then [] else [inl (Data buf)]) (Some (bytes_len buf)).

(** [Body::wrap] boxes the body: the frames and the size hint are the
    underlying ones. *)
Definition wrap_body (under : Body) : Body := mk_body (body_frames under) (body_exact under).

(** [DataStream]: what [poll_next] gives until the end, without the frames that
    are not data. *)
Definition data_stream (frames : list (Frame + string)) : list (string + string) :=
  omap (λ fr, match fr with
              | inl (Data data) => Some (inl data)
              | inl Trailers => None
              | inr e => Some (inr e)
              end) frames.

(** [http_dump_body], from [nbytesread] on. *)
Fixpoint dump_from (nbytesread : N) (frames : list (Frame + string)) : rust string N :=
  match frames with
  | [] => Ok nbytesread
  | inr e :: _ => Err e
  | inl (Data buf) :: frames => dump_from (usize_add nbytesread (bytes_len buf)) frames
  | inl Trailers :: frames => dump_from nbytesread frames
  end.

Definition http_dump_body (frames : list (Frame + string)) : rust string N := dump_from 0 frames.

(** ** What a body holds *)

(** The data, in order, up to the first error. *)
Fixpoint body_data (frames : list (Frame + string)) : list string :=
  match frames with
  | [] => []
  | inl (Data buf) :: frames => buf :: body_data frames
  | inl Trailers :: frames => body_data frames
  | inr _ :: _ => []
  end.

Definition body_error (frames : list (Frame + string)) : option string :=
  head (omap (λ fr, match fr with inr e => Some e | inl _ => None end) frames).

Definition total_len (l : list string) : N := foldr (λ s n, (bytes_len s + n)%N) 0%N l.

Lemma total_len_cons s l : total_len (s :: l) = (bytes_len s + total_len l)%N.
Proof. done. Qed.

(** A body whose exact size hint, if it has one, tells the truth. *)
Definition body_wf (b : Body) : Prop :=
  match body_exact b with
  | Some n => total_len (body_data (body_frames b)) = n ∧ body_error (body_frames b) = None
  | None => True
  end.

Lemma body_wf_empty : body_wf empty_body.
Proof. done. Qed.

Lemma body_wf_content buf : body_wf (with_content buf).
Proof. destruct buf as [|a s]; [done|]. split; [|done]. cbn [with_content body_frames body_data total_len is_empty_str foldr]. lia. Qed.

Lemma usize_add_small a b : (a + b < 2 ^ 64)%N → usize_add a b = (a + b)%N.
Proof. apply N.mod_small. Qed.

Lemma dump_from_answer n frames :
  (∃ m, dump_from n frames = Ok m) ∧ body_error frames = None ∨
  ∃ e, dump_from n frames = Err e ∧ body_error frames = Some e.
Proof.
  revert n. induction frames as [|[[buf|]|e] frames IH]; intros n.
  - left. split; [by eexists|done].
  - exact (IH _).
  - exact (IH _).
  - right. by exists e.
Qed.
