(* ===== verification/HttpError.v ===== *)
(** * Errors that become HTTP responses

    [dropshot/src/error.rs]: [HttpError], the helpers that make one, the
    header operations (which change the error in place even when they fail)
    and the conversion into a response. *)
From S2P Require Import Prelude Externals StatusCodes Body.

(** [http_util.rs] *)
Definition HEADER_REQUEST_ID : string := "x-request-id".
Definition CONTENT_TYPE_OCTET_STREAM : string := "application/octet-stream".
Definition CONTENT_TYPE_JSON : string := "application/json".
Definition CONTENT_TYPE_NDJSON : string := "application/x-ndjson".
Definition CONTENT_TYPE_URL_ENCODED : string := "application/x-www-form-urlencoded".
Definition CONTENT_TYPE_MULTIPART_FORM_DATA : string := "multipart/form-data".

Definition CONTENT_TYPE : string := "content-type".
Definition ALLOW : string := "allow".

(** The three ways [http::Error] arises here. *)
Inductive http_error := InvalidHeaderName | InvalidHeaderValue | MaxSizeReached.

Section http_error.
Context `{HttpCrate}.

Record HttpError := mk_http_error {
  status_code : ErrorStatusCode;
  error_code : option string;
  external_message : string;
  internal_message : string;
  headers : option HeaderMap;
}.

Record HttpErrorResponseBody := mk_error_body {
  body_request_id : string;
  body_error_code : option string;
  body_message : string;
}.

(** ** Constructors *)

Definition for_client_error (code : option string) (status : ClientErrorStatusCode)
    (message : string) : HttpError :=
  mk_http_error (error_of_client status) code message message None.

Definition unwrap_none : string := "called `Option::unwrap()` on a `None` value".

Definition for_internal_error (internal : string) : panics HttpError :=
  let status := error_constant 500 in
  external ← expect (error_canonical_reason status) unwrap_none;
  Ok (mk_http_error status (Some "Internal") external internal None).

Definition for_unavail (code : option string) (internal : string) : panics HttpError :=
  let status := error_constant 503 in
  external ← expect (error_canonical_reason status) unwrap_none;
  Ok (mk_http_error status code external internal None).

Definition for_bad_request (code : option string) (message : string) : HttpError :=
  for_client_error code (client_constant 400) message.

Definition for_client_error_with_status (code : option string)
    (status : ClientErrorStatusCode) : panics HttpError :=
  message ← expect (client_canonical_reason status) unwrap_none;
  Ok (for_client_error code status message).

Definition for_not_found (code : option string) (internal : string) : panics HttpError :=
  let status := error_constant 404 in
  external ← expect (error_canonical_reason status) unwrap_none;
  Ok (mk_http_error status code external internal None).

(** A 400 with a text of its own. *)
Definition is_bad_request (e : HttpError) : Prop := ∃ text, e = for_bad_request None text.

(** [From<HyperError>] and [From<http::Error>], by the error's text. *)
Definition from_processing_error (text : string) : HttpError :=
  for_bad_request None ("error processing request: " +:+ text).

(** ** Headers *)

(** [headers_mut] creates the map when there is none; the result is the error
    after that and the map the caller may write to. *)
Definition headers_mut (self : HttpError) : HttpError * HeaderMap :=
  let h := default hm_new (headers self) in
  (mk_http_error (status_code self) (error_code self) (external_message self)
     (internal_message self) (Some h), h).

Definition set_headers (self : HttpError) (h : HeaderMap) : HttpError :=
  mk_http_error (status_code self) (error_code self) (external_message self)
    (internal_message self) (Some h).

Section add_header.
(** The conversions [HeaderName: TryFrom<K>] and [HeaderValue: TryFrom<V>]. *)
Context {K W : Type} (name_try_from : K → option string)
  (value_try_from : W → option HeaderValue).

(** [add_header] borrows the error: the first component is the error after
    the call, also when the call fails. *)
Definition add_header (self : HttpError) (name : K) (value : W) : HttpError * rust http_error () :=
  match name_try_from name with
  | None => (self, Err InvalidHeaderName)
  | Some name =>
      match value_try_from value with
      | None => (self, Err InvalidHeaderValue)
      | Some value =>
          let (self, hm) := headers_mut self in
          match hm_try_append hm name value with
          | None => (self, Err MaxSizeReached)
          | Some h => (set_headers self h, Ok ())
          end
      end
  end.

(** [with_header] consumes the error, which is lost when the call fails. *)
Definition with_header (self : HttpError) (name : K) (value : W) : rust http_error HttpError :=
  name ← ok_or (name_try_from name) InvalidHeaderName;
  value ← ok_or (value_try_from value) InvalidHeaderValue;
  let (self, hm) := headers_mut self in
  h ← ok_or (hm_try_append hm name value) MaxSizeReached;
  Ok (set_headers self h).
End add_header.

(** [Display]. *)
Definition error_display (self : HttpError) : string :=
  "HttpError(" +:+ status_to_string (error_status (status_code self)) +:+ "): " +:+
  external_message self.

(** ** Responses *)
Section into_response.
Context `{!HttpBuilder}.
(** [serde_json::to_string_pretty] at [HttpErrorResponseBody]. *)
Variable to_string_pretty : HttpErrorResponseBody → option string.

(** The [if let Some(headers)] block. *)
Definition with_error_headers (builder : Builder) (h : option HeaderMap) : panics Builder :=
  match h with
  | Some h =>
      p ← expect (builder_inner builder) "a newly created response builder cannot have failed";
      Ok (builder_set_headers builder h)
  | None => Ok builder
  end.

Definition into_response (self : HttpError) (request_id : string) : panics (Response Body) :=
  builder ← with_error_headers builder_new (headers self);
  let builder := builder_status builder (error_status (status_code self)) in
  let builder := builder_header builder CONTENT_TYPE CONTENT_TYPE_JSON in
  let builder := builder_header builder HEADER_REQUEST_ID request_id in
  body ← expect (to_string_pretty
            (mk_error_body request_id (error_code self) (external_message self)))
          "called `Result::unwrap()` on an `Err` value";
  builder_body builder (with_content body).
End into_response.

(** The client never sees the internal message of an error: two errors that
    differ only there. *)
Definition same_outside (a b : HttpError) : Prop :=
  status_code a = status_code b ∧ error_code a = error_code b ∧
  external_message a = external_message b ∧ headers a = headers b.

(** The headers an error will add to its response. *)
Definition error_header_values (self : HttpError) (n : string) : list HeaderValue :=
  match headers self with Some h => hm_get_all h n | None => [] end.

Definition header_count (self : HttpError) : nat := length (hm_iter (default hm_new (headers self))).

Context `{!HttpCrateLaws}.

Lemma for_not_found_ok code msg :
  for_not_found code msg = Ok (mk_http_error (error_constant 404) code "Not Found" msg None).
Proof.
  unfold for_not_found, error_canonical_reason; simpl.
  rewrite (status_reasons 404 "Not Found"); [done|]. by apply list_elem_of_In; simpl; tauto.
Qed.

Lemma for_internal_error_ok msg :
  for_internal_error msg =
  Ok (mk_http_error (error_constant 500) (Some "Internal") "Internal Server Error" msg None).
Proof.
  unfold for_internal_error, error_canonical_reason; simpl.
  rewrite (status_reasons 500 "Internal Server Error"); [done|].
  by apply list_elem_of_In; simpl; tauto.
Qed.

Lemma for_unavail_ok code msg :
  for_unavail code msg =
  Ok (mk_http_error (error_constant 503) code "Service Unavailable" msg None).
Proof.
  unfold for_unavail, error_canonical_reason; simpl.
  rewrite (status_reasons 503 "Service Unavailable"); [done|].
  by apply list_elem_of_In; simpl; tauto.
Qed.

Lemma method_not_allowed_ok code :
  for_client_error_with_status code (client_constant 405) =
  Ok (for_client_error code (client_constant 405) "Method Not Allowed").
Proof.
  unfold for_client_error_with_status, client_canonical_reason; simpl.
  rewrite (status_reasons 405 "Method Not Allowed"); [done|].
  by apply list_elem_of_In; simpl; tauto.
Qed.

Lemma add_header_ok {K W} nt vt (e : HttpError) (k : K) (w : W) e' :
  add_header nt vt e k w = (e', Ok ()) →
  same_outside e (mk_http_error (status_code e') (error_code e') (external_message e')
                    (internal_message e') (headers e)) ∧
  internal_message e' = internal_message e ∧
  ∃ n v, nt k = Some n ∧ vt w = Some v ∧ ∀ m,
    error_header_values e' m =
    if String.eqb n m then error_header_values e m ++ [v] else error_header_values e m.
Proof.
  unfold add_header. destruct (nt k) as [n|]; [|done]. destruct (vt w) as [v|]; [|done].
  simpl. destruct (hm_try_append _ n v) as [h|] eqn:Eh; [|done]. intros [= <-].
  split; [done|]. split; [done|]. exists n, v. split; [done|]. split; [done|]. intros m.
  unfold error_header_values; simpl. rewrite (hm_get_all_append _ _ _ _ m Eh).
  destruct (headers e); simpl; [done|]. by rewrite hm_get_all_new.
Qed.

(** [with_header] is [add_header] on an owned error. *)
Lemma with_header_add_header {K W} nt vt (e : HttpError) (k : K) (w : W) :
  with_header nt vt e k w =
  match add_header nt vt e k w with (e', Ok _) => Ok e' | (_, Err x) => Err x | (_, Panic m) => Panic m end.
Proof.
  unfold with_header, add_header. destruct (nt k); [|done]. destruct (vt w); [|done].
  simpl. by destruct (hm_try_append _ _ _).
Qed.
End http_error.

Section responses.
Context `{HttpCrate} `{!HttpCrateLaws} `{!HeaderNameLaws}.
Context `{!HttpBuilder} `{!HttpBuilderLaws}.
Variable to_string_pretty : HttpErrorResponseBody → option string.
Implicit Types (e : HttpError) (id : string).

Lemma with_error_headers_ok e :
  ∃ b, with_error_headers builder_new (headers e) = Ok b ∧
    builder_inner b = Some (status_const 200, default hm_new (headers e)).
Proof.
  unfold with_error_headers. rewrite builder_inner_new. destruct (headers e); simpl.
  - eexists. split; [done|]. by rewrite builder_inner_set_headers, builder_inner_new.
  - exists builder_new. by rewrite builder_inner_new.
Qed.

Lemma json_header : ∃ v,
  header_name_try_from CONTENT_TYPE = Some CONTENT_TYPE ∧
  hv_from_str CONTENT_TYPE_JSON = Some v ∧ hv_as_bytes v = CONTENT_TYPE_JSON.
Proof.
  destruct (header_name_token CONTENT_TYPE) as [n En]; [done..|].
  destruct (hv_from_str_visible CONTENT_TYPE_JSON) as [v Ev]; [done|].
  exists v. rewrite En. apply header_name_lower in En as ->.
  split; [done|]. split; [done|]. by apply hv_from_str_bytes.
Qed.

Lemma request_id_header : header_name_try_from HEADER_REQUEST_ID = Some HEADER_REQUEST_ID.
Proof.
  destruct (header_name_token HEADER_REQUEST_ID) as [n En]; [done..|].
  rewrite En. by apply header_name_lower in En as ->.
Qed.

(** What [into_response] returns, when it returns. *)
Lemma into_response_ok e id r :
  into_response to_string_pretty e id = Ok r →
  resp_status r = error_status (status_code e) ∧
  (∃ text, to_string_pretty (mk_error_body id (error_code e) (external_message e)) = Some text ∧
     resp_body r = with_content text) ∧
  ∃ j i, hv_as_bytes j = CONTENT_TYPE_JSON ∧ hv_as_bytes i = id ∧
    ∀ n, hm_get_all (resp_headers r) n =
      error_header_values e n ++ (if String.eqb CONTENT_TYPE n then [j] else [])
        ++ (if String.eqb HEADER_REQUEST_ID n then [i] else []).
Proof.
  unfold into_response. destruct (with_error_headers_ok e) as (b & -> & Hb).
  destruct json_header as (j & Hn & Hv & Hj). simpl.
  destruct (to_string_pretty _) as [body|]; [|done]. simpl. unfold builder_body.
  rewrite !builder_inner_header, builder_inner_status, Hb. simpl.
  rewrite Hn, Hv, request_id_header. simpl.
  destruct (hm_try_append _ CONTENT_TYPE j) as [h1|] eqn:E1; [|done]. simpl.
  destruct (hv_from_str id) as [i|] eqn:Ei; [|done]. simpl.
  destruct (hm_try_append h1 HEADER_REQUEST_ID i) as [h2|] eqn:E2; [|done].
  intros [= <-]. split; [done|]. split; [by exists body|]. exists j, i.
  split; [done|]. split; [by apply hv_from_str_bytes|]. intros n. simpl.
  rewrite (hm_get_all_append _ _ _ _ n E2), (hm_get_all_append _ _ _ _ n E1).
  assert (hm_get_all (default hm_new (headers e)) n = error_header_values e n) as ->.
  { unfold error_header_values. destruct (headers e); [done|]. apply hm_get_all_new. }
  destruct (String.eqb CONTENT_TYPE n), (String.eqb HEADER_REQUEST_ID n);
    simpl; by rewrite <-?app_assoc, ?app_nil_r.
Qed.

(** It returns when the id is a header value, the map has room and the body
    serializes. *)
Lemma into_response_total `{!HeaderMapRoom} e id :
  is_Some (hv_from_str id) →
  is_Some (to_string_pretty (mk_error_body id (error_code e) (external_message e))) →
  header_count e + 1 < header_room →
  ∃ r, into_response to_string_pretty e id = Ok r.
Proof.
  intros [i Hi] [text Ht] Hroom. unfold into_response.
  destruct (with_error_headers_ok e) as (b & -> & Hb). destruct json_header as (j & Hn & Hv & _).
  simpl. rewrite Ht. simpl. unfold builder_body, header_count in *.
  rewrite !builder_inner_header, builder_inner_status, Hb. simpl. rewrite Hn, Hv, request_id_header, Hi. simpl.
  destruct (hm_append_room (default hm_new (headers e)) CONTENT_TYPE j) as [h1 E1]; [lia|]. rewrite E1. simpl.
  destruct (hm_append_room h1 HEADER_REQUEST_ID i) as [h2 E2].
  { rewrite (hm_iter_append _ _ _ _ E1). lia. }
  rewrite E2. simpl. by eexists.
Qed.

(** the response made from an error has the error's status code, every
    header the error carries plus a JSON content type and the request id,
    and a body made from the request id, error code and external message
    alone: two errors that differ only in their internal message give the
    same response. *)
Lemma into_response_spec e id :
  (∀ r, into_response to_string_pretty e id = Ok r →
    resp_status r = error_status (status_code e) ∧
    (∃ text, to_string_pretty (mk_error_body id (error_code e) (external_message e)) = Some text ∧
       resp_body r = with_content text) ∧
    (∃ j i, hv_as_bytes j = CONTENT_TYPE_JSON ∧ hv_as_bytes i = id ∧
      ∀ n, hm_get_all (resp_headers r) n =
        error_header_values e n ++ (if String.eqb CONTENT_TYPE n then [j] else [])
          ++ (if String.eqb HEADER_REQUEST_ID n then [i] else []))) ∧
  (∀ e', same_outside e e' →
    into_response to_string_pretty e id = into_response to_string_pretty e' id).
Proof.
  split; [apply into_response_ok|]. intros e' (Es & Ec & Em & Eh).
  unfold into_response. by rewrite Es, Ec, Em, Eh.
Qed.

(** [add_header] appends its value to the error's headers and changes
    nothing else when name, value and map allow it, and leaves the values of
    every header as they were when it fails; [with_header] is the same
    operation on an owned error. *)
Lemma add_header_spec {K W} nt vt e (k : K) (w : W) :
  let (e', r) := add_header nt vt e k w in
  same_outside e (mk_http_error (status_code e') (error_code e') (external_message e')
                    (internal_message e') (headers e)) ∧
  internal_message e' = internal_message e ∧
  with_header nt vt e k w = (_ ← r; Ok e') ∧
  match r with
  | Ok _ => ∃ n v, nt k = Some n ∧ vt w = Some v ∧ ∀ m,
      error_header_values e' m =
      if String.eqb n m then error_header_values e m ++ [v] else error_header_values e m
  | Err InvalidHeaderName => nt k = None ∧ e' = e
  | Err InvalidHeaderValue => vt w = None ∧ e' = e
  | Err MaxSizeReached => ∀ m, error_header_values e' m = error_header_values e m
  | Panic _ => False
  end.
Proof.
  destruct (add_header nt vt e k w) as [e' r] eqn:E.
  rewrite with_header_add_header, E. destruct r as [[]|x|m].
  - destruct (add_header_ok nt vt e k w e' E) as (? & ? & ?). naive_solver.
  - unfold add_header in E. destruct (nt k) as [n|] eqn:En; [|by simplify_eq; split_and!].
    destruct (vt w) as [v|] eqn:Ev; [|by simplify_eq; split_and!]. simpl in E.
    destruct (hm_try_append _ _ _); simplify_eq. split_and!; [done..|]. intros m.
    unfold error_header_values; simpl. destruct (headers e); [done|]. apply hm_get_all_new.
  - unfold add_header in E. destruct (nt k); [|done]. destruct (vt w); [|done].
    simpl in E. by destruct (hm_try_append _ _ _).
Qed.
End responses.
