(* ===== verification/Config.v ===== *)
(** * Server configuration

    [dropshot/src/config.rs] and the [ServerConfig] of [dropshot/src/server.rs].
    Serde's derived code is not modelled: [DeserializedConfigDropshot] is what
    it fills in, and [deserialize_invalid] what it calls for the old name of a field.  The TLS configuration is in [Tls]. *)
From S2P Require Import Prelude.

Inductive CompressionConfig := NoCompression | Gzip.

#[export] Instance CompressionConfig_eq_dec : EqDecision CompressionConfig.
Proof. solve_decision. Defined.

Inductive HandlerTaskMode := CancelOnDisconnect | Detached.

#[export] Instance HandlerTaskMode_eq_dec : EqDecision HandlerTaskMode.
Proof. solve_decision. Defined.

(** A type without values. *)
Inductive InvalidConfig :=.

(** What a deserializer calls a visitor with when it was asked for any value:
    [visit_some], or a call that the visitor does not have, with the value it
    finds unexpected. *)
Inductive Visit := VisitSome | VisitOther (unexpected : string).

Definition expecting_absent (msg : string) : string := "the field to be absent (" +:+ msg +:+ ")".

(** [deserialize_invalid] with its visitor: [Error::custom], or the
    [Error::invalid_type] of the calls that [Visitor] provides. *)
Definition deserialize_invalid (msg : string) (visit : Visit) : rust string (option InvalidConfig) :=
  match visit with
  | VisitSome => Err msg
  | VisitOther unexpected => Err ("invalid type: " +:+ unexpected +:+ ", expected " +:+ expecting_absent msg)
  end.

Definition deserialize_invalid_request_body_max_bytes : Visit → rust string (option InvalidConfig) :=
  deserialize_invalid "request_body_max_bytes has been renamed to default_request_body_max_bytes".

(** Every value of the old name is refused, with the new name in the error. *)
Lemma old_name_refused visit :
  ∃ before after, deserialize_invalid_request_body_max_bytes visit =
    Err (before +:+ "request_body_max_bytes has been renamed to default_request_body_max_bytes" +:+ after).
Proof.
  destruct visit as [|u]; [by exists "", ""|].
  exists ("invalid type: " +:+ u +:+ ", expected the field to be absent ("), ")".
  unfold deserialize_invalid_request_body_max_bytes, deserialize_invalid, expecting_absent.
  by rewrite <-!string_app_assoc.
Qed.

(** Sizes are [usize]s; [SocketAddr] and its parser are parameters. *)
Section config.
Context {SocketAddr : Type} (parse_addr : string → option SocketAddr).

Record ConfigDropshot := mk_config {
  bind_address : SocketAddr;
  cd_default_request_body_max_bytes : N;
  cd_default_handler_task_mode : HandlerTaskMode;
  cd_log_headers : list string;
  cd_compression : CompressionConfig;
}.

Definition config_default : panics ConfigDropshot :=
  addr ← expect (parse_addr "127.0.0.1:0") "called `Result::unwrap()` on an `Err` value";
  Ok (mk_config addr 1024 Detached [] NoCompression).

(** [request_body_max_bytes] is the field's old name, kept to refuse it. *)
Record DeserializedConfigDropshot := mk_deserialized_config {
  dc_bind_address : SocketAddr;
  dc_default_request_body_max_bytes : N;
  dc_request_body_max_bytes : option InvalidConfig;
  dc_default_handler_task_mode : HandlerTaskMode;
  dc_log_headers : list string;
  dc_compression : CompressionConfig;
}.

Definition config_of_deserialized (v : DeserializedConfigDropshot) : ConfigDropshot :=
  mk_config (dc_bind_address v) (dc_default_request_body_max_bytes v)
    (dc_default_handler_task_mode v) (dc_log_headers v) (dc_compression v).

Definition deserialized_of_config (v : ConfigDropshot) : DeserializedConfigDropshot :=
  mk_deserialized_config (bind_address v) (cd_default_request_body_max_bytes v) None
    (cd_default_handler_task_mode v) (cd_log_headers v) (cd_compression v).

Definition deserialized_default : panics DeserializedConfigDropshot :=
  deserialized_of_config <$> config_default.
End config.
Arguments ConfigDropshot SocketAddr : clear implicits.
Arguments DeserializedConfigDropshot SocketAddr : clear implicits.

(** Page sizes are [NonZeroU32]s. *)
Record ServerConfig := mk_server_config {
  default_request_body_max_bytes : N;
  page_max_nitems : Z;
  page_default_nitems : Z;
  default_handler_task_mode : HandlerTaskMode;
  log_headers : list string;
  compression : CompressionConfig;
}.

(** The configuration [new_internal] makes. *)
Definition server_config {SocketAddr} (config : ConfigDropshot SocketAddr) : ServerConfig :=
  mk_server_config (cd_default_request_body_max_bytes config) 10000 100
    (cd_default_handler_task_mode config) (cd_log_headers config) (cd_compression config).

(** The two forms of a configuration carry the same data: no value of the old
    name can exist. *)
Lemma config_deserialized {A} (c : ConfigDropshot A) : config_of_deserialized (deserialized_of_config c) = c.
Proof. by destruct c. Qed.

Lemma deserialized_config {A} (d : DeserializedConfigDropshot A) :
  deserialized_of_config (config_of_deserialized d) = d.
Proof. by destruct d as [? ? [[]|] ? ? ?]. Qed.
