(* ===== verification/Tls.v ===== *)
(** * TLS configurations

    The [TryFrom<&ConfigTls>] of [dropshot/src/server.rs]: certificates and a key
    are read from files or bytes and make a [rustls::ServerConfig]; [refresh_tls];
    and the errors of building a server.

    The file system, the PEM parser and [rustls] are a class ([TlsCrate]). *)
From S2P Require Import Prelude.

(** [std::io::ErrorKind], as far as it is looked at, and [std::io::Error]. *)
Inductive ErrorKind := ConnectionRefused | ConnectionAborted | ConnectionReset | OtherKind (description : string).

#[export] Instance ErrorKind_eq_dec : EqDecision ErrorKind.
Proof. solve_decision. Defined.

Record IoError := mk_io_error { io_kind : ErrorKind; io_text : string }.

#[export] Instance IoError_eq_dec : EqDecision IoError.
Proof. solve_decision. Defined.

(** [BuildError]; an address is what the caller's sockets have. *)
Inductive BuildError {SocketAddr : Type} :=
| BindError (address : SocketAddr) (error : IoError)
| NotOnePrivateKey
| PemError (context error : string)
| SystemError (context : string) (error : IoError)
| UnversionedServerHasVersionedRoutes.
Arguments BuildError SocketAddr : clear implicits.

Definition bind_error {SocketAddr} (error : IoError) (address : SocketAddr) : BuildError SocketAddr :=
  BindError address error.

Definition generic_system {SocketAddr} (error : IoError) (context : string) : BuildError SocketAddr :=
  SystemError context error.

(** Its [Display]. *)
Definition build_error_display {SocketAddr} (show : SocketAddr → string) (self : BuildError SocketAddr) : string :=
  match self with
  | BindError address _ => "failed to bind to " +:+ show address
  | NotOnePrivateKey => "expected exactly one TLS private key"
  | PemError context _ => context
  | SystemError context _ => context
  | UnversionedServerHasVersionedRoutes => "unversioned servers cannot have endpoints with specific versions"
  end.

(** A [Result] of a crate. *)
Definition from_sum {A E} (r : A + E) : rust E A := match r with inl a => Ok a | inr e => Err e end.

(** [iter.collect::<Result<Vec<_>, _>>()]. *)
Definition collect {A E} (l : list (A + E)) : rust E (list A) := try_map from_sum l.

Class TlsCrate := {
  (** [rustls::ServerConfig]. *)
  TlsConfig : Type;
  CertificateDer : Type;
  PrivateKeyDer : Type;
  (** [std::io::BufReader]: of bytes, and of a file. *)
  BufReader : Type;
  reader_new : string → BufReader;
  file_open : string → BufReader + IoError;
  (** The sections of a PEM file, in order. *)
  certs_iter : BufReader → list (CertificateDer + string);
  keys_iter : BufReader → list (PrivateKeyDer + string);
  (** [ServerConfig::builder().with_no_client_auth().with_single_cert(..)]. *)
  with_single_cert : list CertificateDer → PrivateKeyDer → TlsConfig + string;
  set_alpn_protocols : list string → TlsConfig → TlsConfig;
}.

Section tls.
Context `{TlsCrate} {SocketAddr : Type}.

Inductive ConfigTls :=
| AsFile (cert_file key_file : string)
| AsBytes (certs key : string)
| DynamicTls (raw : TlsConfig).

Definition open_reader (path : string) : rust (BuildError SocketAddr) BufReader :=
  map_err (λ e, generic_system e ("opening " +:+ path)) (from_sum (file_open path)).

Definition certificates (r : BufReader) : rust (BuildError SocketAddr) (list CertificateDer) :=
  map_err (PemError "loading TLS certificates") (collect (certs_iter r)).

Definition private_keys (r : BufReader) : rust (BuildError SocketAddr) (list PrivateKeyDer) :=
  map_err (PemError "loading TLS private key") (collect (keys_iter r)).

(** The part after both readers are there. *)
Definition config_from_readers (cert_reader key_reader : BufReader) : rust (BuildError SocketAddr) TlsConfig :=
  certs ← certificates cert_reader;
  keys ← private_keys key_reader;
  match keys with
  | [private_key] =>
      match with_single_cert certs private_key with
      | inl cfg => Ok (set_alpn_protocols ["h2"; "http/1.1"] cfg)
      | inr _ => Panic "bad certificate/key"
      end
  | _ => Err NotOnePrivateKey
  end.

(** The readers of the certificates and of the key; a dynamic configuration is
    returned as it is. *)
Definition tls_readers (config : ConfigTls) : rust (BuildError SocketAddr) (TlsConfig + BufReader * BufReader) :=
  match config with
  | DynamicTls raw => Ok (inl raw)
  | AsBytes certs key => Ok (inr (reader_new certs, reader_new key))
  | AsFile cert_file key_file =>
      certfile ← open_reader cert_file;
      keyfile ← open_reader key_file;
      Ok (inr (certfile, keyfile))
  end.

Definition server_config_try_from (config : ConfigTls) : rust (BuildError SocketAddr) TlsConfig :=
  r ← tls_readers config;
  match r with inl raw => Ok raw | inr (cert_reader, key_reader) => config_from_readers cert_reader key_reader end.

(** [refresh_tls]: the acceptor's configuration is replaced, and what reads it
    from then on sees the new one. *)
Definition refresh_tls (tls_acceptor : option TlsConfig) (config : ConfigTls) : rust string (option TlsConfig) :=
  match tls_acceptor with
  | None => Err "Not configured for TLS"
  | Some _ =>
      match server_config_try_from config with
      | Ok cfg => Ok (Some cfg)
      | Err _ => Panic "called `Result::unwrap()` on an `Err` value"
      | Panic m => Panic m
      end
  end.

(** ** When a configuration is made *)

Lemma from_sum_ok {A E} (r : A + E) a : from_sum r = Ok a ↔ r = inl a.
Proof. destruct r; naive_solver. Qed.

Lemma collect_ok {A E} (l : list (A + E)) xs : collect l = Ok xs ↔ l = inl <$> xs.
Proof.
  unfold collect. rewrite try_map_ok. revert xs. induction l as [|x l IH]; intros xs.
  - split; [by intros ->%Forall2_nil_inv_l|]. by destruct xs.
  - split.
    + intros (y & ys & Hx%from_sum_ok & Hl%IH & ->)%Forall2_cons_inv_l. by subst.
    + destruct xs as [|y xs]; [done|]. intros [= -> Hl]. constructor; [done|by apply IH].
Qed.

Lemma collect_err {A E} (l : list (A + E)) e : collect l = Err e ↔ ∃ xs rest, l = (inl <$> xs) ++ inr e :: rest.
Proof.
  unfold collect. induction l as [|[a|e'] l IH]; simpl.
  - split; [done|]. by intros ([|] & ? & ?).
  - split.
    + destruct (try_map from_sum l) as [ys|e'|]; [done| |done]. intros [= ->].
      destruct (proj1 IH eq_refl) as (xs & rest & ->). by exists (a :: xs), rest.
    + intros ([|x xs] & rest & [=]). subst. by rewrite (proj2 IH) by eauto.
  - split; [intros [= ->]; by exists [], l|]. by intros ([|x xs] & rest & [= -> ->]).
Qed.

Lemma collect_no_panic {A E} (l : list (A + E)) : no_panic (collect l).
Proof. unfold collect. induction l as [|[a|e] l IH]; [done| |done]. simpl. by destruct (try_map from_sum l). Qed.

Lemma no_error {A E} (xs ys : list A) (e : E) rest : inl <$> xs ≠ (inl <$> ys) ++ inr e :: rest.
Proof.
  intros Heq. assert (inr e ∈ (inl <$> xs : list (A + E))) as (? & [=] & _)%list_elem_of_fmap.
  rewrite Heq, elem_of_app. right. by left.
Qed.

Lemma first_error {A E} (xs ys : list A) (e e' : E) rest rest' :
  (inl <$> xs) ++ inr e :: rest = (inl <$> ys) ++ inr e' :: rest' → e = e'.
Proof. revert ys. induction xs as [|x xs IH]; intros [|y ys] [=]; [done|by eapply IH]. Qed.

(** What the two readers of a configuration have: all sections parse, and there is
    one key. *)
Definition readable (certs keys : BufReader) (cs : list CertificateDer) (k : PrivateKeyDer) : Prop :=
  certs_iter certs = inl <$> cs ∧ keys_iter keys = [inl k].

Lemma config_from_readers_ok certs keys cfg :
  config_from_readers certs keys = Ok cfg ↔
  ∃ cs k c, readable certs keys cs k ∧ with_single_cert cs k = inl c ∧ cfg = set_alpn_protocols ["h2"; "http/1.1"] c.
Proof.
  unfold config_from_readers, certificates, private_keys, readable. rewrite rust_bind_ok. split.
  - intros (cs & Hc%map_err_ok%collect_ok & E). apply rust_bind_ok in E as (ks & Hk%map_err_ok%collect_ok & E).
    destruct ks as [|k [|]]; try done. destruct (with_single_cert cs k) as [c|] eqn:Ew; [|done].
    injection E as <-. by exists cs, k, c.
  - intros (cs & k & c & [Hc Hk] & Hw & ->). exists cs. rewrite map_err_ok, collect_ok. split; [done|].
    rewrite (proj2 (collect_ok (keys_iter keys) [k])) by done. cbn [map_err mbind rust_bind]. by rewrite Hw.
Qed.

Lemma config_from_readers_err certs keys e :
  config_from_readers certs keys = Err e ↔
  (∃ msg cs rest, e = PemError "loading TLS certificates" msg ∧ certs_iter certs = (inl <$> cs) ++ inr msg :: rest) ∨
  (∃ cs msg ks rest, e = PemError "loading TLS private key" msg ∧ certs_iter certs = inl <$> cs ∧
     keys_iter keys = (inl <$> ks) ++ inr msg :: rest) ∨
  (∃ cs ks, e = NotOnePrivateKey ∧ certs_iter certs = inl <$> cs ∧ keys_iter keys = inl <$> ks ∧ length ks ≠ 1).
Proof.
  unfold config_from_readers, certificates, private_keys.
  pose proof (collect_no_panic (certs_iter certs)) as Pc. pose proof (collect_no_panic (keys_iter keys)) as Pk.
  assert (∀ {A} (xs ys : list A), (inl <$> xs : list (A + string)) = inl <$> ys → xs = ys) as Hinj
    by (intros A xs ys E; by apply (inj (fmap inl)) in E).
  destruct (collect (certs_iter certs)) as [cs|msg|] eqn:Ec; cbn [map_err mbind rust_bind]; [| |done].
  2: { apply collect_err in Ec as (cs & rest & ->). split.
       - intros [= <-]. left. by exists msg, cs, rest.
       - intros [(? & ? & ? & -> & E%first_error)|[(? & ? & ? & ? & _ & E%eq_sym%no_error & _)|(? & ? & _ & E%eq_sym%no_error & _)]];
           [by subst|done..]. }
  apply collect_ok in Ec as ->.
  destruct (collect (keys_iter keys)) as [ks|msg|] eqn:Ek; cbn [map_err mbind rust_bind]; [| |done].
  2: { apply collect_err in Ek as (ks & rest & ->). split.
       - intros [= <-]. right; left. by exists cs, msg, ks, rest.
       - intros [(? & ? & ? & _ & E%no_error)|[(? & ? & ? & ? & -> & _ & E%first_error)|(? & ? & _ & _ & E%eq_sym%no_error & _)]];
           [done|by subst|done]. }
  apply collect_ok in Ek as ->.
  assert (match ks with [_] => True | _ => length ks ≠ 1 end) as Hl by (by destruct ks as [|? [|]]).
  split.
  - intros E. right; right. exists cs, ks. destruct ks as [|k [|]]; try (by injection E as <-).
    by destruct (with_single_cert cs k).
  - intros [(? & ? & ? & _ & E%no_error)|[(? & ? & ? & ? & _ & _ & E%no_error)|(? & ks' & -> & _ & E & Hn)]]; [done..|].
    apply Hinj in E as <-. by destruct ks as [|? [|]].
Qed.

Lemma config_from_readers_panic certs keys m :
  config_from_readers certs keys = Panic m →
  m = "bad certificate/key" ∧ ∃ cs k e, readable certs keys cs k ∧ with_single_cert cs k = inr e.
Proof.
  unfold config_from_readers, certificates, private_keys, readable.
  pose proof (collect_no_panic (certs_iter certs)) as Pc. pose proof (collect_no_panic (keys_iter keys)) as Pk.
  destruct (collect (certs_iter certs)) as [cs| |] eqn:Ec; [|done..]. apply collect_ok in Ec.
  destruct (collect (keys_iter keys)) as [ks| |] eqn:Ek; [|done..]. apply collect_ok in Ek.
  cbn [map_err mbind rust_bind]. destruct ks as [|k [|]]; try done.
  destruct (with_single_cert cs k) as [|e] eqn:Ew; [done|]. intros [= <-]. split; [done|]. by exists cs, k, e.
Qed.

Lemma tls_readers_no_panic config : no_panic (tls_readers config).
Proof. destruct config as [c k| |]; [|done..]. simpl. unfold open_reader. by destruct (file_open c), (file_open k). Qed.

Lemma tls_readers_err config e :
  tls_readers config = Err e → ∃ path io, e = SystemError ("opening " +:+ path) io ∧ file_open path = inr io.
Proof.
  destruct config as [c k| |]; [|done..]. simpl. unfold open_reader.
  destruct (file_open c) eqn:Ec; simpl; [destruct (file_open k) eqn:Ek; simpl; [done|]|]; intros [= <-]; eauto.
Qed.
End tls.
