(* ===== verification/Acceptor.v ===== *)
(** * Accepting connections

    The task of [HttpServerStarter::start] ([dropshot/src/server.rs]) that accepts
    connections until it is told to stop: [HttpAcceptor], which ignores errors of
    single sockets, [HttpsAcceptor], which negotiates TLS on any number of sockets
    while it accepts others, and the loops around them; and the handle that stops
    the task.

    What a socket, a negotiation or another task does next is an [event]; a turn
    of the task is a function of its state and an event, and has no result when
    the event cannot be next.  How a negotiation of TLS ends depends on the
    configuration and on the socket, behind which the client is. *)
From S2P Require Import Prelude Tls.

Section acceptor.
Context `{TlsCrate} {TcpStream SocketAddr TlsStream : Type}.

(** [TlsAcceptor::accept], awaited. *)
Variable tls_accept : TlsConfig → TcpStream → TlsStream + IoError.

(** ** Data *)

Record TlsConn := tls_conn_new { tc_stream : TlsStream; tc_remote_addr : SocketAddr }.

(** An element of [tls_negotiations]: the future made by [accept(socket)]. *)
Record negotiation := mk_negotiation { ng_config : TlsConfig; ng_socket : TcpStream; ng_addr : SocketAddr }.

(** [new_stream] between two points where it waits: the negotiations that go on,
    and the socket that waits for the lock of the configuration, if any. *)
Record https_stream := mk_stream { hs_negotiations : list negotiation; hs_locking : option (TcpStream * SocketAddr) }.

Inductive acceptor := HttpAcceptor | HttpsAcceptor (stream : https_stream).

(** What a connection is served on, with the address of its client. *)
Inductive connection := OverTcp (socket : TcpStream) (addr : SocketAddr) | OverTls (conn : TlsConn).

Inductive message :=
| AcceptError (e : IoError)
| TlsAcceptErr (e : IoError)
| AcceptedConnection (addr : SocketAddr)
| BeginningGracefulShutdown.

Inductive accept_phase := Accepting | ShuttingDown.

#[export] Instance accept_phase_eq_dec : EqDecision accept_phase.
Proof. solve_decision. Defined.

(** The task: [tt_sleeping] is set while [HttpAcceptor::accept] sleeps;
    [tt_config] is behind the lock that [refresh_tls] shares; [tt_connections] are
    those that a task was spawned for. *)
Record accept_task := mk_accept_task {
  tt_phase : accept_phase;
  tt_config : option TlsConfig;
  tt_acceptor : acceptor;
  tt_sleeping : bool;
  tt_connections : list connection;
  tt_log : list message;
}.

Inductive event :=
(** [TcpListener::accept] returns. *)
| AcceptEnds (r : (TcpStream * SocketAddr) + IoError)
(** The 100 milliseconds are over. *)
| SleepEnds
(** [tls_acceptor.lock()] returns. *)
| Locked
(** The future in this place of [tls_negotiations] is ready. *)
| NegotiationEnds (i : nat)
(** A caller of [refresh_tls]. *)
| Refresh (config : ConfigTls)
(** The channel of the [CloseHandle] has the signal. *)
| CloseSignal.

(** ** The acceptors *)

Inductive accept_result := Accepted (socket : TcpStream) (addr : SocketAddr) | Ignored | Slept (e : IoError).

(** A turn of the loop of [HttpAcceptor::accept]. *)
Definition http_accept (r : (TcpStream * SocketAddr) + IoError) : accept_result :=
  match r with
  | inl (socket, addr) => Accepted socket addr
  | inr e =>
      match io_kind e with
      | ConnectionRefused | ConnectionAborted | ConnectionReset => Ignored
      | OtherKind _ => Slept e
      end
  end.

Definition stream_new : https_stream := mk_stream [] None.

(** The body of the branch for an accepted socket, up to the lock and after it. *)
Definition stream_accepted (s : https_stream) (socket : TcpStream) (addr : SocketAddr) : https_stream :=
  mk_stream (hs_negotiations s) (Some (socket, addr)).

Definition stream_locked (s : https_stream) (config : TlsConfig) : option https_stream :=
  '(socket, addr) ← hs_locking s;
  Some (mk_stream (hs_negotiations s ++ [mk_negotiation config socket addr]) None).

(** The branch for a negotiation that ends: what is yielded, or logged. *)
Definition negotiate (n : negotiation) : TlsConn + IoError :=
  match tls_accept (ng_config n) (ng_socket n) with
  | inl stream => inl (tls_conn_new stream (ng_addr n))
  | inr e => inr e
  end.

Definition stream_negotiated (s : https_stream) (i : nat) : option (https_stream * (TlsConn + IoError)) :=
  match hs_locking s with
  | Some _ => None
  | None =>
      n ← hs_negotiations s !! i;
      Some (mk_stream (delete i (hs_negotiations s)) None, negotiate n)
  end.

(** ** The task *)

Definition remote_addr (c : connection) : SocketAddr :=
  match c with OverTcp _ addr => addr | OverTls conn => tc_remote_addr conn end.

(** The branch of the outer loop for a new connection: [make_http_request_handler]
    logs it, and its future is spawned. *)
Definition spawn (t : accept_task) (c : connection) : accept_task :=
  mk_accept_task (tt_phase t) (tt_config t) (tt_acceptor t) (tt_sleeping t) (tt_connections t ++ [c])
    (tt_log t ++ [AcceptedConnection (remote_addr c)]).

Definition with_acceptor (t : accept_task) (a : acceptor) : accept_task :=
  mk_accept_task (tt_phase t) (tt_config t) a (tt_sleeping t) (tt_connections t) (tt_log t).

Definition with_sleeping (t : accept_task) (b : bool) : accept_task :=
  mk_accept_task (tt_phase t) (tt_config t) (tt_acceptor t) b (tt_connections t) (tt_log t).

Definition log (t : accept_task) (m : message) : accept_task :=
  mk_accept_task (tt_phase t) (tt_config t) (tt_acceptor t) (tt_sleeping t) (tt_connections t) (tt_log t ++ [m]).

Definition with_config (t : accept_task) (config : option TlsConfig) : accept_task :=
  mk_accept_task (tt_phase t) config (tt_acceptor t) (tt_sleeping t) (tt_connections t) (tt_log t).

(** Whether a call of [HttpAcceptor::accept] waits for the listener. *)
Definition listening (t : accept_task) : bool :=
  negb (tt_sleeping t) &&
  match tt_acceptor t with HttpAcceptor => true | HttpsAcceptor s => match hs_locking s with None => true | _ => false end end.

Definition accepted (t : accept_task) (socket : TcpStream) (addr : SocketAddr) : accept_task :=
  match tt_acceptor t with
  | HttpAcceptor => spawn t (OverTcp socket addr)
  | HttpsAcceptor s => with_acceptor t (HttpsAcceptor (stream_accepted s socket addr))
  end.

Definition accept_ends (t : accept_task) (r : (TcpStream * SocketAddr) + IoError) : accept_task :=
  match http_accept r with
  | Accepted socket addr => accepted t socket addr
  | Ignored => t
  | Slept e => with_sleeping (log t (AcceptError e)) true
  end.

Definition locked (t : accept_task) : option accept_task :=
  match tt_acceptor t, tt_config t with
  | HttpsAcceptor s, Some config => s ← stream_locked s config; Some (with_acceptor t (HttpsAcceptor s))
  | _, _ => None
  end.

(** [select!] drops the other branch's call of [accept], and with it a sleep. *)
Definition negotiation_ends (t : accept_task) (i : nat) : option accept_task :=
  match tt_acceptor t with
  | HttpAcceptor => None
  | HttpsAcceptor s =>
      '(s, r) ← stream_negotiated s i;
      let t := with_sleeping (with_acceptor t (HttpsAcceptor s)) false in
      Some match r with inl conn => spawn t (OverTls conn) | inr e => log t (TlsAcceptErr e) end
  end.

(** A panic is the caller's. *)
Definition refresh (t : accept_task) (config : ConfigTls) : accept_task :=
  match refresh_tls (SocketAddr := SocketAddr) (tt_config t) config with
  | Ok config => with_config t config
  | _ => t
  end.

(** [break]: the acceptor is dropped, with its listener and its negotiations. *)
Definition stop (t : accept_task) : accept_task :=
  mk_accept_task ShuttingDown (tt_config t)
    (match tt_acceptor t with HttpAcceptor => HttpAcceptor | HttpsAcceptor _ => HttpsAcceptor stream_new end)
    false (tt_connections t) (tt_log t ++ [BeginningGracefulShutdown]).

Definition turn (t : accept_task) (e : event) : option accept_task :=
  match tt_phase t with
  | ShuttingDown => None
  | Accepting =>
      match e with
      | AcceptEnds r => if listening t then Some (accept_ends t r) else None
      | SleepEnds => if tt_sleeping t then Some (with_sleeping t false) else None
      | Locked => locked t
      | NegotiationEnds i => negotiation_ends t i
      | Refresh config => Some (refresh t config)
      | CloseSignal => Some (stop t)
      end
  end.

Fixpoint run (t : accept_task) (events : list event) : option accept_task :=
  match events with
  | [] => Some t
  | e :: events => t ← turn t e; run t events
  end.

Definition accept_task_new (tls_acceptor : option TlsConfig) : accept_task :=
  mk_accept_task Accepting tls_acceptor
    (match tls_acceptor with None => HttpAcceptor | Some _ => HttpsAcceptor stream_new end) false [] [].

(** ** The close handle *)

(** A [oneshot] channel's sender, if it was not used: the flag says whether the
    task with the receiver is there. *)
Record CloseHandle := mk_close_handle { close_channel : option bool }.

(** What is sent, and the handle after it. *)
Definition http_server_close (closer : CloseHandle) : panics (list () * CloseHandle) :=
  receiver ← expect (close_channel closer) "cannot close twice";
  if receiver : bool then Ok ([()], mk_close_handle None) else Panic "failed to send close signal".

Definition close_handle_drop (closer : CloseHandle) : list () :=
  match close_channel closer with Some true => [()] | _ => [] end.

(** [join_future]: the accepting task, and then the wait for handlers. *)
Definition join_future (task : () + string) : rust string () :=
  match task with inl _ => Ok () | inr e => Err ("server stopped: " +:+ e) end.

(** ** What the events say *)

Definition accepted_of (e : event) : option (TcpStream * SocketAddr) :=
  match e with AcceptEnds (inl c) => Some c | _ => None end.

Definition refreshed (config : TlsConfig) (e : event) : TlsConfig :=
  match e with
  | Refresh c => match server_config_try_from (SocketAddr := SocketAddr) c with Ok config => config | _ => config end
  | _ => config
  end.

(** The configuration that is in force after some events, and the negotiations
    that begin: each with the configuration in force when the lock is taken. *)
Definition config_after (config : TlsConfig) (events : list event) : TlsConfig := foldl refreshed config events.

Fixpoint admitted (config : TlsConfig) (waiting : option (TcpStream * SocketAddr)) (events : list event) : list negotiation :=
  match events with
  | [] => []
  | e :: events =>
      match e, waiting with
      | AcceptEnds (inl c), _ => admitted config (Some c) events
      | Locked, Some (socket, addr) => mk_negotiation config socket addr :: admitted config None events
      | _, _ => admitted (refreshed config e) waiting events
      end
  end.

Definition negotiated (n : negotiation) : option connection :=
  match negotiate n with inl conn => Some (OverTls conn) | inr _ => None end.
Definition negotiation_error (n : negotiation) : option IoError :=
  match negotiate n with inl _ => None | inr e => Some e end.
Definition tls_error (m : message) : option IoError :=
  match m with TlsAcceptErr e => Some e | _ => None end.
Definition ng_conn (n : negotiation) : TcpStream * SocketAddr := (ng_socket n, ng_addr n).

(** ** The task does what they say *)

Lemma run_app t es1 es2 : run t (es1 ++ es2) = t ← run t es1; run t es2.
Proof. revert t. induction es1 as [|e es1 IH]; intros t; [done|]. simpl. by destruct (turn t e); simpl. Qed.

(** Nothing follows the signal. *)
Lemma run_stopped t events t' : tt_phase t = ShuttingDown → run t events = Some t' → events = [] ∧ t' = t.
Proof. intros Ht. destruct events as [|e events]; simpl; [by intros [= ->]|]. unfold turn. by rewrite Ht. Qed.

(** An accepting task that serves plain sockets, and one that serves TLS. *)
Definition over_tcp (t : accept_task) : Prop :=
  tt_phase t = Accepting ∧ tt_config t = None ∧ tt_acceptor t = HttpAcceptor.
Definition over_tls (t : accept_task) (config : TlsConfig) (s : https_stream) : Prop :=
  tt_phase t = Accepting ∧ tt_config t = Some config ∧ tt_acceptor t = HttpsAcceptor s.

Lemma turn_tcp t e t' :
  over_tcp t → turn t e = Some t' →
  tt_connections t' = tt_connections t ++ (uncurry OverTcp <$> option_list (accepted_of e)) ∧
  (e = CloseSignal ∧ tt_phase t' = ShuttingDown ∨ e ≠ CloseSignal ∧ over_tcp t').
Proof.
  destruct t as [p c a sl cs l]. unfold over_tcp, turn. simpl. intros (-> & -> & ->).
  destruct e as [[[socket addr]|e]| | | |config|]; simpl.
  - destruct (listening _); [|done]. intros [= <-]. split; [done|by right].
  - destruct (listening _); [|done]. unfold accept_ends, http_accept.
    destruct (io_kind e); intros [= <-]; (split; [by rewrite app_nil_r|by right]).
  - destruct sl; [|done]. intros [= <-]. split; [by rewrite app_nil_r|by right].
  - done.
  - done.
  - intros [= <-]. split; [by rewrite app_nil_r|by right].
  - intros [= <-]. split; [by rewrite app_nil_r|by left].
Qed.

Lemma run_tcp events t t' :
  over_tcp t → run t events = Some t' →
  tt_connections t' = tt_connections t ++ (uncurry OverTcp <$> omap accepted_of events) ∧
  (tt_phase t' = Accepting ↔ CloseSignal ∉ events) ∧
  (tt_phase t' = Accepting → over_tcp t').
Proof.
  revert t. induction events as [|e events IH]; intros t Ht; simpl.
  { intros [= <-]. rewrite app_nil_r. split_and!; [done| |done]. split; [intros _; apply not_elem_of_nil|by destruct Ht]. }
  destruct (turn t e) as [t1|] eqn:E; [|done]. simpl. intros Hr.
  destruct (turn_tcp t e t1 Ht E) as [Hc [[-> Hp]|[He Ht1]]].
  - destruct (run_stopped _ _ _ Hp Hr) as [-> ->]. simpl in *. split_and!; [done| |by rewrite Hp].
    rewrite Hp. split; [done|]. intros Hn. destruct Hn. by left.
  - destruct (IH t1 Ht1 Hr) as (Hc1 & Hp & Ht'). split_and!; [|rewrite Hp, not_elem_of_cons; naive_solver|done].
    rewrite Hc1, Hc, <-app_assoc. f_equal. rewrite <-fmap_app. f_equal. by destruct (accepted_of e).
Qed.

(** What a turn does to an accepting TLS task: a negotiation begins, or one ends,
    or neither. *)
Definition tls_progress (t t' : accept_task) (s s' : https_stream) (begun ended : list negotiation) : Prop :=
  hs_negotiations s ++ begun ≡ₚ ended ++ hs_negotiations s' ∧
  tt_connections t' = tt_connections t ++ omap negotiated ended ∧
  omap tls_error (tt_log t') = omap tls_error (tt_log t) ++ omap negotiation_error ended.

Definition tls_next (t : accept_task) (config : TlsConfig) (s : https_stream) (e : event) (t' : accept_task) : Prop :=
  ∃ s' begun ended, over_tls t' (refreshed config e) s' ∧ tls_progress t t' s s' begun ended ∧
    (∀ es, admitted config (hs_locking s) (e :: es) = begun ++ admitted (refreshed config e) (hs_locking s') es) ∧
    option_list (hs_locking s) ++ option_list (accepted_of e) = (ng_conn <$> begun) ++ option_list (hs_locking s').

Lemma tls_next_quiet t config s e t' :
  over_tls t' (refreshed config e) s → tt_connections t' = tt_connections t →
  omap tls_error (tt_log t') = omap tls_error (tt_log t) →
  (∀ es, admitted config (hs_locking s) (e :: es) = admitted (refreshed config e) (hs_locking s) es) → accepted_of e = None →
  tls_next t config s e t'.
Proof.
  intros Ht Hc Hl Ha He. exists s, [], []. split_and!; [done| |done|by rewrite He, app_nil_r].
  split_and!; simpl; rewrite ?app_nil_r; done.
Qed.

Lemma turn_tls t config s e t' :
  over_tls t config s → turn t e = Some t' →
  e = CloseSignal ∧ t' = stop t ∨ e ≠ CloseSignal ∧ tls_next t config s e t'.
Proof.
  destruct t as [p c a sl cs l]. unfold over_tls at 1, turn. simpl. intros (-> & -> & ->).
  destruct e as [[[socket addr]|e]| | |i|cfg|]; simpl; intros Et; [right; (split; [done|])..|by injection Et as <-; left].
  - unfold listening in Et. simpl in Et. destruct (hs_locking s) eqn:El; [by rewrite andb_false_r in Et|].
    destruct (negb sl); [|done]. injection Et as <-. exists (stream_accepted s socket addr), [], []. rewrite El.
    split_and!; [done| |done|done]. split_and!; simpl; by rewrite ?app_nil_r.
  - destruct (listening _); [|done]. injection Et as <-. apply tls_next_quiet; [..|done|done]; unfold accept_ends, http_accept;
      destruct (io_kind e); simpl; rewrite ?omap_app, ?app_nil_r; done.
  - destruct sl; [|done]. injection Et as <-. by apply tls_next_quiet.
  - unfold locked, stream_locked in Et. simpl in Et. destruct (hs_locking s) as [[socket addr]|] eqn:El; [|done]. injection Et as <-.
    eexists _, [_], []. rewrite El. split_and!; [done| |done|done]. split_and!; simpl; by rewrite ?app_nil_r.
  - unfold negotiation_ends, stream_negotiated in Et. simpl in Et. destruct (hs_locking s) as [|] eqn:El; [done|].
    destruct (hs_negotiations s !! i) as [n|] eqn:En; [|done]. simpl in Et. injection Et as <-.
    exists (mk_stream (delete i (hs_negotiations s)) None), [], [n]. rewrite El.
    split_and!; [by destruct (negotiate n)| |done|done]. unfold tls_progress, negotiated, negotiation_error. simpl.
    rewrite app_nil_r. split; [by apply delete_Permutation|]. by destruct (negotiate n); simpl; rewrite ?omap_app, ?app_nil_r.
  - injection Et as <-. unfold refresh, refresh_tls. simpl.
    apply tls_next_quiet; simpl; [..|done|done]; destruct (server_config_try_from cfg); done.
Qed.

Lemma run_tls events t config s t' :
  over_tls t config s → run t events = Some t' →
  (tt_phase t' = Accepting ↔ CloseSignal ∉ events) ∧
  ∃ ended pending waiting,
    hs_negotiations s ++ admitted config (hs_locking s) events ≡ₚ ended ++ pending ∧
    option_list (hs_locking s) ++ omap accepted_of events =
      (ng_conn <$> admitted config (hs_locking s) events) ++ option_list waiting ∧
    tt_connections t' = tt_connections t ++ omap negotiated ended ∧
    omap tls_error (tt_log t') = omap tls_error (tt_log t) ++ omap negotiation_error ended ∧
    (tt_phase t' = Accepting → over_tls t' (config_after config events) (mk_stream pending waiting)).
Proof.
  revert t config s. induction events as [|e events IH]; intros t config s Ht.
  { intros [= <-]. split; [split; [intros _; apply not_elem_of_nil|by destruct Ht]|].
    exists [], (hs_negotiations s), (hs_locking s). simpl. rewrite !app_nil_r. split_and!; try done. by destruct s. }
  cbn [run]. destruct (turn t e) as [t1|] eqn:E; [|done]. cbn [mbind option_bind]. intros Hr.
  destruct (turn_tls t config s e t1 Ht E) as [[-> ->]|[He (s1 & begun & ended & Ht1 & (Hn & Hc & Hl) & Ha & Hw)]].
  - destruct (run_stopped (stop t) _ _ eq_refl Hr) as [-> ->]. split; [split; [done|]; intros Hn; destruct Hn; by left|].
    exists [], (hs_negotiations s), (hs_locking s). simpl. rewrite omap_app, !app_nil_r. by split_and!.
  - destruct (IH t1 _ s1 Ht1 Hr) as (Hp & ended' & pending & waiting & Hn' & Hw' & Hc' & Hl' & Hs').
    split; [rewrite Hp, not_elem_of_cons; naive_solver|]. exists (ended ++ ended'), pending, waiting.
    rewrite Ha, fmap_app, omap_app, Hc', Hc, Hl', Hl, !omap_app, <-!app_assoc. split_and!; try done.
    + rewrite app_assoc, Hn, <-app_assoc, Hn'. done.
    + rewrite <-Hw', !app_assoc, <-Hw, <-app_assoc. f_equal. simpl. by destruct (accepted_of e).
Qed.

Lemma new_over_tcp : over_tcp (accept_task_new None).
Proof. done. Qed.
Lemma new_over_tls config : over_tls (accept_task_new (Some config)) config stream_new.
Proof. done. Qed.

(** C27: Whatever happens in whatever order, the task goes on until the signal
    comes.  Without TLS it serves the sockets that the listener accepts, in order.
    With TLS each of them, in order, begins a negotiation with the configuration in
    force when it gets the lock; each negotiation either goes on or has ended, once;
    those that ended well are served, in the order they end, with the stream that
    was negotiated and the address of the socket; the errors of the others are
    logged, and have no effect beyond that. *)
Theorem accept_task_spec (tls_acceptor : option TlsConfig) events t :
  run (accept_task_new tls_acceptor) events = Some t →
  (tt_phase t = Accepting ↔ CloseSignal ∉ events) ∧
  match tls_acceptor with
  | None => tt_connections t = uncurry OverTcp <$> omap accepted_of events
  | Some config => ∃ ended pending waiting,
      admitted config None events ≡ₚ ended ++ pending ∧
      omap accepted_of events = (ng_conn <$> admitted config None events) ++ option_list waiting ∧
      tt_connections t = omap negotiated ended ∧
      omap tls_error (tt_log t) = omap negotiation_error ended ∧
      (tt_phase t = Accepting →
         tt_acceptor t = HttpsAcceptor (mk_stream pending waiting) ∧ tt_config t = Some (config_after config events))
  end.
Proof.
  destruct tls_acceptor as [config|]; intros Hr.
  - destruct (run_tls events _ config stream_new t (new_over_tls config) Hr) as (Hp & ended & pending & waiting & Hn & Hw & Hc & Hl & Hs).
    split; [done|]. exists ended, pending, waiting. split_and!; try done. by intros (_ & ? & ?)%Hs.
  - by destruct (run_tcp events _ t new_over_tcp Hr) as (Hc & Hp & _).
Qed.

Lemma over_tls_run tls_acceptor events t :
  run (accept_task_new tls_acceptor) events = Some t → tt_phase t = Accepting →
  over_tcp t ∨ ∃ config s, over_tls t config s.
Proof.
  destruct tls_acceptor as [config|]; intros Hr Hp.
  - destruct (run_tls events _ config stream_new t (new_over_tls config) Hr) as (_ & ? & ? & ? & _ & _ & _ & _ & Hs).
    right. eauto.
  - left. by apply (run_tcp events _ t new_over_tcp Hr).
Qed.

(** The events after which the task waits for the listener again. *)
Definition wake (t : accept_task) : list event :=
  match tt_acceptor t with
  | HttpsAcceptor (mk_stream _ (Some _)) => [Locked]
  | _ => []
  end ++ (if tt_sleeping t then [SleepEnds] else []).

Lemma run_wake t :
  over_tcp t ∨ (∃ config s, over_tls t config s) →
  ∃ t', run t (wake t) = Some t' ∧ listening t' = true ∧ tt_config t' = tt_config t ∧
    (over_tcp t' ∨ ∃ config s, over_tls t' config s).
Proof.
  destruct t as [p c a sl cs l]. unfold over_tcp, over_tls, wake. simpl.
  intros [(-> & -> & ->)|(config & [ns w] & -> & -> & ->)]; [|destruct w as [[socket addr]|]]; destruct sl;
    eexists; (split; [reflexivity|]); simpl; eauto 10.
Qed.

(** C28: However many negotiations have failed or go on, the accepting task can
    accept and serve one more connection. *)
Theorem connection_served (tls_acceptor : option TlsConfig) events t socket addr :
  run (accept_task_new tls_acceptor) events = Some t → tt_phase t = Accepting →
  (∀ config, tt_config t = Some config → ∃ stream, tls_accept config socket = inl stream) →
  ∃ es t', run t es = Some t' ∧ tt_phase t' = Accepting ∧
    match tt_config t with
    | None => last (tt_connections t') = Some (OverTcp socket addr)
    | Some config => ∃ stream, tls_accept config socket = inl stream ∧
        last (tt_connections t') = Some (OverTls (tls_conn_new stream addr))
    end.
Proof.
  intros Hr Hp Hok. destruct (run_wake t (over_tls_run _ _ _ Hr Hp)) as (t1 & Hw & Hl & Hc & Ht1).
  rewrite <-Hc in Hok |- *. clear Hc.
  destruct t1 as [p c a sl cs l]. unfold over_tcp, over_tls, listening in *. simpl in *. destruct sl; [done|].
  destruct Ht1 as [(-> & -> & ->)|(config & [ns w] & -> & -> & ->)].
  - exists (wake t ++ [AcceptEnds (inl (socket, addr))]). rewrite run_app, Hw. simpl.
    eexists. split_and!; [done|done|]. simpl. by rewrite last_snoc.
  - destruct w; [done|]. destruct (Hok config eq_refl) as [stream Hs].
    exists (wake t ++ [AcceptEnds (inl (socket, addr)); Locked; NegotiationEnds (length ns)]).
    rewrite run_app, Hw. simpl. unfold turn, locked, negotiation_ends, stream_negotiated. simpl.
    rewrite list_lookup_middle by done. simpl. unfold negotiate. simpl. rewrite Hs.
    eexists. split_and!; [done|done|]. exists stream. split; [done|]. simpl. by rewrite last_snoc.
Qed.

(** A handle signals once: when the server is closed, or when it is dropped. *)
Lemma close_signals_once :
  http_server_close (mk_close_handle (Some true)) = Ok ([()], mk_close_handle None) ∧
  close_handle_drop (mk_close_handle None) = [] ∧ close_handle_drop (mk_close_handle (Some true)) = [()].
Proof. done. Qed.
End acceptor.
