(* ===== verification/Schema.v ===== *)
(** * JSON values and JSON schemas

    The data that [schemars] 0.8 and [serde_json] define and that the code
    destructures field by field: [serde_json::Value], [schemars::schema::Schema]
    and the validation records inside it.  A [schemars::Map] is a [BTreeMap], a
    [schemars::Set] a [BTreeSet] (a sorted list of strings). *)
From S2P Require Import Prelude BTree Externals.

(** [serde_json::Value]. *)
Inductive Json `{JsonCrate} :=
| JNull
| JBool (b : bool)
| JNumber (n : Number)
| JString (s : string)
| JArray (l : list Json)
| JObject (o : btree Json).

Section json.
Context `{JsonCrate}.

(** [PartialEq]. *)
Fixpoint json_eqb (a b : Json) {struct a} : bool :=
  match a, b with
  | JNull, JNull => true
  | JBool a, JBool b => Bool.eqb a b
  | JNumber a, JNumber b => number_eqb a b
  | JString a, JString b => String.eqb a b
  | JArray a, JArray b =>
      (fix go (l1 l2 : list Json) : bool :=
         match l1, l2 with
         | [], [] => true
         | x :: l1, y :: l2 => json_eqb x y && go l1 l2
         | _, _ => false
         end) a b
  | JObject a, JObject b =>
      (fix go (l1 l2 : list (string * Json)) : bool :=
         match l1, l2 with
         | [], [] => true
         | (k, x) :: l1, (k', y) :: l2 => String.eqb k k' && json_eqb x y && go l1 l2
         | _, _ => false
         end) a b
  | _, _ => false
  end.

Section json_ind.
Variable P : Json → Prop.
Hypothesis (HNull : P JNull) (HBool : ∀ b, P (JBool b)) (HNumber : ∀ n, P (JNumber n))
  (HString : ∀ s, P (JString s)) (HArray : ∀ l, Forall P l → P (JArray l))
  (HObject : ∀ o, Forall (λ p, P p.2) o → P (JObject o)).

Fixpoint json_induction (j : Json) : P j :=
  match j with
  | JNull => HNull
  | JBool b => HBool b
  | JNumber n => HNumber n
  | JString s => HString s
  | JArray l => HArray l
      ((fix go l : Forall P l :=
          match l with
          | [] => Forall_nil_2 P
          | x :: l => Forall_cons_2 P x l (json_induction x) (go l)
          end) l)
  | JObject o => HObject o
      ((fix go (o : list (string * Json)) : Forall (λ p, P p.2) o :=
          match o with
          | [] => Forall_nil_2 _
          | (k, x) :: l => Forall_cons_2 (λ p : string * Json, P p.2) (k, x) l (json_induction x) (go l)
          end) o)
  end.
End json_ind.

Lemma json_eqb_eq a b : json_eqb a b = true ↔ a = b.
Proof.
  revert b. induction a as [|x|x|x|l IH|o IH] using json_induction; intros [|y|y|y|l'|o'];
    simpl; try (split; congruence).
  - rewrite Bool.eqb_true_iff. split; congruence.
  - destruct (number_eqb_spec x y); split; congruence.
  - rewrite String.eqb_eq. split; congruence.
  - revert l'. induction IH as [|x l Hx Hl IH]; intros [|y l']; try (split; congruence).
    rewrite andb_true_iff, Hx, IH. split; [|by intros [= -> ->]]. by intros (-> & [= ->]).
  - revert o'. induction IH as [|[k x] l Hx Hl IH]; intros [|[k' y] l']; try (split; congruence).
    rewrite !andb_true_iff, String.eqb_eq, Hx, IH. simpl.
    split; [|by intros [= -> -> ->]]. by intros ((-> & ->) & [= ->]).
Qed.

(** [Vec<Value>::contains]. *)
Definition json_contains (l : list Json) (v : Json) : bool := existsb (json_eqb v) l.
End json.

(** ** [schemars::schema] *)

Inductive InstanceType := INull | IBoolean | IObject | IArray | INumber | IString | IInteger.

#[export] Instance InstanceType_eq_dec : EqDecision InstanceType.
Proof. solve_decision. Defined.

Inductive SingleOrVec (A : Type) := Single (a : A) | Vec (l : list A).
Arguments Single {A} a.
Arguments Vec {A} l.

Section schema.
Context `{JsonCrate}.

Record Metadata := mk_metadata {
  md_id : option string;
  md_title : option string;
  md_description : option string;
  md_default : option Json;
  md_deprecated : bool;
  md_read_only : bool;
  md_write_only : bool;
  md_examples : list Json;
}.

Record NumberValidation := mk_number_validation {
  nv_multiple_of : option F64;
  nv_maximum : option F64;
  nv_exclusive_maximum : option F64;
  nv_minimum : option F64;
  nv_exclusive_minimum : option F64;
}.

Record StringValidation := mk_string_validation {
  st_max_length : option N;
  st_min_length : option N;
  st_pattern : option string;
}.

Record ArrayValidation {S : Type} := mk_array_validation {
  av_items : option (SingleOrVec S);
  av_additional_items : option S;
  av_max_items : option N;
  av_min_items : option N;
  av_unique_items : option bool;
  av_contains : option S;
}.

Record ObjectValidation {S : Type} := mk_object_validation {
  ov_max_properties : option N;
  ov_min_properties : option N;
  ov_required : list string;
  ov_properties : btree S;
  ov_pattern_properties : btree S;
  ov_additional_properties : option S;
  ov_property_names : option S;
}.

Record SubschemaValidation {S : Type} := mk_subschemas {
  sv_all_of : option (list S);
  sv_any_of : option (list S);
  sv_one_of : option (list S);
  sv_not : option S;
  sv_if_schema : option S;
  sv_then_schema : option S;
  sv_else_schema : option S;
}.

Record SchemaObject {S : Type} := mk_schema_object {
  so_metadata : option Metadata;
  so_instance_type : option (SingleOrVec InstanceType);
  so_format : option string;
  so_enum_values : option (list Json);
  so_const_value : option Json;
  so_subschemas : option (@SubschemaValidation S);
  so_number : option NumberValidation;
  so_string : option StringValidation;
  so_array : option (@ArrayValidation S);
  so_object : option (@ObjectValidation S);
  so_reference : option string;
  so_extensions : btree Json;
}.

Inductive Schema :=
| Bool (b : bool)
| Object (o : @SchemaObject Schema).
End schema.

(** [indexmap::IndexMap]: bindings in insertion order. *)
Definition IndexMap (A : Type) : Type := list (string * A).
Definition im_get {A} (k : string) (m : IndexMap A) : option A := bt_get k m.

(** [IndexMap::insert]: a key that is there keeps its place. *)
Fixpoint im_insert {A} (k : string) (v : A) (m : IndexMap A) : IndexMap A :=
  match m with
  | [] => [(k, v)]
  | (k', v') :: m => if String.eqb k k' then (k', v) :: m else (k', v') :: im_insert k v m
  end.

(** [IndexMap::extend]. *)
Definition im_extend {A} (m l : IndexMap A) : IndexMap A := foldl (λ m '(k, v), im_insert k v m) m l.

Arguments mk_array_validation {S} _ _ _ _ _ _.
Arguments mk_object_validation {S} _ _ _ _ _ _ _.
Arguments mk_subschemas {S} _ _ _ _ _ _ _.
Arguments mk_schema_object {_ S} _ _ _ _ _ _ _ _ _ _ _ _.

Section defaults.
Context `{JsonCrate}.

(** [SchemaObject::default()], and schemas made from it with one or two
    fields set. *)
Definition default_object : @SchemaObject _ Schema :=
  mk_schema_object None None None None None None None None None None None [].
Definition typed_schema (t : InstanceType) : Schema :=
  Object (mk_schema_object None (Some (Single t)) None None None None None None None None None []).
Definition reference_schema (r : string) : Schema :=
  Object (mk_schema_object None None None None None None None None None None (Some r) []).
Definition all_of_schema (l : list Schema) : Schema :=
  Object (mk_schema_object None None None None None
    (Some (mk_subschemas (Some l) None None None None None None)) None None None None None []).
End defaults.
