(* ===== verification/OpenApi.v ===== *)
(** * OpenAPI documents

    The data of the [openapiv3] crate that the code builds: schemas, parameters,
    responses, operations and the document around them.  Fields that the code
    leaves at their default are left out. *)
From S2P Require Import Prelude BTree Externals Schema.

Inductive ReferenceOr (A : Type) :=
| Item (item : A)
| Reference (reference : string).
Arguments Item {A} item.
Arguments Reference {A} reference.

Inductive VariantOrUnknownOrEmpty (A : Type) :=
| Variant (item : A)
| Unknown (s : string)
| Empty.
Arguments Variant {A} item.
Arguments Unknown {A} s.
Arguments Empty {A}.

Inductive IntegerFormat := Int32 | Int64.
Inductive NumberFormat := Float | Double.
Inductive StringFormat := Date | DateTime | Password | Byte | Binary.

Inductive AdditionalProperties (S : Type) :=
| AnyProperties (b : bool)
| PropertiesSchema (schema : ReferenceOr S).
Arguments AnyProperties {S} b.
Arguments PropertiesSchema {S} schema.

Section openapi.
Context `{JsonCrate}.

Record StringType := mk_string_type {
  ss_format : VariantOrUnknownOrEmpty StringFormat;
  ss_pattern : option string;
  ss_enumeration : list (option string);
  ss_min_length : option N;
  ss_max_length : option N;
}.

Record NumberType := mk_number_type {
  nt_format : VariantOrUnknownOrEmpty NumberFormat;
  nt_multiple_of : option F64;
  nt_exclusive_minimum : bool;
  nt_exclusive_maximum : bool;
  nt_minimum : option F64;
  nt_maximum : option F64;
  nt_enumeration : list (option F64);
}.

Record IntegerType := mk_integer_type {
  it_format : VariantOrUnknownOrEmpty IntegerFormat;
  it_multiple_of : option Z;
  it_exclusive_minimum : bool;
  it_exclusive_maximum : bool;
  it_minimum : option Z;
  it_maximum : option Z;
  it_enumeration : list (option Z);
}.

Record ObjectType {S : Type} := mk_object_type {
  ot_properties : IndexMap (ReferenceOr S);
  ot_required : list string;
  ot_additional_properties : option (AdditionalProperties S);
  ot_min_properties : option N;
  ot_max_properties : option N;
}.

Record ArrayType {S : Type} := mk_array_type {
  at_items : option (ReferenceOr S);
  at_min_items : option N;
  at_max_items : option N;
  at_unique_items : bool;
}.

Inductive Type_ {S : Type} :=
| TString (t : StringType)
| TNumber (t : NumberType)
| TInteger (t : IntegerType)
| TObject (t : @ObjectType S)
| TArray (t : @ArrayType S)
| TBoolean (enumeration : list (option bool)).

Record AnySchema {S : Type} := mk_any_schema {
  as_typ : option string;
  as_pattern : option string;
  as_multiple_of : option F64;
  as_exclusive_minimum : option bool;
  as_exclusive_maximum : option bool;
  as_minimum : option F64;
  as_maximum : option F64;
  as_properties : IndexMap (ReferenceOr S);
  as_required : list string;
  as_additional_properties : option (AdditionalProperties S);
  as_min_properties : option N;
  as_max_properties : option N;
  as_items : option (ReferenceOr S);
  as_min_items : option N;
  as_max_items : option N;
  as_unique_items : option bool;
  as_enumeration : list Json;
  as_format : option string;
  as_min_length : option N;
  as_max_length : option N;
  as_one_of : list (ReferenceOr S);
  as_all_of : list (ReferenceOr S);
  as_any_of : list (ReferenceOr S);
  as_not : option (ReferenceOr S);
}.

Inductive SchemaKind {S : Type} :=
| KType (t : @Type_ S)
| KOneOf (one_of : list (ReferenceOr S))
| KAllOf (all_of : list (ReferenceOr S))
| KAnyOf (any_of : list (ReferenceOr S))
| KNot (not : ReferenceOr S)
| KAny (any : @AnySchema S).

Record SchemaData := mk_schema_data {
  sd_nullable : bool;
  sd_read_only : bool;
  sd_write_only : bool;
  sd_deprecated : bool;
  sd_example : option Json;
  sd_title : option string;
  sd_description : option string;
  sd_default : option Json;
  sd_extensions : IndexMap Json;
}.

(** [openapiv3::Schema]. *)
Inductive OSchema :=
| mk_oschema (schema_data : SchemaData) (schema_kind : @SchemaKind OSchema).

Definition schema_data (s : OSchema) : SchemaData := match s with mk_oschema d _ => d end.
Definition schema_kind (s : OSchema) : @SchemaKind OSchema := match s with mk_oschema _ k => k end.

Arguments mk_object_type {S} _ _ _ _ _.
Arguments mk_array_type {S} _ _ _ _.
Arguments mk_any_schema {S} _ _ _ _ _ _ _ _ _ _ _ _ _ _ _ _ _ _ _ _ _ _ _ _.

(** The [Default] values. *)
Definition default_data : SchemaData := mk_schema_data false false false false None None None None [].
Definition default_any {S} : @AnySchema S :=
  mk_any_schema None None None None None None None [] [] None None None None None None None [] None None None
    [] [] [] None.
Definition default_object_type {S} : @ObjectType S := mk_object_type [] [] None None None.

(** ** Operations *)

Record ParameterData := mk_parameter_data {
  pd_name : string;
  pd_description : option string;
  pd_required : bool;
  pd_schema : ReferenceOr OSchema;
}.

Inductive OParameter :=
| PQuery (data : ParameterData)
| PPath (data : ParameterData)
| PHeader (data : ParameterData).

(** [MediaType], by its schema; contents are [IndexMap]s from the media type. *)
Definition Content : Type := IndexMap (ReferenceOr OSchema).

Record RequestBody := mk_request_body { rb_content : Content; rb_required : bool }.

Record OHeader := mk_oheader {
  oh_description : option string;
  oh_required : bool;
  oh_schema : ReferenceOr OSchema;
}.

Record OResponse := mk_oresponse {
  or_description : string;
  or_headers : IndexMap OHeader;
  or_content : Content;
}.

Inductive OStatusCode := Code (code : Z) | Range (class : Z).

#[export] Instance OStatusCode_eq_dec : EqDecision OStatusCode.
Proof. solve_decision. Defined.

Record Operation := mk_operation {
  op_operation_id : option string;
  op_summary : option string;
  op_description : option string;
  op_tags : list string;
  op_deprecated : bool;
  op_parameters : list OParameter;
  op_request_body : option RequestBody;
  op_extensions : IndexMap Json;
  op_responses : list (OStatusCode * ReferenceOr OResponse);
  op_default : option (ReferenceOr OResponse);
}.

Record PathItem := mk_path_item {
  pi_get : option Operation;
  pi_put : option Operation;
  pi_post : option Operation;
  pi_delete : option Operation;
  pi_options : option Operation;
  pi_head : option Operation;
  pi_patch : option Operation;
  pi_trace : option Operation;
}.

Definition default_path_item : PathItem := mk_path_item None None None None None None None None.

Record OTag := mk_otag {
  ot_name : string;
  ot_description : option string;
  ot_external_docs : option (option string * string);
}.

Record Contact := mk_contact {
  ct_name : option string;
  ct_url : option string;
  ct_email : option string;
}.

Record License := mk_license { li_name : string; li_url : option string }.

Record Info := mk_info {
  in_title : string;
  in_description : option string;
  in_terms_of_service : option string;
  in_contact : option Contact;
  in_license : option License;
  in_version : string;
}.

Record OpenAPI := mk_openapi {
  oa_openapi : string;
  oa_info : Info;
  oa_tags : list OTag;
  oa_paths : IndexMap PathItem;
  oa_schemas : IndexMap (ReferenceOr OSchema);
  oa_responses : IndexMap (ReferenceOr OResponse);
}.
End openapi.
Arguments mk_object_type {S} _ _ _ _ _.
Arguments mk_array_type {S} _ _ _ _.
Arguments mk_any_schema {_ S} _ _ _ _ _ _ _ _ _ _ _ _ _ _ _ _ _ _ _ _ _ _ _ _.
