(* ===== verification/SchemaUtil.v ===== *)
(** * Schema translation

    [dropshot/src/schema_util.rs]: the members of a flat structure
    ([schema2struct]), the description of a schema, and the translation of
    [schemars] schemas to OpenAPI schemas ([j2oas_schema]).

    [schema2struct_impl] follows references and may not terminate on recursive
    ones: it has fuel, and [None] stands for no answer.  The texts of panics
    leave out the schemas that they print. *)
From S2P Require Import Prelude BTree Externals Schema OpenApi.

Section schema_util.
Context `{JsonCrate}.

(** ** [schema2struct] *)

Record StructMember := mk_member {
  sm_name : string;
  sm_description : option string;
  sm_schema : Schema;
  sm_required : bool;
}.

Inductive Schema2StructError :=
| InvalidEnum (schema : Schema)
| InvalidType (schema : Schema)
| InvalidSubschema (subschemas : @SubschemaValidation Schema).

(** The description of the metadata, if any. *)
Definition metadata_description (m : option Metadata) : option string := m ≫= md_description.

(** A schema with a description that refers to another one: nothing but an
    [all_of] with a single subschema. *)
Definition trivial_all_of (schema : Schema) : option (option Metadata * Schema) :=
  match schema with
  | Object (mk_schema_object metadata None None None None
      (Some (mk_subschemas (Some [subschema]) None None None None None None)) None None None None None _) =>
      Some (metadata, subschema)
  | _ => None
  end.

Definition without_metadata (o : @SchemaObject _ Schema) : @SchemaObject _ Schema :=
  mk_schema_object None (so_instance_type o) (so_format o) (so_enum_values o) (so_const_value o)
    (so_subschemas o) (so_number o) (so_string o) (so_array o) (so_object o) (so_reference o) (so_extensions o).

Definition schema_extract_description (schema : Schema) : option string * Schema :=
  match trivial_all_of schema with
  | Some (metadata, subschema) => (metadata_description metadata, subschema)
  | None =>
      match schema with
      | Bool _ => (None, schema)
      | Object object => (metadata_description (so_metadata object), Object (without_metadata object))
      end
  end.

Definition schema_extensions (schema : Schema) : option (btree Json) :=
  match schema with Bool _ => None | Object object => Some (so_extensions object) end.

(** The patterns of [schema2struct_impl], in order. *)
Inductive struct_pattern :=
| SReference
| SFlat (subschemas : option (@SubschemaValidation Schema)) (object : option (@ObjectValidation Schema))
| SEnum
| SInvalid.

Definition struct_match (schema : Schema) : struct_pattern :=
  match schema with
  | Object (mk_schema_object _ None None None None None None None None None (Some _) _) => SReference
  | Object (mk_schema_object _ (Some (Single _)) None None None subschemas None None None object None _) =>
      SFlat subschemas object
  | Object (mk_schema_object _ _ None (Some _) None None None None None None None _) => SEnum
  | Object (mk_schema_object _ None None None None (Some _) None None None None None _) => SEnum
  | _ => SInvalid
  end.

(** The members of an object, before its subschemas. *)
Definition object_members (required : bool) (object : option (@ObjectValidation Schema)) : list StructMember :=
  match object with
  | None => []
  | Some object =>
      (λ '(name, schema),
         let '(description, schema) := schema_extract_description schema in
         mk_member name description schema (required && bool_decide (name ∈ ov_required object)))
      <$> ov_properties object
  end.

(** [SchemaGenerator::dereference]. *)
Variable dereference : Schema → option Schema.

(** Concatenates the results; fuel and errors propagate. *)
Fixpoint collect_members (f : Schema → option (rust Schema2StructError (list StructMember))) (l : list Schema) :
    option (rust Schema2StructError (list StructMember)) :=
  match l with
  | [] => Some (Ok [])
  | s :: l =>
      match f s with
      | Some (Ok ms) => (λ r, ms' ← r; Ok (ms ++ ms')) <$> collect_members f l
      | r => r
      end
  end.

(** The members of the subschemas of a flat structure. *)
Definition subschema_members (impl : Schema → bool → option (rust Schema2StructError (list StructMember)))
    (required : bool) (subschemas : option (@SubschemaValidation Schema)) :
    option (rust Schema2StructError (list StructMember)) :=
  match subschemas with
  | None => Some (Ok [])
  | Some (mk_subschemas None (Some schemas) None None None None None) =>
      collect_members (λ s, impl s false) schemas
  | Some (mk_subschemas (Some [schema]) None None None None None None) => impl schema required
  | Some invalid => Some (Err (InvalidSubschema invalid))
  end.

Fixpoint schema2struct_impl (fuel : nat) (schema : Schema) (required : bool) :
    option (rust Schema2StructError (list StructMember)) :=
  match fuel with
  | 0 => None
  | S fuel =>
      match struct_match schema with
      | SReference =>
          match dereference schema with
          | Some schema => schema2struct_impl fuel schema required
          | None => Some (Panic "invalid reference")
          end
      | SFlat subschemas object =>
          (λ r, ms ← r; Ok (object_members required object ++ ms)) <$>
            subschema_members (schema2struct_impl fuel) required subschemas
      | SEnum => Some (Err (InvalidEnum schema))
      | SInvalid => Some (Err (InvalidType schema))
      end
  end.

(** [Display] for the errors; [to_string_pretty] is [serde_json]'s, at schemas
    and subschemas. *)
Variables (pretty_schema : Schema → option string) (pretty_subschemas : @SubschemaValidation Schema → option string).

Definition NEWLINE : string := char_str (Ascii.ascii_of_nat 10).

Definition schema2struct_error_display (e : Schema2StructError) : panics string :=
  let unwrap (o : option string) := expect o "called `Result::unwrap()` on an `Err` value" in
  match e with
  | InvalidEnum schema =>
      s ← unwrap (pretty_schema schema);
      Ok ("invalid type: " +:+ s +:+ NEWLINE +:+
          "(hint: this appears to be an enum, which needs to be wrapped in a struct)")
  | InvalidType schema => s ← unwrap (pretty_schema schema); Ok ("invalid type: " +:+ s)
  | InvalidSubschema subschemas => s ← unwrap (pretty_subschemas subschemas); Ok ("invalid subschema: " +:+ s)
  end.

Definition schema2struct (fuel : nat) (schema_name kind : string) (schema : Schema) (required : bool) :
    option (panics (list StructMember)) :=
  match schema2struct_impl fuel schema required with
  | None => None
  | Some (Ok results) => Some (Ok results)
  | Some (Panic msg) => Some (Panic msg)
  | Some (Err error) =>
      Some (text ← schema2struct_error_display error;
            Panic ("while generating schema for " +:+ schema_name +:+ " (" +:+ kind +:+ "): " +:+ text))
  end.
End schema_util.

(** ** The members of a flat structure *)

Section members.
Context `{JsonCrate} (dereference : Schema → option Schema).

Definition any_of_only (l : list Schema) : @SubschemaValidation Schema :=
  mk_subschemas None (Some l) None None None None None.
Definition all_of_only (s : Schema) : @SubschemaValidation Schema :=
  mk_subschemas (Some [s]) None None None None None None.

(** A member of a structure: what a property of an object of it is, through
    references and alternatives; no property of an alternative is required. *)
Inductive Member : Schema → bool → StructMember → Prop :=
| member_reference schema schema' required m :
    struct_match schema = SReference → dereference schema = Some schema' →
    Member schema' required m → Member schema required m
| member_property schema subschemas object required name property :
    struct_match schema = SFlat subschemas (Some object) →
    (name, property) ∈ ov_properties object →
    Member schema required
      (mk_member name (schema_extract_description property).1 (schema_extract_description property).2
         (required && bool_decide (name ∈ ov_required object)))
| member_any_of schema object l s required m :
    struct_match schema = SFlat (Some (any_of_only l)) object → s ∈ l → Member s false m →
    Member schema required m
| member_all_of schema object s required m :
    struct_match schema = SFlat (Some (all_of_only s)) object → Member s required m →
    Member schema required m.

(** The subschemas a flat structure may have. *)
Lemma subschema_members_cases impl required subschemas :
  (subschemas = None ∧ subschema_members impl required subschemas = Some (Ok [])) ∨
  (∃ l, subschemas = Some (any_of_only l) ∧
     subschema_members impl required subschemas = collect_members (λ s, impl s false) l) ∨
  (∃ s, subschemas = Some (all_of_only s) ∧ subschema_members impl required subschemas = impl s required) ∨
  (∃ e, subschema_members impl required subschemas = Some (Err e)).
Proof.
  destruct subschemas as [[[[|s [|s' all_of]]|] [any_of|] [one_of|] [not|] [i|] [th|] [el|]]|];
    first [by left|right; by eauto].
Qed.

Lemma object_members_elem required object m :
  m ∈ object_members required object ↔
  ∃ ov name property, object = Some ov ∧ (name, property) ∈ ov_properties ov ∧
    m = mk_member name (schema_extract_description property).1 (schema_extract_description property).2
          (required && bool_decide (name ∈ ov_required ov)).
Proof.
  destruct object as [ov|]; simpl; [|split; [intros H'; by inversion H'|naive_solver]].
  rewrite list_elem_of_fmap. split.
  - intros ([name property] & -> & Hin). exists ov, name, property. by destruct (schema_extract_description property).
  - intros (? & name & property & [= <-] & Hin & ->). exists (name, property).
    by destruct (schema_extract_description property).
Qed.

Lemma collect_members_elem f (P : Schema → StructMember → Prop) l ms :
  (∀ s ms, f s = Some (Ok ms) → ∀ m, m ∈ ms ↔ P s m) →
  collect_members f l = Some (Ok ms) → ∀ m, m ∈ ms ↔ ∃ s, s ∈ l ∧ P s m.
Proof.
  intros Hf. revert ms. induction l as [|s l IH]; intros ms; simpl.
  { intros [= <-] m. split; [intros Hm; by inversion Hm|intros (? & Hs & _); by inversion Hs]. }
  destruct (f s) as [[ms1|e|msg]|] eqn:Es; try done. intros ([r|e|msg] & Hr & E)%fmap_Some m; try done.
  simpl in E. injection E as ->. rewrite elem_of_app, (Hf s ms1 Es m), (IH r Hr m).
  setoid_rewrite elem_of_cons. naive_solver.
Qed.

Lemma schema2struct_impl_elem fuel schema required ms :
  schema2struct_impl dereference fuel schema required = Some (Ok ms) → ∀ m, m ∈ ms ↔ Member schema required m.
Proof.
  revert schema required ms. induction fuel as [|fuel IH]; intros schema required ms; [done|]. simpl.
  destruct (struct_match schema) as [|subschemas object| |] eqn:Em; try done.
  - destruct (dereference schema) as [s'|] eqn:Ed; [|done]. intros Hs m. rewrite (IH _ _ _ Hs m). split.
    + by apply member_reference.
    + intros Hm. inversion Hm; congruence.
  - intros ([ms'|e|msg] & Hs & E)%fmap_Some m; try done. simpl in E. injection E as ->.
    rewrite elem_of_app, object_members_elem.
    destruct (subschema_members_cases (schema2struct_impl dereference fuel) required subschemas)
      as [[-> E]|[(l & -> & E)|[(s & -> & E)|[e E]]]]; rewrite E in Hs; [injection Hs as <-| | |done].
    + split.
      * intros [(ov & name & property & -> & Hin & ->)|Hm]; [by eapply member_property|by inversion Hm].
      * intros Hm. left. inversion Hm; simplify_eq; try congruence. do 3 eexists.
        rewrite Em in *. by simplify_eq.
    + rewrite (collect_members_elem _ (λ s m, Member s false m) l ms' (λ s ms Hs, IH s false ms Hs) Hs m). split.
      * intros [(ov & name & property & -> & Hin & ->)|(s & Hin & Hm)];
          [by eapply member_property|by eapply member_any_of].
      * intros Hm. inversion Hm; rewrite Em in *; simplify_eq; [left; by do 3 eexists|right; by eexists].
    + rewrite (IH _ _ _ Hs m). split.
      * intros [(ov & name & property & -> & Hin & ->)|Hm]; [by eapply member_property|by eapply member_all_of].
      * intros Hm. inversion Hm; rewrite Em in *; simplify_eq; [left; by do 3 eexists|by right].
Qed.

Lemma member_optional schema m : Member schema false m → sm_required m = false.
Proof. remember false as b. induction 1; subst; auto. Qed.

Lemma collect_members_more f g l r :
  (∀ s r, f s = Some r → g s = Some r) → collect_members f l = Some r → collect_members g l = Some r.
Proof.
  intros Hfg. revert r. induction l as [|s l IH]; intros r; simpl; [done|].
  destruct (f s) as [[ms| |]|] eqn:E; [|by rewrite (Hfg _ _ E)..|done]. rewrite (Hfg _ _ E).
  intros (r' & Hr & ->)%fmap_Some. by rewrite (IH _ Hr).
Qed.

Lemma impl_unfold fuel schema required :
  schema2struct_impl dereference (S fuel) schema required =
  match struct_match schema with
  | SReference =>
      match dereference schema with
      | Some schema => schema2struct_impl dereference fuel schema required
      | None => Some (Panic "invalid reference")
      end
  | SFlat subschemas object =>
      (λ r, ms ← r; Ok (object_members required object ++ ms)) <$>
        subschema_members (schema2struct_impl dereference fuel) required subschemas
  | SEnum => Some (Err (InvalidEnum schema))
  | SInvalid => Some (Err (InvalidType schema))
  end.
Proof. done. Qed.

(** More fuel does not change an answer. *)
Lemma schema2struct_impl_more fuel schema required r :
  schema2struct_impl dereference fuel schema required = Some r →
  schema2struct_impl dereference (S fuel) schema required = Some r.
Proof.
  revert schema required r. induction fuel as [|fuel IH]; intros schema required r; [done|].
  rewrite !impl_unfold. intros E. destruct (struct_match schema) as [|subschemas object| |]; try done.
  - destruct (dereference schema); [by apply IH|done].
  - apply fmap_Some in E as (r' & E & ->).
    apply fmap_Some. exists r'. split; [|done].
    destruct subschemas as [[[[|s [|s' all_of]]|] [any_of|] [one_of|] [not|] [i|] [th|] [el|]]|]; try done.
    + by apply IH.
    + apply (collect_members_more _ _ _ _ (λ s r, IH s false r) E).
Qed.

(** The schemas that [schema2struct_impl] goes on to. *)
Definition struct_children (s : Schema) : list Schema :=
  match struct_match s with
  | SReference => option_list (dereference s)
  | SFlat (Some (mk_subschemas None (Some l) None None None None None)) _ => l
  | SFlat (Some (mk_subschemas (Some [s]) None None None None None None)) _ => [s]
  | _ => []
  end.
Definition struct_call (t s : Schema) : Prop := t ∈ struct_children s.

Local Abbreviation answers fuel s required := (is_Some (schema2struct_impl dereference fuel s required)).

Lemma schema2struct_impl_mono fuel fuel' s required r :
  fuel ≤ fuel' → schema2struct_impl dereference fuel s required = Some r →
  schema2struct_impl dereference fuel' s required = Some r.
Proof. induction 1 as [|fuel' _ IH]; [done|]. intros E%IH. by apply schema2struct_impl_more. Qed.

Lemma collect_members_some f l : (∀ s, s ∈ l → is_Some (f s)) → is_Some (collect_members f l).
Proof.
  induction l as [|s l IH]; simpl; intros Hf; [by eauto|].
  destruct (Hf s) as [[ms|e|msg] ->]; [left| |by eauto..].
  destruct IH as [r ->]; [|by eauto]. intros s' Hs. apply Hf. by right.
Qed.

Lemma schema2struct_impl_step fuel s required :
  (∀ t required', struct_call t s → answers fuel t required') → answers (S fuel) s required.
Proof.
  intros Hc. rewrite impl_unfold. destruct (struct_match s) as [|subschemas object| |] eqn:Em; [|apply fmap_is_Some|by eauto..].
  - destruct (dereference s) as [s'|] eqn:Ed; [|by eauto].
    apply Hc. unfold struct_call, struct_children. rewrite Em, Ed. by apply list_elem_of_singleton.
  - destruct (subschema_members_cases (schema2struct_impl dereference fuel) required subschemas)
      as [[-> E]|[(l & -> & E)|[(s' & -> & E)|[e E]]]]; rewrite E; [by eauto| | |by eauto].
    + apply collect_members_some. intros s' Hs'. apply Hc. unfold struct_call, struct_children. by rewrite Em.
    + apply Hc. unfold struct_call, struct_children. rewrite Em. by apply list_elem_of_singleton.
Qed.

Lemma enough_for_all (l : list Schema) :
  (∀ t, t ∈ l → ∃ fuel, ∀ required, answers fuel t required) →
  ∃ fuel, ∀ t required, t ∈ l → answers fuel t required.
Proof.
  induction l as [|s l IH]; intros Hl; [exists 0; by intros ? ? ?%not_elem_of_nil|].
  destruct (Hl s) as [f1 H1]; [left|]. destruct IH as [f2 H2]; [intros; apply Hl; by right|].
  exists (f1 `max` f2). intros t required [->|Ht]%elem_of_cons.
  - destruct (H1 required) as [r Hr]. exists r. apply (schema2struct_impl_mono f1); [lia|done].
  - destruct (H2 t required Ht) as [r Hr]. exists r. apply (schema2struct_impl_mono f2); [lia|done].
Qed.

Lemma schema2struct_impl_terminates s :
  Acc struct_call s → ∃ fuel, ∀ required, answers fuel s required.
Proof.
  induction 1 as [s _ IH]. destruct (enough_for_all (struct_children s) IH) as [fuel Hf].
  exists (S fuel). intros required. apply schema2struct_impl_step. intros t required'. by apply Hf.
Qed.

(** C35: the members that [schema2struct] finds in the schema of a flat
    structure are exactly those that the schema describes: the properties of its
    object, of what its [allOf] refers to and of its alternatives, through
    references; none of those found below an alternative is required.  It
    gives an answer whenever following references and subschemas ends. *)
Theorem schema2struct_members schema required :
  (∀ fuel ms, schema2struct_impl dereference fuel schema required = Some (Ok ms) →
     (∀ m, m ∈ ms ↔ Member schema required m) ∧
     (∀ object l s m, struct_match schema = SFlat (Some (any_of_only l)) object → s ∈ l → Member s false m →
        m ∈ ms ∧ sm_required m = false)) ∧
  (Acc struct_call schema →
     ∃ r fuel0, ∀ fuel, fuel0 ≤ fuel → schema2struct_impl dereference fuel schema required = Some r).
Proof.
  split.
  - intros fuel ms Hs. pose proof (schema2struct_impl_elem fuel schema required ms Hs) as Hms. split; [exact Hms|].
    intros object l s m Hm Hin Hmem. split; [by eapply Hms, member_any_of|by eapply member_optional].
  - intros (fuel0 & Hf)%schema2struct_impl_terminates. destruct (Hf required) as [r Hr].
    exists r, fuel0. intros fuel Hle. by apply (schema2struct_impl_mono fuel0).
Qed.

(** A schema with only a type other than object counts as a structure without
    members. *)
Lemma scalar_has_no_members fuel t required :
  schema2struct_impl dereference (S fuel) (typed_schema t) required = Some (Ok []).
Proof. done. Qed.
End members.
