(* ===== verification/SchemaTranslate.v ===== *)
(** * From JSON Schema to OpenAPI

    [j2oas_schema] of [dropshot/src/schema_util.rs]: the translation of a
    [schemars] schema into the schema of an OpenAPI document.  It panics on what
    OpenAPI 3.0 cannot say; the texts of panics leave out the values that they
    print.  The translation of each part takes the translation of subschemas,
    [rec], which [j2oas_schema] then is. *)
From S2P Require Import Prelude BTree Externals Schema OpenApi.

Section translate.
Context `{JsonCrate}.

Definition invalid {A} : panics A := Panic "invalid".

(** The schema [{}], and its negation. *)
Definition any_schema : OSchema := mk_oschema default_data (KAny default_any).
Definition never_kind : @SchemaKind _ OSchema := KNot (Item any_schema).

(** [map.get("nullable")] is [true]. *)
Definition schema_object_is_nullable (obj : @SchemaObject _ Schema) : bool :=
  match bt_get "nullable" (so_extensions obj) with Some (JBool true) => true | _ => false end.

(** ** Values of an enumeration *)

Definition unexpected {A} : panics A := Panic "unexpected enumeration value".

Definition unwrap {A} (o : option A) : panics A := expect o "called `Option::unwrap()` on a `None` value".

Definition enum_bool (v : Json) : panics (option bool) :=
  match v with JNull => Ok None | JBool b => Ok (Some b) | _ => unexpected end.

Definition enum_integer (v : Json) : panics (option Z) :=
  match v with JNull => Ok None | JNumber n => Some <$> unwrap (num_as_i64 n) | _ => unexpected end.

Definition enum_number (v : Json) : panics (option F64) :=
  match v with JNull => Ok None | JNumber n => Some <$> unwrap (num_as_f64 n) | _ => unexpected end.

Definition enum_string (v : Json) : panics (option string) :=
  match v with JNull => Ok None | JString s => Ok (Some s) | _ => unexpected end.

Definition enumeration {A} (f : Json → panics A) (enum_values : option (list Json)) : panics (list A) :=
  try_map f (default [] enum_values).

(** ** Types without subschemas *)

(** A bound and whether it is exclusive; both kinds of bound cannot be said. *)
Definition bound {A} (inclusive exclusive : option A) : panics (option A * bool) :=
  match inclusive, exclusive with
  | None, None => Ok (None, false)
  | Some f, None => Ok (Some f, false)
  | None, Some f => Ok (Some f, true)
  | _, _ => invalid
  end.

Definition j2oas_integer (format : option string) (number : option NumberValidation)
    (enum_values : option (list Json)) : panics (@SchemaKind _ OSchema) :=
  let format := match format with
    | None => Empty
    | Some f => if String.eqb f "int32" then Variant Int32 else if String.eqb f "int64" then Variant Int64 else Unknown f
    end in
  '(multiple_of, (minimum, exclusive_minimum), (maximum, exclusive_maximum)) ←
    match number with
    | None => Ok (None, (None, false), (None, false))
    | Some number =>
        minimum ← bound (f64_as_i64 <$> nv_minimum number) (f64_as_i64 <$> nv_exclusive_minimum number);
        maximum ← bound (f64_as_i64 <$> nv_maximum number) (f64_as_i64 <$> nv_exclusive_maximum number);
        Ok (f64_as_i64 <$> nv_multiple_of number, minimum, maximum)
    end;
  enumeration ← enumeration enum_integer enum_values;
  Ok (KType (TInteger (mk_integer_type format multiple_of exclusive_minimum exclusive_maximum minimum maximum
                         enumeration))).

Definition j2oas_number (format : option string) (number : option NumberValidation)
    (enum_values : option (list Json)) : panics NumberType :=
  let format := match format with
    | None => Empty
    | Some f => if String.eqb f "float" then Variant Float else if String.eqb f "double" then Variant Double else Unknown f
    end in
  '(multiple_of, (minimum, exclusive_minimum), (maximum, exclusive_maximum)) ←
    match number with
    | None => Ok (None, (None, false), (None, false))
    | Some number =>
        minimum ← bound (nv_minimum number) (nv_exclusive_minimum number);
        maximum ← bound (nv_maximum number) (nv_exclusive_maximum number);
        Ok (nv_multiple_of number, minimum, maximum)
    end;
  enumeration ← enumeration enum_number enum_values;
  Ok (mk_number_type format multiple_of exclusive_minimum exclusive_maximum minimum maximum enumeration).

Definition string_format (format : option string) : VariantOrUnknownOrEmpty StringFormat :=
  match format with
  | None => Empty
  | Some f =>
      if String.eqb f "date" then Variant Date
      else if String.eqb f "date-time" then Variant DateTime
      else if String.eqb f "password" then Variant Password
      else if String.eqb f "byte" then Variant Byte
      else if String.eqb f "binary" then Variant Binary
      else Unknown f
  end.

Definition j2oas_string (format : option string) (string_ : option StringValidation)
    (enum_values : option (list Json)) : panics StringType :=
  _ ← match enum_values with Some [] => Panic "assertion failed: !v.is_empty()" | _ => Ok () end;
  enumeration ← enumeration enum_string enum_values;
  Ok (mk_string_type (string_format format) (string_ ≫= st_pattern) enumeration
        (string_ ≫= st_min_length) (string_ ≫= st_max_length)).

(** ** Types with subschemas *)

Variable rec : option string → Schema → panics (ReferenceOr OSchema).

Definition j2oas_array (array : option (@ArrayValidation Schema)) : panics (@ArrayType OSchema) :=
  match array with
  | None => Panic "called `Option::unwrap()` on a `None` value"
  | Some (mk_array_validation items _ max_items min_items unique_items _) =>
      items ← match items with
        | Some (Single schema) => s ← rec None schema; Ok (Some s)
        | Some (Vec _) => Panic "OpenAPI v3.0.x cannot support tuple-like arrays"
        | None => Ok None
        end;
      Ok (mk_array_type items min_items max_items (default false unique_items))
  end.

Definition j2oas_object (object : option (@ObjectValidation Schema)) : panics (@ObjectType OSchema) :=
  match object with
  | None => Ok default_object_type
  | Some (mk_object_validation max_properties min_properties required properties _ additional_properties _) =>
      properties ← try_values (rec None) properties;
      additional_properties ← match additional_properties with
        | None => Ok None
        | Some (Bool b) => Ok (Some (AnyProperties b))
        | Some (Object _ as schema) => s ← rec None schema; Ok (Some (PropertiesSchema s))
        end;
      Ok (mk_object_type properties required additional_properties min_properties max_properties)
  end.

Definition j2oas_schema_vec (schemas : option (list Schema)) : panics (list (ReferenceOr OSchema)) :=
  match schemas with None => Ok [] | Some v => try_map (rec None) v end.

Definition j2oas_subschemas (subschemas : @SubschemaValidation Schema) : panics (@SchemaKind _ OSchema) :=
  match subschemas with
  | mk_subschemas all_of any_of one_of not _ _ _ =>
      match all_of, any_of, one_of, not with
      | Some l, None, None, None => KAllOf <$> j2oas_schema_vec (Some l)
      | None, Some l, None, None => KAnyOf <$> j2oas_schema_vec (Some l)
      | None, None, Some l, None => KOneOf <$> j2oas_schema_vec (Some l)
      | None, None, None, Some schema => KNot <$> rec None schema
      | _, _, _, _ => Panic "invalid subschema"
      end
  end.

(** The name of a type, as JSON Schema has it. *)
Definition instance_type_name (t : InstanceType) : string :=
  match t with
  | INull => "null" | IBoolean => "boolean" | IObject => "object" | IArray => "array"
  | INumber => "number" | IString => "string" | IInteger => "integer"
  end.

Definition any_enumeration (enum_values : option (list Json)) (const_value : option Json) : panics (list Json) :=
  match enum_values, const_value with
  | None, None => Ok []
  | Some values, Some one_value =>
      if negb (json_contains values one_value) then Panic "both enum and const are present and also conflict"
      else Ok [one_value]
  | None, Some value => Ok [value]
  | Some values, None => Ok values
  end.

(** [j2oas_any], for the fields of a schema with a type and subschemas. *)
Definition j2oas_any (ty : option InstanceType) (obj : @SchemaObject _ Schema) : panics (@SchemaKind _ OSchema) :=
  match obj with
  | mk_schema_object _ _ format enum_values const_value subschemas number string_ array object _ _ =>
      enumeration ← any_enumeration enum_values const_value;
      object_type ← j2oas_object object;
      array_type ← match array with None => Ok (mk_array_type None None None false) | Some _ => j2oas_array array end;
      string_type ← j2oas_string None string_ None;
      number_type ← j2oas_number None number None;
      '(all_of, any_of, one_of, not) ← match subschemas with
        | None => Ok ([], [], [], None)
        | Some (mk_subschemas all_of any_of one_of not _ _ _) =>
            all_of ← j2oas_schema_vec all_of;
            any_of ← j2oas_schema_vec any_of;
            one_of ← j2oas_schema_vec one_of;
            not ← match not with None => Ok None | Some schema => s ← rec None schema; Ok (Some s) end;
            Ok (all_of, any_of, one_of, not)
        end;
      Ok (KAny (mk_any_schema (instance_type_name <$> ty) (ss_pattern string_type) (nt_multiple_of number_type)
        (if nt_exclusive_minimum number_type then Some true else None)
        (if nt_exclusive_maximum number_type then Some true else None)
        (nt_minimum number_type) (nt_maximum number_type)
        (ot_properties object_type) (ot_required object_type) (ot_additional_properties object_type)
        (ot_min_properties object_type) (ot_max_properties object_type)
        (at_items array_type) (at_min_items array_type) (at_max_items array_type)
        (array ≫= av_unique_items) enumeration format
        (ss_min_length string_type) (ss_max_length string_type) one_of all_of any_of not))
  end.

(** The type of a schema: a type array cannot be said. *)
Definition object_type_of (ty : option (SingleOrVec InstanceType)) : panics (option InstanceType) :=
  match ty with
  | Some (Single ty) => Ok (Some ty)
  | Some (Vec _) => Panic "a type array is unsupported by openapiv3"
  | None => Ok None
  end.

Definition j2oas_schema_object_kind (obj : @SchemaObject _ Schema) : panics (@SchemaKind _ OSchema) :=
  match obj with
  | mk_schema_object _ instance_type format enum_values _ subschemas number string_ array object _ _ =>
      if match enum_values with Some [] => true | _ => false end then Ok never_kind
      else
        ty ← object_type_of instance_type;
        match ty, subschemas with
        | Some INull, None => Ok (KType (TString (mk_string_type Empty None [None] None None)))
        | Some IBoolean, None => e ← enumeration enum_bool enum_values; Ok (KType (TBoolean e))
        | Some IObject, None => t ← j2oas_object object; Ok (KType (TObject t))
        | Some IArray, None => t ← j2oas_array array; Ok (KType (TArray t))
        | Some INumber, None => t ← j2oas_number format number enum_values; Ok (KType (TNumber t))
        | Some IString, None => t ← j2oas_string format string_ enum_values; Ok (KType (TString t))
        | Some IInteger, None => j2oas_integer format number enum_values
        | None, Some subschemas => j2oas_subschemas subschemas
        | None, None => Ok (KAny default_any)
        | Some _, Some _ => j2oas_any ty obj
        end
  end.

(** The data of a translated schema. *)
Definition object_data (name : option string) (obj : @SchemaObject _ Schema) : SchemaData :=
  let md {A} (f : Metadata → A) (a : A) := match so_metadata obj with Some m => f m | None => a end in
  mk_schema_data (schema_object_is_nullable obj) (md md_read_only false) (md md_write_only false)
    (md md_deprecated false) (bt_get "example" (so_extensions obj))
    (match name with Some name => Some name | None => md md_title None end)
    (md md_description None) (md md_default None)
    (List.filter (λ p : string * Json, starts_with "x-" p.1) (so_extensions obj)).

(** A nullable reference: a reference cannot have siblings. *)
Definition nullable_reference (reference : string) : OSchema :=
  mk_oschema (mk_schema_data true false false false None None None None []) (KAllOf [Reference reference]).

Definition j2oas_schema_object (name : option string) (obj : @SchemaObject _ Schema) :
    panics (ReferenceOr OSchema) :=
  match so_reference obj with
  | Some reference =>
      Ok (if schema_object_is_nullable obj then Item (nullable_reference reference) else Reference reference)
  | None => kind ← j2oas_schema_object_kind obj; Ok (Item (mk_oschema (object_data name obj) kind))
  end.
End translate.

Fixpoint j2oas_schema `{JsonCrate} (name : option string) (schema : Schema) : panics (ReferenceOr OSchema) :=
  match schema with
  | Bool true => Ok (Item any_schema)
  | Bool false => Ok (Item (mk_oschema default_data never_kind))
  | Object obj => j2oas_schema_object j2oas_schema name obj
  end.
