(* ===== verification/SchemaSemantics.v ===== *)
(** * What schemas accept

    The values that a JSON schema and an OpenAPI schema accept, and the schemas
    whose translation by [j2oas_schema] accepts exactly the same values.

    The two validators follow the specifications of JSON Schema and of OpenAPI
    3.0, with [nullable] as the permission of null that the code takes it for.
    References are interpreted by [rho], the same for both; the comparison of
    numbers, the matching of patterns, the counting of characters and the check
    of formats are a class. *)
From S2P Require Import Prelude BTree Externals Schema OpenApi SchemaTranslate.

Class JsonSemantics `{JsonCrate} := {
  num_is_integer : Number → bool;
  num_compare : Number → F64 → comparison;
  num_compare_z : Number → Z → comparison;
  num_multiple_of : Number → F64 → bool;
  num_multiple_of_z : Number → Z → bool;
  (** The float is an integer that [i64] has. *)
  f64_integral : F64 → bool;
  char_count : string → N;
  pattern_match : string → string → bool;
  format_ok : string → Json → bool;
}.

Class JsonSemanticsLaws `{JsonSemantics} : Prop := {
  integral_compare : ∀ f n, f64_integral f = true → num_compare_z n (f64_as_i64 f) = num_compare n f;
  integral_multiple : ∀ f n, f64_integral f = true → num_multiple_of_z n (f64_as_i64 f) = num_multiple_of n f;
  num_as_i64_inj : ∀ a b z, num_as_i64 a = Some z → num_as_i64 b = Some z → a = b;
}.

Section semantics.
Context `{JsonSemantics}.

Definition opt_ok {A} (f : A → bool) (o : option A) : bool := match o with None => true | Some a => f a end.

Definition is_null (v : Json) : bool := match v with JNull => true | _ => false end.

Definition has_type (t : InstanceType) (v : Json) : bool :=
  match t, v with
  | INull, JNull | IBoolean, JBool _ | IObject, JObject _ | IArray, JArray _
  | INumber, JNumber _ | IString, JString _ => true
  | IInteger, JNumber n => num_is_integer n
  | _, _ => false
  end.

(** Lower and upper bounds. *)
Definition at_least (c : comparison) : bool := match c with Lt => false | _ => true end.
Definition more_than (c : comparison) : bool := match c with Gt => true | _ => false end.
Definition at_most (c : comparison) : bool := match c with Gt => false | _ => true end.
Definition less_than (c : comparison) : bool := match c with Lt => true | _ => false end.

Definition count_ok (mn mx : option N) (n : N) : bool :=
  opt_ok (λ m, (m <=? n)%N) mn && opt_ok (λ m, (n <=? m)%N) mx.

(** [uniqueItems]. *)
Fixpoint items_unique (l : list Json) : bool :=
  match l with [] => true | x :: l => negb (json_contains l x) && items_unique l end.

Definition string_ok (pattern : option string) (mn mx : option N) (v : Json) : bool :=
  match v with
  | JString s => opt_ok (λ p, pattern_match p s) pattern && count_ok mn mx (char_count s)
  | _ => true
  end.

(** Formats say something about strings and numbers. *)
Definition scalar_format_ok (format : option string) (v : Json) : bool :=
  match v with JString _ | JNumber _ => opt_ok (λ f, format_ok f v) format | _ => true end.

(** The schemas that must hold of the values of an object's properties. *)
Section objects.
Context {S : Type} (valid : S → Json → bool).

Definition properties_ok (properties : list (string * S)) (o : btree Json) : bool :=
  forallb (λ p : string * S, opt_ok (valid p.2) (bt_get p.1 o)) properties.

Definition required_ok (required : list string) (o : btree Json) : bool :=
  forallb (λ k, bt_contains k o) required.
End objects.

(** The values of an object's other properties. *)
Definition others_ok (valid : Json → bool) (keys : list string) (o : btree Json) : bool :=
  forallb (λ p : string * Json, bool_decide (p.1 ∈ keys) || valid p.2) o.

(** How many of the schemas hold. *)
Definition count_valid {S} (valid : S → bool) (l : list S) : nat := length (List.filter valid l).

(** ** JSON schemas *)

Definition number_ok (nv : NumberValidation) (v : Json) : bool :=
  match v with
  | JNumber n =>
      opt_ok (num_multiple_of n) (nv_multiple_of nv) &&
      opt_ok (λ f, at_most (num_compare n f)) (nv_maximum nv) &&
      opt_ok (λ f, less_than (num_compare n f)) (nv_exclusive_maximum nv) &&
      opt_ok (λ f, at_least (num_compare n f)) (nv_minimum nv) &&
      opt_ok (λ f, more_than (num_compare n f)) (nv_exclusive_minimum nv)
  | _ => true
  end.

Section js.
Variable valid : Schema → Json → bool.

Section tuples.
Variable rest_ok : Json → bool.

Fixpoint tuple_items (schemas : list Schema) (l : list Json) : bool :=
  match schemas with
  | [] => forallb rest_ok l
  | s :: schemas => match l with [] => true | x :: l => valid s x && tuple_items schemas l end
  end.
End tuples.

(** [items] as a list, with [additionalItems]. *)
Definition tuple_ok (schemas : list Schema) (additional : option Schema) (l : list Json) : bool :=
  match additional with None => tuple_items (λ _, true) schemas l | Some s => tuple_items (valid s) schemas l end.

Definition array_ok (av : @ArrayValidation Schema) (v : Json) : bool :=
  match av, v with
  | mk_array_validation items additional mx mn unique contains, JArray l =>
      match items with
      | None => true
      | Some (Single s) => forallb (valid s) l
      | Some (Vec schemas) => tuple_ok schemas additional l
      end &&
      count_ok mn mx (N.of_nat (length l)) &&
      (negb (default false unique) || items_unique l) &&
      match contains with None => true | Some s => existsb (valid s) l end
  | _, _ => true
  end.

Definition object_ok (ov : @ObjectValidation Schema) (v : Json) : bool :=
  match ov, v with
  | mk_object_validation mx mn required properties patterns additional names, JObject o =>
      properties_ok valid properties o && required_ok required o &&
      forallb (λ p : string * Schema,
        forallb (λ q : string * Json, negb (pattern_match p.1 q.1) || valid p.2 q.2) o) patterns &&
      match additional with
      | None => true
      | Some s => forallb (λ q : string * Json,
          bool_decide (q.1 ∈ properties.*1) || existsb (λ p, pattern_match p q.1) patterns.*1 || valid s q.2) o
      end &&
      match names with None => true | Some s => forallb (λ q : string * Json, valid s (JString q.1)) o end &&
      count_ok mn mx (N.of_nat (length o))
  | _, _ => true
  end.

Definition subschemas_ok (sv : @SubschemaValidation Schema) (v : Json) : bool :=
  match sv with
  | mk_subschemas all_of any_of one_of not if_ then_ else_ =>
      match all_of with None => true | Some l => forallb (λ s, valid s v) l end &&
      match any_of with None => true | Some l => existsb (λ s, valid s v) l end &&
      match one_of with None => true | Some l => Nat.eqb (count_valid (λ s, valid s v) l) 1 end &&
      match not with None => true | Some s => negb (valid s v) end &&
      match if_ with
      | None => true
      | Some s =>
          if valid s v then match then_ with None => true | Some s => valid s v end
          else match else_ with None => true | Some s => valid s v end
      end
  end.

Definition type_ok (ty : option (SingleOrVec InstanceType)) (v : Json) : bool :=
  match ty with None => true | Some (Single t) => has_type t v | Some (Vec l) => existsb (λ t, has_type t v) l end.

Definition base_ok (obj : @SchemaObject _ Schema) (v : Json) : bool :=
  match obj with
  | mk_schema_object _ ty format enum_values const_value subschemas number string_ array object _ _ =>
      type_ok ty v && scalar_format_ok format v &&
      opt_ok (λ values, json_contains values v) enum_values && opt_ok (json_eqb v) const_value &&
      match subschemas with None => true | Some sv => subschemas_ok sv v end &&
      opt_ok (λ nv, number_ok nv v) number &&
      opt_ok (λ st, string_ok (st_pattern st) (st_min_length st) (st_max_length st) v) string_ &&
      match array with None => true | Some av => array_ok av v end &&
      match object with None => true | Some ov => object_ok ov v end
  end.
End js.

(** What references stand for. *)
Variable rho : string → Json → bool.

(** A reference has no other constraints than whether it is nullable. *)
Fixpoint js_valid (schema : Schema) (v : Json) : bool :=
  match schema with
  | Bool b => b
  | Object obj =>
      schema_object_is_nullable obj && is_null v ||
      match so_reference obj with
      | Some r => rho r v
      | None => base_ok js_valid obj v
      end
  end.

(** ** OpenAPI schemas *)

(** An enumeration, in which [None] is null; an empty one says nothing. *)
Definition enum_ok {A} (eqb : A → bool) (e : list (option A)) : bool :=
  match e with
  | [] => true
  | _ => existsb (λ o, match o with None => false | Some a => eqb a end) e
  end.

Definition has_none {A} (e : list (option A)) : bool :=
  existsb (λ o, match o with None => true | Some _ => false end) e.

Definition format_of {A} (f : A → string) (o : VariantOrUnknownOrEmpty A) : option string :=
  match o with Variant a => Some (f a) | Unknown s => Some s | Empty => None end.

Definition integer_format_name (f : IntegerFormat) : string :=
  match f with Int32 => "int32" | Int64 => "int64" end.
Definition number_format_name (f : NumberFormat) : string :=
  match f with Float => "float" | Double => "double" end.
Definition string_format_name (f : StringFormat) : string :=
  match f with
  | Date => "date" | DateTime => "date-time" | Password => "password" | Byte => "byte" | Binary => "binary"
  end.

(** A type by its name. *)
Definition named_type_ok (name : string) (v : Json) : bool :=
  existsb (λ t, String.eqb (instance_type_name t) name && has_type t v)
    [INull; IBoolean; IObject; IArray; INumber; IString; IInteger].

(** Bounds that are inclusive unless a flag says otherwise. *)
Definition range_ok {A} (compare : A → comparison) (minimum maximum : option A) (exclusive_minimum exclusive_maximum : bool) :
    bool :=
  opt_ok (λ m, (if exclusive_minimum then more_than else at_least) (compare m)) minimum &&
  opt_ok (λ m, (if exclusive_maximum then less_than else at_most) (compare m)) maximum.

Definition string_type_ok (t : StringType) (v : Json) : bool :=
  match v with
  | JNull => has_none (ss_enumeration t)
  | JString s =>
      enum_ok (String.eqb s) (ss_enumeration t) &&
      string_ok (ss_pattern t) (ss_min_length t) (ss_max_length t) v &&
      opt_ok (λ f, format_ok f v) (format_of string_format_name (ss_format t))
  | _ => false
  end.

Definition numbers_ok (multiple_of minimum maximum : option F64) (exclusive_minimum exclusive_maximum : bool)
    (v : Json) : bool :=
  match v with
  | JNumber n =>
      opt_ok (num_multiple_of n) multiple_of &&
      range_ok (num_compare n) minimum maximum exclusive_minimum exclusive_maximum
  | _ => true
  end.

Definition number_type_ok (t : NumberType) (v : Json) : bool :=
  match v with
  | JNull => has_none (nt_enumeration t)
  | JNumber n =>
      enum_ok (λ f, match num_compare n f with Eq => true | _ => false end) (nt_enumeration t) &&
      numbers_ok (nt_multiple_of t) (nt_minimum t) (nt_maximum t) (nt_exclusive_minimum t) (nt_exclusive_maximum t) v &&
      opt_ok (λ f, format_ok f v) (format_of number_format_name (nt_format t))
  | _ => false
  end.

Definition integer_type_ok (t : IntegerType) (v : Json) : bool :=
  match v with
  | JNull => has_none (it_enumeration t)
  | JNumber n =>
      num_is_integer n &&
      enum_ok (λ z, bool_decide (num_as_i64 n = Some z)) (it_enumeration t) &&
      opt_ok (num_multiple_of_z n) (it_multiple_of t) &&
      range_ok (num_compare_z n) (it_minimum t) (it_maximum t) (it_exclusive_minimum t) (it_exclusive_maximum t) &&
      opt_ok (λ f, format_ok f v) (format_of integer_format_name (it_format t))
  | _ => false
  end.

Definition boolean_type_ok (e : list (option bool)) (v : Json) : bool :=
  match v with JNull => has_none e | JBool b => enum_ok (Bool.eqb b) e | _ => false end.

Section oas.
Variable valid : OSchema → Json → bool.

Definition ref_ok (r : ReferenceOr OSchema) (v : Json) : bool :=
  match r with Item s => valid s v | Reference r => rho r v end.

Definition items_ok (items : option (ReferenceOr OSchema)) (mn mx : option N) (unique : bool) (v : Json) : bool :=
  match v with
  | JArray l =>
      match items with None => true | Some s => forallb (ref_ok s) l end &&
      count_ok mn mx (N.of_nat (length l)) && (negb unique || items_unique l)
  | _ => true
  end.

Definition members_ok (properties : IndexMap (ReferenceOr OSchema)) (required : list string)
    (additional : option (AdditionalProperties OSchema)) (mn mx : option N) (v : Json) : bool :=
  match v with
  | JObject o =>
      properties_ok ref_ok properties o && required_ok required o &&
      match additional with
      | None => true
      | Some (AnyProperties b) => others_ok (λ _, b) (properties.*1) o
      | Some (PropertiesSchema s) => others_ok (ref_ok s) (properties.*1) o
      end &&
      count_ok mn mx (N.of_nat (length o))
  | _ => true
  end.

(** Empty lists of alternatives say nothing here. *)
Definition combinators_ok (all_of any_of one_of : list (ReferenceOr OSchema)) (not : option (ReferenceOr OSchema))
    (v : Json) : bool :=
  forallb (λ s, ref_ok s v) all_of &&
  match any_of with [] => true | _ => existsb (λ s, ref_ok s v) any_of end &&
  match one_of with [] => true | _ => Nat.eqb (count_valid (λ s, ref_ok s v) one_of) 1 end &&
  match not with None => true | Some s => negb (ref_ok s v) end.

Definition any_ok (a : @AnySchema _ OSchema) (v : Json) : bool :=
  match a with
  | mk_any_schema typ pattern multiple_of exclusive_minimum exclusive_maximum minimum maximum properties required
      additional min_properties max_properties items min_items max_items unique_items enumeration format
      min_length max_length one_of all_of any_of not =>
      opt_ok (λ name, named_type_ok name v) typ && scalar_format_ok format v &&
      match enumeration with [] => true | _ => json_contains enumeration v end &&
      combinators_ok all_of any_of one_of not v &&
      numbers_ok multiple_of minimum maximum (default false exclusive_minimum) (default false exclusive_maximum) v &&
      string_ok pattern min_length max_length v &&
      items_ok items min_items max_items (default false unique_items) v &&
      members_ok properties required additional min_properties max_properties v
  end.

Definition kind_ok (k : @SchemaKind _ OSchema) (v : Json) : bool :=
  match k with
  | KType (TString t) => string_type_ok t v
  | KType (TNumber t) => number_type_ok t v
  | KType (TInteger t) => integer_type_ok t v
  | KType (TObject (mk_object_type properties required additional mn mx)) =>
      has_type IObject v && members_ok properties required additional mn mx v
  | KType (TArray (mk_array_type items mn mx unique)) => has_type IArray v && items_ok items mn mx unique v
  | KType (TBoolean e) => boolean_type_ok e v
  | KOneOf l => Nat.eqb (count_valid (λ s, ref_ok s v) l) 1
  | KAllOf l => forallb (λ s, ref_ok s v) l
  | KAnyOf l => existsb (λ s, ref_ok s v) l
  | KNot s => negb (ref_ok s v)
  | KAny a => any_ok a v
  end.
End oas.

Fixpoint oas_valid (schema : OSchema) (v : Json) : bool :=
  match schema with
  | mk_oschema data kind => sd_nullable data && is_null v || kind_ok oas_valid kind v
  end.

(** ** The schemas whose meaning the translation keeps *)

Definition no {A} (o : option A) : bool := match o with None => true | Some _ => false end.

(** Not an inclusive and an exclusive bound. *)
Definition one_bound {A} (inclusive exclusive : option A) : bool := no inclusive || no exclusive.

Definition number_translatable (nv : NumberValidation) : bool :=
  one_bound (nv_minimum nv) (nv_exclusive_minimum nv) && one_bound (nv_maximum nv) (nv_exclusive_maximum nv).

Definition integer_translatable (nv : NumberValidation) : bool :=
  number_translatable nv && opt_ok f64_integral (nv_multiple_of nv) &&
  opt_ok f64_integral (nv_minimum nv) && opt_ok f64_integral (nv_exclusive_minimum nv) &&
  opt_ok f64_integral (nv_maximum nv) && opt_ok f64_integral (nv_exclusive_maximum nv).

(** The values of an enumeration, with null where the schema allows it. *)
Definition enum_translatable (f : Json → bool) (nullable : bool) (e : option (list Json)) : bool :=
  opt_ok (forallb (λ v, if is_null v then nullable else f v)) e.

Definition is_i64 (v : Json) : bool :=
  match v with JNumber n => match num_as_i64 n with Some _ => true | None => false end | _ => false end.

Section translatable.
Variable rec : Schema → bool.

Definition array_translatable (av : @ArrayValidation Schema) : bool :=
  match av with
  | mk_array_validation items _ _ _ _ contains =>
      match items with None => true | Some (Single s) => rec s | Some (Vec _) => false end && no contains
  end.

Definition object_translatable (ov : @ObjectValidation Schema) : bool :=
  match ov with
  | mk_object_validation _ _ _ properties patterns additional names =>
      forallb (λ p : string * Schema, rec p.2) properties &&
      match patterns with [] => true | _ => false end &&
      match additional with None => true | Some s => rec s end && no names
  end.

(** Subschemas on their own: one combinator; with a type: any number of
    combinators, with alternatives. *)
Definition subschemas_translatable (sv : @SubschemaValidation Schema) : bool :=
  match sv with
  | mk_subschemas all_of any_of one_of not if_ _ _ =>
      no if_ &&
      match all_of, any_of, one_of, not with
      | Some l, None, None, None | None, Some l, None, None | None, None, Some l, None => forallb rec l
      | None, None, None, Some s => rec s
      | _, _, _, _ => false
      end
  end.

Definition combinators_translatable (sv : @SubschemaValidation Schema) : bool :=
  match sv with
  | mk_subschemas all_of any_of one_of not if_ _ _ =>
      no if_ &&
      match all_of with None => true | Some l => forallb rec l end &&
      match any_of with None => true | Some l => negb (Nat.eqb (length l) 0) && forallb rec l end &&
      match one_of with None => true | Some l => negb (Nat.eqb (length l) 0) && forallb rec l end &&
      match not with None => true | Some s => rec s end
  end.

(** A value of a single type, whose other constraints do not matter. *)
Definition type_translatable (t : InstanceType) (nullable : bool) (obj : @SchemaObject _ Schema) : bool :=
  match obj with
  | mk_schema_object _ _ _ enum_values const_value _ number string_ array object _ _ =>
      no const_value &&
      match t with
      | INull => no enum_values
      | IBoolean => enum_translatable (has_type IBoolean) nullable enum_values
      | IString => enum_translatable (has_type IString) nullable enum_values
      | INumber => no enum_values && opt_ok number_translatable number
      | IInteger => enum_translatable is_i64 nullable enum_values && opt_ok integer_translatable number
      | IArray => no enum_values && match array with None => false | Some av => array_translatable av end
      | IObject => no enum_values && match object with None => true | Some ov => object_translatable ov end
      end
  end.

Definition kind_translatable (nullable : bool) (obj : @SchemaObject _ Schema) : bool :=
  match obj with
  | mk_schema_object _ ty format enum_values const_value subschemas number string_ array object _ _ =>
      match enum_values with Some [] => true | _ =>
        match ty, subschemas with
        | Some (Vec _), _ => false
        | Some (Single t), None => type_translatable t nullable obj
        | Some (Single t), Some sv =>
            match enum_values, const_value with
            | Some values, Some v => json_contains values v
            | _, _ => true
            end &&
            combinators_translatable sv && opt_ok number_translatable number &&
            match array with None => true | Some av => array_translatable av end &&
            match object with None => true | Some ov => object_translatable ov end
        | None, _ =>
            no format && no enum_values && no const_value && no number && no string_ && no array && no object &&
            match subschemas with None => true | Some sv => subschemas_translatable sv end
        end
      end
  end.
End translatable.

Fixpoint translatable (schema : Schema) : bool :=
  match schema with
  | Bool _ => true
  | Object obj =>
      match so_reference obj with
      | Some _ => true
      | None => kind_translatable translatable (schema_object_is_nullable obj) obj
      end
  end.
End semantics.
