(* ===== verification/SchemaCorrect.v ===== *)
(** * The meaning of translated schemas

    [j2oas_schema] answers on every translatable schema, and its answer accepts
    the same values as the schema ([SchemaSemantics]).  Each part of the
    translation keeps the meaning of a part of the schema, provided that the
    translation of subschemas does. *)
From S2P Require Import Prelude BTree Externals Schema OpenApi SchemaTranslate SchemaSemantics.

Section induction.
Context `{JsonCrate} (P : Schema → Prop).

Definition holds_in {A} (Q : A → Prop) (o : option A) : Prop := match o with None => True | Some a => Q a end.

(** [P] holds of the direct subschemas the translation visits. *)
Definition array_holds (av : @ArrayValidation Schema) : Prop :=
  match av with
  | mk_array_validation (Some (Single s)) _ _ _ _ _ => P s
  | _ => True
  end.

Definition object_holds (ov : @ObjectValidation Schema) : Prop :=
  match ov with
  | mk_object_validation _ _ _ properties _ additional _ =>
      Forall (λ p : string * Schema, P p.2) properties ∧ holds_in P additional
  end.

Definition subschemas_hold (sv : @SubschemaValidation Schema) : Prop :=
  match sv with
  | mk_subschemas all_of any_of one_of not _ _ _ =>
      holds_in (Forall P) all_of ∧ holds_in (Forall P) any_of ∧ holds_in (Forall P) one_of ∧ holds_in P not
  end.

Definition parts_hold (obj : @SchemaObject _ Schema) : Prop :=
  match obj with
  | mk_schema_object _ _ _ _ _ subschemas _ _ array object _ _ =>
      holds_in subschemas_hold subschemas ∧ holds_in array_holds array ∧ holds_in object_holds object
  end.

Hypothesis (HBool : ∀ b, P (Bool b)) (HObject : ∀ obj, parts_hold obj → P (Object obj)).

Section steps.
Variable f : ∀ s, P s.

Fixpoint all_list (l : list Schema) : Forall P l :=
  match l with [] => Forall_nil_2 P | s :: l => Forall_cons_2 P s l (f s) (all_list l) end.

Fixpoint all_values (l : list (string * Schema)) : Forall (λ p : string * Schema, P p.2) l :=
  match l with
  | [] => Forall_nil_2 _
  | (k, s) :: l => Forall_cons_2 (λ p : string * Schema, P p.2) (k, s) l (f s) (all_values l)
  end.

Definition all_opt {A} {Q : A → Prop} (g : ∀ a, Q a) (o : option A) : holds_in Q o :=
  match o with None => I | Some a => g a end.

Definition all_subschemas (sv : @SubschemaValidation Schema) : subschemas_hold sv :=
  match sv with
  | mk_subschemas all_of any_of one_of not _ _ _ =>
      conj (all_opt all_list all_of) (conj (all_opt all_list any_of)
        (conj (all_opt all_list one_of) (all_opt f not)))
  end.

Definition all_items (av : @ArrayValidation Schema) : array_holds av :=
  match av with
  | mk_array_validation items _ _ _ _ _ =>
      match items with Some (Single s) => f s | Some (Vec _) => I | None => I end
  end.

Definition all_members (ov : @ObjectValidation Schema) : object_holds ov :=
  match ov with
  | mk_object_validation _ _ _ properties _ additional _ => conj (all_values properties) (all_opt f additional)
  end.

Definition all_parts (obj : @SchemaObject _ Schema) : parts_hold obj :=
  match obj with
  | mk_schema_object _ _ _ _ _ subschemas _ _ array object _ _ =>
      conj (all_opt all_subschemas subschemas) (conj (all_opt all_items array) (all_opt all_members object))
  end.
End steps.

Fixpoint schema_induction (s : Schema) : P s :=
  match s with
  | Bool b => HBool b
  | Object obj => HObject obj (all_parts schema_induction obj)
  end.
End induction.

Lemma forallb_ext {A} (f g : A → bool) l : (∀ x, f x = g x) → forallb f l = forallb g l.
Proof. intros Hfg. induction l as [|x l IH]; simpl; [done|]. by rewrite Hfg, IH. Qed.

Section correct.
Context `{JsonSemanticsLaws}.

(** ** Parts without subschemas *)

Ltac formats format :=
  destruct format as [f|]; [|done];
  repeat match goal with
  | |- context [String.eqb f ?name] => destruct (String.eqb_spec f name); [by subst|]
  end; done.

Lemma string_format_name_of format : format_of string_format_name (string_format format) = format.
Proof. unfold string_format. formats format. Qed.

(** Bounds of which one is given at most. *)
Lemma bounds_keep {A} (mn exmn mx exmx : option A) :
  one_bound mn exmn = true → one_bound mx exmx = true →
  ∃ mn' b mx' b', bound mn exmn = Ok (mn', b) ∧ bound mx exmx = Ok (mx', b') ∧
    ∀ c, range_ok c mn' mx' b b' =
      opt_ok (λ f, at_most (c f)) mx && opt_ok (λ f, less_than (c f)) exmx &&
      opt_ok (λ f, at_least (c f)) mn && opt_ok (λ f, more_than (c f)) exmn.
Proof.
  destruct mn, exmn, mx, exmx; try discriminate; intros _ _; do 4 eexists; (split; [done|split; [done|]]);
    intros c; unfold range_ok; simpl; by rewrite ?andb_true_r, 1?andb_comm.
Qed.

(** Enumerations: the values of one kind, and null. *)
Section enumerations.
Context {A : Type} (f : Json → panics (option A)) (p : Json → bool).
Hypothesis (f_null : f JNull = Ok None) (f_value : ∀ w, p w = true → ∃ a, f w = Ok (Some a)).

Lemma enumeration_keeps nullable e :
  e ≠ Some [] → enum_translatable p nullable e = true →
  ∃ e', enumeration f e = Ok e' ∧ (has_none e' = true → nullable = true) ∧
    ∀ v eqb, is_null v = false → (∀ w a, p w = true → f w = Ok (Some a) → eqb a = json_eqb v w) →
      enum_ok eqb e' = opt_ok (λ values, json_contains values v) e.
Proof.
  intros Hne Ht. destruct e as [values|]; [|by exists []].
  assert (∃ e', try_map f values = Ok e' ∧ length e' = length values ∧ (has_none e' = true → nullable = true) ∧
    ∀ v eqb, is_null v = false → (∀ w a, p w = true → f w = Ok (Some a) → eqb a = json_eqb v w) →
      existsb (λ o, match o with None => false | Some a => eqb a end) e' = json_contains values v)
    as (e' & He & Hlen & Hnone & Hcontains).
  - clear Hne. simpl in Ht. induction values as [|w values IH]; [by exists []|].
    simpl in Ht. apply andb_true_iff in Ht as [Hw Ht]. destruct (IH Ht) as (e' & He & Hlen & Hnone & Hcontains).
    assert (∃ o, f w = Ok o ∧ (o = None → nullable = true) ∧
      ∀ v eqb, is_null v = false → (∀ w a, p w = true → f w = Ok (Some a) → eqb a = json_eqb v w) →
        match o with None => false | Some a => eqb a end = json_eqb v w) as (o & Ho & Hnull & Heq).
    { destruct (is_null w) eqn:E.
      - destruct w; try discriminate. exists None. do 2 (split; [done|]). intros v eqb Hv _. by destruct v.
      - destruct (f_value w Hw) as [a Ha]. exists (Some a). do 2 (split; [done|]). eauto. }
    exists (o :: e'). simpl. rewrite Ho. cbn. rewrite He. cbn.
    split; [done|]. split; [by rewrite Hlen|]. split; [destruct o; simpl; auto|].
    intros v eqb Hv Heqb. by rewrite (Heq v eqb), (Hcontains v eqb).
  - exists e'. split; [done|]. split; [done|]. intros v eqb Hv Heqb.
    cbn [opt_ok]. rewrite <-(Hcontains v eqb Hv Heqb). destruct e'; [|done]. by destruct values.
Qed.
End enumerations.

(** ** Parts with subschemas *)

Section parts.
Variable rho : string → Json → bool.

Abbreviation os_valid := (ref_ok rho (oas_valid rho)).

(** The translation of a schema accepts what the schema does. *)
Definition keeps_meaning (schema : Schema) (s : ReferenceOr OSchema) : Prop :=
  ∀ v, os_valid s v = js_valid rho schema v.

Definition translates (schema : Schema) : Prop :=
  translatable schema = true → ∀ name, ∃ s, j2oas_schema name schema = Ok s ∧ keeps_meaning schema s.

Lemma schemas_keep l :
  Forall translates l → forallb translatable l = true →
  ∃ l', try_map (j2oas_schema None) l = Ok l' ∧ Forall2 keeps_meaning l l'.
Proof.
  induction 1 as [|s l Hs Hl IH]; simpl; [by exists []|]. intros [Ht Htl]%andb_true_iff.
  destruct (Hs Ht None) as (s' & -> & ?), (IH Htl) as (l' & -> & ?). exists (s' :: l'). by repeat constructor.
Qed.

Lemma properties_keep l :
  Forall (λ p : string * Schema, translates p.2) l → forallb (λ p : string * Schema, translatable p.2) l = true →
  ∃ l', try_values (j2oas_schema None) l = Ok l' ∧ l'.*1 = l.*1 ∧
    ∀ o, properties_ok os_valid l' o = properties_ok (js_valid rho) l o.
Proof.
  induction 1 as [|[k s] l Hs Hl IH]; simpl; [by exists []|]. intros [Ht Htl]%andb_true_iff.
  simpl in Hs. destruct (Hs Ht None) as (s' & -> & Hs'), (IH Htl) as (l' & -> & Hk & Hl').
  exists ((k, s') :: l'). split; [done|]. simpl. split; [by f_equal|]. intros o. simpl. rewrite Hl'. f_equal.
  by destruct (bt_get k o); simpl; [apply Hs'|].
Qed.

Section lists.
Context (l : list Schema) (l' : list (ReferenceOr OSchema)) (Hl : Forall2 keeps_meaning l l').

Lemma forallb_keep v : forallb (λ s, os_valid s v) l' = forallb (λ s, js_valid rho s v) l.
Proof. induction Hl as [|s s' ? ? Hs ? IH]; simpl; [done|]. by rewrite Hs, IH. Qed.

Lemma existsb_keep v : existsb (λ s, os_valid s v) l' = existsb (λ s, js_valid rho s v) l.
Proof. induction Hl as [|s s' ? ? Hs ? IH]; simpl; [done|]. by rewrite Hs, IH. Qed.

Lemma count_keep v : count_valid (λ s, os_valid s v) l' = count_valid (λ s, js_valid rho s v) l.
Proof.
  unfold count_valid. induction Hl as [|s s' ? ? Hs ? IH]; simpl; [done|].
  rewrite Hs. destruct (js_valid rho s v); simpl; by rewrite IH.
Qed.
End lists.

Lemma array_keeps av :
  array_holds translates av → array_translatable translatable av = true →
  ∃ items mn mx unique, j2oas_array j2oas_schema (Some av) = Ok (mk_array_type items mn mx unique) ∧
    unique = default false (av_unique_items av) ∧
    ∀ v, items_ok rho (oas_valid rho) items mn mx unique v = array_ok (js_valid rho) av v.
Proof.
  destruct av as [items additional mx mn unique contains]. simpl. intros Hs [Hi Hc]%andb_true_iff.
  destruct contains; [done|]. destruct items as [[s|]|]; [|done|].
  - destruct (Hs Hi None) as (s' & -> & Hs'). cbn. do 4 eexists. do 2 (split; [done|]).
    intros []; try done. cbn. rewrite andb_true_r. do 2 f_equal. apply forallb_ext. intros x. apply Hs'.
  - cbn. do 4 eexists. do 2 (split; [done|]). intros []; try done. cbn. by rewrite andb_true_r.
Qed.

Lemma object_keeps object :
  holds_in (object_holds translates) object → opt_ok (object_translatable translatable) object = true →
  ∃ properties required additional mn mx,
    j2oas_object j2oas_schema object = Ok (mk_object_type properties required additional mn mx) ∧
    ∀ v, members_ok rho (oas_valid rho) properties required additional mn mx v =
      match object with None => true | Some ov => object_ok (js_valid rho) ov v end.
Proof.
  destruct object as [[mx mn required properties patterns additional names]|]; simpl.
  2:{ intros _ _. do 5 eexists. split; [done|]. by intros []. }
  intros [Hp Ha] [[[Tp Tq]%andb_true_iff Ta]%andb_true_iff Tn]%andb_true_iff.
  destruct patterns; [|done]. destruct names; [done|].
  destruct (properties_keep properties Hp Tp) as (properties' & -> & Hk & Hp'). cbn.
  assert (∀ f g, (∀ w, f w = g w) → ∀ o, others_ok f properties'.*1 o =
    forallb (λ q : string * Json, bool_decide (q.1 ∈ properties.*1) || false || g q.2) o) as Hothers.
  { intros f g Hfg o. unfold others_ok. rewrite Hk. apply forallb_ext. intros q. by rewrite orb_false_r, Hfg. }
  destruct additional as [[b|obj]|].
  - do 5 eexists. split; [done|]. intros []; try done. cbn. by rewrite Hp', (Hothers _ (λ _, b)), !andb_true_r.
  - destruct (Ha Ta None) as (s' & -> & Hs'). cbn. do 5 eexists. split; [done|]. intros []; try done.
    cbn. by rewrite Hp', (Hothers _ (js_valid rho (Object obj))), !andb_true_r by apply Hs'.
  - do 5 eexists. split; [done|]. intros []; try done. cbn. by rewrite Hp', !andb_true_r.
Qed.

Lemma subschemas_keep sv :
  subschemas_hold translates sv → subschemas_translatable translatable sv = true →
  ∃ k, j2oas_subschemas j2oas_schema sv = Ok k ∧
    ∀ v, kind_ok rho (oas_valid rho) k v = subschemas_ok (js_valid rho) sv v.
Proof.
  destruct sv as [all_of any_of one_of not if_ then_ else_]. simpl. intros (Hall & Hany & Hone & Hnot).
  intros [Hif Ht]%andb_true_iff. destruct if_; [done|].
  destruct all_of as [l|], any_of as [l1|], one_of as [l2|], not as [s|]; try discriminate; simpl.
  - destruct (schemas_keep l Hall Ht) as (l' & -> & Hl). eexists. split; [done|]. intros v. simpl.
    by rewrite !andb_true_r, (forallb_keep l).
  - destruct (schemas_keep l1 Hany Ht) as (l' & -> & Hl). eexists. split; [done|]. intros v. simpl.
    by rewrite !andb_true_r, (existsb_keep l1).
  - destruct (schemas_keep l2 Hone Ht) as (l' & -> & Hl). eexists. split; [done|]. intros v. simpl.
    by rewrite !andb_true_r, (count_keep l2).
  - destruct (Hnot Ht None) as (s' & -> & Hs). eexists. split; [done|]. intros v. simpl.
    by rewrite !andb_true_r, Hs.
Qed.

(** The lists of the combinators of a schema with a type. *)
Lemma schema_vec_keeps o :
  holds_in (Forall translates) o → match o with None => true | Some l => forallb translatable l end = true →
  ∃ l', j2oas_schema_vec j2oas_schema o = Ok l' ∧ Forall2 keeps_meaning (default [] o) l'.
Proof. destruct o as [l|]; simpl; [apply schemas_keep|]. intros _ _. by exists []. Qed.

Lemma combinators_keep sv :
  subschemas_hold translates sv → combinators_translatable translatable sv = true →
  ∃ all_of any_of one_of not,
    j2oas_schema_vec j2oas_schema (sv_all_of sv) = Ok all_of ∧ j2oas_schema_vec j2oas_schema (sv_any_of sv) = Ok any_of ∧
    j2oas_schema_vec j2oas_schema (sv_one_of sv) = Ok one_of ∧
    match sv_not sv with None => Ok None | Some s => s ← j2oas_schema None s; Ok (Some s) end = Ok (E := Empty_set) not ∧
    ∀ v, combinators_ok rho (oas_valid rho) all_of any_of one_of not v = subschemas_ok (js_valid rho) sv v.
Proof.
  destruct sv as [all_of any_of one_of not if_ then_ else_]. simpl. intros (Hall & Hany & Hone & Hnot).
  intros [[[[Hif Tall]%andb_true_iff Tany]%andb_true_iff Tone]%andb_true_iff Tnot]%andb_true_iff.
  destruct if_; [done|].
  destruct (schema_vec_keeps all_of Hall Tall) as (l1 & -> & HL1).
  assert (match any_of with None => true | Some l => forallb translatable l end = true) as Tany'
    by (destruct any_of; [by apply andb_true_iff in Tany as [_ ?]|done]).
  destruct (schema_vec_keeps any_of Hany Tany') as (l2 & -> & HL2).
  assert (match one_of with None => true | Some l => forallb translatable l end = true) as Tone'
    by (destruct one_of; [by apply andb_true_iff in Tone as [_ ?]|done]).
  destruct (schema_vec_keeps one_of Hone Tone') as (l3 & -> & HL3).
  assert (∃ n, match not with None => Ok None | Some s => s ← j2oas_schema None s; Ok (Some s) end = Ok (E := Empty_set) n ∧
    ∀ v, match n with None => true | Some s => negb (os_valid s v) end =
      match not with None => true | Some s => negb (js_valid rho s v) end) as (n & -> & HL4).
  { destruct not as [s|]; [|by exists None]. destruct (Hnot Tnot None) as (s' & -> & Hs). exists (Some s').
    split; [done|]. intros v. by rewrite Hs. }
  do 4 eexists. do 4 (split; [done|]). intros v. unfold combinators_ok. simpl. rewrite HL4, andb_true_r. f_equal.
  f_equal; [f_equal|].
  - rewrite (forallb_keep _ _ HL1). by destruct all_of.
  - destruct any_of as [l|]; simpl in *; [|by inversion HL2]. rewrite <-(existsb_keep _ _ HL2).
    inversion HL2; subst; [done|]. done.
  - destruct one_of as [l|]; simpl in *; [|by inversion HL3]. rewrite <-(count_keep _ _ HL3).
    inversion HL3; subst; [done|]. done.
Qed.

(** ** Schemas with a single type *)

(** The constraints of other types say nothing of a value. *)
Lemma number_silent number v : (∀ n, v ≠ JNumber n) → opt_ok (λ nv, number_ok nv v) number = true.
Proof. destruct number; [|done]. intros Hv. destruct v; try done. naive_solver. Qed.

Lemma string_silent string_ v :
  (∀ s, v ≠ JString s) → opt_ok (λ st, string_ok (st_pattern st) (st_min_length st) (st_max_length st) v) string_ = true.
Proof. destruct string_; [|done]. intros Hv. destruct v; try done. naive_solver. Qed.

Lemma array_silent valid array v :
  (∀ l, v ≠ JArray l) → match array with None => true | Some av => array_ok valid av v end = true.
Proof. destruct array as [[]|]; [|done]. intros Hv. destruct v; try done. naive_solver. Qed.

Lemma object_silent valid object v :
  (∀ o, v ≠ JObject o) → match object with None => true | Some ov => object_ok valid ov v end = true.
Proof. destruct object as [[]|]; [|done]. intros Hv. destruct v; try done. naive_solver. Qed.

(** A schema of a single type, with the fields the translation uses. *)
Definition typed (t : InstanceType) format enum_values number string_ array object : @SchemaObject _ Schema :=
  mk_schema_object None (Some (Single t)) format enum_values None None number string_ array object None [].

Context (nullable : bool).

Definition kind_keeps (obj : @SchemaObject _ Schema) (k : @SchemaKind _ OSchema) : Prop :=
  ∀ v, nullable && is_null v = false → kind_ok rho (oas_valid rho) k v = base_ok (js_valid rho) obj v.

Ltac reduce := cbn -[number_ok string_ok array_ok object_ok items_ok members_ok numbers_ok has_none json_contains enum_ok].
Ltac silent := rewrite ?number_silent, ?string_silent, ?array_silent, ?object_silent, ?andb_true_r by done.

Lemma has_none_null {A} (e : list (option A)) :
  (has_none e = true → nullable = true) → nullable && is_null JNull = false → has_none e = false.
Proof. destruct (has_none e); [|done]. intros ->; done. Qed.

Lemma null_keeps format number string_ array object :
  kind_keeps (typed INull format None number string_ array object)
    (KType (TString (mk_string_type Empty None [None] None None))).
Proof. intros []; try done. intros _. reduce. by silent. Qed.

Lemma boolean_keeps format enum_values number string_ array object :
  enum_values ≠ Some [] → enum_translatable (has_type IBoolean) nullable enum_values = true →
  ∃ e, enumeration enum_bool enum_values = Ok e ∧
    kind_keeps (typed IBoolean format enum_values number string_ array object) (KType (TBoolean e)).
Proof.
  intros Hne Ht. destruct (enumeration_keeps enum_bool (has_type IBoolean) eq_refl) with nullable enum_values
    as (e & He & Hnone & Hok); try done.
  { intros []; try done. by eexists. }
  exists e. split; [done|]. intros [] Hv; try done; reduce.
  - by rewrite has_none_null.
  - silent. apply Hok; [done|]. intros [] a; try done. by intros _ [= <-].
Qed.

Lemma string_keeps format enum_values number string_ array object :
  enum_values ≠ Some [] → enum_translatable (has_type IString) nullable enum_values = true →
  ∃ t, j2oas_string format string_ enum_values = Ok t ∧
    kind_keeps (typed IString format enum_values number string_ array object) (KType (TString t)).
Proof.
  intros Hne Ht. destruct (enumeration_keeps enum_string (has_type IString) eq_refl) with nullable enum_values
    as (e & He & Hnone & Hok); try done.
  { intros []; try done. by eexists. }
  unfold j2oas_string. rewrite He. destruct enum_values as [[]|]; [done| |]; cbn;
    (eexists; split; [done|]; intros [| | |s| |] Hv; try done; reduce; [by rewrite has_none_null|]).
  all: rewrite string_format_name_of, (Hok (JString s)); [|done|intros [] a; try done; by intros _ [= <-]].
  all: rewrite number_silent, array_silent, object_silent, !andb_true_r by done.
  all: rewrite (andb_comm _ (opt_ok (λ f, format_ok f _) format)), andb_assoc; f_equal; by rewrite ?andb_true_r; destruct string_.
Qed.

Lemma number_keeps format number string_ array object :
  opt_ok number_translatable number = true →
  ∃ t, j2oas_number format number None = Ok t ∧
    (∀ v, numbers_ok (nt_multiple_of t) (nt_minimum t) (nt_maximum t) (nt_exclusive_minimum t)
            (nt_exclusive_maximum t) v = opt_ok (λ nv, number_ok nv v) number) ∧
    kind_keeps (typed INumber format None number string_ array object) (KType (TNumber t)).
Proof.
  intros Ht.
  assert (∃ t, j2oas_number format number None = Ok t ∧
    (∀ v, numbers_ok (nt_multiple_of t) (nt_minimum t) (nt_maximum t) (nt_exclusive_minimum t)
            (nt_exclusive_maximum t) v = opt_ok (λ nv, number_ok nv v) number) ∧
    format_of number_format_name (nt_format t) = format ∧ nt_enumeration t = []) as (t & Hj & Hn & Hf & He).
  - unfold j2oas_number. destruct number as [nv|]; cbn.
    + apply andb_true_iff in Ht as [Hmn Hmx].
      destruct (bounds_keep _ _ _ _ Hmn Hmx) as (mn & b & mx & b' & -> & -> & Hr). cbn.
      eexists. split; [done|]. split.
      * intros []; try done. cbn. unfold number_ok. rewrite Hr, !andb_assoc. done.
      * split; [|done]. cbn. formats format.
    + eexists. split; [done|]. split; [by intros []|]. split; [|done]. cbn. formats format.
  - exists t. do 2 (split; [done|]). intros [] Hv; try done; reduce; [by rewrite He|].
    rewrite He, Hf, Hn.
    rewrite string_silent, array_silent, object_silent, !andb_true_r by done. cbn. by rewrite ?andb_true_r, andb_comm.
Qed.

Lemma integral_keeps (g : comparison → bool) n o :
  opt_ok f64_integral o = true →
  opt_ok (λ z, g (num_compare_z n z)) (f64_as_i64 <$> o) = opt_ok (λ f, g (num_compare n f)) o.
Proof. destruct o as [f|]; [|done]. intros Hf. cbn. by rewrite integral_compare. Qed.

Lemma one_bound_fmap {A B} (f : A → B) (a b : option A) : one_bound (f <$> a) (f <$> b) = one_bound a b.
Proof. by destruct a, b. Qed.

Lemma integer_keeps format enum_values number string_ array object :
  enum_values ≠ Some [] → enum_translatable is_i64 nullable enum_values = true →
  opt_ok integer_translatable number = true →
  ∃ t, j2oas_integer format number enum_values = Ok (KType (TInteger t)) ∧
    kind_keeps (typed IInteger format enum_values number string_ array object) (KType (TInteger t)).
Proof.
  intros Hne Ht Hnum. destruct (enumeration_keeps enum_integer is_i64 eq_refl) with nullable enum_values
    as (e & He & Hnone & Hok); try done.
  { intros []; try done. simpl. destruct (num_as_i64 n) as [z|]; [|done]. by exists z. }
  assert (∃ t, j2oas_integer format number enum_values = Ok (KType (TInteger t)) ∧
    (∀ n, opt_ok (num_multiple_of_z n) (it_multiple_of t) &&
            range_ok (num_compare_z n) (it_minimum t) (it_maximum t) (it_exclusive_minimum t) (it_exclusive_maximum t) =
          opt_ok (λ nv, number_ok nv (JNumber n)) number) ∧
    format_of integer_format_name (it_format t) = format ∧ it_enumeration t = e) as (t & Hj & Hn & Hf & Het).
  - unfold j2oas_integer. rewrite He. destruct number as [nv|]; cbn.
    + unfold opt_ok, integer_translatable, number_translatable in Hnum. rewrite !andb_true_iff in Hnum.
      destruct Hnum as ((((([Hmn Hmx] & ?) & ?) & ?) & ?) & ?).
      rewrite <-(one_bound_fmap f64_as_i64) in Hmn, Hmx.
      destruct (bounds_keep _ _ _ _ Hmn Hmx) as (mn & b & mx & b' & -> & -> & Hr). cbn.
      eexists. split; [done|]. split.
      * intros n. cbn. rewrite Hr, !integral_keeps, !andb_assoc by done. do 4 f_equal.
        destruct (nv_multiple_of nv); [|done]. by apply integral_multiple.
      * split; [|done]. cbn. formats format.
    + eexists. split; [done|]. split; [done|]. split; [|done]. cbn. formats format.
  - exists t. split; [done|]. intros [| |n| | |] Hv; try done; reduce; [by rewrite Het, has_none_null|].
    rewrite Het, Hf, <-(Hok (JNumber n) (λ z, bool_decide (num_as_i64 n = Some z))); [|done|].
    2:{ intros [| |m| | |] z; try done. simpl. destruct (num_as_i64 m) as [z'|] eqn:E; [|done].
        intros _ [= <-]. destruct (number_eqb_spec n m) as [->|Hnm];
          [by apply bool_decide_eq_true_2|apply bool_decide_eq_false_2].
        intros Hz. by destruct (Hnm (num_as_i64_inj _ _ _ Hz E)). }
    rewrite string_silent, array_silent, object_silent, <-Hn, !andb_true_r by done.
    rewrite <-!andb_assoc. f_equal. destruct (opt_ok (λ f, format_ok f _) format); cbn; by rewrite ?andb_true_r, ?andb_false_r.
Qed.

Lemma array_type_keeps format number string_ av object :
  array_holds translates av → array_translatable translatable av = true →
  ∃ t, j2oas_array j2oas_schema (Some av) = Ok t ∧
    kind_keeps (typed IArray format None number string_ (Some av) object) (KType (TArray t)).
Proof.
  intros Hp Ht. destruct (array_keeps av Hp Ht) as (items & mn & mx & unique & -> & _ & Hv).
  eexists. split; [done|]. intros [] _; try done; reduce. rewrite Hv. silent. done.
Qed.

Lemma object_type_keeps format number string_ array object :
  holds_in (object_holds translates) object → opt_ok (object_translatable translatable) object = true →
  ∃ t, j2oas_object j2oas_schema object = Ok t ∧
    kind_keeps (typed IObject format None number string_ array object) (KType (TObject t)).
Proof.
  intros Hp Ht. destruct (object_keeps object Hp Ht) as (? & ? & ? & ? & ? & -> & Hv).
  eexists. split; [done|]. intros [] _; try done; reduce. rewrite Hv. silent. done.
Qed.

Lemma named_type_name t v : named_type_ok (instance_type_name t) v = has_type t v.
Proof. destruct t; unfold named_type_ok; simpl; by rewrite ?orb_false_r. Qed.

Lemma any_enumeration_keeps e c :
  e ≠ Some [] →
  match e, c with Some values, Some v => json_contains values v | _, _ => true end = true →
  ∃ e', any_enumeration e c = Ok e' ∧
    ∀ v, match e' with [] => true | _ => json_contains e' v end =
      opt_ok (λ values, json_contains values v) e && opt_ok (json_eqb v) c.
Proof.
  intros Hne Hc. destruct e as [values|], c as [w|]; simpl.
  - rewrite Hc. eexists. split; [done|]. intros v. simpl. rewrite orb_false_r.
    destruct (json_eqb v w) eqn:E; [|by rewrite andb_false_r]. apply json_eqb_eq in E as ->. by rewrite Hc.
  - eexists. split; [done|]. intros v. rewrite andb_true_r. by destruct values.
  - eexists. split; [done|]. intros v. simpl. by rewrite orb_false_r.
  - by eexists.
Qed.

Lemma kind_translates_any t obj sv :
  so_instance_type obj = Some (Single t) → so_subschemas obj = Some sv → so_enum_values obj ≠ Some [] →
  parts_hold translates obj → kind_translatable translatable nullable obj = true →
  ∃ k, j2oas_any j2oas_schema (Some t) obj = Ok k ∧ kind_keeps obj k.
Proof.
  destruct obj as [md ty format e c subs number string_ array object ref ext]. cbn. intros -> -> Hne.
  intros (Hs & Ha & Ho) Ht.
  assert (match e, c with Some values, Some v => json_contains values v | _, _ => true end = true ∧
    combinators_translatable translatable sv = true ∧ opt_ok number_translatable number = true ∧
    opt_ok (array_translatable translatable) array = true ∧
    opt_ok (object_translatable translatable) object = true) as (Te & Ts & Tn & Ta & To).
  { destruct e as [[]|]; [done| |]; rewrite !andb_true_iff in Ht; destruct array, object; naive_solver. }
  destruct (any_enumeration_keeps e c Hne Te) as (e' & -> & He).
  destruct (object_keeps object Ho To) as (properties & required & additional & omn & omx & -> & Hov).
  destruct (number_keeps None number None None None Tn) as (nt & -> & Hn & _).
  destruct (combinators_keep sv Hs Ts) as (all_of & any_of & one_of & not & Hall & Hany & Hone & Hnot & Hsv).
  assert (∃ items mn mx unique, match array with None => Ok (mk_array_type None None None false) | Some _ => j2oas_array j2oas_schema array end =
      Ok (mk_array_type items mn mx unique) ∧ unique = default false (array ≫= av_unique_items) ∧
      ∀ v, items_ok rho (oas_valid rho) items mn mx unique v =
        match array with None => true | Some av => array_ok (js_valid rho) av v end)
    as (items & amn & amx & unique & -> & Hu & Hav).
  { destruct array as [av|]; [by apply array_keeps|]. do 4 eexists. do 2 (split; [done|]). by intros []. }
  destruct sv as [a y o n i th el]. cbn. simpl in Hall, Hany, Hone, Hnot.
  rewrite Hall. cbn. rewrite Hany. cbn. rewrite Hone. cbn. rewrite Hnot. cbn.
  eexists. split; [done|]. intros v _. cbn -[combinators_ok subschemas_ok string_ok number_ok named_type_ok scalar_format_ok numbers_ok].
  rewrite named_type_name, He, Hsv, <-Hu, Hav, Hov, !andb_assoc, <-Hn. do 3 f_equal.
  - f_equal. f_equal; by destruct (nt_exclusive_minimum nt), (nt_exclusive_maximum nt).
  - destruct string_; [done|by destruct v].
Qed.

Lemma kind_translates obj :
  parts_hold translates obj → kind_translatable translatable nullable obj = true →
  ∃ k, j2oas_schema_object_kind j2oas_schema obj = Ok k ∧ kind_keeps obj k.
Proof.
  intros Hp Ht. assert (so_enum_values obj = Some [] ∨ so_enum_values obj ≠ Some []) as [He|He]
    by (destruct (so_enum_values obj) as [[]|]; auto).
  { destruct obj as [md ty format e c subs number string_ array object ref ext]. simpl in He. subst.
    eexists. split; [done|]. intros v _. destruct v; cbn; by rewrite ?andb_false_r. }
  destruct (so_instance_type obj) as [[t|]|] eqn:Ety; [destruct (so_subschemas obj) as [sv|] eqn:Esv|..].
  - destruct (kind_translates_any t obj sv Ety Esv He Hp Ht) as (k & Hk & Hv). exists k. split; [|done].
    destruct obj as [md ty format e c subs number string_ array object ref ext]. simpl in Ety, Esv, He. subst.
    destruct e as [[]|]; [done|..]; by destruct t.
  - destruct obj as [md ty format e c subs number string_ array object ref ext]. simpl in Ety, Esv, He. subst.
    destruct Hp as (_ & Ha & Ho).
    assert (type_translatable translatable t nullable (typed t format e number string_ array object) = true ∧ c = None)
      as [Ht' ->] by (destruct e as [[]|]; [done|..]; apply andb_true_iff in Ht as [Hc Ht]; destruct c; done).
    assert (∃ k, j2oas_schema_object_kind j2oas_schema (typed t format e number string_ array object) = Ok k ∧
      kind_keeps (typed t format e number string_ array object) k) as (k & Hk & Hv); [|by exists k].
    clear Ht. unfold j2oas_schema_object_kind, typed.
    replace (match e with Some [] => true | _ => false end) with false by (destruct e as [[]|]; done).
    destruct t; simpl in Ht'; cbn [object_type_of mbind rust_bind].
    + destruct e; [done|]. eexists. split; [done|]. apply null_keeps.
    + destruct (boolean_keeps format e number string_ array object He Ht') as (? & -> & ?). by eexists.
    + apply andb_true_iff in Ht' as [Hne Ht']. destruct e; [done|].
      destruct (object_type_keeps format number string_ array object Ho) as (? & -> & ?); [by destruct object|].
      by eexists.
    + apply andb_true_iff in Ht' as [Hne Ht']. destruct e; [done|]. destruct array as [av|]; [|done].
      destruct (array_type_keeps format number string_ av object Ha Ht') as (? & -> & ?). by eexists.
    + apply andb_true_iff in Ht' as [Hne Ht']. destruct e; [done|].
      destruct (number_keeps format number string_ array object Ht') as (? & -> & _ & ?). by eexists.
    + destruct (string_keeps format e number string_ array object He Ht') as (? & -> & ?). by eexists.
    + apply andb_true_iff in Ht' as [Ht1 Ht2].
      destruct (integer_keeps format e number string_ array object He Ht1 Ht2) as (? & -> & ?). by eexists.
  - destruct obj as [md ty format e c subs number string_ array object ref ext]. simpl in *. subst.
    by destruct e as [[]|].
  - destruct obj as [md ty format e c subs number string_ array object ref ext]. simpl in Ety, He. subst.
    destruct Hp as (Hs & _). destruct format, e as [[]|], c, number, string_, array, object; try done.
    destruct subs as [sv|]; [|eexists; split; [done|]; by intros []].
    destruct (subschemas_keep sv Hs Ht) as (k & Hk & Hv).
    exists k. split; [done|]. intros v _. rewrite Hv. cbn -[subschemas_ok]. rewrite !andb_true_r. unfold scalar_format_ok.
    by destruct v.
Qed.
End parts.

Lemma all_translate rho schema : translates rho schema.
Proof.
  induction schema as [b|obj IH] using schema_induction; intros Ht name.
  { destruct b; eexists; (split; [done|]); intros []; done. }
  destruct (so_reference obj) as [r|] eqn:Er.
  - exists (if schema_object_is_nullable obj then Item (nullable_reference r) else Reference r).
    split; [cbn; unfold j2oas_schema_object; by rewrite Er|]. intros v. cbn. rewrite Er.
    destruct (schema_object_is_nullable obj); [|done]. cbn. by rewrite andb_true_r.
  - simpl in Ht. rewrite Er in Ht. destruct (kind_translates rho _ obj IH Ht) as (k & Hk & Hv).
    exists (Item (mk_oschema (object_data name obj) k)).
    split; [cbn; unfold j2oas_schema_object; by rewrite Er, Hk|]. intros v. cbn. rewrite Er.
    destruct (schema_object_is_nullable obj && is_null v) eqn:E; [done|]. by apply Hv.
Qed.

(** C8: the translation of a schema to OpenAPI keeps its meaning.  On a
    translatable schema, [j2oas_schema] does not panic, and the schema it returns
    accepts a value exactly if the given schema does ([keeps_meaning]), whatever name it is given
    and whatever the references in it stand for. *)
Theorem j2oas_schema_spec rho name schema :
  translatable schema = true →
  ∃ s, j2oas_schema name schema = Ok s ∧ keeps_meaning rho schema s.
Proof. intros Ht. exact (all_translate rho schema Ht name). Qed.
End correct.
