(* ===== verification/TypeUtil.v ===== *)
(** * Classifying parameter schemas

    [dropshot/src/type_util.rs]: resolving a schema that is a reference, and
    deciding whether a path, query or header parameter has a scalar type or is
    an array of strings.

    [type_resolve] is a loop that ends because a reference is never followed
    twice; it runs here with one unit of fuel for each definition and one more,
    and [type_resolve_total] shows that is enough.  [type_is_scalar_common]
    calls itself on subschemas, which the set of visited references does not
    bound: [None] stands for no answer within the fuel. *)
From S2P Require Import Prelude BTree Externals Schema.

Section type_util.
Context `{JsonCrate}.
Implicit Types (deps : IndexMap Schema) (fuel : nat).

Definition PREFIX : string := "#/components/schemas/".

(** The pattern of [type_resolve]'s loop: nothing but a reference. *)
Definition bare_reference (schema : Schema) : option string :=
  match schema with
  | Object (mk_schema_object _ None None None None None None None None None (Some r) _) => Some r
  | _ => None
  end.

Fixpoint type_resolve_loop fuel (set : gset string) (schema : Schema) deps : option (panics Schema) :=
  match bare_reference schema with
  | None => Some (Ok schema)
  | Some ref_schema =>
      match fuel with
      | 0 => None
      | S fuel =>
          if bool_decide (ref_schema ∈ set) then Some (Panic "type reference cycle detected")
          else if negb (starts_with PREFIX ref_schema)
          then Some (Panic "assertion failed: ref_schema.starts_with(PREFIX)")
          else match im_get (drop_prefix_len PREFIX ref_schema) deps with
               | None => Some (Panic ("invalid reference " +:+ ref_schema))
               | Some schema => type_resolve_loop fuel ({[ref_schema]} ∪ set) schema deps
               end
      end
  end.

Definition type_resolve (schema : Schema) deps : panics Schema :=
  default (Panic "out of fuel") (type_resolve_loop (S (length deps)) ∅ schema deps).

(** The lone subschema of an [allOf] or an [anyOf], or the list of a [oneOf]. *)
Definition scalar_children (subschemas : @SubschemaValidation Schema) : option (list Schema) :=
  match subschemas with
  | mk_subschemas (Some [s]) None None None None None None => Some [s]
  | mk_subschemas None (Some [s]) None None None None None => Some [s]
  | mk_subschemas None None (Some subs) None None None None => Some subs
  | _ => None
  end.

(** The patterns of [type_is_scalar_common]. *)
Inductive scalar_pattern :=
| PType (instance_type : InstanceType)
| PSubschemas (subschemas : @SubschemaValidation Schema)
| POther.

Definition scalar_match (schema : Schema) : scalar_pattern :=
  match schema with
  | Object (mk_schema_object _ (Some (Single instance_type)) _ _ _ None _ _ None None None _) =>
      PType instance_type
  | Object (mk_schema_object _ None None None None (Some subschemas) None None None None None _) =>
      PSubschemas subschemas
  | _ => POther
  end.

Section scalar.
Variables (operation_id name : string) (type_check : InstanceType → bool).

Definition not_scalar : string :=
  "for endpoint " +:+ operation_id +:+ " the parameter '" +:+ name +:+ "' must have a scalar type".

(** [subs.iter().all(|s| f(s).is_ok())]. *)
Fixpoint all_ok (f : Schema → option (rust string ())) (l : list Schema) : option (panics bool) :=
  match l with
  | [] => Some (Ok true)
  | s :: l =>
      match f s with
      | None => None
      | Some (Ok _) => all_ok f l
      | Some (Err _) => Some (Ok false)
      | Some (Panic m) => Some (Panic m)
      end
  end.

(** [type_is_scalar_subschemas], given the recursive call. *)
Definition type_is_scalar_subschemas (rec : Schema → option (rust string ()))
    (subschemas : @SubschemaValidation Schema) : option (panics bool) :=
  match subschemas with
  | mk_subschemas (Some subs) None None None None None None
  | mk_subschemas None (Some subs) None None None None None =>
      match subs with [s] => all_ok rec [s] | _ => Some (Ok false) end
  | mk_subschemas None None (Some subs) None None None None => all_ok rec subs
  | _ => Some (Ok false)
  end.

Fixpoint type_is_scalar_common fuel (schema : Schema) deps : option (rust string ()) :=
  match fuel with
  | 0 => None
  | S fuel =>
      match type_resolve schema deps with
      | Panic m => Some (Panic m)
      | Err e => Some (match e : Empty_set with end)
      | Ok schema =>
          match scalar_match schema with
          | PType instance_type =>
              Some (if type_check instance_type then Ok () else Err not_scalar)
          | PSubschemas subschemas =>
              match type_is_scalar_subschemas
                      (λ s, type_is_scalar_common fuel s deps) subschemas with
              | None => None
              | Some (Ok true) => Some (Ok ())
              | Some (Panic m) => Some (Panic m)
              | _ => Some (Err not_scalar)
              end
          | POther => Some (Err not_scalar)
          end
      end
  end.
End scalar.

Definition scalar_check (t : InstanceType) : bool :=
  match t with IBoolean | INumber | IString | IInteger => true | _ => false end.
Definition string_check (t : InstanceType) : bool :=
  match t with IString => true | _ => false end.

Definition type_is_scalar (fuel : nat) (operation_id name : string) (schema : Schema) deps :
    option (rust string ()) :=
  type_is_scalar_common operation_id name scalar_check fuel schema deps.

Definition type_is_string (fuel : nat) (operation_id name : string) (schema : Schema) deps :
    option (rust string ()) :=
  type_is_scalar_common operation_id name string_check fuel schema deps.

Definition not_string_array (name : string) : string :=
  "the parameter '" +:+ name +:+ "' must be an array of strings".

(** The pattern of [type_is_string_enum]: nothing but an array. *)
Definition array_match (schema : Schema) : option (@ArrayValidation Schema) :=
  match schema with
  | Object (mk_schema_object _ (Some (Single IArray)) None None None None None None (Some av) None None _) =>
      Some av
  | _ => None
  end.

Definition type_is_string_enum (fuel : nat) (operation_id name : string) (schema : Schema) deps :
    option (rust string ()) :=
  match type_resolve schema deps with
  | Panic m => Some (Panic m)
  | Err e => Some (match e : Empty_set with end)
  | Ok schema =>
      match array_match schema with
      | Some (mk_array_validation (Some (Single item_schema)) None _ _ _ _) =>
          map_err (λ _, not_string_array name) <$>
            type_is_string fuel operation_id name item_schema deps
      | Some _ => Some (Panic ("the parameter '" +:+ name +:+ "' has an invalid array type"))
      | None => Some (Err (not_string_array name))
      end
  end.

(** ** Specification *)

(** One reference followed. *)
Definition ref_step deps (s t : Schema) : Prop :=
  ∃ r, bare_reference s = Some r ∧ starts_with PREFIX r = true ∧
    im_get (drop_prefix_len PREFIX r) deps = Some t.

Definition resolves deps (s t : Schema) : Prop :=
  rtc (ref_step deps) s t ∧ bare_reference t = None.

(** The schema is of a type accepted by [check], possibly behind references
    and trivial subschemas. *)
Inductive Scalar (check : InstanceType → bool) deps : Schema → Prop :=
| Scalar_type s u t :
    resolves deps s u → scalar_match u = PType t → check t = true → Scalar check deps s
| Scalar_subs s u subs l :
    resolves deps s u → scalar_match u = PSubschemas subs → scalar_children subs = Some l →
    Forall (Scalar check deps) l → Scalar check deps s.

(** The recursive calls of [type_is_scalar_common]. *)
Definition scalar_call deps (t s : Schema) : Prop :=
  ∃ u subs l, resolves deps s u ∧ scalar_match u = PSubschemas subs ∧
    scalar_children subs = Some l ∧ t ∈ l.
End type_util.

Section resolve_facts.
Context `{JsonCrate}.
Implicit Types (deps : IndexMap Schema) (s t u : Schema).

Lemma ref_step_det deps s t u : ref_step deps s t → ref_step deps s u → t = u.
Proof. intros (? & ? & ? & ?) (? & ? & ? & ?). congruence. Qed.

Lemma rtc_ref_step_prefix deps s t u :
  rtc (ref_step deps) s t → rtc (ref_step deps) s u →
  rtc (ref_step deps) t u ∨ rtc (ref_step deps) u t.
Proof.
  intros Hst. revert u. induction Hst as [s|s s' t Hs Hst IH]; intros u Hu; [by left|].
  destruct Hu as [|s u' u Hs' Hu]; [right; by eapply rtc_l|].
  rewrite (ref_step_det deps s u' s') in Hu by done. by apply IH.
Qed.

Lemma resolved_stuck deps s t : bare_reference s = None → rtc (ref_step deps) s t → s = t.
Proof. intros Hs Hst. destruct Hst as [|s ? t (? & ? & _) _]; congruence. Qed.

Lemma resolves_det deps s t u : resolves deps s t → resolves deps s u → t = u.
Proof.
  intros [Ht Nt] [Hu Nu]. destruct (rtc_ref_step_prefix deps s t u Ht Hu).
  - by eapply resolved_stuck.
  - symmetry. by eapply resolved_stuck.
Qed.

(** A schema on a cycle of references resolves to nothing. *)
Lemma cycle_unresolved deps s t : tc (ref_step deps) s s → ¬ resolves deps s t.
Proof.
  intros Hc [Hst Nt].
  assert (∃ u, ref_step deps t u) as (u & r & Hr & _); [|congruence].
  clear Nt. induction Hst as [s|s s' t Hs Hst IH].
  - inversion Hc; eauto.
  - apply IH. assert (rtc (ref_step deps) s' s) as Hs's.
    { inversion Hc as [? ? H1|? s1 ? H1 Hc']; subst;
        rewrite <-(ref_step_det deps _ _ _ H1 Hs); [done|by apply tc_rtc]. }
    eapply tc_rtc_l; [done|]. by apply tc_once.
Qed.

Definition loop_keys deps (set : gset string) : Prop :=
  ∀ r, r ∈ set → drop_prefix_len PREFIX r ∈ bt_keys deps ∧ starts_with PREFIX r = true.

Lemma drop_prefix_inj r r' :
  starts_with PREFIX r = true → starts_with PREFIX r' = true →
  drop_prefix_len PREFIX r = drop_prefix_len PREFIX r' → r = r'.
Proof.
  unfold starts_with, drop_prefix_len. intros Hr Hr' E.
  rewrite (prefix_split _ _ Hr), (prefix_split _ _ Hr'). by f_equal.
Qed.

Lemma loop_keys_size deps set : loop_keys deps set → size set ≤ length deps.
Proof.
  intros Hk. change (size set) with (length (elements set)).
  rewrite <-(length_fmap fst deps), <-(length_fmap (drop_prefix_len PREFIX) (elements set)).
  apply submseteq_length, NoDup_submseteq.
  - apply NoDup_fmap_2_strong; [|apply NoDup_elements].
    intros r r' Hr%elem_of_elements Hr'%elem_of_elements.
    apply drop_prefix_inj; by apply Hk.
  - intros k (r & -> & Hr%elem_of_elements)%list_elem_of_fmap. by apply Hk.
Qed.

Lemma loop_keys_insert deps set r t :
  loop_keys deps set → starts_with PREFIX r = true →
  im_get (drop_prefix_len PREFIX r) deps = Some t → loop_keys deps ({[r]} ∪ set).
Proof.
  intros Hk Hp Ht r' [->%elem_of_singleton|Hr']%elem_of_union; [|by apply Hk].
  split; [|done]. apply bt_get_elem in Ht. apply list_elem_of_fmap. by eexists (_, _).
Qed.

Lemma type_resolve_loop_total fuel set s deps :
  loop_keys deps set → size set + fuel = S (length deps) →
  is_Some (type_resolve_loop fuel set s deps).
Proof.
  revert set s. induction fuel as [|fuel IH]; intros set s Hk Hf; simpl.
  - apply loop_keys_size in Hk. lia.
  - destruct (bare_reference s) as [r|]; [|by eauto].
    case_bool_decide as Hr; [by eauto|]. destruct (starts_with PREFIX r) eqn:Hp; [|by eauto]. simpl.
    destruct (im_get _ deps) as [t|] eqn:Ht; [|by eauto].
    apply IH; [by eapply loop_keys_insert|].
    rewrite size_union by set_solver. rewrite size_singleton. lia.
Qed.

(** The schemas the visited references lead to, in terms of the loop's
    current schema. *)
Definition loop_visited deps (set : gset string) s : Prop :=
  ∀ r, r ∈ set → ∃ t, im_get (drop_prefix_len PREFIX r) deps = Some t ∧ rtc (ref_step deps) t s.

Lemma type_resolve_loop_ok fuel set s deps t :
  type_resolve_loop fuel set s deps = Some (Ok t) → resolves deps s t.
Proof.
  revert set s. induction fuel as [|fuel IH]; intros set s; simpl;
    destruct (bare_reference s) as [r|] eqn:Er; try done;
    [by intros [= <-]| |by intros [= <-]].
  case_bool_decide; [done|]. destruct (starts_with PREFIX r) eqn:Hp; [|done]. simpl.
  destruct (im_get _ deps) as [u|] eqn:Hu; [|done]. intros [Ht Nt]%IH.
  split; [|done]. eapply rtc_l; [|done]. by exists r.
Qed.

Lemma type_resolve_loop_complete fuel set s deps t m :
  loop_visited deps set s → resolves deps s t →
  type_resolve_loop fuel set s deps = Some m → m = Ok t.
Proof.
  revert set s. induction fuel as [|fuel IH]; intros set s Hv Hst; simpl.
  all: destruct (bare_reference s) as [r|] eqn:Er; try done.
  1, 3: intros [= <-]; by rewrite (resolved_stuck deps s t Er (proj1 Hst)).
  destruct Hst as [Hst Nt]. destruct Hst as [|s s' t Hs Hst]; [congruence|].
  pose proof Hs as (r' & Er' & Hp & Hd). assert (r' = r) as -> by congruence.
  case_bool_decide as Hr.
  - destruct (Hv r Hr) as (u & Hu & Hus). assert (u = s') as -> by congruence.
    exfalso. apply (cycle_unresolved deps s' t); [|done].
    eapply tc_rtc_l; [done|]. by apply tc_once.
  - rewrite Hp, Hd. simpl. apply IH; [|done].
    intros r' [->%elem_of_singleton|Hr']%elem_of_union; [by exists s'|].
    destruct (Hv r' Hr') as (u & Hu & Hus). exists u. split; [done|]. by eapply rtc_r.
Qed.

Lemma type_resolve_some s deps :
  type_resolve_loop (S (length deps)) ∅ s deps = Some (type_resolve s deps).
Proof.
  unfold type_resolve. destruct (type_resolve_loop_total (S (length deps)) ∅ s deps) as [m ->];
    [by intros ?|by rewrite size_empty|done].
Qed.

Lemma type_resolve_ok s deps t : type_resolve s deps = Ok t ↔ resolves deps s t.
Proof.
  pose proof (type_resolve_some s deps) as E. split.
  - intros Er. rewrite Er in E. by eapply type_resolve_loop_ok.
  - intros Ht. by eapply type_resolve_loop_complete; [|done|done].
Qed.
End resolve_facts.

Section scalar_facts.
Context `{JsonCrate}.
Variables (operation_id name : string) (check : InstanceType → bool).
Implicit Types (deps : IndexMap Schema) (s t u : Schema).

Local Abbreviation go fuel deps := (λ s, type_is_scalar_common operation_id name check fuel s deps).

Lemma type_is_scalar_subschemas_children (f : Schema → option (rust string ())) subs :
  type_is_scalar_subschemas f subs =
  match scalar_children subs with Some l => all_ok f l | None => Some (Ok false) end.
Proof.
  destruct subs as [[l|] [l'|] [l''|] [|] [|] [|] [|]]; try done.
  all: try (by destruct l as [|? [|??]]). all: by destruct l' as [|? [|??]].
Qed.

Lemma all_ok_true f l b (P : Schema → Prop) :
  (∀ s r, s ∈ l → f s = Some r → r = Ok () ↔ P s) →
  all_ok f l = Some (Ok b) → b = true ↔ Forall P l.
Proof.
  induction l as [|s l IH]; simpl; intros Hf; [intros [= <-]; split; auto|].
  destruct (f s) as [[[]| |]|] eqn:Es; try done.
  - intros Hb. assert (P s) by (apply (Hf s (Ok ())); [left|done|done]).
    rewrite Forall_cons, IH; [naive_solver| |done]. intros; apply Hf; [by right|done].
  - intros [= <-]. split; [done|]. intros Hl. apply Forall_cons in Hl as [Hs _].
    apply (Hf s _) in Es; [|left]. by apply Es in Hs.
Qed.

Lemma all_ok_panic f l m (P : Schema → Prop) :
  (∀ s r, s ∈ l → f s = Some r → r = Ok () ↔ P s) →
  all_ok f l = Some (Panic m) → ¬ Forall P l.
Proof.
  induction l as [|s l IH]; simpl; intros Hf; [done|].
  destruct (f s) as [[[]| |]|] eqn:Es; try done.
  - intros Hm [_ Hl]%Forall_cons. apply IH in Hm; [done|]. intros; apply Hf; [by right|done].
  - intros _ [Hs _]%Forall_cons. apply (Hf s _) in Es; [|left]. by apply Es in Hs.
Qed.

Lemma all_ok_some f l : (∀ s, s ∈ l → is_Some (f s)) → is_Some (all_ok f l).
Proof.
  induction l as [|s l IH]; simpl; intros Hf; [by eauto|].
  destruct (Hf s) as [r Hr]; [left|]. rewrite Hr. destruct r; [|by eauto..].
  apply IH. intros; apply Hf. by right.
Qed.

Lemma all_ok_no_err f l e : all_ok f l ≠ Some (Err e).
Proof. induction l as [|s l IH]; simpl; [done|]. by destruct (f s) as [[]|]. Qed.

Lemma all_ok_mono (f g : Schema → option (rust string ())) l :
  (∀ s, s ∈ l → is_Some (f s) → g s = f s) → is_Some (all_ok f l) → all_ok g l = all_ok f l.
Proof.
  induction l as [|s l IH]; simpl; intros Hfg; [done|].
  destruct (f s) as [r|] eqn:E; [|by intros [? ?]].
  rewrite (Hfg s), E; [|left|rewrite E; by eauto].
  destruct r; [|done..]. intros. apply IH; [|done]. intros; apply Hfg; [by right|done].
Qed.

(** What is accepted, by the pattern the resolved schema matches. *)
Lemma scalar_shape deps s t :
  resolves deps s t → Scalar check deps s ↔
    match scalar_match t with
    | PType ty => check ty = true
    | PSubschemas subs => ∃ l, scalar_children subs = Some l ∧ Forall (Scalar check deps) l
    | POther => False
    end.
Proof.
  intros Hst. split.
  - intros Hs. inversion Hs as [? u ty Hr Hm|? u subs l Hr Hm]; subst;
      rewrite (resolves_det deps s _ _ Hst Hr), Hm; eauto.
  - destruct (scalar_match t) eqn:Hm; [|intros (l & ? & ?)|done].
    + by eapply Scalar_type.
    + by eapply Scalar_subs.
Qed.

Lemma type_is_scalar_common_correct fuel s deps r :
  go fuel deps s = Some r → r = Ok () ↔ Scalar check deps s.
Proof.
  revert s r. induction fuel as [|fuel IH]; intros s r; [done|]. simpl.
  destruct (type_resolve s deps) as [t|[]|m] eqn:Er.
  2: { intros [= <-]. split; [done|]. intros Hs. exfalso.
       inversion Hs as [? u ? Hr|? u ? ? Hr]; subst; apply type_resolve_ok in Hr; congruence. }
  apply type_resolve_ok in Er. rewrite (scalar_shape deps s t Er).
  destruct (scalar_match t) as [ty|subs|]; [by destruct (check ty); intros [= <-]| |by intros [= <-]].
  rewrite type_is_scalar_subschemas_children.
  destruct (scalar_children subs) as [l|]; [|intros [= <-]; naive_solver].
  assert ((∃ l', Some l = Some l' ∧ Forall (Scalar check deps) l') ↔ Forall (Scalar check deps) l)
    as -> by naive_solver.
  assert (∀ s r, s ∈ l → go fuel deps s = Some r → r = Ok () ↔ Scalar check deps s) as Hl
    by (intros; by apply IH).
  destruct (all_ok (go fuel deps) l) as [[b|e|m']|] eqn:Ea; [| | |done].
  - rewrite <-(all_ok_true _ l b _ Hl Ea). by destruct b; intros [= <-].
  - by apply all_ok_no_err in Ea.
  - pose proof (all_ok_panic _ l m' _ Hl Ea). by intros [= <-].
Qed.
End scalar_facts.

Section scalar_termination.
Context `{JsonCrate}.
Variables (operation_id name : string) (check : InstanceType → bool).
Implicit Types (deps : IndexMap Schema) (s t u : Schema).

Local Abbreviation go fuel deps := (λ s, type_is_scalar_common operation_id name check fuel s deps).

(** The answer on a resolved schema is the check of its type, or depends on
    the answers on its [scalar_children] alone. *)
Lemma type_is_scalar_common_step fuel1 fuel2 deps s :
  (∀ t, scalar_call deps t s → is_Some (go fuel1 deps t) → go fuel2 deps t = go fuel1 deps t) →
  is_Some (go (S fuel1) deps s) → go (S fuel2) deps s = go (S fuel1) deps s.
Proof.
  intros Hrec. simpl.
  destruct (type_resolve s deps) as [t|[]|m] eqn:Er; [|done].
  apply type_resolve_ok in Er. destruct (scalar_match t) as [|subs|] eqn:Em; [done| |done].
  rewrite !type_is_scalar_subschemas_children.
  destruct (scalar_children subs) as [l|] eqn:El; [|done].
  intros Ha. rewrite (all_ok_mono (go fuel1 deps) (go fuel2 deps)); [done| |].
  - intros t' Ht. apply Hrec. by exists t, subs, l.
  - destruct (all_ok _ l); [by eauto|]. by destruct Ha.
Qed.

Lemma type_is_scalar_common_mono fuel fuel' deps s :
  fuel ≤ fuel' → is_Some (go fuel deps s) → go fuel' deps s = go fuel deps s.
Proof.
  revert fuel' s. induction fuel as [|fuel IH]; intros fuel' s Hle; [by intros [? ?]|].
  destruct fuel' as [|fuel']; [lia|]. apply type_is_scalar_common_step.
  intros t _. apply IH. lia.
Qed.

Lemma type_is_scalar_common_some fuel deps s :
  (∀ t, scalar_call deps t s → is_Some (go fuel deps t)) → is_Some (go (S fuel) deps s).
Proof.
  intros Hrec. simpl.
  destruct (type_resolve s deps) as [t|[]|m] eqn:Er; [|by eauto].
  apply type_resolve_ok in Er. destruct (scalar_match t) as [|subs|] eqn:Em; [by eauto| |by eauto].
  rewrite type_is_scalar_subschemas_children.
  destruct (scalar_children subs) as [l|] eqn:El; [|by eauto].
  assert (is_Some (all_ok (go fuel deps) l)) as [[[]| |] ->]; [|by eauto..].
  apply all_ok_some. intros t' Ht. apply Hrec. by exists t, subs, l.
Qed.

(** A schema has finitely many recursive calls. *)
Lemma scalar_call_children deps s :
  ∃ l : list Schema, ∀ t, scalar_call deps t s ↔ t ∈ l.
Proof.
  destruct (type_resolve s deps) as [u|[]|m] eqn:Er.
  - apply type_resolve_ok in Er.
    assert (∀ t, scalar_call deps t s → ∃ subs l,
      scalar_match u = PSubschemas subs ∧ scalar_children subs = Some l ∧ t ∈ l) as Hc.
    { intros t (u' & subs & l & Hr & ? & ? & ?). rewrite (resolves_det deps s u u') by done. eauto. }
    destruct (scalar_match u) as [|subs|] eqn:Em; [exists []; set_solver| |exists []; set_solver].
    destruct (scalar_children subs) as [l|] eqn:El.
    + exists l. intros t. split; [|by exists u, subs, l].
      intros (? & ? & [=] & ? & ?)%Hc. congruence.
    + exists []. intros t. split; [|by intros ?%not_elem_of_nil].
      intros (? & ? & [=] & ? & ?)%Hc. congruence.
  - exists []. intros t. split; [|by intros ?%not_elem_of_nil].
    intros (u & subs & l & Hr & _). apply type_resolve_ok in Hr. congruence.
Qed.

(** Fuel enough for each of finitely many schemas is enough for all. *)
Lemma common_fuel deps (l : list Schema) :
  (∀ t, t ∈ l → ∃ fuel, is_Some (go fuel deps t)) →
  ∃ fuel, ∀ t, t ∈ l → is_Some (go fuel deps t).
Proof.
  induction l as [|s l IH]; intros Hl; [exists 0; by intros t ?%not_elem_of_nil|].
  destruct (Hl s) as [f1 H1]; [left|].
  destruct IH as [f2 H2]; [intros; apply Hl; by right|].
  exists (f1 `max` f2). intros t [->|Ht]%elem_of_cons.
  - rewrite (type_is_scalar_common_mono f1); [done|lia|done].
  - rewrite (type_is_scalar_common_mono f2); [by apply H2|lia|by apply H2].
Qed.

(** Enough fuel, when the recursive calls are well founded. *)
Lemma type_is_scalar_common_terminates deps s :
  Acc (scalar_call deps) s → ∃ fuel, is_Some (go fuel deps s).
Proof.
  intros Hacc. induction Hacc as [s _ IH].
  destruct (scalar_call_children deps s) as [l Hl].
  destruct (common_fuel deps l) as [fuel Hf].
  { intros t Ht. by apply IH, Hl. }
  exists (S fuel). apply type_is_scalar_common_some. intros t Ht. by apply Hf, Hl.
Qed.

(** And only then: an answer never depends on an infinite descent. *)
Lemma type_is_scalar_common_diverges fuel deps s t :
  type_resolve s deps = Ok t →
  (∃ subs, scalar_match t = PSubschemas subs ∧ scalar_children subs = Some [s]) →
  go fuel deps s = None.
Proof.
  intros Er (subs & Hm & Hs). induction fuel as [|fuel IH]; [done|].
  simpl. rewrite Er, Hm, type_is_scalar_subschemas_children, Hs. simpl. by rewrite IH.
Qed.
End scalar_termination.

Section properties.
Context `{JsonCrate}.
Implicit Types (deps : IndexMap Schema) (s t : Schema).

(** C38: [type_resolve] always ends within its loop bound; it returns a schema
    exactly when following references from its argument leads to a schema
    that is not a bare reference, and then returns that schema: cycles and
    dangling references panic, and nothing else does. *)
Theorem type_resolve_spec s deps :
  is_Some (type_resolve_loop (S (length deps)) ∅ s deps) ∧
  (∀ t, type_resolve s deps = Ok t ↔ rtc (ref_step deps) s t ∧ bare_reference t = None) ∧
  (¬ (∃ t, resolves deps s t) ↔ ∃ m, type_resolve s deps = Panic m).
Proof.
  split; [rewrite type_resolve_some; by eauto|]. split; [intros t; apply type_resolve_ok|].
  destruct (type_resolve s deps) as [t|[]|m] eqn:E; split.
  - intros []. exists t. by apply type_resolve_ok.
  - by intros [? ?].
  - by eauto.
  - intros _ [t Ht]. apply type_resolve_ok in Ht. congruence.
Qed.

(** whenever [type_is_scalar] answers, it accepts exactly the schemas
    that resolve to a boolean, number, string or integer, directly or under
    a lone [allOf] or [anyOf] schema or a [oneOf] of such schemas; and it
    answers whenever that nesting is well founded. *)
Lemma type_is_scalar_spec op name s deps :
  (∀ fuel r, type_is_scalar fuel op name s deps = Some r →
     r = Ok () ↔ Scalar scalar_check deps s) ∧
  (Acc (scalar_call deps) s → ∃ fuel0, ∀ fuel, fuel0 ≤ fuel →
     is_Some (type_is_scalar fuel op name s deps)).
Proof.
  split; [intros fuel r; apply type_is_scalar_common_correct|].
  intros Hacc. destruct (type_is_scalar_common_terminates op name scalar_check deps s Hacc) as [f0 H0].
  exists f0. intros fuel Hle. unfold type_is_scalar. by rewrite (type_is_scalar_common_mono op name _ f0).
Qed.

(** the recursion is not guarded as the reference loop is: for the schema
    [A], defined as [allOf] a lone reference to [A], the check never answers,
    whatever the fuel. *)
Lemma type_is_scalar_recursive_schema fuel op name :
  type_is_scalar fuel op name (reference_schema "#/components/schemas/A")
    [("A", all_of_schema [reference_schema "#/components/schemas/A"])] = None.
Proof.
  eapply type_is_scalar_common_diverges; [vm_compute; reflexivity|].
  eexists. split; reflexivity.
Qed.
End properties.
