(* ===== verification/ApiEndpoint.v ===== *)
(** * Endpoints and their metadata

    The endpoint part of [dropshot/src/api_description.rs] ([ApiEndpoint], its
    builder methods, parameters, content types, responses) and the way the
    metadata of a handler's extractors is combined
    ([dropshot/src/extractor/common.rs]). *)
From S2P Require Import Prelude BTree Externals Versions StatusCodes HttpError Schema.

Inductive ApiEndpointBodyContentType := Bytes | Json_ | UrlEncoded | MultipartFormData.

#[export] Instance ApiEndpointBodyContentType_eq_dec : EqDecision ApiEndpointBodyContentType.
Proof. solve_decision. Defined.

Definition mime_type (self : ApiEndpointBodyContentType) : string :=
  match self with
  | Bytes => CONTENT_TYPE_OCTET_STREAM
  | Json_ => CONTENT_TYPE_JSON
  | UrlEncoded => CONTENT_TYPE_URL_ENCODED
  | MultipartFormData => CONTENT_TYPE_MULTIPART_FORM_DATA
  end.

(** Split into type, subtype and optional suffix. *)
Definition mime_split (mime_type : string) : option (string * string * option string) :=
  '(type_, rest) ← split_once "/"%char mime_type;
  match splitn2 "+"%char rest with
  | [] => None
  | [subtype] => Some (type_, subtype, None)
  | subtype :: suffix :: _ => Some (type_, subtype, Some suffix)
  end.

Definition from_mime_type (mime_type : string) : rust string ApiEndpointBodyContentType :=
  if String.eqb mime_type CONTENT_TYPE_OCTET_STREAM then Ok Bytes
  else if String.eqb mime_type CONTENT_TYPE_JSON then Ok Json_
  else if String.eqb mime_type CONTENT_TYPE_URL_ENCODED then Ok UrlEncoded
  else if String.eqb mime_type CONTENT_TYPE_MULTIPART_FORM_DATA then Ok MultipartFormData
  else match mime_split mime_type with
       | Some (type_, _, Some suffix) =>
           if String.eqb type_ "application" && String.eqb suffix "json"
           then Ok Json_ else Err mime_type
       | _ => Err mime_type
       end.

Lemma from_mime_type_answer s : (∃ c, from_mime_type s = Ok c) ∨ from_mime_type s = Err s.
Proof.
  unfold from_mime_type. repeat (destruct (String.eqb s _); [by left; eexists|]).
  destruct (mime_split s) as [[[type_ ?] [suffix|]]|]; [|by right..].
  destruct (_ && _); [by left; eexists|by right].
Qed.

Section endpoint.
Context `{Crates}.

Inductive ApiEndpointParameterLocation := LPath | LQuery | LHeader.

Inductive ApiEndpointParameterMetadata :=
| MPath (name : string)
| MQuery (name : string)
| MHeader (name : string)
| MBody (content_type : ApiEndpointBodyContentType).

(** A generator is used when the definition is written, a static schema comes
    with the definitions its references name. *)
Inductive ApiSchemaGenerator :=
| Gen (name : string) (schema : SchemaGenerator → SchemaGenerator * Schema)
| Static (schema : Schema) (dependencies : IndexMap Schema).

Record ApiEndpointParameter := mk_parameter {
  p_metadata : ApiEndpointParameterMetadata;
  p_description : option string;
  p_required : bool;
  p_schema : ApiSchemaGenerator;
  p_examples : list string;
}.

Definition new_named (loc : ApiEndpointParameterLocation) (name : string)
    (description : option string) (required : bool) (schema : ApiSchemaGenerator)
    (examples : list string) : ApiEndpointParameter :=
  mk_parameter
    match loc with LPath => MPath name | LQuery => MQuery name | LHeader => MHeader name end
    description required schema examples.

Definition new_body (content_type : ApiEndpointBodyContentType) (required : bool)
    (schema : ApiSchemaGenerator) (examples : list string) : ApiEndpointParameter :=
  mk_parameter (MBody content_type) None required schema examples.

Inductive ExtensionMode :=
| NoExtension
| Paginated (first_page_schema : Json)
| Websocket.

Definition extension_mode_eqb (x y : ExtensionMode) : bool :=
  match x, y with
  | NoExtension, NoExtension => true
  | Paginated a, Paginated b => json_eqb a b
  | Websocket, Websocket => true
  | _, _ => false
  end.

Record ApiEndpointHeader := mk_header {
  h_name : string;
  h_description : option string;
  h_schema : ApiSchemaGenerator;
  h_required : bool;
}.

Record ApiEndpointResponse := mk_endpoint_response {
  r_schema : option ApiSchemaGenerator;
  r_headers : list ApiEndpointHeader;
  r_success : option StatusCode;
  r_description : option string;
}.

Record ApiEndpointErrorResponse := mk_endpoint_error {
  er_schema : ApiSchemaGenerator;
  er_type_name : string;
}.

(** [for_type], from [T::content_metadata()] and [type_name::<T>()]. *)
Definition error_for_type (content_metadata : option ApiSchemaGenerator) (type_name : string) :
    option ApiEndpointErrorResponse :=
  schema ← content_metadata; Some (mk_endpoint_error schema type_name).

(** A [Method] is its token; [as_str] is the identity. *)
Record ApiEndpoint := mk_endpoint {
  operation_id : string;
  handler : Handler;
  method : string;
  path : string;
  parameters : list ApiEndpointParameter;
  body_content_type : ApiEndpointBodyContentType;
  request_body_max_bytes : option N;
  response : ApiEndpointResponse;
  error : option ApiEndpointErrorResponse;
  summary : option string;
  description : option string;
  tags : list string;
  extension_mode : ExtensionMode;
  visible : bool;
  deprecated : bool;
  versions : ApiEndpointVersions Version;
}.

(** ** Extractor metadata *)

Record ExtractorMetadata := mk_extractor_metadata {
  em_extension_mode : ExtensionMode;
  em_parameters : list ApiEndpointParameter;
}.

Definition combine_extension_modes (a b : ExtensionMode) : panics ExtensionMode :=
  match a, b with
  | NoExtension, x => Ok x
  | x, NoExtension => Ok x
  | x, y => if negb (extension_mode_eqb x y)
            then Panic "incompatible extension modes in tuple" else Ok y
  end.

(** [impl_rqextractor_for_tuple!]: the extractors' metadata in order. *)
Fixpoint tuple_metadata_from (acc : ExtractorMetadata)
    (l : list (panics ExtractorMetadata)) : panics ExtractorMetadata :=
  match l with
  | [] => Ok acc
  | m :: l =>
      metadata ← m;
      mode ← combine_extension_modes (em_extension_mode acc) (em_extension_mode metadata);
      tuple_metadata_from
        (mk_extractor_metadata mode (em_parameters acc ++ em_parameters metadata)) l
  end.

(** The [RequestExtractor] impls for tuples of zero, one and more elements. *)
Definition request_extractor_metadata (l : list (panics ExtractorMetadata)) : panics ExtractorMetadata :=
  match l with
  | [] => Ok (mk_extractor_metadata NoExtension [])
  | [x] => x
  | l => tuple_metadata_from (mk_extractor_metadata NoExtension []) l
  end.

(** ** [ApiEndpoint::new] and [new_for_types]

    [extractors] are the [metadata] functions of the handler's arguments. *)
Definition endpoint_new (op : string) (h : Handler) (m content_type p : string)
    (v : ApiEndpointVersions Version)
    (extractors : ApiEndpointBodyContentType → list (panics ExtractorMetadata))
    (resp : ApiEndpointResponse) (err : option ApiEndpointErrorResponse) : panics ApiEndpoint :=
  ct ← match from_mime_type content_type with Ok ct => Ok ct | _ => Panic "unsupported mime type" end;
  func_parameters ← request_extractor_metadata (extractors ct);
  Ok (mk_endpoint op h m p (em_parameters func_parameters) ct None resp err None None []
        (em_extension_mode func_parameters) true false v).

(** The builder methods. *)
Definition with_summary (e : ApiEndpoint) (s : string) : ApiEndpoint :=
  mk_endpoint (operation_id e) (handler e) (method e) (path e) (parameters e)
    (body_content_type e) (request_body_max_bytes e) (response e) (error e) (Some s)
    (description e) (tags e) (extension_mode e) (visible e) (deprecated e) (versions e).
Definition with_description (e : ApiEndpoint) (s : string) : ApiEndpoint :=
  mk_endpoint (operation_id e) (handler e) (method e) (path e) (parameters e)
    (body_content_type e) (request_body_max_bytes e) (response e) (error e) (summary e)
    (Some s) (tags e) (extension_mode e) (visible e) (deprecated e) (versions e).
Definition with_request_body_max_bytes (e : ApiEndpoint) (n : N) : ApiEndpoint :=
  mk_endpoint (operation_id e) (handler e) (method e) (path e) (parameters e)
    (body_content_type e) (Some n) (response e) (error e) (summary e)
    (description e) (tags e) (extension_mode e) (visible e) (deprecated e) (versions e).
Definition with_tag (e : ApiEndpoint) (t : string) : ApiEndpoint :=
  mk_endpoint (operation_id e) (handler e) (method e) (path e) (parameters e)
    (body_content_type e) (request_body_max_bytes e) (response e) (error e) (summary e)
    (description e) (tags e ++ [t]) (extension_mode e) (visible e) (deprecated e) (versions e).
Definition with_visible (e : ApiEndpoint) (b : bool) : ApiEndpoint :=
  mk_endpoint (operation_id e) (handler e) (method e) (path e) (parameters e)
    (body_content_type e) (request_body_max_bytes e) (response e) (error e) (summary e)
    (description e) (tags e) (extension_mode e) b (deprecated e) (versions e).
Definition with_deprecated (e : ApiEndpoint) (b : bool) : ApiEndpoint :=
  mk_endpoint (operation_id e) (handler e) (method e) (path e) (parameters e)
    (body_content_type e) (request_body_max_bytes e) (response e) (error e) (summary e)
    (description e) (tags e) (extension_mode e) (visible e) b (versions e).

(** ** Facts *)

(** All the modes in the list that are not [NoExtension] are [m]. *)
Definition modes_agree (m : ExtensionMode) (l : list ExtensionMode) : Prop :=
  Forall (λ x, x = NoExtension ∨ x = m) l.

(** The mode of a list of compatible modes. *)
Fixpoint first_mode (l : list ExtensionMode) : ExtensionMode :=
  match l with [] => NoExtension | NoExtension :: l => first_mode l | m :: _ => m end.

Lemma extension_mode_eqb_eq x y : extension_mode_eqb x y = true ↔ x = y.
Proof. destruct x, y; simpl; try (split; congruence). rewrite json_eqb_eq. split; congruence. Qed.

Lemma extension_mode_eqb_refl x : extension_mode_eqb x x = true.
Proof. by apply extension_mode_eqb_eq. Qed.

#[export] Instance ExtensionMode_eq_dec : EqDecision ExtensionMode.
Proof.
  intros x y. destruct (extension_mode_eqb x y) eqn:E; [left|right].
  - by apply extension_mode_eqb_eq.
  - intros Exy%extension_mode_eqb_eq. congruence.
Defined.

Lemma combine_none_l b : combine_extension_modes NoExtension b = Ok b.
Proof. done. Qed.

Lemma combine_ok a b m :
  a ≠ NoExtension →
  combine_extension_modes a b = Ok m ↔ m = a ∧ (b = NoExtension ∨ b = a).
Proof.
  intros Ha. assert (combine_extension_modes a b =
    if extension_mode_eqb b NoExtension then Ok a
    else if negb (extension_mode_eqb a b) then Panic "incompatible extension modes in tuple" else Ok b)
    as -> by by destruct a, b.
  destruct (extension_mode_eqb b NoExtension) eqn:Eb.
  - apply extension_mode_eqb_eq in Eb as ->. naive_solver.
  - destruct (extension_mode_eqb a b) eqn:E; simpl.
    + apply extension_mode_eqb_eq in E as ->. naive_solver.
    + split; [done|]. intros [_ [-> | ->]]; by rewrite extension_mode_eqb_refl in *.
Qed.

Lemma first_mode_cons a l : a ≠ NoExtension → first_mode (a :: l) = a.
Proof. by destruct a. Qed.

Lemma tuple_metadata_from_ok acc l ms r :
  Forall2 (λ x m, x = Ok m) l ms →
  tuple_metadata_from acc l = Ok r ↔
    em_parameters r = em_parameters acc ++ concat (em_parameters <$> ms) ∧
    em_extension_mode r = first_mode (em_extension_mode acc :: (em_extension_mode <$> ms)) ∧
    modes_agree (em_extension_mode r) (em_extension_mode acc :: (em_extension_mode <$> ms)).
Proof.
  unfold modes_agree. intros Hl. revert acc.
  induction Hl as [|x m l ms -> Hl IH]; intros [a ps]; simpl tuple_metadata_from.
  - destruct r as [mode' ps']. simpl. rewrite app_nil_r, Forall_singleton. split.
    + intros [= -> ->]. by destruct mode'; auto.
    + intros (-> & -> & _). by destruct a.
  - simpl em_extension_mode. simpl em_parameters. rewrite !fmap_cons, !Forall_cons. simpl concat.
    destruct (decide (a = NoExtension)) as [->|Ha].
    + rewrite combine_none_l. simpl. rewrite IH. simpl. rewrite Forall_cons, <-app_assoc. naive_solver.
    + rewrite rust_bind_ok. setoid_rewrite (λ b m, combine_ok a b m Ha). setoid_rewrite IH. simpl em_parameters.
      simpl em_extension_mode. setoid_rewrite Forall_cons. rewrite !first_mode_cons, <-app_assoc by done.
      split.
      * intros (? & (-> & Hb) & -> & Em & _ & Hf). rewrite first_mode_cons in Em by done.
        rewrite Em in *. split_and!; auto.
      * intros (-> & Em & _ & Hb & Hf). rewrite Em in *. exists a. rewrite first_mode_cons by done. split_and!; auto.
Qed.
End endpoint.

Lemma mime_suffix_spec s :
  (∃ subtype, mime_split s = Some ("application", subtype, Some "json")) ↔
  ∃ subtype, has_char "+"%char subtype = false ∧ s = "application/" +:+ subtype +:+ "+json".
Proof.
  assert (∀ t rest, s = "application" +:+ char_str "/"%char +:+ rest →
    split_once "/"%char s = Some (t, rest) ↔ t = "application") as Hsplit.
  { intros t rest ->. rewrite split_once_spec. split; [|by intros ->].
    intros [E Ht]. symmetry in E. unfold char_str in E.
    destruct (split_once "/"%char (t +:+ char_str "/"%char +:+ rest)) as [p|] eqn:Es.
    - pose proof (proj2 (split_once_spec "/"%char (t +:+ char_str "/"%char +:+ rest) t rest) (conj eq_refl Ht)) as E1.
      unfold char_str in E1. rewrite E in E1. simpl in E1. by simplify_eq.
    - pose proof (proj2 (split_once_spec "/"%char (t +:+ char_str "/"%char +:+ rest) t rest) (conj eq_refl Ht)).
      congruence. }
  unfold mime_split, splitn2. split.
  - intros (subtype & E). destruct (split_once "/"%char s) as [[t rest]|] eqn:Es; [|done]. simpl in E.
    destruct (split_once "+"%char rest) as [[x y]|] eqn:Er; simplify_eq.
    apply split_once_spec in Es as [-> _]. apply split_once_spec in Er as [-> Hx].
    by exists subtype.
  - intros (subtype & Hs & ->). exists subtype.
    rewrite (proj2 (Hsplit "application" (subtype +:+ "+json") eq_refl) eq_refl). simpl.
    by rewrite (proj2 (split_once_spec "+"%char (subtype +:+ "+json") subtype "json")).
Qed.

Section properties.
Context `{Crates}.

(** [from_mime_type] inverts [mime_type]; what it accepts besides those
    four names is [application/<subtype>+json], as JSON, and it gives every
    other string back as the error. *)
Lemma mime_type_roundtrip :
  (∀ c, from_mime_type (mime_type c) = Ok c) ∧
  (∀ s c, from_mime_type s = Ok c ↔
     s = mime_type c ∨
     c = Json_ ∧ ∃ subtype, has_char "+"%char subtype = false ∧
       s = "application/" +:+ subtype +:+ "+json") ∧
  (∀ s, (∃ c, from_mime_type s = Ok c) ∨ from_mime_type s = Err s).
Proof.
  assert (∀ s c, from_mime_type s = Ok c ↔ s = mime_type c ∨
     c = Json_ ∧ ∃ subtype, has_char "+"%char subtype = false ∧
       s = "application/" +:+ subtype +:+ "+json") as Hspec.
  { intros s c. rewrite <-mime_suffix_spec. unfold from_mime_type.
    repeat (match goal with |- context [String.eqb s ?x] => destruct (String.eqb_spec s x) as [->|?] end;
      [split; [by intros [= <-]; left|];
       intros [E|(-> & st & E)]; [destruct c; try done; by vm_compute in E|by vm_compute in E]|]).
    assert (s ≠ mime_type c) as Hs by (destruct c; assumption).
    destruct (mime_split s) as [[[type_ subtype] [suffix|]]|]; [|naive_solver..].
    destruct (String.eqb_spec type_ "application"), (String.eqb_spec suffix "json"); simpl;
      split; try done; naive_solver. }
  split; [intros c; apply Hspec; by left|]. split; [done|].
  intros s. unfold from_mime_type. repeat case_match; eauto.
Qed.

(** The metadata of a handler with two or more extractors is computed
    exactly when the extension modes that are set are all the same; the
    result has that mode and the parameters of all extractors in order. *)
Lemma tuple_metadata_spec m1 m2 ms r :
  request_extractor_metadata (Ok <$> m1 :: m2 :: ms) = Ok r ↔
    em_parameters r = concat (em_parameters <$> m1 :: m2 :: ms) ∧
    em_extension_mode r = first_mode (em_extension_mode <$> m1 :: m2 :: ms) ∧
    modes_agree (em_extension_mode r) (em_extension_mode <$> m1 :: m2 :: ms).
Proof.
  change (request_extractor_metadata (Ok <$> m1 :: m2 :: ms)) with
    (tuple_metadata_from (mk_extractor_metadata NoExtension []) (Ok <$> m1 :: m2 :: ms)).
  rewrite (tuple_metadata_from_ok _ _ (m1 :: m2 :: ms)).
  - unfold modes_agree. simpl em_extension_mode at 2 4. rewrite Forall_cons. simpl. naive_solver.
  - apply Forall2_fmap_l, Forall_Forall2_diag, Forall_true. done.
Qed.
End properties.
