(* ===== verification/Metadata.v ===== *)
(** * Metadata of parameters and headers

    [get_metadata] of [dropshot/src/extractor/metadata.rs], for the types of
    path, query and header parameters, and the headers of a response in
    [dropshot/src/handler.rs]: the members of the schema that [schemars] generates
    for the type.  The generator is a parameter: the schema and the definitions
    it makes of the type, and how it follows references to them. *)
From S2P Require Import Prelude BTree Externals Versions StatusCodes HttpError Schema OpenApi SchemaUtil ApiEndpoint.

Definition PAGINATION_PARAM_SENTINEL : string := "x-dropshot-pagination-param".
Definition PAGINATION_EXTENSION : string := "x-dropshot-pagination".
Definition WEBSOCKET_PARAM_SENTINEL : string := "x-dropshot-websocket-param".
Definition WEBSOCKET_EXTENSION : string := "x-dropshot-websocket".

Section metadata.
Context `{Crates}.

(** The schema of [PaginationParams]: that of its parameters, all optional
    ([schema]), marked with those which the first page requires, as the schema of
    the scan parameters ([scan]) has them. *)
Definition pagination_params_schema (schema scan : @SchemaObject _ Schema) : panics Schema :=
  match so_object scan with
  | None => Panic "ScanParams must be an object"
  | Some first_page_object =>
      let value := JObject [("required", JArray (JString <$> ov_required first_page_object))] in
      Ok (Object (mk_schema_object (so_metadata schema) (so_instance_type schema) (so_format schema)
        (so_enum_values schema) (so_const_value schema) (so_subschemas schema) (so_number schema)
        (so_string schema) (so_array schema) (so_object schema) (so_reference schema)
        (bt_insert PAGINATION_PARAM_SENTINEL value (so_extensions schema))))
  end.

(** The schema of [WebsocketUpgrade]. *)
Definition websocket_upgrade_schema : Schema :=
  Object (mk_schema_object None None None None None None None None None None None
    [(WEBSOCKET_PARAM_SENTINEL, JBool true)]).

(** A type that implements [JsonSchema]: its name, and the root schema and the
    definitions that a generator with the setting [option_nullable] makes. *)
Record JsonSchemaType := mk_json_schema_type {
  js_name : string;
  js_root_schema : bool → Schema * btree Schema;
}.

(** [SchemaGenerator::dereference], from the definitions, and the texts of
    errors. *)
Variables (dereference : btree Schema → Schema → option Schema)
  (pretty_schema : Schema → option string) (pretty_subschemas : @SubschemaValidation Schema → option string).

Definition option_nullable (loc : ApiEndpointParameterLocation) : bool :=
  match loc with LHeader => false | _ => true end.

Definition schema_extension_mode (schema : Schema) : panics ExtensionMode :=
  match schema_extensions schema with
  | Some extensions =>
      match bt_get PAGINATION_PARAM_SENTINEL extensions, bt_get WEBSOCKET_PARAM_SENTINEL extensions with
      | None, None => Ok NoExtension
      | None, Some _ => Ok Websocket
      | Some first_page_schema, None => Ok (Paginated first_page_schema)
      | Some _, Some _ => Panic "Cannot use websocket and pagination in the same endpoint!"
      end
  | None => Ok NoExtension
  end.

(** The members of a type's schema. *)
Definition type_members (fuel : nat) (kind : string) (t : JsonSchemaType) (schema : Schema)
    (definitions : btree Schema) : option (panics (list StructMember)) :=
  schema2struct (dereference definitions) pretty_schema pretty_subschemas fuel (js_name t) kind schema true.

Definition member_parameter (loc : ApiEndpointParameterLocation) (definitions : btree Schema) (m : StructMember) :
    ApiEndpointParameter :=
  new_named loc (sm_name m) (sm_description m) (sm_required m) (Static (sm_schema m) definitions) [].

Definition get_metadata (fuel : nat) (t : JsonSchemaType) (loc : ApiEndpointParameterLocation) :
    option (panics ExtractorMetadata) :=
  let '(schema, definitions) := js_root_schema t (option_nullable loc) in
  match schema_extension_mode schema with
  | Ok extension_mode =>
      (λ r, members ← r; Ok (mk_extractor_metadata extension_mode (member_parameter loc definitions <$> members))) <$>
        type_members fuel "parameters" t schema definitions
  | Err e => Some (Err e)
  | Panic msg => Some (Panic msg)
  end.

Definition member_header (definitions : btree Schema) (m : StructMember) : ApiEndpointHeader :=
  mk_header (sm_name m) (sm_description m) (Static (sm_schema m) definitions) (sm_required m).

(** [response_metadata] of [HttpResponseHeaders], from that of the body. *)
Definition headers_response_metadata (fuel : nat) (t : JsonSchemaType) (metadata : ApiEndpointResponse) :
    option (panics ApiEndpointResponse) :=
  let '(schema, definitions) := js_root_schema t true in
  (λ r, members ← r;
        Ok (mk_endpoint_response (r_schema metadata) (member_header definitions <$> members) (r_success metadata)
              (r_description metadata))) <$>
    type_members fuel "headers" t schema definitions.
End metadata.

Section facts.
Context `{Crates} (dereference : btree Schema → Schema → option Schema)
  (pretty_schema : Schema → option string) (pretty_subschemas : @SubschemaValidation Schema → option string).

Lemma type_members_elem fuel kind t schema definitions ms :
  type_members dereference pretty_schema pretty_subschemas fuel kind t schema definitions = Some (Ok ms) →
  ∀ m, m ∈ ms ↔ Member (dereference definitions) schema true m.
Proof.
  unfold type_members, schema2struct. destruct (schema2struct_impl _ _ _ _) as [[ms'|e|msg]|] eqn:E; try done.
  - intros [= ->]. exact (schema2struct_impl_elem _ _ _ _ _ E).
  - destruct (schema2struct_error_display _ _ e); done.
Qed.

(** the metadata of an extractor for the type [t] has one parameter, at the
    extractor's location, for each member of the schema of [t], with its name,
    description, schema and whether it is required, and depends on the
    definitions of the generator; its mode is what the extensions of the schema
    say, which never ask for both pagination and a websocket. *)
Lemma get_metadata_spec fuel t loc schema definitions r :
  js_root_schema t (option_nullable loc) = (schema, definitions) →
  get_metadata dereference pretty_schema pretty_subschemas fuel t loc = Some (Ok r) →
  schema_extension_mode schema = Ok (em_extension_mode r) ∧
  (∀ p, p ∈ em_parameters r ↔
     ∃ m, Member (dereference definitions) schema true m ∧ p = member_parameter loc definitions m) ∧
  (∀ o, schema = Object o →
     bt_get PAGINATION_PARAM_SENTINEL (so_extensions o) = None ∨ bt_get WEBSOCKET_PARAM_SENTINEL (so_extensions o) = None).
Proof.
  unfold get_metadata. intros ->. destruct (schema_extension_mode schema) as [mode|[]|msg] eqn:Em; [|done].
  intros ([ms|[]|msg] & Hms & E)%fmap_Some; [|done]. simpl in E. injection E as ->. split; [done|]. split.
  - intros p. simpl. rewrite list_elem_of_fmap. pose proof (λ m, type_members_elem _ _ _ _ _ _ Hms m). naive_solver.
  - intros o ->. unfold schema_extension_mode in Em. simpl in Em. repeat case_match; try done; auto.
Qed.

(** The schemas above have the extension modes they are made for. *)
Lemma pagination_params_mode schema scan s :
  bt_get WEBSOCKET_PARAM_SENTINEL (so_extensions schema) = None → pagination_params_schema schema scan = Ok s →
  ∃ required, schema_extension_mode s = Ok (Paginated (JObject [("required", JArray (JString <$> required))])) ∧
    ∃ ov, so_object scan = Some ov ∧ required = ov_required ov.
Proof.
  intros Hw. unfold pagination_params_schema. destruct (so_object scan) as [ov|]; [|done]. intros [= <-].
  exists (ov_required ov). split; [|by eexists]. unfold schema_extension_mode. simpl.
  rewrite bt_get_insert_eq, bt_get_insert_ne by done. by rewrite Hw.
Qed.
End facts.
