(* ===== verification/Router.v ===== *)
(** * The router: a trie of endpoints

    [dropshot/src/router.rs] without the iterator (file [RouterIter]): path
    segments, insertion of an endpoint, and the lookup of a request's method,
    path and version.

    [insert] walks down the trie with a mutable reference; here each step
    rebuilds the node it passes, so a panic leaves nothing half inserted (the
    program does not go on after one).  The [Box]es are not represented. *)
From S2P Require Import Prelude BTree FromMap Externals Versions StatusCodes HttpError Schema ApiEndpoint.

(** ** Path segments *)

Inductive PathSegment :=
| Literal (s : string)
| VarnameSegment (s : string)
| VarnameWildcard (s : string).

#[export] Instance PathSegment_eq_dec : EqDecision PathSegment.
Proof. solve_decision. Defined.

(** The part of [PathSegment::from] after the braces are checked. *)
Definition path_segment_var (var : string) : panics PathSegment :=
  let '(var, pat) := match split_once ":"%char var with
                     | Some (v, p) => (v, Some p)
                     | None => (var, None)
                     end in
  if is_empty_str var then Panic "HTTP URI path segment variable name must not be empty"
  else match pat with
       | Some pat => if String.eqb pat ".*" then Ok (VarnameWildcard var)
                     else Panic "Only the pattern '.*' is currently supported"
       | None => Ok (VarnameSegment var)
       end.

Definition path_segment_from (segment : string) : panics PathSegment :=
  if starts_with_char "{"%char segment || ends_with_char "}"%char segment
  then if negb (starts_with_char "{"%char segment)
       then Panic "HTTP URI path segment variable missing leading '{'"
       else if negb (ends_with_char "}"%char segment)
       then Panic "HTTP URI path segment variable missing trailing '}'"
       else path_segment_var (inner_slice segment)
  else Ok (Literal segment).

(** The name a segment binds. *)
Definition segment_var (s : PathSegment) : option string :=
  match s with Literal _ => None | VarnameSegment v | VarnameWildcard v => Some v end.

Inductive VariableValue :=
| VString (s : string)
| VComponents (l : list string).

Definition VariableSet : Type := btree VariableValue.

(** [impl MapValue for VariableValue]. *)
Definition variable_as_value (v : VariableValue) : rust string string :=
  match v with
  | VString s => Ok s
  | VComponents _ => Err "cannot deserialize sequence as a single value"
  end.
Definition variable_as_seq (v : VariableValue) : rust string (list string) :=
  match v with
  | VString _ => Err "cannot deserialize a single value as a sequence"
  | VComponents l => Ok l
  end.
#[export] Instance VariableValue_MapValue : MapValue VariableValue := {
  as_value := variable_as_value;
  as_seq := variable_as_seq;
}.

(** [route_path_to_segments]: the path of an endpoint. *)
Definition route_path_to_segments (path : string) : panics (list string) :=
  if negb (starts_with_char "/"%char path)
  then Panic ("route paths must begin with a '/': '" +:+ path +:+ "'")
  else
    let ret := tail (split_on "/"%char path) in
    if existsb is_empty_str (removelast ret)
    then Panic ("path segments may not be empty: '" +:+ path +:+ "'")
    else Ok (match last ret with Some "" => removelast ret | _ => ret end).

Section input.
Context `{Crates}.

Definition is_dot_segment (s : string) : bool := String.eqb s "." || String.eqb s "..".

Definition decode_segment (segment : string) : rust string string :=
  if is_dot_segment segment then Err "dot-segments are not permitted"
  else match percent_decode segment with inl s => Ok s | inr e => Err e end.

(** [input_path_to_segments]: the path of a request. *)
Definition input_path_to_segments (path : string) : rust string (list string) :=
  try_map decode_segment (List.filter (λ s, negb (is_empty_str s)) (split_on "/"%char path)).
End input.

Section router.
Context `{Crates}.

(** ** The trie *)

Inductive HttpRouterNode :=
| Node (methods : btree (list ApiEndpoint)) (edges : option HttpRouterEdges)
with HttpRouterEdges :=
| Literals (m : list (string * HttpRouterNode))
| VariableSingle (varname : string) (node : HttpRouterNode)
| VariableRest (varname : string) (node : HttpRouterNode).

Definition methods (n : HttpRouterNode) : btree (list ApiEndpoint) := match n with Node m _ => m end.
Definition edges (n : HttpRouterNode) : option HttpRouterEdges := match n with Node _ e => e end.

Record HttpRouter := mk_router {
  root : HttpRouterNode;
  has_versioned_routes : bool;
}.

Definition node_new : HttpRouterNode := Node [] None.
Definition router_new : HttpRouter := mk_router node_new false.

(** ** Insertion *)

Definition insert_var (path : string) (varnames : gset string) (new_varname : string) :
    panics (gset string) :=
  if bool_decide (new_varname ∈ varnames)
  then Panic ("URI path " +:+ quoted path +:+ ": variable name " +:+ quoted new_varname +:+
              " is used more than once")
  else Ok ({[new_varname]} ∪ varnames).

Definition panic_at {A} (path what : string) : panics A :=
  Panic ("URI path " +:+ quoted path +:+ ": " +:+ what).

Definition methodname (e : ApiEndpoint) : string := to_ascii_uppercase (method e).

(** The loop over [existing_handlers]. *)
Definition check_overlap (path methodname : string) (e : ApiEndpoint) (existing : list ApiEndpoint) :
    panics () :=
  for_each (λ handler,
    if overlaps_with (versions handler) (versions e)
    then if bool_decide (versions handler = versions e)
         then panic_at path ("attempted to create duplicate route for method " +:+ quoted methodname)
         else panic_at path ("attempted to register multiple handlers for method " +:+ quoted methodname +:+
                             " with overlapping version ranges")
    else Ok ()) existing.

(** The end of [insert], at the node for the endpoint's path. *)
Definition add_handler (e : ApiEndpoint) (node : HttpRouterNode) : panics HttpRouterNode :=
  let existing_handlers := default [] (bt_get (methodname e) (methods node)) in
  _ ← check_overlap (path e) (methodname e) e existing_handlers;
  Ok (Node (bt_insert (methodname e) (existing_handlers ++ [e]) (methods node)) (edges node)).

(** The loop of [insert] over the raw segments, from [node] down. *)
Fixpoint insert_at (e : ApiEndpoint) (varnames : gset string) (all_segments : list string)
    (node : HttpRouterNode) : panics HttpRouterNode :=
  match all_segments with
  | [] => add_handler e node
  | raw_segment :: all_segments =>
      segment ← path_segment_from raw_segment;
      match segment with
      | Literal lit =>
          match default (Literals []) (edges node) with
          | VariableSingle varname _ | VariableRest varname _ =>
              panic_at (path e) ("attempted to register route for literal path segment " +:+ quoted lit
                +:+ " when a route exists for variable path segment (variable name: "
                +:+ quoted varname +:+ ")")
          | Literals literals =>
              child ← insert_at e varnames all_segments (default node_new (bt_get lit literals));
              Ok (Node (methods node) (Some (Literals (bt_insert lit child literals))))
          end
      | VarnameSegment new_varname =>
          varnames ← insert_var (path e) varnames new_varname;
          match default (VariableSingle new_varname node_new) (edges node) with
          | Literals _ =>
              panic_at (path e) ("attempted to register route for variable path segment (variable name: "
                +:+ quoted new_varname +:+ ") when a route already exists for a literal path segment")
          | VariableRest varname _ =>
              panic_at (path e) ("attempted to register route for variable path segment (variable name: "
                +:+ quoted new_varname +:+ ") when a route already exists for the remainder of the path as "
                +:+ varname)
          | VariableSingle varname child =>
              if bool_decide (new_varname ≠ varname)
              then panic_at (path e) ("attempted to use variable name " +:+ quoted new_varname
                     +:+ ", but a different name (" +:+ quoted varname +:+ ") has already been used for this")
              else
                child ← insert_at e varnames all_segments child;
                Ok (Node (methods node) (Some (VariableSingle varname child)))
          end
      | VarnameWildcard new_varname =>
          if negb (bool_decide (all_segments = []))
          then panic_at (path e) ("attempted to match segments after the wildcard variable "
                 +:+ quoted new_varname)
          else
            varnames ← insert_var (path e) varnames new_varname;
            match default (VariableRest new_varname node_new) (edges node) with
            | Literals _ =>
                panic_at (path e) ("attempted to register route for variable path regex (variable name: "
                  +:+ quoted new_varname +:+ ") when a route already exists for a literal path segment")
            | VariableSingle varname _ =>
                panic_at (path e) ("attempted to register route for variable path regex (variable name: "
                  +:+ quoted new_varname +:+ ") when a route already exists for a segment " +:+ varname)
            | VariableRest varname child =>
                if bool_decide (new_varname ≠ varname)
                then panic_at (path e) ("attempted to use variable name " +:+ quoted new_varname
                     +:+ ", but a different name (" +:+ quoted varname +:+ ") has already been used for this")
                else
                  child ← insert_at e varnames all_segments child;
                  Ok (Node (methods node) (Some (VariableRest varname child)))
            end
      end
  end.

Definition insert (self : HttpRouter) (endpoint : ApiEndpoint) : panics HttpRouter :=
  all_segments ← route_path_to_segments (path endpoint);
  root ← insert_at endpoint ∅ all_segments (root self);
  Ok (mk_router root
        (if bool_decide (versions endpoint ≠ All) then true else has_versioned_routes self)).

(** ** Lookup *)

Record RequestEndpointMetadata := mk_request_endpoint {
  rem_operation_id : string;
  rem_variables : VariableSet;
  rem_body_content_type : ApiEndpointBodyContentType;
  rem_request_body_max_bytes : option N;
}.

Record RouterLookupResult := mk_lookup_result {
  lr_handler : Handler;
  lr_endpoint : RequestEndpointMetadata;
}.

Definition find_handler_matching_version (handlers : list ApiEndpoint) (version : option Version) :
    option ApiEndpoint :=
  List.find (λ h, matches (versions h) version) handlers.

Definition raise {A} (e : panics HttpError) : rust HttpError A :=
  e ← lift_panics e; Err e.

Definition no_path {A} : rust HttpError A :=
  raise (for_not_found None "no route found (no path in router)").

(** The loop over the request's segments. *)
Fixpoint walk (all_segments : list string) (node : HttpRouterNode) (variables : VariableSet) :
    rust HttpError (HttpRouterNode * VariableSet) :=
  match all_segments with
  | [] => Ok (node, variables)
  | segment :: all_segments =>
      match edges node with
      | None => no_path
      | Some (Literals edges) =>
          match bt_get segment edges with
          | None => no_path
          | Some node => walk all_segments node variables
          end
      | Some (VariableSingle varname node) =>
          walk all_segments node (bt_insert varname (VString segment) variables)
      | Some (VariableRest varname node) =>
          match edges node with
          | Some _ => Panic "assertion failed: node.edges.is_none()"
          | None => Ok (node, bt_insert varname (VComponents (segment :: all_segments)) variables)
          end
      end
  end.

(** The wildcard consumes the implicit, empty path segment. *)
Definition trailing_wildcard (node : HttpRouterNode) (variables : VariableSet) :
    rust HttpError (HttpRouterNode * VariableSet) :=
  match edges node with
  | Some (VariableRest varname new_node) =>
      match edges new_node with
      | Some _ => Panic "assertion failed: new_node.edges.is_none()"
      | None => Ok (new_node, bt_insert varname (VComponents []) variables)
      end
  | _ => Ok (node, variables)
  end.

(** The [Allow] headers of a 405. *)
Fixpoint add_allow_headers (err : HttpError) (allowed : list string) : panics HttpError :=
  match allowed with
  | [] => Ok err
  | m :: allowed =>
      match add_header Some hv_from_str err ALLOW m with
      | (err, Ok _) => add_allow_headers err allowed
      | (_, _) => Panic "method should be a valid allow header"
      end
  end.

Definition method_not_allowed (node : HttpRouterNode) : panics HttpError :=
  err ← for_client_error_with_status None (client_constant 405);
  add_allow_headers err (bt_keys (methods node)).

(** The lookup at the node the path leads to. *)
Definition select (node : HttpRouterNode) (variables : VariableSet) (m : string)
    (version : option Version) : rust HttpError RouterLookupResult :=
  let methodname := to_ascii_uppercase m in
  match find_handler_matching_version (default [] (bt_get methodname (methods node))) version with
  | Some h =>
      Ok (mk_lookup_result (handler h)
            (mk_request_endpoint (operation_id h) variables (body_content_type h)
               (request_body_max_bytes h)))
  | None =>
      if existsb (λ handlers,
           match find_handler_matching_version handlers version with Some _ => true | None => false end)
           (bt_values (methods node))
      then raise (method_not_allowed node)
      else raise (for_not_found None ("route has no handlers for version " +:+
             match version with Some v => ver_to_string v | None => "<none>" end))
  end.

Definition lookup_route (self : HttpRouter) (m path : string) (version : option Version) :
    rust HttpError RouterLookupResult :=
  all_segments ← map_err (λ _, for_bad_request None "invalid path encoding")
                   (input_path_to_segments path);
  '(node, variables) ← walk all_segments (root self) [];
  '(node, variables) ← trailing_wildcard node variables;
  select node variables m version.
End router.
