(* ===== verification/RouterSpec.v ===== *)
(** * What the router promises

    The trie of [Router] against a specification that knows no trie: an API is
    the list of its endpoints in the order of registration, each with the
    pattern its path denotes, and a request's segments match a pattern.

    [Rep eps nd] relates the two.  The first half of the file shows that
    insertion keeps it, and succeeds exactly on lists without conflicts; the
    second that the walk of a lookup ends where matching says. *)
From S2P Require Import Prelude BTree Externals Versions StatusCodes HttpError Schema ApiEndpoint Router.

(** ** Patterns *)

Definition pattern : Type := list PathSegment.

(** The pattern of a route's path. *)
Definition path_pattern (path : string) : panics pattern :=
  segments ← route_path_to_segments path; try_map path_segment_from segments.

(** The segments of a request that match a pattern, and the variables that
    binds, in order. *)
Fixpoint match_route (p : pattern) (segs : list string) : option (list (string * VariableValue)) :=
  match p, segs with
  | [], [] => Some []
  | Literal l :: p, s :: segs => if String.eqb s l then match_route p segs else None
  | VarnameSegment v :: p, s :: segs => cons (v, VString s) <$> match_route p segs
  | [VarnameWildcard v], segs => Some [(v, VComponents segs)]
  | _, _ => None
  end.

(** A wildcard is the last segment of a pattern. *)
Fixpoint wildcard_last (p : pattern) : Prop :=
  match p with
  | [] => True
  | VarnameWildcard _ :: p => p = []
  | _ :: p => wildcard_last p
  end.

Definition pattern_vars (p : pattern) : list string := omap segment_var p.

(** Two patterns can be in the same router: where they first differ, both have
    literals. *)
Fixpoint compatible (p q : pattern) : Prop :=
  match p, q with
  | [], _ | _, [] => True
  | Literal a :: p, Literal b :: q => a = b → compatible p q
  | VarnameSegment a :: p, VarnameSegment b :: q => a = b ∧ compatible p q
  | VarnameWildcard a :: p, VarnameWildcard b :: q => a = b ∧ compatible p q
  | _, _ => False
  end.

Lemma compatible_sym p q : compatible p q → compatible q p.
Proof.
  revert q. induction p as [|[a|a|a] p IH]; intros [|[b|b|b] q]; simpl; try done.
  - intros H Hba. by apply IH, H.
  - intros [-> H]. auto.
  - intros [-> H]. auto.
Qed.

Lemma compatible_refl p : compatible p p.
Proof. induction p as [|[] p IH]; simpl; auto. Qed.

Lemma wildcard_last_app p v r : wildcard_last (p ++ VarnameWildcard v :: r) → r = [].
Proof.
  induction p as [|[] p IH]; simpl; [done|auto|auto|]. by destruct p.
Qed.

Lemma compatible_prefix p q r : compatible p (q ++ r) → compatible p q.
Proof.
  revert q. induction p as [|[a|a|a] p IH]; intros [|[b|b|b] q]; simpl; try done.
  - intros H Hab. by apply IH, H.
  - intros [-> H]. eauto.
  - intros [-> H]. eauto.
Qed.

Section trie.
Context `{Crates}.
Implicit Types (nd : HttpRouterNode) (p q : pattern) (e : ApiEndpoint).

(** *** The node of a pattern *)

(** The child of a node along a segment. *)
Definition child (s : PathSegment) (nd : HttpRouterNode) : option HttpRouterNode :=
  match s, edges nd with
  | Literal l, Some (Literals m) => bt_get l m
  | VarnameSegment v, Some (VariableSingle v' c) => if String.eqb v v' then Some c else None
  | VarnameWildcard v, Some (VariableRest v' c) => if String.eqb v v' then Some c else None
  | _, _ => None
  end.

Fixpoint node_at (p : pattern) (nd : HttpRouterNode) : option HttpRouterNode :=
  match p with [] => Some nd | s :: p => c ← child s nd; node_at p c end.

Definition handlers_at (p : pattern) (m : string) (nd : HttpRouterNode) : list ApiEndpoint :=
  default [] (n ← node_at p nd; bt_get m (methods n)).

(** *** Insertion without the checks *)

(** The child the insertion goes to, made when it is not there. *)
Definition child_or_new (s : PathSegment) (nd : HttpRouterNode) : HttpRouterNode :=
  default node_new (child s nd).

Definition set_child (s : PathSegment) (c : HttpRouterNode) (nd : HttpRouterNode) : HttpRouterNode :=
  Node (methods nd)
    (Some match s with
          | Literal l => Literals (bt_insert l c match edges nd with Some (Literals m) => m | _ => [] end)
          | VarnameSegment v => VariableSingle v c
          | VarnameWildcard v => VariableRest v c
          end).

Fixpoint put e (p : pattern) nd : HttpRouterNode :=
  match p with
  | [] => Node (bt_insert (methodname e) (default [] (bt_get (methodname e) (methods nd)) ++ [e])
                 (methods nd)) (edges nd)
  | s :: p => set_child s (put e p (child_or_new s nd)) nd
  end.

(** The kind of edges of the node allows a child along [s]. *)
Definition fits_edge (s : PathSegment) (nd : HttpRouterNode) : Prop :=
  match s, edges nd with
  | _, None => True
  | Literal _, Some (Literals _) => True
  | VarnameSegment v, Some (VariableSingle v' _) => v = v'
  | VarnameWildcard v, Some (VariableRest v' _) => v = v'
  | _, _ => False
  end.

Fixpoint fits (p : pattern) nd : Prop :=
  match p with [] => True | s :: p => fits_edge s nd ∧ fits p (child_or_new s nd) end.

(** The variables of the pattern are new and used once. *)
Fixpoint vars_fresh (vs : gset string) (p : pattern) : Prop :=
  match p with
  | [] => True
  | s :: p =>
      match segment_var s with
      | None => vars_fresh vs p
      | Some v => v ∉ vs ∧ vars_fresh ({[v]} ∪ vs) p
      end
  end.

Definition no_overlap e (l : list ApiEndpoint) : Prop :=
  Forall (λ h, overlaps_with (versions h) (versions e) = false) l.

Lemma check_overlap_ok pa m e l : check_overlap pa m e l = Ok () ↔ no_overlap e l.
Proof.
  unfold check_overlap, no_overlap. rewrite for_each_ok. apply Forall_iff. intros h.
  destruct (overlaps_with _ _); [|done]. case_bool_decide; done.
Qed.

Lemma no_overlap_nil e : no_overlap e [].
Proof. constructor. Qed.

Lemma handlers_at_cons s p m nd : handlers_at (s :: p) m nd =
  match child s nd with Some c => handlers_at p m c | None => [] end.
Proof. unfold handlers_at. simpl. by destruct (child s nd). Qed.

Lemma handlers_at_new p m : handlers_at p m node_new = [].
Proof. by destruct p as [|[]]. Qed.

Lemma handlers_child_or_new s p m nd :
  handlers_at p m (child_or_new s nd) = handlers_at (s :: p) m nd.
Proof.
  rewrite handlers_at_cons. unfold child_or_new. destruct (child s nd); [done|].
  apply handlers_at_new.
Qed.

(** One step of [insert_at]. *)
Lemma insert_at_cons e vs raw raws nd nd' :
  insert_at e vs (raw :: raws) nd = Ok nd' ↔
  ∃ s c vs', path_segment_from raw = Ok s ∧
    (match s with VarnameWildcard _ => raws = [] | _ => True end) ∧
    (match segment_var s with None => vs' = vs | Some v => v ∉ vs ∧ vs' = {[v]} ∪ vs end) ∧
    fits_edge s nd ∧ insert_at e vs' raws (child_or_new s nd) = Ok c ∧ nd' = set_child s c nd.
Proof.
  simpl. rewrite rust_bind_ok. unfold insert_var, child_or_new, set_child, child, fits_edge.
  split.
  - intros (s & Hs & E). exists s.
    destruct s as [l|v|v]; simpl in E |- *.
    + destruct (edges nd) as [[m|v c|v c]|] eqn:Ed; simpl in E; try done; inv_ok; eauto 10.
    + case_bool_decide; simpl in E; [done|].
      destruct (edges nd) as [[m|v' c|v' c]|] eqn:Ed; simpl in E; try done.
      * case_bool_decide as Hv; [done|]. subst v'. inv_ok.
        rewrite String.eqb_refl. eauto 10.
      * rewrite bool_decide_false in E by auto. inv_ok. eauto 10.
    + case_bool_decide; simpl in E; [|done]. case_bool_decide; simpl in E; [done|].
      destruct (edges nd) as [[m|v' c|v' c]|] eqn:Ed; simpl in E; try done.
      * case_bool_decide as Hv; [done|]. subst v'. inv_ok.
        rewrite String.eqb_refl. eauto 10.
      * rewrite bool_decide_false in E by auto. inv_ok. eauto 10.
  - intros (s & c & vs' & Hs & Hw & Hv & Hf & Hi & ->). exists s. split; [done|].
    destruct s as [l|v|v]; simpl in *.
    + subst vs'. destruct (edges nd) as [[m|v c'|v c']|]; simpl in *; try done; by rewrite Hi.
    + destruct Hv as [Hv ->]. rewrite bool_decide_false by done. simpl.
      destruct (edges nd) as [[m|v' c'|v' c']|]; simpl in *; try done; subst.
      * rewrite bool_decide_false by auto. rewrite String.eqb_refl in Hi. simpl in *. by rewrite Hi.
      * rewrite bool_decide_false by auto. simpl in *. by rewrite Hi.
    + destruct Hv as [Hv ->]. rewrite bool_decide_true by done. simpl.
      rewrite bool_decide_false by done. simpl.
      destruct (edges nd) as [[m|v' c'|v' c']|]; simpl in *; try done; subst.
      * rewrite bool_decide_false by auto. rewrite String.eqb_refl in Hi. simpl in *. by rewrite Hi.
      * rewrite bool_decide_false by auto. by injection Hi as <-.
Qed.

(** [insert_at] succeeds when the pattern fits the trie and the versions do
    not overlap, and then does what [put] does. *)
Lemma insert_at_ok e vs raws nd nd' :
  insert_at e vs raws nd = Ok nd' ↔
  ∃ p, try_map path_segment_from raws = Ok p ∧ wildcard_last p ∧ vars_fresh vs p ∧ fits p nd ∧
    no_overlap e (handlers_at p (methodname e) nd) ∧ nd' = put e p nd.
Proof.
  revert vs nd nd'. induction raws as [|raw raws IH]; intros vs nd nd'.
  - simpl. unfold add_handler. rewrite rust_bind_ok. split.
    + intros ([] & Hc%check_overlap_ok & [= <-]). exists []. split_and!; done.
    + intros (p & [= <-] & _ & _ & _ & Ho & ->). exists (). by rewrite check_overlap_ok.
  - rewrite insert_at_cons. setoid_rewrite IH. setoid_rewrite try_map_cons_ok. split.
    + intros (s & c & vs' & Hs & Hw & Hv & Hf & (p & Hp & Hwl & Hvf & Hft & Ho & ->) & ->).
      exists (s :: p). split; [by eauto 10|].
      rewrite handlers_child_or_new in Ho. split_and!; try done.
      * destruct s; [done..|]. subst raws. by injection Hp as <-.
      * simpl. destruct (segment_var s) as [v|]; naive_solver.
    + intros (p & (s & ys & Hs & Hp & ->) & Hwl & Hvf & [Hf Hft] & Ho & ->).
      exists s, (put e ys (child_or_new s nd)).
      exists (match segment_var s with Some v => {[v]} ∪ vs | None => vs end).
      rewrite <-handlers_child_or_new in Ho. simpl in Hvf.
      split_and!; try done; [| |].
      * destruct s; [done..|]. simpl in Hwl. subst ys. destruct raws; [done|].
        by apply try_map_cons_ok in Hp as (? & ? & _ & _ & ?).
      * by destruct (segment_var s); [destruct Hvf|].
      * exists ys. split_and!; try done; [by destruct s; [..|rewrite Hwl]|].
        by destruct (segment_var s); [destruct Hvf|].
Qed.
End trie.

Section put_facts.
Context `{Crates}.
Implicit Types (nd c : HttpRouterNode) (p q : pattern) (e : ApiEndpoint) (s : PathSegment).

Lemma child_set_child s s' c nd :
  fits_edge s nd →
  child s' (set_child s c nd) = if decide (s' = s) then Some c else child s' nd.
Proof.
  intros Hf. unfold child, set_child, fits_edge in *. simpl.
  destruct s as [l|v|v], s' as [l'|v'|v']; simpl;
    destruct (edges nd) as [[m|w c'|w c']|]; simpl; try done;
    repeat case_decide; simplify_eq; rewrite ?bt_get_insert_eq, ?String.eqb_refl; try done.
  all: try (by rewrite bt_get_insert_ne by congruence).
  all: repeat match goal with
       | |- context [String.eqb ?a ?b] => destruct (String.eqb_spec a b); try congruence
       end; done.
Qed.

Lemma child_new s : child s node_new = None.
Proof. by destruct s. Qed.

Lemma node_at_new q : is_Some (node_at q node_new) ↔ q = [].
Proof.
  destruct q as [|s q]; simpl; [by split; eauto|]. rewrite child_new. split; [by intros []|done].
Qed.

Lemma is_Some_child_or_new s q nd :
  is_Some (node_at q (child_or_new s nd)) ↔ q = [] ∨ is_Some (node_at (s :: q) nd).
Proof.
  unfold child_or_new. simpl. destruct (child s nd) as [c|]; simpl.
  - split; [by right|]. intros [->|]; [by eauto|done].
  - rewrite node_at_new. split; [by left|]. intros [|[]]; done.
Qed.

Lemma handlers_at_put e p q m nd :
  fits p nd →
  handlers_at q m (put e p nd) =
    if decide (q = p ∧ m = methodname e) then handlers_at q m nd ++ [e] else handlers_at q m nd.
Proof.
  revert q nd. induction p as [|s p IH]; intros [|s' q] nd Hfit.
  - unfold handlers_at. simpl. rewrite bt_get_insert.
    destruct (String.eqb_spec m (methodname e)) as [->|]; case_decide; naive_solver.
  - rewrite decide_False by naive_solver. by rewrite !handlers_at_cons.
  - rewrite decide_False by naive_solver. done.
  - destruct Hfit as [Hf Hfit]. rewrite handlers_at_cons. simpl.
    rewrite child_set_child by done. destruct (decide (s' = s)) as [->|Hs].
    + rewrite IH, handlers_child_or_new by done. repeat case_decide; naive_solver.
    + rewrite decide_False by naive_solver. by rewrite handlers_at_cons.
Qed.

Lemma node_at_put e p q nd :
  fits p nd →
  is_Some (node_at q (put e p nd)) ↔ is_Some (node_at q nd) ∨ q `prefix_of` p.
Proof.
  revert q nd. induction p as [|s p IH]; intros [|s' q] nd Hfit; simpl.
  - split; by eauto.
  - split; [|intros [|?%prefix_nil_not]]; try done. by left.
  - split; [|by eauto]. intros _. left. by eauto.
  - destruct Hfit as [Hf Hfit]. rewrite child_set_child by done. destruct (decide (s' = s)) as [->|Hs]; simpl.
    + rewrite IH, is_Some_child_or_new by done. simpl. split.
      * intros [[->|?]|?]; [right; by apply prefix_cons, prefix_nil|by left|right; by apply prefix_cons].
      * intros [?|?%prefix_cons_inv_2]; auto.
    + split; [by left|]. intros [?|?%prefix_cons_inv_1]; done.
Qed.

(** *** Well-formed tries *)

Definition local_wf nd : Prop :=
  bt_wf (methods nd) ∧
  Forall (λ b, b.2 ≠ [] ∧ Forall (λ e, methodname e = b.1) b.2) (methods nd) ∧
  match edges nd with
  | Some (Literals m) => bt_wf m ∧ m ≠ []
  | Some (VariableRest _ c) => edges c = None
  | _ => True
  end.

Definition node_wf nd : Prop := ∀ q nd', node_at q nd = Some nd' → local_wf nd'.

Lemma node_wf_unfold nd : node_wf nd ↔ local_wf nd ∧ ∀ s c, child s nd = Some c → node_wf c.
Proof.
  split.
  - intros Hnd. split; [by apply (Hnd [])|]. intros s c Hc q nd' Hq.
    apply (Hnd (s :: q)). simpl. by rewrite Hc.
  - intros [Hl Hc] [|s q] nd'; simpl; [by intros [= <-]|].
    destruct (child s nd) as [c|] eqn:Es; [|done]. simpl. by apply (Hc s).
Qed.

Lemma node_wf_new : node_wf node_new.
Proof.
  apply node_wf_unfold. split; [|intros s c; by rewrite child_new].
  split_and!; [apply bt_wf_nil|constructor|done].
Qed.

Lemma child_or_new_wf s nd : node_wf nd → node_wf (child_or_new s nd).
Proof.
  intros Hnd. unfold child_or_new. destruct (child s nd) eqn:E; [|apply node_wf_new].
  simpl. apply node_wf_unfold in Hnd as [_ Hc]. by eapply Hc.
Qed.

Lemma wildcard_child_edges v nd : node_wf nd → edges (child_or_new (VarnameWildcard v) nd) = None.
Proof.
  intros [(_ & _ & He) _]%node_wf_unfold. unfold child_or_new, child.
  destruct (edges nd) as [[m|w c|w c]|]; try done. by destruct (String.eqb v w).
Qed.

Lemma put_methods_wf e ms :
  bt_wf ms → Forall (λ b : string * list ApiEndpoint, b.2 ≠ [] ∧ Forall (λ e, methodname e = b.1) b.2) ms →
  Forall (λ b : string * list ApiEndpoint, b.2 ≠ [] ∧ Forall (λ e, methodname e = b.1) b.2)
    (bt_insert (methodname e) (default [] (bt_get (methodname e) ms) ++ [e]) ms).
Proof.
  intros Hwf Hms. apply Forall_forall. intros [m l] [[-> ->]|Hm]%bt_insert_elem.
  - split; [by destruct (default _ _)|]. apply Forall_app. split; [|by constructor].
    destruct (bt_get (methodname e) ms) as [l|] eqn:E; [|constructor].
    apply bt_get_elem in E. rewrite Forall_forall in Hms. by apply Hms in E as [_ ?].
  - rewrite Forall_forall in Hms. by apply Hms in Hm.
Qed.

Lemma put_wf e p nd : wildcard_last p → fits p nd → node_wf nd → node_wf (put e p nd).
Proof.
  revert nd. induction p as [|s p IH]; intros nd Hw Hfit Hnd.
  - apply node_wf_unfold in Hnd as [(Hb & Hm & He) Hc]. apply node_wf_unfold. split; [|done].
    split_and!; simpl; [by apply bt_wf_insert|by apply put_methods_wf|done].
  - destruct Hfit as [Hf Hfit].
    assert (wildcard_last p) as Hwp by (destruct s; simpl in Hw; by subst).
    pose proof (IH _ Hwp Hfit (child_or_new_wf s nd Hnd)) as Hput.
    pose proof (proj1 (node_wf_unfold nd) Hnd) as [(Hb & Hm & He) Hc].
    apply node_wf_unfold. split.
    + split_and!; simpl; [done..|]. destruct s as [l|v|v]; simpl; [|done|].
      * split; [|by intros E; destruct (edges nd) as [[[|[]]| |]|]; simpl in E; repeat case_match].
        apply bt_wf_insert. destruct (edges nd) as [[m| |]|]; try apply bt_wf_nil. by apply He.
      * simpl in Hw. subst p. by apply wildcard_child_edges.
    + intros s' c. simpl. rewrite child_set_child by done. case_decide; [|by apply Hc].
      by intros [= <-].
Qed.

(** [fits] without the trie: the pattern is compatible with all that are there. *)
Lemma fits_compatible p nd :
  node_wf nd → fits p nd ↔ ∀ q, is_Some (node_at q nd) → compatible p q.
Proof.
  revert nd. induction p as [|s p IH]; intros nd Hnd; [done|]. simpl fits.
  rewrite (IH _ (child_or_new_wf s nd Hnd)). setoid_rewrite is_Some_child_or_new. split.
  - intros [Hf Hp] [|s' q] Hq; [by destruct s|].
    destruct (decide (s' = s)) as [->|Hs].
    + specialize (Hp q (or_intror Hq)). by destruct s; simpl.
    + simpl in Hq. destruct (child s' nd) as [c|] eqn:Ec; [|by destruct Hq].
      unfold child, fits_edge in *.
      destruct s, s'; destruct (edges nd) as [[]|]; simplify_eq; simpl; try done; try congruence.
      all: repeat match goal with
           | E : context [String.eqb ?a ?b] |- _ => destruct (String.eqb_spec a b); simplify_eq
           end; try done; congruence.
  - intros Hall. split.
    + apply node_wf_unfold in Hnd as [(_ & _ & He) _]. unfold fits_edge.
      destruct (edges nd) as [[m|w c|w c]|] eqn:Ed; [| | |by destruct s].
      * destruct He as [Hm Hne]. destruct m as [|[k c] m]; [done|].
        assert (compatible (s :: p) [Literal k]) as Hk.
        { apply Hall. simpl. unfold child. rewrite Ed. simpl. rewrite String.eqb_refl. simpl. by eauto. }
        by destruct s.
      * assert (compatible (s :: p) [VarnameSegment w]) as Hk.
        { apply Hall. simpl. unfold child. rewrite Ed, String.eqb_refl. simpl. by eauto. }
        destruct s; try done. by destruct Hk.
      * assert (compatible (s :: p) [VarnameWildcard w]) as Hk.
        { apply Hall. simpl. unfold child. rewrite Ed, String.eqb_refl. simpl. by eauto. }
        destruct s; try done. by destruct Hk.
    + intros q [->|Hq]; [by destruct p as [|[]]|]. specialize (Hall (s :: q) Hq).
      destruct s; simpl in Hall; [by apply Hall|by destruct Hall..].
Qed.
End put_facts.

(** ** The endpoints a trie holds *)

Section rep.
Context `{Crates}.
Implicit Types (nd c : HttpRouterNode) (p q : pattern) (e : ApiEndpoint) (s : PathSegment)
  (eps : list ApiEndpoint).

(** The endpoint is for the pattern and the (upper-case) method. *)
Definition at_route (q : pattern) (m : string) (e : ApiEndpoint) : bool :=
  match path_pattern (path e) with
  | Ok p => bool_decide (p = q) && String.eqb m (methodname e)
  | _ => false
  end.

(** The conditions on a single endpoint. *)
Definition path_ok e : Prop :=
  ∃ p, path_pattern (path e) = Ok p ∧ wildcard_last p ∧ NoDup (pattern_vars p).

(** The conditions on two endpoints of the same API. *)
Definition endpoints_compatible (a b : ApiEndpoint) : Prop :=
  ∀ p q, path_pattern (path a) = Ok p → path_pattern (path b) = Ok q →
    compatible p q ∧
    (p = q → methodname a = methodname b → overlaps_with (versions a) (versions b) = false).

Definition has_prefix (eps : list ApiEndpoint) (q : pattern) : Prop :=
  q = [] ∨ ∃ e p, e ∈ eps ∧ path_pattern (path e) = Ok p ∧ q `prefix_of` p.

(** [nd] holds the endpoints [eps], in their order. *)
Record Rep eps nd : Prop := {
  rep_wf : node_wf nd;
  rep_handlers q m : handlers_at q m nd = List.filter (at_route q m) eps;
  rep_nodes q : is_Some (node_at q nd) ↔ has_prefix eps q;
  rep_paths : Forall path_ok eps;
}.

Lemma Rep_new : Rep [] node_new.
Proof.
  split; [apply node_wf_new|intros; apply handlers_at_new| |constructor].
  intros q. rewrite node_at_new. unfold has_prefix.
  split; [by left|]. intros [|(? & ? & []%not_elem_of_nil & _)]; done.
Qed.

Lemma vars_fresh_spec vs p :
  vars_fresh vs p ↔ NoDup (pattern_vars p) ∧ ∀ v, v ∈ pattern_vars p → v ∉ vs.
Proof.
  unfold pattern_vars. revert vs. induction p as [|s p IH]; intros vs; simpl.
  - split; [|done]. intros _. split; [constructor|]. by intros v ?%not_elem_of_nil.
  - destruct (segment_var s) as [v|]; [|apply IH]. rewrite IH, NoDup_cons.
    setoid_rewrite elem_of_cons. set_solver.
Qed.

Lemma elem_filter (P : ApiEndpoint → bool) l e : e ∈ List.filter P l ↔ e ∈ l ∧ P e = true.
Proof. rewrite !list_elem_of_In. apply filter_In. Qed.

Lemma at_route_true q m e :
  at_route q m e = true ↔ path_pattern (path e) = Ok q ∧ methodname e = m.
Proof.
  unfold at_route. destruct (path_pattern (path e)) as [p| |]; [|naive_solver..].
  rewrite andb_true_iff, bool_decide_eq_true, String.eqb_eq. naive_solver.
Qed.

(** What a pattern must satisfy to be inserted, in terms of the endpoints. *)
Lemma fits_endpoints eps nd p :
  Rep eps nd → fits p nd ↔
    ∀ e q, e ∈ eps → path_pattern (path e) = Ok q → compatible q p.
Proof.
  intros [Hwf _ Hn _]. rewrite fits_compatible by done. setoid_rewrite Hn. split.
  - intros Hall e q He Hq. apply compatible_sym, Hall. right. by exists e, q.
  - intros Hall q [->|(e & p' & He & Hp' & [r ->])]; [by destruct p as [|[]]|].
    eapply compatible_prefix, compatible_sym, Hall; done.
Qed.

(** [insert] adds an endpoint exactly when it is in order itself and
    compatible with those that are there. *)
Lemma insert_ok eps r e :
  Rep eps (root r) →
  (∃ r', insert r e = Ok r') ↔ path_ok e ∧ Forall (λ a, endpoints_compatible a e) eps.
Proof.
  intros HR. unfold insert, path_ok, path_pattern.
  assert ((∃ r', insert r e = Ok r') ↔ ∃ raws p, route_path_to_segments (path e) = Ok raws ∧
    try_map path_segment_from raws = Ok p ∧ wildcard_last p ∧ vars_fresh ∅ p ∧ fits p (root r) ∧
    no_overlap e (handlers_at p (methodname e) (root r))) as ->.
  { unfold insert. setoid_rewrite rust_bind_ok. setoid_rewrite rust_bind_ok.
    setoid_rewrite insert_at_ok. naive_solver. }
  setoid_rewrite rust_bind_ok. setoid_rewrite (fits_endpoints eps _ _ HR).
  rewrite Forall_forall. setoid_rewrite vars_fresh_spec.
  split.
  - intros (raws & p & Hr & Hp & Hw & [Hv _] & Hfit & Ho).
    assert (path_pattern (path e) = Ok p) as Hpe by (apply rust_bind_ok; eauto).
    split; [by eauto 10|]. intros a Ha q p' Hq Hp'.
    assert (p' = p) as -> by congruence. split; [by eapply Hfit|]. intros -> Hm.
    rewrite (rep_handlers _ _ HR) in Ho. unfold no_overlap in Ho. rewrite Forall_forall in Ho.
    apply Ho, elem_filter. by rewrite at_route_true.
  - intros [(p & (raws & Hr & Hp) & Hw & Hv) Hall].
    assert (path_pattern (path e) = Ok p) as Hpe by (apply rust_bind_ok; eauto).
    exists raws, p. split_and!; try done.
    + intros a q Ha Hq. by apply (Hall a Ha q p).
    + rewrite (rep_handlers _ _ HR). apply Forall_forall. intros a [Ha [Hq Hm]%at_route_true]%elem_filter.
      by apply (Hall a Ha p p).
Qed.

Lemma insert_rep eps r e r' :
  Rep eps (root r) → insert r e = Ok r' → Rep (eps ++ [e]) (root r').
Proof.
  intros HR Hi. pose proof Hi as Hi'. unfold insert in Hi.
  apply rust_bind_ok in Hi as (raws & Hraws & Hi). apply rust_bind_ok in Hi as (nd & Hnd & [= <-]).
  apply insert_at_ok in Hnd as (p & Hp & Hw & Hv & Hfit & Ho & ->). simpl.
  assert (path_pattern (path e) = Ok p) as Hpe by (apply rust_bind_ok; eauto).
  apply vars_fresh_spec in Hv as [Hv _]. destruct HR as [Hwf Hh Hn Hps]. split.
  - by apply put_wf.
  - intros q m. rewrite handlers_at_put, Hh, List.filter_app by done. simpl.
    destruct (at_route q m e) eqn:Ea.
    + apply at_route_true in Ea as [Eq Em]. rewrite decide_True; [done|by split; [congruence|]].
    + rewrite decide_False, app_nil_r; [done|]. intros [-> ->].
      apply not_true_iff_false in Ea. rewrite at_route_true in Ea. naive_solver.
  - intros q. rewrite node_at_put, Hn by done. unfold has_prefix.
    setoid_rewrite elem_of_app. setoid_rewrite list_elem_of_singleton. split.
    + intros [[?|(a & pa & ? & ? & ?)]|?]; [by left|right; by eauto 10|right; by eauto 10].
    + intros [?|(a & pa & [?|?] & Hpa & Hq)]; [by left; left|left; right; by eauto|].
      right. by assert (pa = p) as <- by congruence.
  - apply Forall_app. split; [done|]. apply Forall_singleton. by exists p.
Qed.

(** Registration of a list of endpoints. *)
Fixpoint insert_all (r : HttpRouter) (eps : list ApiEndpoint) : panics HttpRouter :=
  match eps with [] => Ok r | e :: eps => r ← insert r e; insert_all r eps end.

Definition build (eps : list ApiEndpoint) : panics HttpRouter := insert_all router_new eps.

Lemma insert_all_rep eps0 eps r r' :
  Rep eps0 (root r) → insert_all r eps = Ok r' → Rep (eps0 ++ eps) (root r').
Proof.
  revert eps0 r. induction eps as [|e eps IH]; intros eps0 r HR; simpl.
  - intros [= <-]. by rewrite app_nil_r.
  - intros (r1 & Hr1 & Hi)%rust_bind_ok. rewrite cons_middle, app_assoc.
    eapply IH; [|done]. by eapply insert_rep.
Qed.

Lemma build_rep eps r : build eps = Ok r → Rep eps (root r).
Proof. apply (insert_all_rep [] eps router_new r), Rep_new. Qed.

Lemma insert_all_ok eps0 eps r :
  Rep eps0 (root r) →
  (∃ r', insert_all r eps = Ok r') ↔
    Forall path_ok eps ∧ ForallOrdPairs endpoints_compatible eps ∧
    Forall (λ a, Forall (endpoints_compatible a) eps) eps0.
Proof.
  revert eps0 r. induction eps as [|e eps IH]; intros eps0 r HR; simpl.
  - split; [|by eauto]. intros _. split_and!; [by constructor..|].
    apply Forall_true. by constructor.
  - setoid_rewrite rust_bind_ok. rewrite Forall_cons.
    assert (Forall (λ a, Forall (endpoints_compatible a) (e :: eps)) eps0 ↔
      Forall (λ a, endpoints_compatible a e) eps0 ∧
      Forall (λ a, Forall (endpoints_compatible a) eps) eps0) as ->.
    { rewrite <-Forall_and. apply Forall_iff. intros a. by rewrite Forall_cons. }
    assert (ForallOrdPairs endpoints_compatible (e :: eps) ↔
      Forall (endpoints_compatible e) eps ∧ ForallOrdPairs endpoints_compatible eps) as ->.
    { split; [by inversion 1|]. intros []; by constructor. }
    split.
    + intros (r' & r1 & Hr1 & Hi). pose proof (insert_rep _ _ _ _ HR Hr1) as HR1.
      destruct (proj1 (insert_ok _ _ _ HR) (ex_intro _ _ Hr1)) as [Hp Hc].
      destruct (proj1 (IH _ _ HR1) (ex_intro _ _ Hi)) as (Hps & Hop & Hcs).
      apply Forall_app in Hcs as [Hcs [Hce _]%Forall_cons]. by split_and!.
    + intros ([Hp Hps] & [Hce Hop] & Hc & Hcs).
      destruct (proj2 (insert_ok _ _ _ HR) (conj Hp Hc)) as [r1 Hr1].
      pose proof (insert_rep _ _ _ _ HR Hr1) as HR1.
      destruct (proj2 (IH _ _ HR1)) as [r' Hr']; [|by eauto].
      split_and!; try done. apply Forall_app. split; [done|]. by apply Forall_singleton.
Qed.

Lemma endpoints_compatible_sym a b : endpoints_compatible a b → endpoints_compatible b a.
Proof.
  intros Hab p q Hp Hq. destruct (Hab q p Hq Hp) as [Hc Ho].
  split; [by apply compatible_sym|]. intros -> Hm. rewrite overlaps_with_sym. by apply Ho.
Qed.

Lemma build_ok eps :
  (∃ r, build eps = Ok r) ↔ Forall path_ok eps ∧ ForallOrdPairs endpoints_compatible eps.
Proof.
  unfold build. rewrite (insert_all_ok [] eps router_new Rep_new).
  split; [naive_solver|]. intros []. split_and!; try done.
Qed.

Lemma ordpairs_perm (R : ApiEndpoint → ApiEndpoint → Prop) l l' :
  (∀ a b, R a b → R b a) → l ≡ₚ l' → ForallOrdPairs R l → ForallOrdPairs R l'.
Proof.
  intros Hsym Hp. induction Hp as [|x l l' Hp IH|x y l|l1 l2 l3 Hp1 IH1 Hp2 IH2]; try done; auto.
  - inversion 1; subst. constructor; [by rewrite <-Hp|auto].
  - inversion 1 as [|? ? Hy Hl]; subst. inversion Hl; subst. inversion Hy; subst.
    constructor; [constructor; auto|by constructor].
Qed.

Lemma pairs_in (R : ApiEndpoint → ApiEndpoint → Prop) l a b :
  ForallOrdPairs R l → a ∈ l → b ∈ l → a = b ∨ R a b ∨ R b a.
Proof. intros HR Ha%list_elem_of_In Hb%list_elem_of_In. by apply ForallOrdPairs_In with (l := l). Qed.

(** The endpoints of a router that was built are compatible. *)
Lemma build_endpoints eps r a b :
  build eps = Ok r → a ∈ eps → b ∈ eps → a = b ∨ endpoints_compatible a b.
Proof.
  intros Hb Ha Hb'. destruct (proj1 (build_ok eps) (ex_intro _ r Hb)) as [_ Hop].
  destruct (pairs_in _ _ _ _ Hop Ha Hb') as [?|[?|?%endpoints_compatible_sym]]; auto.
Qed.

Lemma build_prefixes eps r q q' :
  build eps = Ok r → has_prefix eps q → has_prefix eps q' → compatible q q'.
Proof.
  intros Hb [->|(a & pa & Ha & Hpa & [ra ->])] [->|(b & pb & Hb' & Hpb & [rb ->])];
    [done|done|by destruct q as [|[]]|].
  assert (compatible (q ++ ra) (q' ++ rb)) as Hc.
  { destruct (build_endpoints eps r a b Hb Ha Hb') as [->|Hc]; [|by apply (Hc _ _ Hpa Hpb)].
    rewrite Hpa in Hpb. injection Hpb as ->. apply compatible_refl. }
  eapply compatible_prefix, compatible_sym, compatible_prefix, compatible_sym. done.
Qed.

(** Two endpoints of the same pattern and method serve a version together
    only if one of them is a one-version range. *)
Lemma build_versions `{!SemVerLaws Version} eps r a b p v :
  build eps = Ok r → a ∈ eps → b ∈ eps →
  path_pattern (path a) = Ok p → path_pattern (path b) = Ok p → methodname a = methodname b →
  matches (versions a) (Some v) = true → matches (versions b) (Some v) = true →
  a = b ∨ versions a = FromUntil (mk_pair v v) ∨ versions b = FromUntil (mk_pair v v).
Proof.
  intros Hb Ha Hb' Hpa Hpb Hm Hva Hvb.
  destruct (build_endpoints eps r a b Hb Ha Hb') as [|Hc]; [by left|right].
  destruct (Hc _ _ Hpa Hpb) as [_ Ho]. specialize (Ho eq_refl Hm).
  destruct (overlaps_with_common _ _ v Hva Hvb) as [|(w & [[Ea Eb]|[Ea Eb]])]; [congruence|..].
  - right. rewrite Eb in Hvb |- *. apply matches_fromuntil in Hvb as (Hw1 & [Hw2|[-> _]]); [ver_order|done].
  - left. rewrite Ea in Hva |- *. apply matches_fromuntil in Hva as (Hw1 & [Hw2|[-> _]]); [ver_order|done].
Qed.

Lemma has_prefix_wildcard eps nd p v :
  Rep eps nd → has_prefix eps (p ++ [VarnameWildcard v]) ↔
    ∃ e, e ∈ eps ∧ path_pattern (path e) = Ok (p ++ [VarnameWildcard v]).
Proof.
  intros HR. unfold has_prefix. split.
  - intros [E|(e & q & He & Hq & [r ->])]; [by destruct p|]. exists e. split; [done|].
    pose proof (rep_paths _ _ HR) as Hps. rewrite Forall_forall in Hps.
    destruct (Hps e He) as (q' & Hq' & Hw & _). rewrite Hq in Hq'. injection Hq' as <-.
    rewrite <-app_assoc in Hw. simpl in Hw. apply wildcard_last_app in Hw as ->.
    by rewrite app_nil_r in Hq.
  - intros (e & He & Hp). right. by exists e, (p ++ [VarnameWildcard v]).
Qed.
(** The router knows whether it has versioned routes. *)
Lemma build_versioned eps r :
  build eps = Ok r → has_versioned_routes r = true ↔ ∃ e, e ∈ eps ∧ versions e ≠ All.
Proof.
  assert (∀ r0, insert_all r0 eps = Ok r →
    has_versioned_routes r = true ↔ has_versioned_routes r0 = true ∨ ∃ e, e ∈ eps ∧ versions e ≠ All) as Hgen.
  { induction eps as [|e eps IH]; intros r0; simpl.
    - intros [= <-]. split; [by left|]. intros [|(? & ?%not_elem_of_nil & _)]; done.
    - intros (r1 & Hr1 & Hi)%rust_bind_ok. rewrite (IH r1 Hi).
      unfold insert in Hr1. apply rust_bind_ok in Hr1 as (? & _ & Hr1).
      apply rust_bind_ok in Hr1 as (? & _ & [= <-]). simpl.
      setoid_rewrite elem_of_cons. case_bool_decide; naive_solver. }
  intros Hi. rewrite (Hgen router_new Hi). simpl. naive_solver.
Qed.
End rep.

Section properties.
Context `{Crates}.
Implicit Types (e : ApiEndpoint) (eps : list ApiEndpoint) (r : HttpRouter).

(** C2: a list of endpoints can be registered, one after the other, exactly
    when each path is a valid pattern (it begins with a slash, has no empty
    inner segment, its braces are well formed, a wildcard comes last, no
    variable is used twice) and every two are compatible: their patterns
    first differ in two literals, and at the same pattern and method their
    version ranges do not overlap.  So the order of registration does not
    decide whether it succeeds. *)
Theorem build_spec eps :
  ((∃ r, build eps = Ok r) ↔ Forall path_ok eps ∧ ForallOrdPairs endpoints_compatible eps) ∧
  (∀ eps', eps ≡ₚ eps' → (∃ r, build eps = Ok r) ↔ (∃ r, build eps' = Ok r)).
Proof.
  split; [apply build_ok|]. intros eps' Hp. rewrite !build_ok.
  split; intros [Hps Hop]; (split; [by rewrite <-?Hp || rewrite Hp|]).
  - by eapply ordpairs_perm; [apply endpoints_compatible_sym|..].
  - eapply ordpairs_perm; [apply endpoints_compatible_sym|by symmetry|done].
Qed.
End properties.
