(* ===== verification/RouterLookup.v ===== *)
(** * Lookups do what the list of endpoints says

    The second half of the router's specification: where the walk of
    [lookup_route] ends, in terms of patterns that match, and the properties of
    insertion and lookup as a whole. *)
From S2P Require Import Prelude BTree Externals Versions StatusCodes HttpError Schema ApiEndpoint Router RouterSpec.

Section walk.
Context `{Crates}.
Implicit Types (nd c : HttpRouterNode) (p q : pattern) (s : PathSegment) (segs : list string)
  (vs : list (string * VariableValue)) (vars : VariableSet).

(** The variables bound so far, with those of a match added in order. *)
Definition bind_vars (vars : VariableSet) (vs : list (string * VariableValue)) : VariableSet :=
  foldl (λ m '(k, v), bt_insert k v m) vars vs.

Definition resolve (segs : list string) (nd : HttpRouterNode) (vars : VariableSet) :
    rust HttpError (HttpRouterNode * VariableSet) :=
  '(n, v) ← walk segs nd vars; trailing_wildcard n v.

Lemma match_route_cons p s segs vs :
  match_route (s :: p) segs = Some vs ↔
  match s with
  | Literal l => ∃ segs', segs = l :: segs' ∧ match_route p segs' = Some vs
  | VarnameSegment v => ∃ x segs' vs', segs = x :: segs' ∧ match_route p segs' = Some vs' ∧
      vs = (v, VString x) :: vs'
  | VarnameWildcard v => p = [] ∧ vs = [(v, VComponents segs)]
  end.
Proof.
  destruct s as [l|v|v]; simpl.
  - destruct segs as [|x segs]; [split; [done|by intros (? & ? & _)]|].
    destruct (String.eqb_spec x l) as [->|]; [split; [by eauto|by intros (? & [= <-] & ?)]|].
    split; [done|]. intros (? & [=] & _). congruence.
  - destruct segs as [|x segs]; [split; [done|by intros (? & ? & ? & ? & _)]|].
    destruct (match_route p segs) as [vs'|] eqn:E; simpl.
    + split; [intros [= <-]; by eauto 10|]. intros (? & ? & ? & [= <- <-] & ? & ->). congruence.
    + split; [done|]. intros (? & ? & ? & [= <- <-] & ? & ->). congruence.
  - destruct p, segs; (split; [intros [= <-]; done|intros [? ->]; done]).
Qed.

Lemma match_route_nil segs vs : match_route [] segs = Some vs ↔ segs = [] ∧ vs = [].
Proof. destruct segs; simpl; naive_solver. Qed.

Lemma child_edges s nd c : child s nd = Some c →
  match s with
  | Literal l => ∃ m, edges nd = Some (Literals m) ∧ bt_get l m = Some c
  | VarnameSegment v => edges nd = Some (VariableSingle v c)
  | VarnameWildcard v => edges nd = Some (VariableRest v c)
  end.
Proof.
  unfold child. destruct s as [l|v|v]; destruct (edges nd) as [[m|w d|w d]|]; try done; [by eauto|..];
    by destruct (String.eqb_spec v w) as [->|]; [intros [= <-]|].
Qed.

Lemma child_rest v nd c : child (VarnameWildcard v) nd = Some c ↔ edges nd = Some (VariableRest v c).
Proof.
  split; [apply (child_edges (VarnameWildcard v))|]. unfold child. intros ->.
  by rewrite String.eqb_refl.
Qed.

Lemma rest_child_edges nd v c : node_wf nd → edges nd = Some (VariableRest v c) → edges c = None.
Proof. intros [(_ & _ & He) _]%node_wf_unfold E. by rewrite E in He. Qed.

Lemma trailing_no_edges nd vars : edges nd = None → trailing_wildcard nd vars = Ok (nd, vars).
Proof. intros E. unfold trailing_wildcard. by rewrite E. Qed.

(** Wherever a match leads in the trie, the lookup goes there too, and then
    takes a wildcard that is left. *)
Lemma resolve_match p segs nd nd' vs vars :
  node_wf nd → node_at p nd = Some nd' → match_route p segs = Some vs →
  resolve segs nd vars = trailing_wildcard nd' (bind_vars vars vs).
Proof.
  unfold resolve. revert nd segs vs vars. induction p as [|s p IH]; intros nd segs vs vars Hnd.
  - intros [= <-] [-> ->]%match_route_nil. done.
  - simpl. destruct (child s nd) as [c|] eqn:Ec; [|done]. simpl. intros Hp Hm.
    pose proof (proj2 (proj1 (node_wf_unfold nd) Hnd) s c Ec) as Hc.
    apply child_edges in Ec. apply match_route_cons in Hm. destruct s as [l|v|v].
    + destruct Ec as (m & Em & Hl). destruct Hm as (segs' & -> & Hm). simpl.
      rewrite Em, Hl. by apply IH.
    + destruct Hm as (x & segs' & vs' & -> & Hm & ->). simpl. rewrite Ec. by apply IH.
    + destruct Hm as [-> ->]. injection Hp as <-. pose proof (rest_child_edges nd v c Hnd Ec) as En.
      simpl. rewrite (trailing_no_edges c) by done. destruct segs as [|x segs]; simpl.
      * unfold trailing_wildcard. by rewrite Ec, En.
      * rewrite Ec, En. simpl. by apply trailing_no_edges.
Qed.

(** Conversely, a walk that ends somewhere has matched. *)
Lemma walk_ok segs nd vars nd' vars' :
  walk segs nd vars = Ok (nd', vars') →
  ∃ p vs, node_at p nd = Some nd' ∧ match_route p segs = Some vs ∧ vars' = bind_vars vars vs.
Proof.
  revert nd vars. induction segs as [|x segs IH]; intros nd vars; simpl.
  - intros [= <- <-]. by exists [], [].
  - destruct (edges nd) as [[m|v c|v c]|] eqn:Ed.
    + destruct (bt_get x m) as [c|] eqn:Eg; [|unfold no_path, raise; by destruct (for_not_found _ _)].
      intros (p & vs & Hp & Hm & ->)%IH. exists (Literal x :: p), vs.
      simpl. rewrite Ed, Eg, String.eqb_refl. done.
    + intros (p & vs & Hp & Hm & ->)%IH. exists (VarnameSegment v :: p), ((v, VString x) :: vs).
      simpl. rewrite Ed, String.eqb_refl, Hm. done.
    + destruct (edges c); [done|]. intros [= <- <-].
      exists [VarnameWildcard v], [(v, VComponents (x :: segs))].
      simpl. rewrite Ed, String.eqb_refl. done.
    + unfold no_path, raise. by destruct (for_not_found _ _).
Qed.

Lemma walk_total segs nd vars :
  node_wf nd → (∃ r, walk segs nd vars = Ok r) ∨ walk segs nd vars = no_path.
Proof.
  revert nd vars. induction segs as [|x segs IH]; intros nd vars Hnd; simpl; [by left; eauto|].
  pose proof (proj2 (proj1 (node_wf_unfold nd) Hnd)) as Hc. unfold child in Hc.
  destruct (edges nd) as [[m|v c|v c]|] eqn:Ed; [| | |by right].
  - destruct (bt_get x m) as [c|] eqn:Eg; [|by right]. apply IH, (Hc (Literal x)). by rewrite ?Ed.
  - apply IH, (Hc (VarnameSegment v)). by rewrite ?Ed, String.eqb_refl.
  - left. rewrite (rest_child_edges nd v c) by done. eauto.
Qed.

(** Two patterns of one router that match the same request differ at most by
    a wildcard that takes nothing. *)
Lemma match_route_unique p q segs vs vs' :
  compatible p q → match_route p segs = Some vs → match_route q segs = Some vs' →
  (p = q ∧ vs = vs') ∨
  (∃ v, q = p ++ [VarnameWildcard v] ∧ vs' = vs ++ [(v, VComponents [])]) ∨
  (∃ v, p = q ++ [VarnameWildcard v] ∧ vs = vs' ++ [(v, VComponents [])]).
Proof.
  revert q segs vs vs'. induction p as [|s p IH]; intros [|s' q] segs vs vs' Hc.
  - intros [-> ->]%match_route_nil [_ ->]%match_route_nil. by left.
  - intros [-> ->]%match_route_nil Hq%match_route_cons. destruct s'; naive_solver.
  - intros Hp%match_route_cons [-> ->]%match_route_nil. destruct s; naive_solver.
  - intros Hp%match_route_cons Hq%match_route_cons. destruct s as [l|v|v], s' as [l'|v'|v']; simpl in Hc;
      try done.
    + destruct Hp as (segs' & -> & Hp), Hq as (? & [= <- <-] & Hq).
      destruct (IH q segs' vs vs' (Hc eq_refl) Hp Hq) as [[-> ->]|[(w & -> & ->)|(w & -> & ->)]]; naive_solver.
    + destruct Hc as [<- Hc], Hp as (x & segs' & vs1 & -> & Hp & ->), Hq as (? & ? & vs2 & [= <- <-] & Hq & ->).
      destruct (IH q segs' vs1 vs2 Hc Hp Hq) as [[-> ->]|[(w & -> & ->)|(w & -> & ->)]]; naive_solver.
    + left. naive_solver.
Qed.
End walk.

Section lookup.
Context `{Crates}.
Implicit Types (nd c : HttpRouterNode) (p q : pattern) (e : ApiEndpoint) (segs : list string)
  (eps : list ApiEndpoint) (r : HttpRouter).

(** The request's segments lead to the pattern [q]: it is a prefix of a
    registered pattern, matches, and no wildcard is left to take. *)
Definition leads eps segs q (vs : list (string * VariableValue)) : Prop :=
  has_prefix eps q ∧ match_route q segs = Some vs ∧
  ∀ v, ¬ has_prefix eps (q ++ [VarnameWildcard v]).

(** The endpoints that could serve a request, in order of registration. *)
Definition candidates eps q (m : string) (ver : option Version) : list ApiEndpoint :=
  List.filter (λ e, at_route q (to_ascii_uppercase m) e && matches (versions e) ver) eps.

Definition result_of e (vars : VariableSet) : RouterLookupResult :=
  mk_lookup_result (handler e)
    (mk_request_endpoint (operation_id e) vars (body_content_type e) (request_body_max_bytes e)).

(** Some endpoint of the pattern, for any method, is in the version. *)
Definition other_method eps q (ver : option Version) : bool :=
  existsb (λ e, at_route q (methodname e) e && matches (versions e) ver) eps.

Lemma find_filter (P Q : ApiEndpoint → bool) l :
  List.find Q (List.filter P l) = head (List.filter (λ x, P x && Q x) l).
Proof.
  induction l as [|x l IH]; simpl; [done|]. destruct (P x); simpl; [|done]. by destruct (Q x).
Qed.

Lemma node_at_app p q nd : node_at (p ++ q) nd = c ← node_at p nd; node_at q c.
Proof. revert nd. induction p as [|s p IH]; intros nd; simpl; [done|]. by destruct (child s nd); simpl. Qed.

Lemma node_wf_at p nd nd' : node_wf nd → node_at p nd = Some nd' → node_wf nd'.
Proof.
  intros Hnd Hp q nd2 Hq. apply (Hnd (p ++ q)). rewrite node_at_app, Hp. done.
Qed.

Lemma no_wildcard_edges eps nd q nd' :
  Rep eps nd → node_at q nd = Some nd' →
  (∀ v, ¬ has_prefix eps (q ++ [VarnameWildcard v])) ↔ (∀ v c, edges nd' ≠ Some (VariableRest v c)).
Proof.
  intros HR Hq. split.
  - intros Hn v c E. apply (Hn v). apply (rep_nodes _ _ HR).
    rewrite node_at_app, Hq. simpl. by rewrite E, String.eqb_refl.
  - intros Hn v Hp. apply (rep_nodes _ _ HR) in Hp as [c Hc].
    rewrite node_at_app, Hq in Hc. simpl in Hc.
    destruct (edges nd') as [[|w d|w d]|] eqn:E; try done. by apply (Hn w d).
Qed.

(** A wildcard after a pattern without one takes nothing. *)
Lemma match_route_wildcard p segs vs w :
  match_route p segs = Some vs → (∀ p' v, p ≠ p' ++ [VarnameWildcard v]) →
  match_route (p ++ [VarnameWildcard w]) segs = Some (vs ++ [(w, VComponents [])]).
Proof.
  revert segs vs. induction p as [|s p IH]; intros segs vs Hm Hn.
  - apply match_route_nil in Hm as [-> ->]. done.
  - assert (∀ p' v, p ≠ p' ++ [VarnameWildcard v]) as Hn'.
    { intros p' v ->. by apply (Hn (s :: p') v). }
    apply match_route_cons in Hm. apply match_route_cons. destruct s as [l|v|v]; [naive_solver..|].
    destruct Hm as [-> ->]. by destruct (Hn [] v).
Qed.

(** The lookup ends at the pattern the request leads to. *)
Lemma resolve_leads eps nd segs q vs :
  Rep eps nd → leads eps segs q vs →
  ∃ nd', node_at q nd = Some nd' ∧ resolve segs nd [] = Ok (nd', bt_collect vs).
Proof.
  intros HR (Hq & Hm & Hn). apply (rep_nodes _ _ HR) in Hq as [nd' Hq]. exists nd'. split; [done|].
  rewrite (resolve_match q segs nd nd' vs []); [|apply HR|done..].
  unfold trailing_wildcard. rewrite (no_wildcard_edges eps nd q nd') in Hn by done.
  destruct (edges nd') as [[m|v c|v c]|]; try done. by destruct (Hn v c).
Qed.

Lemma wildcard_last_edges p v nd n :
  node_wf nd → node_at (p ++ [VarnameWildcard v]) nd = Some n → edges n = None.
Proof.
  intros Hwf. rewrite node_at_app. destruct (node_at p nd) as [n0|] eqn:E0; [|done].
  simpl. destruct (edges n0) as [[|w d|w d]|] eqn:Ed; try done.
  destruct (String.eqb v w); [|done]. simpl. intros [= <-].
  eapply rest_child_edges; [|done]. by eapply node_wf_at.
Qed.

Lemma walk_leads eps nd segs n vars :
  Rep eps nd → walk segs nd [] = Ok (n, vars) → ∃ q vs, leads eps segs q vs.
Proof.
  intros HR (p & vs & Hp & Hm & ->)%walk_ok.
  pose proof (node_wf_at p nd n (rep_wf _ _ HR) Hp) as Hwf.
  assert (∀ w c, edges n = Some (VariableRest w c) → ∃ q vs, leads eps segs q vs) as Hrest.
  { intros w c Ed. pose proof (rest_child_edges n w c Hwf Ed) as Ec.
    assert (node_at (p ++ [VarnameWildcard w]) nd = Some c) as Hpc.
    { rewrite node_at_app, Hp. simpl. by rewrite Ed, String.eqb_refl. }
    exists (p ++ [VarnameWildcard w]), (vs ++ [(w, VComponents [])]). split_and!.
    - apply (rep_nodes _ _ HR). eauto.
    - apply match_route_wildcard; [done|]. intros p' v ->.
      rewrite (wildcard_last_edges p' v nd n) in Ed; [done|apply HR|done].
    - apply (no_wildcard_edges eps nd _ c HR Hpc). intros ??. by rewrite Ec. }
  destruct (edges n) as [[m|w c|w c]|] eqn:Ed; [| |by eapply Hrest|];
    (exists p, vs; split_and!; [apply (rep_nodes _ _ HR); eauto|done|];
     apply (no_wildcard_edges eps nd p n HR Hp); intros ??; by rewrite Ed).
Qed.

(** [lookup_route], where the request leads somewhere and where not. *)
Lemma lookup_route_leads eps r m path ver segs q vs :
  Rep eps (root r) → input_path_to_segments path = Ok segs → leads eps segs q vs →
  ∃ nd, node_at q (root r) = Some nd ∧
    lookup_route r m path ver = select nd (bt_collect vs) m ver.
Proof.
  intros HR Hs Hl. destruct (resolve_leads eps (root r) segs q vs HR Hl) as (nd & Hq & Hr).
  exists nd. split; [done|]. unfold lookup_route. rewrite Hs. simpl.
  unfold resolve in Hr. destruct (walk segs (root r) []) as [[n v]| |]; [|done..].
  simpl in *. by rewrite Hr.
Qed.

Lemma lookup_route_nowhere eps r m path ver segs :
  Rep eps (root r) → input_path_to_segments path = Ok segs → (∀ q vs, ¬ leads eps segs q vs) →
  lookup_route r m path ver = no_path.
Proof.
  intros HR Hs Hl. unfold lookup_route. rewrite Hs. simpl.
  destruct (walk_total segs (root r) [] (rep_wf _ _ HR)) as [[[n vars] E]|E].
  - destruct (walk_leads _ _ _ _ _ HR E) as (q & vs & ?). by destruct (Hl q vs).
  - rewrite E. unfold no_path, raise. by destruct (for_not_found _ _).
Qed.

Lemma select_candidates eps nd q n m ver :
  Rep eps nd → node_at q nd = Some n →
  find_handler_matching_version (default [] (bt_get (to_ascii_uppercase m) (methods n))) ver =
  head (candidates eps q m ver).
Proof.
  intros HR Hq. pose proof (rep_handlers _ _ HR q (to_ascii_uppercase m)) as Hh.
  unfold handlers_at in Hh. rewrite Hq in Hh. simpl in Hh. rewrite Hh. apply find_filter.
Qed.

(** A lookup that succeeds has found an endpoint the request leads to. *)
Lemma lookup_ok_inv eps r m uri ver res :
  Rep eps (root r) → lookup_route r m uri ver = Ok res →
  ∃ segs q vs e, input_path_to_segments uri = Ok segs ∧ leads eps segs q vs ∧
    head (candidates eps q m ver) = Some e ∧ res = result_of e (bt_collect vs).
Proof.
  intros HR Hlk. assert (∃ segs, input_path_to_segments uri = Ok segs) as [segs Hs].
  { unfold lookup_route in Hlk. apply rust_bind_ok in Hlk as (segs & Hs%map_err_ok & _). by exists segs. }
  assert (∃ q vs, leads eps segs q vs) as (q & vs & Hl).
  { unfold lookup_route in Hlk. rewrite Hs in Hlk. simpl in Hlk.
    apply rust_bind_ok in Hlk as ([n vars] & Hw & _). by eapply walk_leads. }
  destruct (lookup_route_leads eps r m uri ver segs q vs HR Hs Hl) as (n & Hq & E).
  rewrite E in Hlk. exists segs, q, vs. unfold select in Hlk.
  rewrite (select_candidates eps (root r) q n m ver HR Hq) in Hlk.
  destruct (head (candidates eps q m ver)) as [e|]; [exists e; by injection Hlk as <-|].
  destruct (existsb _ _); unfold raise in Hlk; [by destruct (method_not_allowed n)|].
  by destruct (for_not_found _ _).
Qed.

(** The variables of a match are those of the pattern, each of its kind. *)
Lemma match_route_vars p segs vs :
  match_route p segs = Some vs →
  vs.*1 = pattern_vars p ∧
  ∀ k v, (k, v) ∈ vs →
    match v with VString _ => VarnameSegment k ∈ p | VComponents _ => VarnameWildcard k ∈ p end.
Proof.
  revert segs vs. induction p as [|s p IH]; intros segs vs.
  - intros [-> ->]%match_route_nil. split; [done|]. by intros ?? ?%not_elem_of_nil.
  - intros Hm%match_route_cons. destruct s as [l|v|v].
    + destruct Hm as (segs' & -> & Hm). destruct (IH _ _ Hm) as [Hv Hk]. split; [done|].
      intros k x Hx%Hk. destruct x; by right.
    + destruct Hm as (x & segs' & vs' & -> & Hm & ->). destruct (IH _ _ Hm) as [Hv Hk].
      split; [exact (f_equal (cons v) Hv)|].
      intros k y [[= -> ->]|Hy%Hk]%elem_of_cons; [by left|]. destruct y; by right.
    + destruct Hm as [-> ->]. split; [done|]. intros k y [= -> ->]%list_elem_of_singleton. by left.
Qed.

(** The keys of a node's methods are the methods of its pattern. *)
Lemma methods_keys eps nd q n m :
  Rep eps nd → node_at q nd = Some n →
  m ∈ bt_keys (methods n) ↔ ∃ e, e ∈ eps ∧ path_pattern (path e) = Ok q ∧ methodname e = m.
Proof.
  intros HR Hq. pose proof (rep_handlers _ _ HR q m) as Hh.
  pose proof (rep_wf _ _ HR q n Hq) as (Hb & Hms & _).
  unfold handlers_at in Hh. rewrite Hq in Hh. simpl in Hh. rewrite <-bt_get_is_some. split.
  - intros [l Hl]. rewrite Hl in Hh. simpl in Hh. apply bt_get_elem in Hl.
    rewrite Forall_forall in Hms. apply Hms in Hl as [Hne _]. simpl in Hne.
    destruct l as [|e l]; [done|]. exists e.
    assert (e ∈ List.filter (at_route q m) eps) as [? ?%at_route_true]%elem_filter by (rewrite <-Hh; left).
    done.
  - intros (e & He & Hp & Hm).
    assert (e ∈ List.filter (at_route q m) eps) as Hin by (by rewrite elem_filter, at_route_true).
    rewrite <-Hh in Hin. destruct (bt_get m (methods n)); [by eauto|]. by apply not_elem_of_nil in Hin.
Qed.

Lemma other_method_values eps nd q n ver :
  Rep eps nd → node_at q nd = Some n →
  existsb (λ handlers,
    match find_handler_matching_version handlers ver with Some _ => true | None => false end)
    (bt_values (methods n)) = other_method eps q ver.
Proof.
  intros HR Hq. apply eq_true_iff_eq. unfold other_method. rewrite !existsb_exists.
  setoid_rewrite <-list_elem_of_In. setoid_rewrite andb_true_iff. setoid_rewrite at_route_true.
  pose proof (rep_wf _ _ HR q n Hq) as (Hb & Hms & _).
  assert (∀ m l, bt_get m (methods n) = Some l → l = List.filter (at_route q m) eps) as Hget.
  { intros m l Hl. rewrite <-(rep_handlers _ _ HR). unfold handlers_at. by rewrite Hq; simpl; rewrite Hl. }
  unfold find_handler_matching_version. split.
  - intros (l & ([m l'] & -> & Hl)%list_elem_of_fmap & Hf). simpl in Hf.
    apply (bt_elem_get _ _ _ Hb), Hget in Hl. subst l'.
    destruct (List.find _ _) as [e|] eqn:E; [|done]. apply find_some in E as [He Hv].
    apply list_elem_of_In, elem_filter in He as [He [Hp _]%at_route_true]. by exists e.
  - intros (e & He & [Hp _] & Hv).
    assert (e ∈ List.filter (at_route q (methodname e)) eps) as Hin
      by (by rewrite elem_filter, at_route_true).
    destruct (proj2 (bt_get_is_some (methodname e) (methods n))) as [l Hl].
    { apply (methods_keys eps nd q n); eauto. }
    exists l. split; [apply list_elem_of_fmap; eexists (_, _); split; [|by eapply bt_get_elem]; done|].
    rewrite (Hget _ _ Hl). destruct (List.find _ _) eqn:E; [done|].
    apply list_elem_of_In in Hin. pose proof (find_none _ _ E e Hin) as Hn. simpl in Hn. congruence.
Qed.
End lookup.

Section errors.
Context `{Crates} `{!HttpCrateLaws} `{!HeaderNameLaws} `{!HeaderMapRoom}.
Implicit Types (p q : pattern) (e : ApiEndpoint) (segs : list string)
  (eps : list ApiEndpoint) (r : HttpRouter) (err : HttpError).

Definition visible_text (s : string) : bool :=
  forallb (λ a, let n := Ascii.nat_of_ascii a in ((32 <=? n) && (n <? 127))%nat)
    (String.list_ascii_of_string s).

(** The methods' names can be header values, and an [Allow] header can hold
    them all. *)
Definition methods_fit eps : Prop :=
  Forall (λ e, visible_text (methodname e) = true) eps ∧ length eps < header_room.

Definition status_of err : Z := error_as_u16 (status_code err).

Definition allow_values err : list string := hv_as_bytes <$> error_header_values err ALLOW.

Lemma no_path_err {A} : ∃ err, no_path (A := A) = Err err ∧ status_of err = 404%Z.
Proof.
  unfold no_path, raise. rewrite for_not_found_ok. eexists. split; [done|].
  by apply error_constant_u16.
Qed.

Lemma add_allow_headers_ok err l :
  Forall (λ m, visible_text m = true) l →
  header_count err + length l < header_room →
  ∃ err', add_allow_headers err l = Ok err' ∧ status_code err' = status_code err ∧
    allow_values err' = allow_values err ++ l ∧ header_count err' = header_count err + length l.
Proof.
  revert err. induction l as [|m l IH]; intros err Hl Hroom.
  - exists err. simpl. by rewrite app_nil_r, Nat.add_0_r.
  - apply Forall_cons in Hl as [Hm Hl]. simpl in Hroom.
    destruct (hv_from_str_visible m Hm) as [v Hv].
    destruct (hm_append_room (default hm_new (headers err)) ALLOW v) as [h' Hh']; [unfold header_count in Hroom; lia|].
    assert (add_header Some hv_from_str err ALLOW m =
      (set_headers (headers_mut err).1 h', Ok ())) as Ha.
    { unfold add_header. rewrite Hv. simpl. by rewrite Hh'. }
    destruct (IH (set_headers (headers_mut err).1 h') Hl) as (err' & He & Hs & Hvals & Hcnt).
    { unfold header_count in *. simpl. rewrite (hm_iter_append _ _ _ _ Hh'). lia. }
    exists err'. simpl. rewrite Ha, He. split; [done|]. split; [done|].
    split; [|unfold header_count in *; simpl in Hcnt; rewrite (hm_iter_append _ _ _ _ Hh') in Hcnt; lia].
    destruct (add_header_ok _ _ _ _ _ _ Ha) as (_ & _ & n & v' & [= <-] & Hv' & Hadd).
    rewrite Hvals. unfold allow_values. rewrite Hadd, String.eqb_refl, fmap_app, <-app_assoc.
    simpl. by rewrite (hv_from_str_bytes m v' Hv').
Qed.

Lemma keys_length eps nd q n :
  Rep eps nd → node_at q nd = Some n → length (bt_keys (methods n)) ≤ length eps.
Proof.
  intros HR Hq. pose proof (rep_wf _ _ HR q n Hq) as (Hb & _ & _).
  rewrite <-(length_fmap methodname eps).
  apply submseteq_length, NoDup_submseteq; [by apply bt_wf_nodup|].
  intros m (e & He & _ & <-)%(methods_keys eps nd q n m HR Hq). apply list_elem_of_fmap. eauto.
Qed.

Lemma method_not_allowed_ok' eps nd q n :
  methods_fit eps → Rep eps nd → node_at q nd = Some n →
  ∃ err, method_not_allowed n = Ok err ∧ status_of err = 405%Z ∧
    allow_values err = bt_keys (methods n) ∧ header_count err ≤ length eps.
Proof.
  intros [Hvis Hroom] HR Hq. unfold method_not_allowed. rewrite method_not_allowed_ok. simpl.
  destruct (add_allow_headers_ok
    (for_client_error None (client_constant 405) "Method Not Allowed") (bt_keys (methods n)))
    as (err & -> & Hs & Ha & Hc).
  - apply Forall_forall. intros m (e & He & _ & <-)%(methods_keys eps nd q n m HR Hq).
    rewrite Forall_forall in Hvis. by apply Hvis.
  - unfold header_count. simpl. rewrite hm_iter_new. simpl. pose proof (keys_length eps nd q n HR Hq). lia.
  - exists err. split; [done|]. split; [|split; [done|]].
    2: { rewrite Hc. unfold header_count. simpl. rewrite hm_iter_new. simpl. by apply (keys_length eps nd q n HR). }
    unfold status_of. rewrite Hs.
    unfold for_client_error, error_as_u16. simpl. by rewrite status_const_u16.
Qed.

(** [select] when no handler serves the request. *)
Lemma select_error eps nd q n vars m ver :
  methods_fit eps → Rep eps nd → node_at q nd = Some n → candidates eps q m ver = [] →
  ∃ err, select n vars m ver = Err err ∧
    if other_method eps q ver
    then status_of err = 405%Z ∧ allow_values err = bt_keys (methods n)
    else status_of err = 404%Z ∧ header_count err = 0.
Proof.
  intros Hfit HR Hq Hc. unfold select.
  rewrite (select_candidates eps nd q n m ver HR Hq), Hc. simpl.
  rewrite (other_method_values eps nd q n ver HR Hq).
  destruct (other_method eps q ver).
  - destruct (method_not_allowed_ok' eps nd q n Hfit HR Hq) as (err & E & Hs & Ha & _).
    exists err. unfold raise. by rewrite E.
  - unfold raise. rewrite for_not_found_ok. eexists. split; [done|]. split; [by apply error_constant_u16|].
    unfold header_count. simpl. by rewrite hm_iter_new.
Qed.

Lemma select_found eps nd q n vars m ver e :
  Rep eps nd → node_at q nd = Some n → head (candidates eps q m ver) = Some e →
  select n vars m ver = Ok (result_of e vars).
Proof.
  intros HR Hq Hc. unfold select. by rewrite (select_candidates eps nd q n m ver HR Hq), Hc.
Qed.

Lemma input_segments_no_panic path msg : input_path_to_segments path ≠ Panic msg.
Proof.
  unfold input_path_to_segments. induction (List.filter _ _) as [|x l IH]; simpl; [done|].
  destruct (decode_segment x) as [s|e|w] eqn:E; simpl; [|done|].
  - destruct (try_map decode_segment l); simpl; congruence.
  - unfold decode_segment in E. by repeat case_match.
Qed.

(** Looking up a route never panics, and the headers of its errors are few. *)
Lemma lookup_answer eps r m path ver :
  Rep eps (root r) → methods_fit eps →
  match lookup_route r m path ver with
  | Ok _ => True
  | Err err => header_count err ≤ length eps
  | Panic _ => False
  end.
Proof.
  intros HR Hfit. pose proof (input_segments_no_panic path) as Hnp.
  destruct (input_path_to_segments path) as [segs|x|x] eqn:Es; [| |by destruct (Hnp x)].
  2: { unfold lookup_route. rewrite Es. simpl. unfold header_count. simpl. rewrite hm_iter_new. simpl. lia. }
  destruct (walk_total segs (root r) [] (rep_wf _ _ HR)) as [[[n vars] E]|E].
  - destruct (walk_leads _ _ _ _ _ HR E) as (q & vs & Hl).
    destruct (lookup_route_leads eps r m path ver segs q vs HR Es Hl) as (nd & Hq & ->).
    destruct (head (candidates eps q m ver)) as [e|] eqn:Eh.
    + by rewrite (select_found eps (root r) q nd (bt_collect vs) m ver e HR Hq Eh).
    + unfold select. rewrite (select_candidates eps (root r) q nd m ver HR Hq), Eh.
      destruct (existsb _ _); unfold raise.
      * by destruct (method_not_allowed_ok' eps (root r) q nd Hfit HR Hq) as (err & -> & _ & _ & Hc).
      * rewrite for_not_found_ok. simpl. unfold header_count. simpl. rewrite hm_iter_new. simpl. lia.
  - unfold lookup_route. rewrite Es. simpl. rewrite E. unfold no_path, raise. rewrite for_not_found_ok. simpl.
    unfold header_count. simpl. rewrite hm_iter_new. simpl. lia.
Qed.
End errors.

(** ** Properties *)

Section properties.
Context `{Crates} `{!HttpCrateLaws} `{!HeaderNameLaws} `{!HeaderMapRoom}.
Implicit Types (p q : pattern) (e : ApiEndpoint) (segs : list string)
  (eps : list ApiEndpoint) (r : HttpRouter) (err : HttpError).

(** C1: the lookup of a request is what the list of endpoints says.  A path
    that does not decode is a 400; where the request's segments lead to a
    pattern, the first registered endpoint of that pattern and method whose
    versions contain the request's serves it, with the variables of the
    match; without one the answer is 405 if another method has an endpoint
    in that version there and 404 if not; a path that leads nowhere is 404.
    No assertion or [expect] of the router fires. *)
Theorem lookup_route_spec eps r m path ver :
  build eps = Ok r → methods_fit eps →
  match input_path_to_segments path with
  | Panic _ => False
  | Err _ => lookup_route r m path ver = Err (for_bad_request None "invalid path encoding")
  | Ok segs =>
      (∀ q vs, leads eps segs q vs →
         match head (candidates eps q m ver) with
         | Some e => lookup_route r m path ver = Ok (result_of e (bt_collect vs))
         | None => ∃ err, lookup_route r m path ver = Err err ∧
             status_of err = (if other_method eps q ver then 405 else 404)%Z
         end) ∧
      ((∀ q vs, ¬ leads eps segs q vs) →
         ∃ err, lookup_route r m path ver = Err err ∧ status_of err = 404%Z)
  end.
Proof.
  intros HR%build_rep Hfit. pose proof (input_segments_no_panic path) as Hnp.
  destruct (input_path_to_segments path) as [segs|x|x] eqn:Es; [|unfold lookup_route; by rewrite Es|by apply (Hnp x)].
  split.
  - intros q vs Hl. destruct (lookup_route_leads eps r m path ver segs q vs HR Es Hl) as (n & Hq & ->).
    destruct (head (candidates eps q m ver)) as [e|] eqn:Eh; [by eapply select_found|].
    apply head_None in Eh.
    destruct (select_error eps (root r) q n (bt_collect vs) m ver Hfit HR Hq Eh) as (err & -> & Hs).
    exists err. split; [done|]. by destruct (other_method eps q ver); destruct Hs.
  - intros Hl. rewrite (lookup_route_nowhere eps r m path ver segs HR Es Hl). apply no_path_err.
Qed.

(** Routing is deterministic: a request leads to at most one pattern, in
    one way. *)
Lemma leads_deterministic eps r segs q vs q' vs' :
  build eps = Ok r → leads eps segs q vs → leads eps segs q' vs' → q = q' ∧ vs = vs'.
Proof.
  intros Hb (Hq & Hm & Hn) (Hq' & Hm' & Hn').
  pose proof (build_prefixes eps r q q' Hb Hq Hq') as Hc.
  destruct (match_route_unique q q' segs vs vs' Hc Hm Hm') as [?|[(v & -> & _)|(v & -> & _)]]; [done|..].
  - by destruct (Hn v).
  - by destruct (Hn' v).
Qed.

(** C6: every registered endpoint can be reached, unless a wildcard route
    continues its path: a request that matches its pattern with its method
    and a version in its range gets the first such endpoint of the pattern,
    which is the endpoint itself when a version is given and no range of the
    API is that single version. *)
Theorem registered_reachable `{!SemVerLaws Version} eps r e p m path segs vs ver :
  build eps = Ok r → methods_fit eps → e ∈ eps → path_pattern (ApiEndpoint.path e) = Ok p →
  (∀ e' v, e' ∈ eps → path_pattern (ApiEndpoint.path e') ≠ Ok (p ++ [VarnameWildcard v])) →
  input_path_to_segments path = Ok segs → match_route p segs = Some vs →
  to_ascii_uppercase m = methodname e → matches (versions e) ver = true →
  ∃ e', e' ∈ candidates eps p m ver ∧ lookup_route r m path ver = Ok (result_of e' (bt_collect vs)) ∧
    (∀ v, ver = Some v → (∀ a, a ∈ eps → versions a ≠ FromUntil (mk_pair v v)) → e' = e).
Proof.
  intros Hb Hfit He Hp Hsh Hs Hm Hmeth Hv. pose proof (build_rep _ _ Hb) as HR.
  assert (leads eps segs p vs) as Hl.
  { split_and!; [right; by exists e, p|done|]. intros v (e' & He' & Hp')%(has_prefix_wildcard _ _ _ _ HR).
    by apply (Hsh e' v). }
  assert (e ∈ candidates eps p m ver) as Hc.
  { unfold candidates. by rewrite elem_filter, andb_true_iff, at_route_true, Hmeth. }
  destruct (lookup_route_leads eps r m path ver segs p vs HR Hs Hl) as (n & Hq & ->).
  destruct (candidates eps p m ver) as [|e' l] eqn:Ec; [by apply not_elem_of_nil in Hc|].
  exists e'. split; [left|]. split; [by eapply select_found; [..|rewrite Ec]|].
  intros v -> Hone. assert (e' ∈ candidates eps p m (Some v)) as He' by (rewrite Ec; left).
  unfold candidates in He'. rewrite elem_filter, andb_true_iff, at_route_true in He'.
  destruct He' as (He' & [Hp' Hmeth'] & Hv').
  destruct (build_versions eps r e' e p v) as [?|[?|?]]; try done; [congruence|..].
  - by destruct (Hone e').
  - by destruct (Hone e).
Qed.

(** A wildcard route shadows the route it continues: when
    [p ++ {v:.*}] is registered, no request is served by an endpoint of [p],
    though both register. *)
Lemma wildcard_shadows eps r e a p v m path segs vs ver res :
  build eps = Ok r → methods_fit eps → e ∈ eps → path_pattern (ApiEndpoint.path e) = Ok p →
  a ∈ eps → path_pattern (ApiEndpoint.path a) = Ok (p ++ [VarnameWildcard v]) →
  input_path_to_segments path = Ok segs → match_route p segs = Some vs →
  lookup_route r m path ver = Ok res →
  ∃ e', e' ∈ eps ∧ path_pattern (ApiEndpoint.path e') = Ok (p ++ [VarnameWildcard v]) ∧
    res = result_of e' (bt_collect (vs ++ [(v, VComponents [])])).
Proof.
  intros Hb Hfit He Hp Ha Hpa Hs Hm Hlk. pose proof (build_rep _ _ Hb) as HR.
  assert (∀ p' w, p ≠ p' ++ [VarnameWildcard w]) as Hnw.
  { intros p' w ->. pose proof (rep_paths _ _ HR) as Hps. rewrite Forall_forall in Hps.
    destruct (Hps a Ha) as (q & Hq & Hw & _). rewrite Hpa in Hq. injection Hq as <-.
    rewrite <-app_assoc in Hw. by apply wildcard_last_app in Hw. }
  assert (leads eps segs (p ++ [VarnameWildcard v]) (vs ++ [(v, VComponents [])])) as Hl.
  { split_and!; [right; by exists a, (p ++ [VarnameWildcard v])|by apply match_route_wildcard|].
    intros w (e' & He' & Hp')%(has_prefix_wildcard _ _ _ _ HR).
    pose proof (rep_paths _ _ HR) as Hps. rewrite Forall_forall in Hps.
    destruct (Hps e' He') as (q & Hq & Hw & _). rewrite Hp' in Hq. injection Hq as <-.
    rewrite <-app_assoc in Hw. by apply wildcard_last_app in Hw. }
  destruct (lookup_route_leads eps r m path ver segs _ _ HR Hs Hl) as (n & Hq & E).
  rewrite E in Hlk. destruct (head (candidates eps (p ++ [VarnameWildcard v]) m ver)) as [e'|] eqn:Eh.
  - rewrite (select_found eps (root r) _ n _ m ver e' HR Hq Eh) in Hlk. injection Hlk as <-.
    apply head_Some_elem_of in Eh. unfold candidates in Eh.
    rewrite elem_filter, andb_true_iff, at_route_true in Eh. exists e'. naive_solver.
  - apply head_None in Eh.
    destruct (select_error eps (root r) _ n (bt_collect (vs ++ [(v, VComponents [])])) m ver Hfit HR Hq Eh)
      as (err & E' & _). congruence.
Qed.

(** A 405 lists, sorted and without repetition, every method that has an
    endpoint at the pattern in whatever version: also methods that the
    requested version does not have, even the request's own. *)
Lemma allow_header_spec eps r m path ver segs q vs :
  build eps = Ok r → methods_fit eps → input_path_to_segments path = Ok segs →
  leads eps segs q vs → candidates eps q m ver = [] → other_method eps q ver = true →
  ∃ err, lookup_route r m path ver = Err err ∧ status_of err = 405%Z ∧
    StronglySorted str_lt (allow_values err) ∧
    (∀ n, n ∈ allow_values err ↔ ∃ e, e ∈ eps ∧ path_pattern (ApiEndpoint.path e) = Ok q ∧ methodname e = n).
Proof.
  intros HR%build_rep Hfit Hs Hl Hc Ho.
  destruct (lookup_route_leads eps r m path ver segs q vs HR Hs Hl) as (n & Hq & ->).
  destruct (select_error eps (root r) q n (bt_collect vs) m ver Hfit HR Hq Hc) as (err & -> & Hse).
  rewrite Ho in Hse. destruct Hse as [Hst Ha]. exists err. rewrite Ha.
  split_and!; [done|done|apply (rep_wf _ _ HR q n Hq)|].
  intros w. by apply (methods_keys eps (root r)).
Qed.
End properties.
