(* ===== verification/RouterIter.v ===== *)
(** * The iterator over a router's endpoints

    [HttpRouterIter] of [dropshot/src/router.rs]: a preorder traversal of the
    trie with an explicit stack.  The state machine is modelled step by step
    ([iter_next] is the body of the loop of [next], with fuel), and shown to
    enumerate what the recursive [traverse] lists. *)
From S2P Require Import Prelude BTree Externals Versions StatusCodes HttpError Schema ApiEndpoint Router RouterSpec.

Section iter.
Context `{Crates}.

(** An iterator over a list is the part of the list still to come.  The stack
    [path] has its last element first. *)
Record HttpRouterIter := mk_iter {
  it_method : list (string * ApiEndpoint);
  it_path : list (PathSegment * list (PathSegment * HttpRouterNode));
  it_version : option Version;
}.

Definition iter_handlers_from_node (node : HttpRouterNode) (version : option Version) :
    list (string * ApiEndpoint) :=
  flat_map (λ '(m, handlers),
    (λ h, (m, h)) <$> List.filter (λ h, matches (versions h) version) handlers) (methods node).

Definition iter_node (node : HttpRouterNode) : list (PathSegment * HttpRouterNode) :=
  match edges node with
  | Some (Literals map) => (λ '(s, node), (Literal s, node)) <$> map
  | Some (VariableSingle varname node) => [(VarnameSegment varname, node)]
  | Some (VariableRest varname node) => [(VarnameSegment varname, node)]
  | None => []
  end.

Definition iter_new (router : HttpRouter) (version : option Version) : HttpRouterIter :=
  mk_iter (iter_handlers_from_node (root router) version)
    [(Literal "", iter_node (root router))] version.

(** [HttpRouter::endpoints]. *)
Definition endpoints (router : HttpRouter) (version : option Version) : HttpRouterIter :=
  iter_new router version.

Definition segment_to_string (c : PathSegment) : string :=
  match c with
  | Literal s => s
  | VarnameSegment s => "{" +:+ s +:+ "}"
  | VarnameWildcard s => "{" +:+ s +:+ ":.*}"
  end.

Definition render (p : pattern) : string := "/" +:+ join "/" (segment_to_string <$> p).

(** [path]: the stack without its leading placeholder. *)
Definition iter_path (self : HttpRouterIter) : string := render (tail (reverse (it_path self).*1)).

(** One turn of the loop: the item to return, or the state to go on with. *)
Inductive iter_step :=
| Yield (item : string * string * ApiEndpoint) (self : HttpRouterIter)
| Continue (self : HttpRouterIter)
| Stop.

Definition iter_turn (self : HttpRouterIter) : iter_step :=
  match it_method self with
  | (m, e) :: ms =>
      Yield (iter_path self, m, e) (mk_iter ms (it_path self) (it_version self))
  | [] =>
      match it_path self with
      | [] => Stop
      | (_, []) :: path => Continue (mk_iter [] path (it_version self))
      | (c, (path_component, node) :: last) :: path =>
          Continue (mk_iter (iter_handlers_from_node node (it_version self))
                      ((path_component, iter_node node) :: (c, last) :: path) (it_version self))
      end
  end.

Fixpoint iter_loop (fuel : nat) (self : HttpRouterIter) :
    option (option (string * string * ApiEndpoint) * HttpRouterIter) :=
  match fuel with
  | 0 => None
  | S fuel =>
      match iter_turn self with
      | Yield item self => Some (Some item, self)
      | Continue self => iter_loop fuel self
      | Stop => Some (None, self)
      end
  end.

Definition iter_next (fuel : nat) (self : HttpRouterIter) :
    option (option (string * string * ApiEndpoint) * HttpRouterIter) :=
  match it_path self with [] => Some (None, self) | _ => iter_loop fuel self end.

(** [collect]: calls [next], at most [n] times, until it returns [None]. *)
Fixpoint iter_collect (n fuel : nat) (self : HttpRouterIter) : option (list (string * string * ApiEndpoint)) :=
  match n with
  | 0 => None
  | S n =>
      match iter_next fuel self with
      | Some (Some item, self) => items ← iter_collect n fuel self; Some (item :: items)
      | Some (None, _) => Some []
      | None => None
      end
  end.

(** ** The traversal, recursively *)

Definition items (pre : pattern) (l : list (string * ApiEndpoint)) : list (string * string * ApiEndpoint) :=
  (λ '(m, e), (render pre, m, e)) <$> l.

(** The label [iter_node] gives to the edge a pattern's segment takes. *)
Definition iter_label (s : PathSegment) : PathSegment :=
  match s with VarnameWildcard v => VarnameSegment v | s => s end.

Fixpoint traverse (version : option Version) (pre : pattern) (node : HttpRouterNode) :
    list (string * string * ApiEndpoint) :=
  items pre (iter_handlers_from_node node version) ++
  match node with
  | Node _ (Some (Literals map)) =>
      flat_map (λ '(s, c), traverse version (pre ++ [Literal s]) c) map
  | Node _ (Some (VariableSingle v c)) => traverse version (pre ++ [VarnameSegment v]) c
  | Node _ (Some (VariableRest v c)) => traverse version (pre ++ [VarnameSegment v]) c
  | Node _ None => []
  end.

Definition traverse_children (version : option Version) (pre : pattern)
    (l : list (PathSegment * HttpRouterNode)) : list (string * string * ApiEndpoint) :=
  flat_map (λ '(s, c), traverse version (pre ++ [s]) c) l.

Lemma traverse_unfold version pre node :
  traverse version pre node =
  items pre (iter_handlers_from_node node version) ++ traverse_children version pre (iter_node node).
Proof.
  destruct node as [ms [[m|v c|v c]|]]; simpl; f_equal; unfold traverse_children; simpl;
    try done; try by rewrite app_nil_r.
  induction m as [|[s c] m IH]; simpl; [done|]. by rewrite IH.
Qed.

(** What the iterator still has to return. *)
Fixpoint remaining_path (version : option Version)
    (path : list (PathSegment * list (PathSegment * HttpRouterNode))) :
    list (string * string * ApiEndpoint) :=
  match path with
  | [] => []
  | (c, l) :: path =>
      traverse_children version (tail (reverse (c :: path.*1))) l ++ remaining_path version path
  end.

Definition remaining (self : HttpRouterIter) : list (string * string * ApiEndpoint) :=
  items (tail (reverse (it_path self).*1)) (it_method self) ++
  remaining_path (it_version self) (it_path self).

(** ** A measure that every turn decreases *)

Fixpoint node_size (node : HttpRouterNode) : nat :=
  match node with
  | Node _ (Some (Literals map)) => 2 + sum_list_with (λ '(_, c), node_size c) map
  | Node _ (Some (VariableSingle _ c)) | Node _ (Some (VariableRest _ c)) => 2 + node_size c
  | Node _ None => 2
  end.

Definition children_size (l : list (PathSegment * HttpRouterNode)) : nat :=
  sum_list_with (λ b, node_size b.2) l.

Definition iter_size (self : HttpRouterIter) : nat :=
  sum_list_with (λ b, S (children_size b.2)) (it_path self).

Lemma node_size_children node : node_size node = 2 + children_size (iter_node node).
Proof.
  destruct node as [ms [[m|v c|v c]|]]; simpl; unfold children_size; simpl; [|lia..].
  do 2 f_equal. induction m as [|[s c] m IH]; simpl; [done|]. by rewrite IH.
Qed.

Lemma tail_reverse_push (s c : PathSegment) l :
  tail (reverse (s :: c :: l)) = tail (reverse (c :: l)) ++ [s].
Proof.
  rewrite (reverse_cons (c :: l) s). destruct (reverse (c :: l)) as [|x l'] eqn:E; [|done].
  apply (f_equal length) in E. by rewrite length_reverse in E.
Qed.

Lemma iter_turn_spec self :
  match iter_turn self with
  | Yield item self' => remaining self = item :: remaining self' ∧
      length (it_method self) = S (length (it_method self')) ∧ it_path self' = it_path self
  | Continue self' => remaining self = remaining self' ∧ iter_size self' < iter_size self
  | Stop => remaining self = [] ∧ it_path self = []
  end.
Proof.
  destruct self as [ms path ver]. unfold iter_turn, remaining, iter_size; simpl.
  destruct ms as [|[m e] ms]; simpl; [|done].
  destruct path as [|[c [|[s n] last]] path]; simpl; [done|split; [done|lia]|].
  split.
  - rewrite traverse_unfold, <-!app_assoc.
    rewrite !tail_reverse_push. reflexivity.
  - unfold children_size. simpl. rewrite node_size_children. unfold children_size. simpl. lia.
Qed.

(** A state whose stack is empty has no handlers left. *)
Definition iter_ok (self : HttpRouterIter) : Prop := it_path self = [] → it_method self = [].

Lemma iter_turn_ok self :
  iter_ok self →
  match iter_turn self with Yield _ self' | Continue self' => iter_ok self' | Stop => True end.
Proof.
  destruct self as [[|[m e] ms] [|[c [|[s n] last]] path] ver]; unfold iter_ok; simpl; try done.
  intros H'. by specialize (H' eq_refl).
Qed.

Lemma iter_loop_spec fuel self :
  iter_size self < fuel → iter_ok self →
  ∃ o self', iter_loop fuel self = Some (o, self') ∧ iter_ok self' ∧ iter_size self' ≤ iter_size self ∧
    match o with
    | Some item => remaining self = item :: remaining self'
    | None => remaining self = []
    end.
Proof.
  revert self. induction fuel as [|fuel IH]; intros self Hf Hok; [lia|]. simpl.
  pose proof (iter_turn_spec self) as Ht. pose proof (iter_turn_ok self Hok) as Hok'.
  destruct (iter_turn self) as [item self'|self'|].
  - destruct Ht as (-> & _ & Hp). exists (Some item), self'. split_and!; [done|done| |done].
    unfold iter_size. by rewrite Hp.
  - destruct Ht as [-> Hs]. destruct (IH self') as (o & s & -> & Hs' & Hle & Ho); [lia|done|].
    exists o, s. split_and!; [done..|lia|done].
  - destruct Ht as [-> _]. exists None, self. by split_and!.
Qed.

Lemma iter_next_spec fuel self :
  iter_size self < fuel → iter_ok self →
  ∃ o self', iter_next fuel self = Some (o, self') ∧ iter_ok self' ∧ iter_size self' ≤ iter_size self ∧
    match o with
    | Some item => remaining self = item :: remaining self'
    | None => remaining self = []
    end.
Proof.
  intros Hf Hok. unfold iter_next. destruct (it_path self) as [|b path] eqn:E.
  - exists None, self. split_and!; [done|done|done|]. unfold remaining. by rewrite E, (Hok E).
  - by apply iter_loop_spec.
Qed.

(** Enough calls with enough fuel return all that remains. *)
Lemma iter_collect_remaining n fuel self :
  length (remaining self) < n → iter_size self < fuel → iter_ok self →
  iter_collect n fuel self = Some (remaining self).
Proof.
  revert self. induction n as [|n IH]; intros self Hn Hf Hok; [lia|]. simpl.
  destruct (iter_next_spec fuel self Hf Hok) as ([item|] & self' & -> & Hok' & Hle & Hr); rewrite Hr.
  - rewrite Hr in Hn. simpl in Hn. rewrite IH; [done|lia|lia|done].
  - done.
Qed.

Lemma remaining_new r version : remaining (iter_new r version) = traverse version [] (root r).
Proof. unfold remaining. simpl. by rewrite traverse_unfold, app_nil_r. Qed.

Lemma iter_size_new r version : iter_size (iter_new r version) = pred (node_size (root r)).
Proof. rewrite node_size_children. unfold iter_size. simpl. lia. Qed.
End iter.

(** ** What is traversed, in terms of the endpoints *)

Section traverse.
Context `{Crates}.
Implicit Types (p q pre : pattern) (e : ApiEndpoint) (ver : option Version) (nd c : HttpRouterNode).

Lemma bt_insert_perm {V} k (v : V) (m : btree V) :
  bt_wf m → bt_insert k v m ≡ₚ (k, v) :: filter (λ b : string * V, b.1 ≠ k) m.
Proof.
  unfold bt_wf, bt_keys. induction m as [|[k' v'] m IH]; simpl; [done|].
  intros Hs. inversion Hs as [|?? Hs' Hf]; subst.
  assert (str_lt k k' ∨ k = k' → filter (λ b : string * V, b.1 ≠ k) m = m) as Hm.
  { intros Hk. apply filter_id, Forall_forall. intros [k1 v1] Hb. rewrite Forall_forall in Hf.
    simpl. apply not_eq_sym, str_lt_ne. assert (str_lt k' k1).
    { apply Hf, list_elem_of_fmap. by exists (k1, v1). }
    destruct Hk as [Hk| ->]; [by trans k'|done]. }
  destruct (str_comparison k k') as [->|Hlt|Hgt].
  - rewrite filter_cons_False by naive_solver. rewrite Hm; auto.
  - rewrite filter_cons_True by (simpl; by apply not_eq_sym, str_lt_ne). rewrite Hm; auto.
  - rewrite IH by done. rewrite filter_cons_True by (simpl; by apply str_lt_ne).
    apply Permutation_swap.
Qed.

Lemma bt_split_perm {V} k (m : btree V) :
  bt_wf m →
  m ≡ₚ match bt_get k m with Some v => [(k, v)] | None => [] end ++ filter (λ b : string * V, b.1 ≠ k) m.
Proof.
  intros Hwf. pose proof (bt_wf_nodup _ Hwf) as Hnd. unfold bt_keys in Hnd. clear Hwf.
  induction m as [|[k' v'] m IH]; simpl; [done|].
  simpl in Hnd. apply NoDup_cons in Hnd as [Hk Hnd]. destruct (String.eqb_spec k k') as [->|Hne].
  - rewrite filter_cons_False by naive_solver. simpl. f_equiv.
    assert (filter (λ b : string * V, b.1 ≠ k') m = m) as ->; [|done].
    apply filter_id, Forall_forall. intros [k1 v1] Hb; simpl; intros ->. apply Hk. apply list_elem_of_fmap. by exists (k', v1).
  - rewrite filter_cons_True by (simpl; congruence). rewrite (IH Hnd) at 1.
    destruct (bt_get k m); simpl; [apply Permutation_swap|done].
Qed.

Lemma flat_map_bt_insert {V B} (F : string * V → list B) k v (m : btree V) :
  bt_wf m →
  flat_map F (bt_insert k v m) ++ match bt_get k m with Some v0 => F (k, v0) | None => [] end ≡ₚ
  F (k, v) ++ flat_map F m.
Proof.
  intros Hwf. rewrite (bt_insert_perm k v m Hwf). rewrite (bt_split_perm k m Hwf) at 3. simpl.
  rewrite <-app_assoc. f_equiv. rewrite flat_map_app. destruct (bt_get k m); simpl.
  - rewrite app_nil_r. apply Permutation_app_comm.
  - by rewrite app_nil_r.
Qed.

(** The item an endpoint gives at its pattern. *)
Definition endpoint_item ver pre e : list (string * string * ApiEndpoint) :=
  if matches (versions e) ver then [(render pre, methodname e, e)] else [].

Lemma handlers_put ver e nd :
  node_wf nd →
  iter_handlers_from_node (put e [] nd) ver ≡ₚ
  (if matches (versions e) ver then [(methodname e, e)] else []) ++ iter_handlers_from_node nd ver.
Proof.
  intros [(Hb & _ & _) _]%node_wf_unfold. unfold iter_handlers_from_node. simpl.
  set (F := λ '(m, handlers), _). set (old := bt_get (methodname e) (methods nd)).
  pose proof (flat_map_bt_insert F (methodname e) (default [] old ++ [e]) (methods nd) Hb) as Hp.
  assert (F (methodname e, default [] old ++ [e]) =
    match old with Some v0 => F (methodname e, v0) | None => [] end ++
    (if matches (versions e) ver then [(methodname e, e)] else [])) as HF.
  { unfold F. rewrite List.filter_app, fmap_app. simpl.
    destruct old; simpl; by destruct (matches (versions e) ver). }
  fold old in Hp. rewrite HF, <-app_assoc in Hp. rewrite Permutation_app_comm in Hp.
  by apply Permutation_app_inv_l in Hp.
Qed.

Lemma traverse_new ver pre : traverse ver pre node_new = [].
Proof. done. Qed.

Lemma traverse_set_child ver pre s c nd :
  node_wf nd → fits_edge s nd →
  traverse ver pre (set_child s c nd) ++ traverse ver (pre ++ [iter_label s]) (child_or_new s nd) ≡ₚ
  traverse ver (pre ++ [iter_label s]) c ++ traverse ver pre nd.
Proof.
  intros [(_ & _ & He) _]%node_wf_unfold Hf.
  rewrite !(traverse_unfold ver pre). rewrite <-app_assoc.
  assert (traverse_children ver pre (iter_node (set_child s c nd)) ++
    traverse ver (pre ++ [iter_label s]) (child_or_new s nd) ≡ₚ
    traverse ver (pre ++ [iter_label s]) c ++ traverse_children ver pre (iter_node nd)) as ->.
  { unfold traverse_children, iter_node, set_child, child_or_new, child, fits_edge in *.
    destruct s as [l|v|v]; simpl;
      destruct (edges nd) as [[m|w d|w d]|]; simpl in *; simplify_eq;
      rewrite ?String.eqb_refl; simpl; try done; rewrite ?app_nil_r; try done.
    set (F := λ '(s0, c0), traverse ver (pre ++ [s0]) c0).
    assert (∀ m' : list (string * HttpRouterNode), flat_map F ((λ '(s, node), (Literal s, node)) <$> m') =
      flat_map (λ '(s, node), F (Literal s, node)) m') as Hm.
    { intros m'. induction m' as [|[k d] m' IH]; [done|]. simpl. f_equal. done. }
    rewrite !Hm. destruct He as [Hb _].
    pose proof (flat_map_bt_insert (λ '(s, node), F (Literal s, node)) l c m Hb) as Hp.
    etrans; [|exact Hp]. by destruct (bt_get l m). }
  rewrite !app_assoc. f_equiv. apply Permutation_app_comm.
Qed.

Lemma traverse_put ver e p pre nd :
  node_wf nd → fits p nd →
  traverse ver pre (put e p nd) ≡ₚ endpoint_item ver (pre ++ (iter_label <$> p)) e ++ traverse ver pre nd.
Proof.
  revert pre nd. induction p as [|s p IH]; intros pre nd Hwf Hfit.
  - rewrite !traverse_unfold. simpl iter_node. rewrite app_nil_r, app_assoc. f_equiv; [|reflexivity].
    unfold items. rewrite (handlers_put ver e nd Hwf). unfold endpoint_item.
    by destruct (matches (versions e) ver).
  - destruct Hfit as [Hf Hfit]. simpl put.
    apply (Permutation_app_inv_r (traverse ver (pre ++ [iter_label s]) (child_or_new s nd))).
    rewrite (traverse_set_child ver pre s _ nd Hwf Hf).
    rewrite (IH (pre ++ [iter_label s]) _ (child_or_new_wf s nd Hwf) Hfit).
    rewrite fmap_cons, <-!app_assoc. simpl. f_equiv. apply Permutation_app_comm.
Qed.

Definition pattern_of e : pattern :=
  match path_pattern (path e) with Ok p => p | _ => [] end.

Lemma traverse_insert_all ver eps0 eps r r' :
  Rep eps0 (root r) → insert_all r eps = Ok r' →
  traverse ver [] (root r') ≡ₚ
    traverse ver [] (root r) ++ flat_map (λ e, endpoint_item ver (iter_label <$> pattern_of e) e) eps.
Proof.
  revert eps0 r. induction eps as [|e eps IH]; intros eps0 r HR; simpl.
  - intros [= <-]. by rewrite app_nil_r.
  - intros (r1 & Hr1 & Hi)%rust_bind_ok.
    rewrite (IH _ _ (insert_rep _ _ _ _ HR Hr1) Hi), app_assoc. f_equiv.
    unfold insert in Hr1. apply rust_bind_ok in Hr1 as (raws & Hraws & Hr1).
    apply rust_bind_ok in Hr1 as (nd & Hnd & [= <-]). simpl.
    apply insert_at_ok in Hnd as (p & Hp & _ & _ & Hfit & _ & ->).
    assert (path_pattern (path e) = Ok p) as Hpe by (apply rust_bind_ok; eauto).
    rewrite (traverse_put ver e p [] (root r)); [|apply HR|done]. simpl.
    unfold pattern_of. rewrite Hpe. apply Permutation_app_comm.
Qed.
End traverse.

(** ** Paths, printed and parsed *)

Definition segment_wf (s : PathSegment) : Prop :=
  match s with
  | Literal l => starts_with_char "{"%char l = false ∧ ends_with_char "}"%char l = false
  | VarnameSegment v | VarnameWildcard v => v ≠ "" ∧ has_char ":"%char v = false
  end.

Lemma inner_slice_wrap a b s : inner_slice (char_str a +:+ s +:+ char_str b) = s.
Proof. exact (drop_last_char_snoc s b). Qed.

Lemma path_segment_var_ok v s :
  path_segment_var v = Ok s ↔
  segment_wf s ∧ (s = VarnameSegment v ∨ ∃ w, s = VarnameWildcard w ∧ v = w +:+ char_str ":"%char +:+ ".*").
Proof.
  unfold path_segment_var. destruct (split_once ":"%char v) as [[w pat]|] eqn:E.
  - apply split_once_spec in E as [-> Hw]. destruct (is_empty_str w) eqn:Ew.
    + apply is_empty_str_true in Ew as ->. split; [done|].
      intros [Hwf [->|(w & -> & Hv)]]; destruct Hwf as [Hn Hs]; [simpl in *; done|].
      destruct w as [|a w]; [done|]. injection Hv as <- Hv. by simpl in Hs.
    + apply is_empty_str_false in Ew. destruct (String.eqb_spec pat ".*") as [->|Hp].
      * split; [intros [= <-]; split; [done|right; by eauto]|].
        intros [Hwf [->|(w' & -> & Hv)]]; destruct Hwf as [Hn Hs]; [rewrite !has_char_app in Hs; simpl in Hs; by rewrite orb_true_r in Hs|].
        pose proof (proj2 (split_once_spec ":"%char _ w ".*") (conj eq_refl Hw)) as E1.
        pose proof (proj2 (split_once_spec ":"%char _ w' ".*") (conj eq_refl Hs)) as E2.
        rewrite <-Hv, E1 in E2. by injection E2 as ->.
      * split; [done|]. intros [Hwf [->|(w' & -> & Hv)]]; destruct Hwf as [Hn Hs]; [rewrite !has_char_app in Hs; simpl in Hs; by rewrite orb_true_r in Hs|].
        pose proof (proj2 (split_once_spec ":"%char _ w pat) (conj eq_refl Hw)) as E1.
        pose proof (proj2 (split_once_spec ":"%char _ w' ".*") (conj eq_refl Hs)) as E2.
        rewrite <-Hv, E1 in E2. congruence.
  - apply split_once_none in E. destruct (is_empty_str v) eqn:Ev.
    + apply is_empty_str_true in Ev as ->. split; [done|]. intros [Hwf [->|(w & -> & Hv)]]; destruct Hwf as [Hn Hs]; [done|].
      by destruct w.
    + apply is_empty_str_false in Ev. split; [intros [= <-]; split; [done|by left]|].
      intros [Hwf [->|(w & -> & ->)]]; destruct Hwf as [Hn Hs]; [done|].
      rewrite !has_char_app in E. simpl in E. by rewrite orb_true_r in E.
Qed.

Lemma wildcard_braces v : "{" +:+ v +:+ ":.*}" = "{" +:+ (v +:+ ":.*") +:+ "}".
Proof. by rewrite <-!string_app_assoc. Qed.

Lemma braces_wrap v :
  starts_with_char "{"%char ("{" +:+ v +:+ "}") = true ∧ ends_with_char "}"%char ("{" +:+ v +:+ "}") = true.
Proof.
  apply inner_slice_braces; [done|].
  change (inner_slice ("{" +:+ v +:+ "}")) with (drop_last_char (v +:+ char_str "}"%char)).
  by rewrite drop_last_char_snoc.
Qed.

(** [PathSegment::from] inverts the printing of a segment. *)
Lemma path_segment_from_ok x s :
  path_segment_from x = Ok s ↔ segment_wf s ∧ x = segment_to_string s.
Proof.
  unfold path_segment_from.
  destruct (starts_with_char "{"%char x) eqn:Es, (ends_with_char "}"%char x) eqn:Ee; simpl.
  - assert (x = "{" +:+ inner_slice x +:+ "}") as Ex by (by apply (inner_slice_braces "{"%char "}"%char)).
    rewrite path_segment_var_ok. split.
    + intros [Hw [->|(w & -> & Ei)]]; (split; [done|]); [done|]. simpl. rewrite Ex, Ei.
      by rewrite <-!string_app_assoc.
    + intros [Hw Hx]. split; [done|]. destruct s as [l|v|v]; simpl in Hx.
      * subst. destruct Hw. congruence.
      * left. f_equal. rewrite Hx. symmetry. apply (inner_slice_wrap "{"%char "}"%char).
      * right. exists v. split; [done|]. rewrite Hx, wildcard_braces.
        apply (inner_slice_wrap "{"%char "}"%char (v +:+ ":.*")).
  - split; [done|]. intros [Hw ->]. exfalso.
    destruct s as [l|v|v]; cbn [segment_to_string segment_wf] in *; [destruct Hw; congruence|..].
    + destruct (braces_wrap v). congruence.
    + rewrite wildcard_braces in *. destruct (braces_wrap (v +:+ ":.*")). congruence.
  - split; [done|]. intros [Hw ->]. by destruct s as [l|v|v]; [destruct Hw; simpl in *; congruence|..].
  - split; [by intros [= <-]|]. intros [Hw ->]. by destruct s as [l|v|v].
Qed.

Definition raw_ok (x : string) : Prop := x ≠ "" ∧ has_char "/"%char x = false.

Lemma split_slash s : split_on "/"%char ("/" +:+ s) = "" :: split_on "/"%char s.
Proof. exact (split_on_app "/"%char "" s eq_refl). Qed.

Lemma existsb_empty l : existsb is_empty_str l = false ↔ Forall (λ x, x ≠ "") l.
Proof.
  induction l as [|x l IH]; simpl; [done|]. rewrite orb_false_iff, IH, Forall_cons, is_empty_str_false. done.
Qed.

Lemma last_removelast {A} (l : list A) x : last l = Some x → l = removelast l ++ [x].
Proof.
  intros (l' & ->)%last_Some. by rewrite removelast_last.
Qed.

(** [route_path_to_segments] gives back segments that were joined... *)
Lemma route_path_join raws :
  Forall raw_ok raws → route_path_to_segments ("/" +:+ join "/" raws) = Ok raws.
Proof.
  intros Hr. unfold route_path_to_segments. rewrite split_slash. simpl.
  destruct raws as [|x raws]; [done|].
  rewrite (split_on_join "/"%char) by (done || (eapply Forall_impl; [done|]; by intros ? []; done)).
  assert (Forall (λ x, x ≠ "") (x :: raws)) as Hne by (eapply Forall_impl; [done|]; by intros ? []).
  destruct (last (x :: raws)) as [y|] eqn:El; [|by apply last_None in El].
  pose proof (last_removelast _ _ El) as Erl. rewrite Erl in Hne. apply Forall_app in Hne as [Hne Hy].
  rewrite (proj2 (existsb_empty _) Hne).
  apply Forall_cons in Hy as [Hy _]. by destruct y.
Qed.

(** ... and all its results are such segments. *)
Lemma route_path_raws pa raws : route_path_to_segments pa = Ok raws → Forall raw_ok raws.
Proof.
  unfold route_path_to_segments. destruct (starts_with_char _ pa) eqn:Es; [|done]. simpl.
  destruct (existsb _ _) eqn:Ee; [done|]. intros [= <-]. apply existsb_empty in Ee.
  pose proof (split_on_pieces "/"%char pa) as Hp.
  assert (Forall (λ x, has_char "/"%char x = false) (tail (split_on "/"%char pa))) as Ht.
  { destruct (split_on "/"%char pa); [done|]. by apply Forall_cons in Hp as [_ ?]. }
  destruct (last (tail (split_on "/"%char pa))) as [y|] eqn:El.
  - pose proof (last_removelast _ _ El) as Erl. rewrite Erl in Ht.
    apply Forall_app in Ht as [Ht Hy%Forall_cons].
    assert (Forall raw_ok (removelast (tail (split_on "/"%char pa)))) as Hr.
    { apply Forall_and. by split. }
    destruct (decide (y = "")) as [->|Hy']; [done|].
    assert (Forall raw_ok (tail (split_on "/"%char pa))).
    { rewrite Erl. apply Forall_app. split; [done|]. constructor; [|done]. split; [done|]. by destruct Hy. }
    by destruct y.
  - apply last_None in El. by rewrite El.
Qed.

(** [path_segment_from] on a list. *)
Lemma segments_from_ok raws p :
  try_map path_segment_from raws = Ok p ↔ Forall segment_wf p ∧ raws = segment_to_string <$> p.
Proof.
  rewrite try_map_ok. revert p. induction raws as [|x raws IH]; intros p.
  - split; [by inversion 1|]. intros [_ E]. by destruct p.
  - split.
    + inversion 1 as [|? s ? p' Hs Hp]; subst. apply path_segment_from_ok in Hs as [? ->].
      apply IH in Hp as [? ->]. split; [by constructor|done].
    + intros [Hw E]. destruct p as [|s p]; [done|]. injection E as -> ->.
      apply Forall_cons in Hw as [Hs Hw]. constructor; [by apply path_segment_from_ok|].
      by apply IH.
Qed.

Lemma path_pattern_ok pa q :
  path_pattern pa = Ok q → Forall segment_wf q ∧ Forall raw_ok (segment_to_string <$> q).
Proof.
  unfold path_pattern. rewrite rust_bind_ok. intros (raws & Hr%route_path_raws & [Hw ->]%segments_from_ok).
  done.
Qed.

Lemma path_pattern_render q :
  Forall segment_wf q → Forall raw_ok (segment_to_string <$> q) → path_pattern (render q) = Ok q.
Proof.
  intros Hw Hr. unfold path_pattern, render. rewrite route_path_join by done. simpl.
  by apply segments_from_ok.
Qed.

Lemma raw_ok_braces v t :
  v ≠ "" → has_char "/"%char v = false → has_char "/"%char t = false → raw_ok ("{" +:+ v +:+ t).
Proof. intros Hv Hs Ht. split; [done|]. rewrite !has_char_app, Hs, Ht. done. Qed.

Lemma iter_label_ok s :
  segment_wf s → raw_ok (segment_to_string s) →
  segment_wf (iter_label s) ∧ raw_ok (segment_to_string (iter_label s)).
Proof.
  destruct s as [l|v|v]; simpl; try done. intros [Hv Hc] [_ Hs]. split; [done|].
  rewrite !has_char_app, !orb_false_iff in Hs. destruct Hs as (_ & Hs & _).
  by apply raw_ok_braces.
Qed.

Section properties.
Context `{Crates}.
Implicit Types (p q : pattern) (e : ApiEndpoint) (eps : list ApiEndpoint) (r : HttpRouter).

(** What the iterator says of an endpoint. *)
Definition listed e : string * string * ApiEndpoint := (render (iter_label <$> pattern_of e), methodname e, e).

Lemma endpoints_collected eps r ver n fuel :
  build eps = Ok r → length eps < n → node_size (root r) ≤ fuel →
  ∃ l, iter_collect n fuel (endpoints r ver) = Some l ∧
    l ≡ₚ listed <$> List.filter (λ e, matches (versions e) ver) eps.
Proof.
  intros Hb Hn Hf.
  assert (traverse ver [] (root r) ≡ₚ listed <$> List.filter (λ e, matches (versions e) ver) eps) as Hp.
  { rewrite (traverse_insert_all ver [] eps router_new r Rep_new Hb). simpl. clear.
    induction eps as [|e eps IH]; [done|]. simpl. unfold endpoint_item at 1.
    destruct (matches (versions e) ver); simpl; [by f_equiv|done]. }
  exists (traverse ver [] (root r)). split; [|done]. rewrite <-remaining_new.
  apply iter_collect_remaining.
  - rewrite remaining_new, Hp, length_fmap. pose proof (filter_length_le (λ e, matches (versions e) ver) eps). lia.
  - unfold endpoints. rewrite iter_size_new. pose proof (node_size_children (root r)). lia.
  - done.
Qed.

(** C7: the iterator over a router's endpoints ends, and returns, in some
    order, exactly the endpoints registered whose versions match, each once,
    with its method in upper case and the printed form of its pattern.  Fuel
    of the number of endpoints for the calls, and of the trie's size for each
    call, is enough. *)
Theorem endpoints_spec eps r ver n fuel :
  build eps = Ok r → length eps < n → node_size (root r) ≤ fuel →
  ∃ l, iter_collect n fuel (endpoints r ver) = Some l ∧
    l ≡ₚ (λ e, (render (iter_label <$> pattern_of e), methodname e, e)) <$>
           List.filter (λ e, matches (versions e) ver) eps.
Proof. apply endpoints_collected. Qed.

(** Printing a parsed route path and parsing it again gives the same pattern, with
    the iterator's labels too. *)
Lemma path_pattern_printed pa q :
  path_pattern pa = Ok q →
  path_pattern (render q) = Ok q ∧ path_pattern (render (iter_label <$> q)) = Ok (iter_label <$> q).
Proof.
  intros [Hw Hr]%path_pattern_ok. split; [by apply path_pattern_render|].
  assert (Forall (λ s, segment_wf (iter_label s) ∧ raw_ok (segment_to_string (iter_label s))) q) as Hq.
  { rewrite Forall_fmap in Hr. rewrite Forall_forall in Hw, Hr |- *. intros s Hs.
    apply iter_label_ok; [by apply Hw|by apply (Hr s)]. }
  apply Forall_and in Hq as [Hq1 Hq2].
  apply path_pattern_render; [by rewrite Forall_fmap|by rewrite !Forall_fmap].
Qed.

(** The iterator prints the patterns of one router differently. *)
Lemma iter_labels_compatible p q : compatible p q → iter_label <$> p = iter_label <$> q → p = q.
Proof.
  revert q. induction p as [|[a|a|a] p IH]; intros [|[b|b|b] q] Hc E; try done; simpl in *; injection E as <- E; f_equal; naive_solver.
Qed.

Lemma rendered_patterns pa pb p q :
  path_pattern pa = Ok p → path_pattern pb = Ok q → compatible p q →
  render (iter_label <$> p) = render (iter_label <$> q) → p = q.
Proof.
  intros Hp Hq Hc E. apply iter_labels_compatible; [done|].
  destruct (path_pattern_printed _ _ Hp) as (_ & Hp'), (path_pattern_printed _ _ Hq) as (_ & Hq'). congruence.
Qed.

(** The two readings of a route's path: [q] that of the path the endpoint was
    registered with, [q'] that of the one the iterator prints. *)
Definition printed_as (q q' : pattern) : Prop :=
  (∀ v, VarnameWildcard v ∉ q) ∧ q' = q ∨
  ∃ p v, q = p ++ [VarnameWildcard v] ∧ q' = p ++ [VarnameSegment v].

Lemma printed_as_cons s q q' : (∀ v, s ≠ VarnameWildcard v) → printed_as q q' → printed_as (s :: q) (s :: q').
Proof.
  intros Hs [[Hn ->]|(p & v & -> & ->)]; [left|right; by exists (s :: p), v].
  split; [|done]. intros v [?|?]%elem_of_cons; [by eapply Hs|by apply (Hn v)].
Qed.

Lemma iter_label_printed q : wildcard_last q → printed_as q (iter_label <$> q).
Proof.
  induction q as [|[l|x|x] q IH]; simpl; intros Hw.
  - left. split; [|done]. by intros v ?%not_elem_of_nil.
  - apply printed_as_cons; [done|by apply IH].
  - apply printed_as_cons; [done|by apply IH].
  - subst. right. by exists [], x.
Qed.

Lemma build_path_ok eps r e : build eps = Ok r → e ∈ eps → path_ok e.
Proof. intros Hb%build_rep He. pose proof (rep_paths _ _ Hb) as Hp. rewrite Forall_forall in Hp. by apply Hp. Qed.

(** C40: printing and parsing of route paths.  [path] of an iterator whose
    stack holds the segments of a parsed path, of whatever kinds, prints a path
    that parses to the same segments.  And the iterator over a router returns
    every endpoint that matches the version, with a path that parses to the same
    pattern as the path it was registered with, except that a wildcard at its
    end has become a plain variable: [iter_node] labels the edge of a wildcard as
    that of a variable, so that exactly the routes with a wildcard are printed as
    others. *)
Theorem route_path_roundtrip eps r ver n fuel :
  build eps = Ok r → length eps < n → node_size (root r) ≤ fuel →
  (∀ self c pa q, path_pattern pa = Ok q → reverse (it_path self).*1 = c :: q →
     path_pattern (iter_path self) = Ok q) ∧
  ∃ l, iter_collect n fuel (endpoints r ver) = Some l ∧
    (∀ e, e ∈ eps → matches (versions e) ver = true → ∃ pa, (pa, methodname e, e) ∈ l) ∧
    (∀ pa m e, (pa, m, e) ∈ l →
       ∃ q q', path_pattern (path e) = Ok q ∧ path_pattern pa = Ok q' ∧ printed_as q q').
Proof.
  intros Hb Hn Hf. split.
  { intros self c pa q Hq Hs. unfold iter_path. rewrite Hs. by apply (path_pattern_printed pa). }
  destruct (endpoints_collected eps r ver n fuel Hb Hn Hf) as (l & Hl & Hp). exists l. split; [done|]. split.
  - intros e He Hm. eexists. rewrite Hp. apply list_elem_of_fmap. exists e. split; [done|]. by apply elem_filter.
  - intros pa m e Hin. rewrite Hp in Hin. apply list_elem_of_fmap in Hin as (e' & [= -> -> <-] & [He _]%elem_filter).
    destruct (build_path_ok eps r e Hb He) as (q & Hq & Hw & _). exists q, (iter_label <$> q).
    unfold pattern_of. rewrite Hq. split; [done|]. split; [by apply (path_pattern_printed (path e))|].
    by apply iter_label_printed.
Qed.
End properties.
