(* ===== verification/Versioning.v ===== *)
(** * Which API version a request is for

    [dropshot/src/versioning.rs]: the server's [VersionPolicy], and the policy
    that reads the version from a header.  Logging is not represented. *)
From S2P Require Import Prelude Externals Versions StatusCodes HttpError.

Section versioning.
Context `{HttpCrate} {V : Type} `{SemVer V} {B : Type}.
(** [Debug] of header names and values, used in error texts. *)
Variables (header_name_debug : string → string) (header_value_debug : HeaderValue → string).

(** [trait DynamicVersionPolicy], by its one method. *)
Definition DynamicVersionPolicy : Type := Request B → rust HttpError V.

Inductive VersionPolicy :=
| Unversioned
| Dynamic (vers_impl : DynamicVersionPolicy).

Definition request_version (self : VersionPolicy) (request : Request B) : rust HttpError (option V) :=
  match self with
  | Unversioned => Ok None
  | Dynamic vers_impl => Some <$> vers_impl request
  end.

Record ClientSpecifiesVersionInHeader := mk_client_policy {
  cv_name : string;
  cv_max_version : V;
  cv_min_version : option V;
  cv_on_missing : option V;
}.

Definition client_policy_new (name : string) (max_version : V) : ClientSpecifiesVersionInHeader :=
  mk_client_policy name max_version None None.
Definition min_version (self : ClientSpecifiesVersionInHeader) (v : V) : ClientSpecifiesVersionInHeader :=
  mk_client_policy (cv_name self) (cv_max_version self) (Some v) (cv_on_missing self).
Definition on_missing (self : ClientSpecifiesVersionInHeader) (v : V) : ClientSpecifiesVersionInHeader :=
  mk_client_policy (cv_name self) (cv_max_version self) (cv_min_version self) (Some v).

(** [parse_header], at a type with parser [parse]. *)
Definition parse_header {T} (parse : string → T + string) (headers : HeaderMap) (header_name : string) :
    rust HttpError (option T) :=
  match hm_get headers header_name with
  | None => Ok None
  | Some v_value =>
      v_str ← ok_or (hv_to_str v_value)
                (for_bad_request None ("bad value for header " +:+ header_name_debug header_name
                   +:+ ": not ASCII: " +:+ header_value_debug v_value));
      match parse v_str with
      | inl v => Ok (Some v)
      | inr e => Err (for_bad_request None ("bad value for header " +:+ header_name_debug header_name
                        +:+ ": " +:+ e +:+ ": " +:+ v_str))
      end
  end.

Definition request_extract_version (self : ClientSpecifiesVersionInHeader) (request : Request B) :
    rust HttpError V :=
  v ← parse_header ver_parse (req_headers request) (cv_name self);
  match v, cv_on_missing self with
  | Some v, _ =>
      if ver_lt (cv_max_version self) v
      then Err (for_bad_request None ("server does not support this API version: " +:+ ver_to_string v))
      else match cv_min_version self with
           | Some min_version =>
               if ver_lt v min_version
               then Err (for_bad_request None ("server no longer supports this API version: "
                      +:+ ver_to_string v +:+ " (oldest supported version: "
                      +:+ ver_to_string min_version +:+ ")"))
               else Ok v
           | None => Ok v
           end
  | None, Some on_missing => Ok on_missing
  | None, None => Err (for_bad_request None ("missing expected header " +:+ header_name_debug (cv_name self)))
  end.

(** The header's value is the text of the version [v]. *)
Definition header_gives (self : ClientSpecifiesVersionInHeader) (headers : HeaderMap) (v : V) : Prop :=
  ∃ value text, hm_get headers (cv_name self) = Some value ∧ hv_to_str value = Some text ∧
    ver_parse text = inl v.

(** The version is one the server supports. *)
Definition supported (self : ClientSpecifiesVersionInHeader) (v : V) : Prop :=
  ver_le v (cv_max_version self) = true ∧
  match cv_min_version self with Some m => ver_le m v = true | None => True end.

Lemma parse_header_cases {T} (parse : string → T + string) headers name :
  match parse_header parse headers name with
  | Ok None => hm_get headers name = None
  | Ok (Some v) => ∃ value text, hm_get headers name = Some value ∧ hv_to_str value = Some text ∧
      parse text = inl v
  | Err e => is_bad_request e ∧ ∃ value, hm_get headers name = Some value ∧
      (hv_to_str value = None ∨ ∃ text x, hv_to_str value = Some text ∧ parse text = inr x)
  | Panic _ => False
  end.
Proof.
  unfold parse_header, is_bad_request. destruct (hm_get headers name) as [value|]; [|done].
  destruct (hv_to_str value) as [text|] eqn:Et; simpl; [|naive_solver].
  destruct (parse text) eqn:Ep; [by eauto|]. split; [by eauto|]. exists value. eauto 10.
Qed.

Context `{!SemVerLaws V}.

(** the header policy gives a version exactly when the header's value is
    ASCII text of a version between the configured bounds, and then that
    one, or when there is no such header and a default is configured, and
    then the default, without any bound check; every other request is
    refused with a 400. *)
Lemma request_extract_version_spec self request :
  (∀ v, request_extract_version self request = Ok v ↔
     (header_gives self (req_headers request) v ∧ supported self v) ∨
     (hm_get (req_headers request) (cv_name self) = None ∧ cv_on_missing self = Some v)) ∧
  (∀ e, request_extract_version self request = Err e → is_bad_request e) ∧
  (∀ m, request_extract_version self request ≠ Panic m).
Proof.
  unfold request_extract_version, is_bad_request.
  pose proof (parse_header_cases ver_parse (req_headers request) (cv_name self)) as Hc.
  destruct (parse_header _ _ _) as [[v|]|e|m]; simpl; [| | |done].
  - assert (∀ w, (header_gives self (req_headers request) w ∧ supported self w) ∨
      (hm_get (req_headers request) (cv_name self) = None ∧ cv_on_missing self = Some w) ↔
      w = v ∧ supported self v) as Hw.
    { destruct Hc as (value & text & Hg & Ht & Hp). intros w. unfold header_gives. split.
      - intros [[(value' & text' & ? & ? & ?) ?]|[? _]]; [|congruence].
        assert (w = v) as -> by congruence. done.
      - intros [-> ?]. left. split; [|done]. by exists value, text. }
    setoid_rewrite Hw. clear Hw Hc. unfold supported. rewrite ver_lt_le.
    destruct (ver_le v (cv_max_version self)); simpl;
      [|split_and!; [intros w; split; [done|by intros (_ & ? & _)]|intros e [= <-]; eauto|done]].
    destruct (cv_min_version self) as [mv|]; [rewrite ver_lt_le; destruct (ver_le mv v); simpl|].
    + split_and!; [intros w; split; [by intros [= <-]|by intros [-> _]]|done|done].
    + split_and!; [intros w; split; [done|by intros (_ & _ & ?)]|intros e [= <-]; eauto|done].
    + split_and!; [intros w; split; [by intros [= <-]|by intros [-> _]]|done|done].
  - assert (∀ w, ¬ header_gives self (req_headers request) w) as Hn.
    { intros w (value & text & Hg & _). congruence. }
    destruct (cv_on_missing self) as [v|].
    + split_and!; [|done|done]. intros w. split; [intros [= <-]; by right|].
      intros [[? _]|[_ [= <-]]]; [by destruct (Hn w)|done].
    + split_and!; [|intros e [= <-]; eauto|done]. intros w. split; [done|].
      intros [[? _]|[_ ?]]; [by destruct (Hn w)|done].
  - destruct Hc as ([text ->] & value & Hg & Hv). split_and!; [|intros e [= <-]; eauto|done].
    intros w. split; [done|]. intros [[(value' & text' & Hg' & Ht & Hp) _]|[? _]]; [|congruence].
    assert (value' = value) as -> by congruence. destruct Hv as [?|(? & ? & ? & ?)]; congruence.
Qed.
End versioning.
Arguments VersionPolicy {_} V B.
