(* ===== verification/Pagination.v ===== *)
(** * Pagination

    [dropshot/src/pagination.rs]: page tokens, the page a client asks for and
    the page of results it gets; and the page size of [RequestContext] in
    [dropshot/src/handler.rs]. *)
From S2P Require Import Prelude BTree Externals FromMap StatusCodes HttpError Config.

(** The limit is 512 bytes of base64. *)
Definition MAX_TOKEN_LENGTH : nat := 512.

Inductive PaginationVersion := V1.

#[export] Instance PaginationVersion_eq_dec : EqDecision PaginationVersion.
Proof. solve_decision. Defined.

(** [Debug]. *)
Definition version_debug (v : PaginationVersion) : string := match v with V1 => "V1" end.

Inductive PaginationOrder := Ascending | Descending.

Record SerializedToken (PageSelector : Type) := mk_token {
  tok_v : PaginationVersion;
  tok_page_start : PageSelector;
}.
Arguments mk_token {_} _ _.
Arguments tok_v {_} _.
Arguments tok_page_start {_} _.

Inductive WhichPage (ScanParams PageSelector : Type) :=
| First (p : ScanParams)
| Next (p : PageSelector).
Arguments First {_ _} p.
Arguments Next {_ _} p.

(** The limit is an [Option<NonZeroU32>]. *)
Record PaginationParams (ScanParams PageSelector : Type) := mk_pagination_params {
  pp_page : WhichPage ScanParams PageSelector;
  pp_limit : option Z;
}.
Arguments mk_pagination_params {_ _} _ _.
Arguments pp_page {_ _} _.
Arguments pp_limit {_ _} _.

Definition new_first_page {ScanParams PageSelector} (p : ScanParams) (limit : option Z) :
    PaginationParams ScanParams PageSelector :=
  mk_pagination_params (First p) limit.

Record ResultsPage (ItemType : Type) := mk_results_page {
  rp_next_page : option string;
  rp_items : list ItemType;
}.
Arguments mk_results_page {_} _ _.
Arguments rp_next_page {_} _.
Arguments rp_items {_} _.

Section pagination.
Context `{HttpCrate} `{Base64Crate} {PageSelector ScanParams ItemType : Type}.
(** [serde_json::to_vec] and [from_slice] at the token type (the errors by
    their text); the [Deserialize] of the scan parameters. *)
Context {float : Type} (parse_float : float_type → string → option float).
Variables (to_vec : SerializedToken PageSelector → string + string)
  (from_slice : string → SerializedToken PageSelector + string)
  (scan_params_de : de float ScanParams).

Definition raise_internal {A} (text : string) : rust HttpError A :=
  e ← lift_panics (for_internal_error text); Err e.

Definition serialize_page_token (page_start : PageSelector) : rust HttpError string :=
  match to_vec (mk_token V1 page_start) with
  | inr e => raise_internal ("failed to serialize token: " +:+ e)
  | inl json_bytes =>
      let token_bytes := b64_encode json_bytes in
      if MAX_TOKEN_LENGTH <? String.length token_bytes
      then raise_internal ("serialized token is too large ("
             +:+ show_N (N.of_nat (String.length token_bytes)) +:+ " bytes, max is "
             +:+ show_N (N.of_nat MAX_TOKEN_LENGTH) +:+ ")")
      else Ok token_bytes
  end.

Definition deserialize_page_token (token_str : string) : rust string PageSelector :=
  if MAX_TOKEN_LENGTH <? String.length token_str
  then Err "failed to parse pagination token: too large"
  else
    match b64_decode token_str with
    | inr e => Err ("failed to parse pagination token: " +:+ e)
    | inl json_bytes =>
        match from_slice json_bytes with
        | inr _ => Err "failed to parse pagination token: corrupted token"
        | inl deserialized =>
            if bool_decide (tok_v deserialized ≠ V1)
            then Err ("failed to parse pagination token: unsupported version: " +:+ version_debug (tok_v deserialized))
            else Ok (tok_page_start deserialized)
        end
    end.

(** [deserialize_whichpage], on the query parameters as strings. *)
Definition deserialize_whichpage (raw_params : btree string) : rust string (WhichPage ScanParams PageSelector) :=
  match bt_get "page_token" raw_params with
  | Some page_token => Next <$> deserialize_page_token page_token
  | None => First <$> from_map parse_float scan_params_de raw_params
  end.

Definition results_page_new (items : list ItemType) (scan_params : ScanParams)
    (get_page_selector : ItemType → ScanParams → PageSelector) : rust HttpError (ResultsPage ItemType) :=
  match last items with
  | None => Ok (mk_results_page None items)
  | Some last_item =>
      next_page ← serialize_page_token (get_page_selector last_item scan_params);
      Ok (mk_results_page (Some next_page) items)
  end.

Context `{!HttpCrateLaws} `{!Base64Laws}.
(** The page selector survives [serde_json]. *)
Hypothesis from_slice_to_vec : ∀ sel json, to_vec (mk_token V1 sel) = inl json →
  from_slice json = inl (mk_token V1 sel).

Lemma raise_internal_err {A} text : ∃ e, raise_internal (A := A) text = Err e ∧
  error_as_u16 (status_code e) = 500%Z ∧ internal_message e = text.
Proof.
  unfold raise_internal. rewrite for_internal_error_ok. eexists. split; [done|]. split; [|done].
  by apply error_constant_u16.
Qed.

Lemma token_fits n : 4 * ((n + 2) / 3) ≤ MAX_TOKEN_LENGTH ↔ n ≤ 384.
Proof.
  unfold MAX_TOKEN_LENGTH. pose proof (Nat.div_mod (n + 2) 3 ltac:(lia)) as Hd.
  pose proof (Nat.mod_upper_bound (n + 2) 3 ltac:(lia)). lia.
Qed.

Lemma serialize_ok sel tok :
  serialize_page_token sel = Ok tok ↔
  ∃ json, to_vec (mk_token V1 sel) = inl json ∧ tok = b64_encode json ∧ String.length json ≤ 384.
Proof.
  unfold serialize_page_token. destruct (to_vec _) as [json|e].
  - pose proof (b64_encode_length json) as Hl. destruct (Nat.ltb_spec MAX_TOKEN_LENGTH (String.length (b64_encode json))).
    + split; [by destruct (raise_internal_err (A := string) ("serialized token is too large ("
             +:+ show_N (N.of_nat (String.length (b64_encode json))) +:+ " bytes, max is "
             +:+ show_N (N.of_nat MAX_TOKEN_LENGTH) +:+ ")")) as (? & -> & _)|].
      intros (json' & [= <-] & _ & Hj). apply token_fits in Hj. lia.
    + split; [intros [= <-]; exists json; split_and!; [done|done|apply token_fits; lia]|].
      by intros (? & [= <-] & -> & _).
  - split; [by destruct (raise_internal_err (A := string) ("failed to serialize token: " +:+ e)) as (? & -> & _)|].
    by intros (? & ? & _).
Qed.

Lemma deserialize_serialize sel tok :
  serialize_page_token sel = Ok tok → deserialize_page_token tok = Ok sel.
Proof.
  intros (json & Hj & -> & Hlen)%serialize_ok. unfold deserialize_page_token.
  pose proof (b64_encode_length json) as Hl. apply token_fits in Hlen.
  destruct (Nat.ltb_spec MAX_TOKEN_LENGTH (String.length (b64_encode json))); [lia|].
  rewrite b64_decode_encode, (from_slice_to_vec sel json Hj). done.
Qed.

(** C31: a page token is made exactly for selectors whose JSON has at most 384
    bytes, the rest being internal errors; it is at most 512 bytes long, and
    reading it back gives the selector. *)
Theorem page_token_roundtrip sel :
  ((∃ tok, serialize_page_token sel = Ok tok) ↔
     ∃ json, to_vec (mk_token V1 sel) = inl json ∧ String.length json ≤ 384) ∧
  (∀ tok, serialize_page_token sel = Ok tok →
     String.length tok ≤ MAX_TOKEN_LENGTH ∧ deserialize_page_token tok = Ok sel) ∧
  (∀ e, serialize_page_token sel = Err e → error_as_u16 (status_code e) = 500%Z).
Proof.
  split; [|split].
  - setoid_rewrite serialize_ok. naive_solver.
  - intros tok Htok. split; [|by apply deserialize_serialize].
    apply serialize_ok in Htok as (json & _ & -> & Hl). rewrite b64_encode_length. by apply token_fits.
  - intros e. unfold serialize_page_token. destruct (to_vec _) as [json|x].
    + destruct (_ <? _); [|done]. edestruct (raise_internal_err (A := string)) as (e' & -> & Hs & _).
      by intros [= <-].
    + edestruct (raise_internal_err (A := string)) as (e' & -> & Hs & _). by intros [= <-].
Qed.

(** a page of results carries a token exactly when it is not empty, and
    a request with that token asks for the page after its last item,
    whatever other parameters the request has. *)
Lemma results_page_resumes items params sel :
  results_page_new [] params sel = Ok (mk_results_page None []) ∧
  (∀ page, results_page_new items params sel = Ok page →
     rp_items page = items ∧ (rp_next_page page = None ↔ items = []) ∧
     ∀ tok x query, rp_next_page page = Some tok → last items = Some x →
       bt_get "page_token" query = Some tok →
       deserialize_whichpage query = Ok (Next (sel x params))).
Proof.
  split; [done|]. intros page. unfold results_page_new.
  destruct (last items) as [x|] eqn:El.
  - intros (tok & Htok & [= <-])%rust_bind_ok. simpl. split; [done|]. split.
    + split; [done|]. by intros ->.
    + intros tok' x' query [= <-] [= <-] Hq. unfold deserialize_whichpage.
      by rewrite Hq, (deserialize_serialize _ tok Htok).
  - intros [= <-]. apply last_None in El as ->. done.
Qed.
End pagination.

(** ** Page sizes: [NonZeroU32] *)

Section page_limit.
Local Open Scope Z_scope.

Definition nonzero_u32 (n : Z) : Prop := 0 < n < 2 ^ 32.

Definition page_limit {ScanParams PageSelector} (config : ServerConfig)
    (pag_params : PaginationParams ScanParams PageSelector) : Z :=
  match pp_limit pag_params with
  | Some limit => Z.min limit (page_max_nitems config)
  | None => page_default_nitems config
  end.

(** Under the configuration a server is given the page size is between 1
    and 10000 whatever the client asks for: its limit when that is not more,
    and 100 without one. *)
Lemma page_limit_bounds {A S P} (c : ConfigDropshot A) (params : PaginationParams S P) :
  (∀ n, pp_limit params = Some n → nonzero_u32 n) →
  1 ≤ page_limit (server_config c) params ≤ 10000 ∧
  nonzero_u32 (page_limit (server_config c) params) ∧
  (pp_limit params = None → page_limit (server_config c) params = 100) ∧
  (∀ n, pp_limit params = Some n → n ≤ 10000 → page_limit (server_config c) params = n).
Proof.
  intros Hl. unfold page_limit. destruct (pp_limit params) as [n|]; simpl.
  - pose proof (Hl n eq_refl). unfold nonzero_u32 in *. split_and!; try done; try lia.
    intros m [= ->]. lia.
  - unfold nonzero_u32. split_and!; try done; lia.
Qed.
End page_limit.
