(* ===== verification/ApiDescription.v ===== *)
(** * Registering endpoints

    [ApiDescription] of [dropshot/src/api_description.rs]: the checks that an
    endpoint's tags and parameters pass before its insertion into the router,
    and [register], which runs them.

    Whether a parameter's schema is scalar is decided by [type_is_scalar],
    which may need any amount of fuel: [fuel] is a parameter of the whole
    section and [None] stands for no answer. *)
From S2P Require Import Prelude BTree Externals Versions StatusCodes HttpError Schema SchemaUtil TypeUtil ApiEndpoint.
From S2P Require Import Router RouterSpec RouterLookup.

(** ** Tags *)

Inductive EndpointTagPolicy := AnyTags | AtLeastOne | ExactlyOne.

Record TagExternalDocs := mk_tag_docs { td_doc_description : option string; td_url : string }.

Record TagDetails := mk_tag_details {
  td_description : option string;
  td_external_docs : option TagExternalDocs;
}.

Record TagConfig := mk_tag_config {
  allow_other_tags : bool;
  policy : EndpointTagPolicy;
  config_tags : list (string * TagDetails);
}.

Definition default_tag_config : TagConfig := mk_tag_config true AnyTags [].

Section description.
Context `{Crates} (fuel : nat).
Implicit Types (e : ApiEndpoint).

Record ApiDescription := mk_description { router : HttpRouter; tag_config : TagConfig }.

Definition description_new : ApiDescription := mk_description router_new default_tag_config.
Definition with_tag_config (self : ApiDescription) (c : TagConfig) : ApiDescription :=
  mk_description (router self) c.
Definition into_router (self : ApiDescription) : HttpRouter := router self.

Record ApiDescriptionRegisterError := mk_register_error {
  re_operation_id : string;
  re_message : string;
}.

Definition register_error_display (e : ApiDescriptionRegisterError) : string :=
  "failed to register endpoint '" +:+ re_operation_id e +:+ "': " +:+ re_message e.

(** [ApiDescriptionBuildErrors], with its [Display]. *)
Record ApiDescriptionBuildErrors := mk_build_errors { be_errors : list ApiDescriptionRegisterError }.

Definition build_errors_display (self : ApiDescriptionBuildErrors) : string :=
  "failed to register endpoints: " +:+ NEWLINE +:+
  String.concat "" ((λ error, "  - registering '" +:+ re_operation_id error +:+ "' failed: " +:+ re_message error +:+ NEWLINE)
                      <$> be_errors self).

Definition check_known_tags (config : TagConfig) : list string → rust string () :=
  for_each (λ tag, if bt_contains tag (config_tags config) then Ok () else Err ("Invalid tag: " +:+ tag)).

Definition validate_tags (self : ApiDescription) e : rust string () :=
  if negb (visible e) then Ok ()
  else
    _ ← match policy (tag_config self), length (tags e) with
        | AtLeastOne, 0 => Err "At least one tag is required"
        | ExactlyOne, n => if Nat.eqb n 1 then Ok () else Err "Exactly one tag is required"
        | _, _ => Ok ()
        end;
    if allow_other_tags (tag_config self) then Ok () else check_known_tags (tag_config self) (tags e).

(** ** Parameters *)

(** [route_path_to_segments] and [PathSegment::from] panic; here within a
    body that can also fail. *)
Definition path_segments_of e : rust string (list PathSegment) :=
  lift_panics (path_pattern (path e)).

Definition path_param_names (ps : list ApiEndpointParameter) : list string :=
  omap (λ p, match p_metadata p with MPath name => Some name | _ => None end) ps.

(** [difference], collected and sorted. *)
Definition sorted_difference (a b : gset string) : list string :=
  merge_sort str_le (elements (a ∖ b)).

Definition validate_path_parameters e : rust string () :=
  segments ← path_segments_of e;
  let path_ : gset string := list_to_set (omap segment_var segments) in
  let vars : gset string := list_to_set (path_param_names (parameters e)) in
  if bool_decide (path_ = vars) then Ok ()
  else
    let p := sorted_difference path_ vars in
    let v := sorted_difference vars path_ in
    let not_consumed := "path parameters are not consumed (" +:+ join "," p +:+ ")" in
    let not_in_path := "specified parameters do not appear in the path (" +:+ join "," v +:+ ")" in
    match p, v with
    | _ :: _, [] => Err not_consumed
    | [], _ :: _ => Err not_in_path
    | _, _ => Err (not_consumed +:+ " and " +:+ not_in_path)
    end.

Inductive SegmentOrWildcard := Segment | Wildcard.

Definition path_kinds (segments : list PathSegment) : btree SegmentOrWildcard :=
  bt_collect (omap (λ s, match s with
                         | VarnameSegment v => Some (v, Segment)
                         | VarnameWildcard v => Some (v, Wildcard)
                         | Literal _ => None
                         end) segments).

(** The body of the loop over the parameters. *)
Definition validate_named_parameter e (path_segments : btree SegmentOrWildcard)
    (param : ApiEndpointParameter) : option (rust string ()) :=
  match p_metadata param with
  | MHeader _ | MBody _ => Some (Ok ())
  | MPath name =>
      match p_schema param with
      | Gen _ _ => Some (Panic "internal error: entered unreachable code")
      | Static schema dependencies =>
          match bt_get name path_segments with
          | Some Segment => type_is_scalar fuel (operation_id e) name schema dependencies
          | Some Wildcard => type_is_string_enum fuel (operation_id e) name schema dependencies
          | None => Some (Panic "all path variables should be accounted for")
          end
      end
  | MQuery name =>
      match p_schema param with
      | Gen _ _ => Some (Panic "internal error: entered unreachable code")
      | Static schema dependencies =>
          if bt_contains name path_segments
          then Some (Err ("the parameter '" +:+ name +:+ "' is specified for both query and path parameters"))
          else type_is_scalar fuel (operation_id e) name schema dependencies
      end
  end.

Fixpoint for_each_param (f : ApiEndpointParameter → option (rust string ()))
    (l : list ApiEndpointParameter) : option (rust string ()) :=
  match l with
  | [] => Some (Ok ())
  | p :: l => match f p with Some (Ok _) => for_each_param f l | r => r end
  end.

Definition validate_named_parameters e : option (rust string ()) :=
  match path_segments_of e with
  | Ok segments => for_each_param (validate_named_parameter e (path_kinds segments)) (parameters e)
  | Err x => Some (Err x)
  | Panic m => Some (Panic m)
  end.

(** [_register], the inner function. *)
Definition register_inner (self : ApiDescription) e : option (rust string ApiDescription) :=
  match (_ ← validate_tags self e; validate_path_parameters e) with
  | Ok _ =>
      match validate_named_parameters e with
      | Some (Ok _) => Some ((λ r, mk_description r (tag_config self)) <$> lift_panics (insert (router self) e))
      | Some (Err x) => Some (Err x)
      | Some (Panic m) => Some (Panic m)
      | None => None
      end
  | Err x => Some (Err x)
  | Panic m => Some (Panic m)
  end.

Definition register (self : ApiDescription) e :
    option (rust ApiDescriptionRegisterError ApiDescription) :=
  map_err (λ error, mk_register_error (operation_id e) error) <$> register_inner self e.

(** Registering one endpoint after the other, stopping at the first error. *)
Fixpoint register_all (self : ApiDescription) (eps : list ApiEndpoint) :
    option (rust ApiDescriptionRegisterError ApiDescription) :=
  match eps with
  | [] => Some (Ok self)
  | e :: eps => match register self e with Some (Ok self) => register_all self eps | r => r end
  end.

(** ** Specification *)

Definition tags_conform (c : TagConfig) (ts : list string) : Prop :=
  match policy c with
  | AnyTags => True
  | AtLeastOne => ts ≠ []
  | ExactlyOne => length ts = 1
  end ∧
  (allow_other_tags c = true ∨ Forall (λ t, t ∈ (config_tags c).*1) ts).

(** The schema is an array of strings. *)
Definition string_array (schema : Schema) (deps : IndexMap Schema) : Prop :=
  ∃ t item mx mn ui ct,
    resolves deps schema t ∧
    array_match t = Some (mk_array_validation (Some (Single item)) None mx mn ui ct) ∧
    Scalar string_check deps item.

(** What a parameter must be, for the pattern of its endpoint. *)
Definition parameter_ok (p : pattern) (param : ApiEndpointParameter) : Prop :=
  match p_metadata param with
  | MHeader _ | MBody _ => True
  | MPath name => ∃ schema deps, p_schema param = Static schema deps ∧
      ((VarnameSegment name ∈ p ∧ Scalar scalar_check deps schema) ∨
       (VarnameWildcard name ∈ p ∧ string_array schema deps))
  | MQuery name => ∃ schema deps, p_schema param = Static schema deps ∧
      name ∉ pattern_vars p ∧ Scalar scalar_check deps schema
  end.

Definition parameters_ok e : Prop :=
  ∃ p, path_pattern (path e) = Ok p ∧
    (∀ v, v ∈ pattern_vars p ↔ v ∈ path_param_names (parameters e)) ∧
    Forall (parameter_ok p) (parameters e).
End description.

Section facts.
Context `{Crates} (fuel : nat).
Implicit Types (e : ApiEndpoint).

Lemma check_known_tags_ok c ts :
  check_known_tags c ts = Ok () ↔ Forall (λ t, t ∈ (config_tags c).*1) ts.
Proof.
  unfold check_known_tags. rewrite for_each_ok. apply Forall_iff. intros t.
  pose proof (bt_contains_spec t (config_tags c)) as Hc. unfold bt_keys in Hc.
  destruct (bt_contains t (config_tags c)); naive_solver.
Qed.

Lemma validate_tags_ok self e :
  validate_tags self e = Ok () ↔ visible e = false ∨ tags_conform (tag_config self) (tags e).
Proof.
  unfold validate_tags, tags_conform. destruct (visible e); simpl; [|by split; [left|]].
  rewrite rust_bind_ok.
  assert ((if allow_other_tags (tag_config self) then Ok ()
    else check_known_tags (tag_config self) (tags e)) = Ok () ↔
    allow_other_tags (tag_config self) = true ∨ Forall (λ t, t ∈ (config_tags (tag_config self)).*1) (tags e))
    as Hq.
  { rewrite <-check_known_tags_ok. destruct (allow_other_tags _); naive_solver. }
  assert (match policy (tag_config self), length (tags e) with
        | AtLeastOne, 0 => Err "At least one tag is required"
        | ExactlyOne, n => if Nat.eqb n 1 then Ok () else Err "Exactly one tag is required"
        | _, _ => Ok ()
        end = Ok () ↔ match policy (tag_config self) with
  | AnyTags => True
  | AtLeastOne => tags e ≠ []
  | ExactlyOne => length (tags e) = 1
  end) as Hp.
  { destruct (policy _); [done|by destruct (tags e)|].
    destruct (Nat.eqb_spec (length (tags e)) 1); naive_solver. }
  split.
  - intros ([] & H1%Hp & H2%Hq). by right.
  - intros [|[H1 H2]]; [done|]. exists (). by rewrite Hp, Hq.
Qed.

Lemma path_segments_of_ok e p : path_segments_of e = Ok p ↔ path_pattern (path e) = Ok p.
Proof. apply lift_panics_ok. Qed.

Lemma sorted_difference_nil a b : sorted_difference a b = [] ↔ a ⊆ b.
Proof.
  unfold sorted_difference. split.
  - intros E. pose proof (merge_sort_Permutation str_le (elements (a ∖ b))) as Hp.
    rewrite E in Hp. apply Permutation_nil in Hp. apply elements_empty_inv in Hp. set_solver.
  - intros Hs. by rewrite subseteq_empty_difference_L, elements_empty.
Qed.

Lemma validate_path_parameters_ok e :
  validate_path_parameters e = Ok () ↔
  ∃ p, path_pattern (path e) = Ok p ∧ ∀ v, v ∈ pattern_vars p ↔ v ∈ path_param_names (parameters e).
Proof.
  unfold validate_path_parameters. rewrite rust_bind_ok. setoid_rewrite path_segments_of_ok.
  f_equiv. intros p. apply and_iff_compat_l.
  set (a := list_to_set (omap segment_var p) : gset string).
  set (b := list_to_set (path_param_names (parameters e)) : gset string).
  assert ((∀ v, v ∈ pattern_vars p ↔ v ∈ path_param_names (parameters e)) ↔ a = b) as ->.
  { subst a b. rewrite set_eq. setoid_rewrite elem_of_list_to_set. done. }
  case_bool_decide as E; [done|]. split; [|done].
  destruct (sorted_difference a b), (sorted_difference b a); done.
Qed.

Lemma omap_kinds_vars p :
  (omap (λ s, match s with
              | VarnameSegment v => Some (v, Segment)
              | VarnameWildcard v => Some (v, Wildcard)
              | Literal _ => None
              end) p).*1 = pattern_vars p.
Proof. unfold pattern_vars. induction p as [|[l|v|v] p IH]; [done|exact IH|exact (f_equal (cons v) IH)..]. Qed.

Lemma path_kinds_get p name k :
  NoDup (pattern_vars p) →
  bt_get name (path_kinds p) = Some k ↔
  match k with Segment => VarnameSegment name ∈ p | Wildcard => VarnameWildcard name ∈ p end.
Proof.
  intros Hnd. unfold path_kinds. rewrite bt_get_collect by (by rewrite omap_kinds_vars).
  rewrite list_elem_of_omap. split.
  - intros ([l|v|v] & Hin & E); simplify_eq; done.
  - destruct k; intros Hin; by eexists.
Qed.

Lemma path_kinds_contains p name : bt_contains name (path_kinds p) = true ↔ name ∈ pattern_vars p.
Proof. rewrite bt_contains_spec. unfold path_kinds. by rewrite bt_collect_keys, omap_kinds_vars. Qed.

Lemma type_is_string_enum_correct op name s deps r :
  type_is_string_enum fuel op name s deps = Some r → r = Ok () ↔ string_array s deps.
Proof.
  unfold type_is_string_enum, string_array.
  destruct (type_resolve s deps) as [t|[]|m] eqn:Er.
  2: { intros [= <-]. split; [done|]. intros (t & ? & ? & ? & ? & ? & Hr & _).
       apply type_resolve_ok in Hr. congruence. }
  apply type_resolve_ok in Er.
  assert (∀ u, resolves deps s u → u = t) as Hr by (intros u Hu; by apply (resolves_det deps s)).
  destruct (array_match t) as [[[[item|items]|] [ai|] mx mn ui ct]|] eqn:Ea;
    try (intros [= <-]; split; [done|]; intros (u & ? & ? & ? & ? & ? & Hu%Hr & Ha & _); congruence).
  intros Hs. unfold type_is_string in Hs.
  destruct (type_is_scalar_common op name string_check fuel item deps) as [r'|] eqn:E; [|done].
  injection Hs as <-. apply type_is_scalar_common_correct in E.
  assert (map_err (λ _ : string, not_string_array name) r' = Ok () ↔ r' = Ok ()) as -> by apply map_err_ok.
  rewrite E. split.
  - intros Hsc. exists t, item, mx, mn, ui, ct. done.
  - intros (u & ? & ? & ? & ? & ? & Hu%Hr & Ha & ?). congruence.
Qed.

Lemma for_each_param_ok f l r (P : ApiEndpointParameter → Prop) :
  (∀ x r', f x = Some r' → r' = Ok () ↔ P x) →
  for_each_param f l = Some r → r = Ok () ↔ Forall P l.
Proof.
  intros Hf. induction l as [|x l IH]; simpl; [by intros [= <-]|].
  rewrite Forall_cons. destruct (f x) as [[[]|e|m]|] eqn:Ex; [|intros [= <-]..|done];
    apply Hf in Ex.
  - intros ->%IH. naive_solver.
  - split; [done|]. intros [?%Ex _]. done.
  - split; [done|]. intros [?%Ex _]. done.
Qed.

(** What the loop's body says about a parameter. *)
Lemma validate_named_parameter_correct e p param r :
  NoDup (pattern_vars p) →
  validate_named_parameter fuel e (path_kinds p) param = Some r → r = Ok () ↔ parameter_ok p param.
Proof.
  intros Hnd. unfold validate_named_parameter, parameter_ok.
  destruct (p_metadata param) as [name|name|name|ct]; [| |by intros [= <-]|by intros [= <-]].
  - destruct (p_schema param) as [n g|schema deps]; [intros [= <-]; split; [done|]; by intros (? & ? & ? & _)|].
    pose proof (path_kinds_get p name Segment Hnd) as Hseg.
    pose proof (path_kinds_get p name Wildcard Hnd) as Hwild. simpl in Hseg, Hwild.
    destruct (bt_get name (path_kinds p)) as [[]|] eqn:Eg.
    + intros ->%type_is_scalar_common_correct. split; [intros ?; exists schema, deps; naive_solver|].
      intros (? & ? & [= <- <-] & [[_ ?]|[Hw _]]); [done|]. by apply Hwild in Hw.
    + intros ->%type_is_string_enum_correct. split; [intros ?; exists schema, deps; naive_solver|].
      intros (? & ? & [= <- <-] & [[Hs _]|[_ ?]]); [|done]. by apply Hseg in Hs.
    + intros [= <-]. split; [done|]. intros (? & ? & [= <- <-] & [[Hs _]|[Hw _]]); naive_solver.
  - destruct (p_schema param) as [n g|schema deps]; [intros [= <-]; split; [done|]; by intros (? & ? & ? & _)|].
    pose proof (path_kinds_contains p name) as Hc.
    destruct (bt_contains name (path_kinds p)) eqn:Eg.
    + intros [= <-]. split; [done|]. intros (? & ? & [= <- <-] & Hn & _). naive_solver.
    + intros ->%type_is_scalar_common_correct. split.
      * intros ?. exists schema, deps. split; [done|]. split; [|done]. intros ?%Hc. done.
      * by intros (? & ? & [= <- <-] & _ & ?).
Qed.

Lemma validate_named_parameters_correct e p r :
  path_pattern (path e) = Ok p → NoDup (pattern_vars p) →
  validate_named_parameters fuel e = Some r → r = Ok () ↔ Forall (parameter_ok p) (parameters e).
Proof.
  intros Hp Hnd. unfold validate_named_parameters. rewrite (proj2 (path_segments_of_ok e p) Hp).
  apply for_each_param_ok. intros x r'. by apply validate_named_parameter_correct.
Qed.

(** [register] succeeds when the checks and the insertion do. *)
Lemma register_ok self e self' :
  register fuel self e = Some (Ok self') ↔
  validate_tags self e = Ok () ∧ validate_path_parameters e = Ok () ∧
  validate_named_parameters fuel e = Some (Ok ()) ∧
  ∃ r, insert (router self) e = Ok r ∧ self' = mk_description r (tag_config self).
Proof.
  unfold register, register_inner.
  destruct (validate_tags self e) as [[]| |]; simpl; [|naive_solver..].
  destruct (validate_path_parameters e) as [[]| |]; simpl; [|naive_solver..].
  destruct (validate_named_parameters fuel e) as [[[]| |]|]; simpl; [|naive_solver..].
  destruct (insert (router self) e) as [r|[]|m]; simpl; naive_solver.
Qed.

Lemma register_answer self e r :
  register fuel self e = Some r → (∃ self', r = Ok self') ↔
    validate_tags self e = Ok () ∧ validate_path_parameters e = Ok () ∧
    (∃ v, validate_named_parameters fuel e = Some v ∧ v = Ok ()) ∧
    ∃ r', insert (router self) e = Ok r'.
Proof.
  intros Hr. split.
  - intros [self' ->]. apply register_ok in Hr as (? & ? & ? & r & ? & _). eauto 10.
  - intros (Ht & Hp & (v & Hn & ->) & r' & Hi).
    assert (register fuel self e = Some (Ok (mk_description r' (tag_config self)))) as E
      by (apply register_ok; eauto 10).
    rewrite E in Hr. injection Hr as <-. eauto.
Qed.

Lemma register_answer_spec eps self e r :
  Rep eps (root (router self)) → register fuel self e = Some r →
  (∃ self', r = Ok self') ↔
    (visible e = false ∨ tags_conform (tag_config self) (tags e)) ∧ parameters_ok e ∧ path_ok e ∧
    Forall (λ a, endpoints_compatible a e) eps.
Proof.
  intros HR Hr. rewrite (register_answer self e r Hr), validate_tags_ok, (insert_ok eps _ e HR).
  rewrite validate_path_parameters_ok. unfold parameters_ok.
  assert (∀ p, path_pattern (path e) = Ok p → path_ok e → NoDup (pattern_vars p)) as Hnd.
  { intros p Hp (p' & Hp' & _ & Hnd). by assert (p' = p) as <- by congruence. }
  split.
  - intros (Ht & (p & Hp & Hv) & (v & Hn & ->) & Hpo & Hc). split; [done|]. split; [|done].
    exists p. split_and!; try done.
    by apply (validate_named_parameters_correct e p (Ok ()) Hp (Hnd p Hp Hpo) Hn).
  - intros (Ht & (p & Hp & Hv & Hf) & Hpo & Hc). split; [done|]. split; [by exists p|]. split; [|done].
    unfold register, register_inner in Hr.
    rewrite (proj2 (validate_tags_ok self e) Ht) in Hr. simpl in Hr.
    rewrite (proj2 (validate_path_parameters_ok e) (ex_intro _ p (conj Hp Hv))) in Hr.
    destruct (validate_named_parameters fuel e) as [v|] eqn:Ev; [|done]. exists v. split; [done|].
    by apply (validate_named_parameters_correct e p v Hp (Hnd p Hp Hpo) Ev).
Qed.

Lemma register_all_insert self eps self' :
  register_all fuel self eps = Some (Ok self') → insert_all (router self) eps = Ok (router self').
Proof.
  revert self. induction eps as [|e eps IH]; intros self; simpl; [by intros [= <-]|].
  destruct (register fuel self e) as [[s| |]|] eqn:E; try done. intros Hi%IH.
  apply register_ok in E as (_ & _ & _ & r & Hr & ->). by rewrite Hr.
Qed.

Lemma register_all_parameters self eps self' :
  register_all fuel self eps = Some (Ok self') → Forall parameters_ok eps.
Proof.
  revert self. induction eps as [|e eps IH]; intros self; simpl; [by constructor|].
  destruct (register fuel self e) as [[s| |]|] eqn:E; try done. intros Hi%IH.
  constructor; [|done]. apply register_ok in E as (_ & Hp & Hn & r & Hr & _).
  apply validate_path_parameters_ok in Hp as (p & Hp & Hv). exists p. split_and!; try done.
  unfold insert in Hr. apply rust_bind_ok in Hr as (raws & Hraws & Hr).
  apply rust_bind_ok in Hr as (nd & Hnd & _).
  apply insert_at_ok in Hnd as (p' & Hp' & _ & [Hnd _]%vars_fresh_spec & _).
  assert (path_pattern (path e) = Ok p') as Hpe by (apply rust_bind_ok; eauto).
  assert (p' = p) as -> by congruence.
  by apply (validate_named_parameters_correct e p (Ok ()) Hp Hnd Hn).
Qed.

(** What a lookup in a registered API gives: the endpoint, the pattern of its
    path, and the variables of the match, which are its path parameters. *)
Lemma registered_lookup eps self m uri ver res :
  register_all fuel description_new eps = Some (Ok self) →
  lookup_route (router self) m uri ver = Ok res →
  ∃ e q segs vs, e ∈ eps ∧ res = result_of e (bt_collect vs) ∧ path_pattern (path e) = Ok q ∧
    NoDup (pattern_vars q) ∧ match_route q segs = Some vs ∧
    (∀ name, name ∈ path_param_names (parameters e) ↔ name ∈ bt_keys (bt_collect vs)) ∧
    Forall (parameter_ok q) (parameters e).
Proof.
  intros Hreg Hlk. pose proof (register_all_parameters _ _ _ Hreg) as Hps.
  pose proof (register_all_insert _ _ _ Hreg) as Hi.
  pose proof (insert_all_rep [] eps (router description_new) _ Rep_new Hi) as HR. simpl in HR.
  destruct (lookup_ok_inv _ _ _ _ _ _ HR Hlk) as (segs & q & vs & e & Hs & (Hq & Hm & _) & He & ->).
  apply head_Some_elem_of in He. unfold candidates in He.
  rewrite elem_filter, andb_true_iff, at_route_true in He. destruct He as (He & [Hp _] & _).
  rewrite Forall_forall in Hps. destruct (Hps e He) as (p & Hp' & Hvars & Hpar).
  assert (p = q) as -> by congruence. destruct (match_route_vars q segs vs Hm) as [Hkeys _].
  pose proof (rep_paths _ _ HR) as Hpo. rewrite Forall_forall in Hpo.
  destruct (Hpo e He) as (p' & Hpe & _ & Hnd). assert (p' = q) as -> by congruence.
  exists e, q, segs, vs. split_and!; try done.
  intros name. rewrite bt_collect_keys, Hkeys. symmetry. apply Hvars.
Qed.
End facts.

(** ** Termination *)

Section termination.
Context `{Crates}.
Implicit Types (e : ApiEndpoint).

(** The subschemas that the type checks of a parameter go through. *)
Definition array_item (deps : IndexMap Schema) (s : Schema) : option Schema :=
  match type_resolve s deps with
  | Ok t => match array_match t with
            | Some (mk_array_validation (Some (Single item)) None _ _ _ _) => Some item
            | _ => None
            end
  | _ => None
  end.

Definition nesting_ends (param : ApiEndpointParameter) : Prop :=
  match p_schema param with
  | Gen _ _ => True
  | Static schema deps =>
      Acc (scalar_call deps) schema ∧ ∀ item, array_item deps schema = Some item → Acc (scalar_call deps) item
  end.

(** Answers that stay the same with more fuel. *)
Definition settles {A} (f : nat → option A) : Prop :=
  ∃ fuel0 a, ∀ fuel, fuel0 ≤ fuel → f fuel = Some a.

Lemma settles_ret {A} (a : A) : settles (λ _, Some a).
Proof. by exists 0, a. Qed.

Lemma settles_bind {A B} (f : nat → option A) (g : A → nat → option B) :
  settles f → (∀ a, settles (g a)) →
  settles (λ fuel, match f fuel with Some a => g a fuel | None => None end).
Proof.
  intros (n1 & a & Ha) Hg. destruct (Hg a) as (n2 & b & Hb). exists (n1 `max` n2), b. intros fuel Hle.
  rewrite Ha, Hb by lia. done.
Qed.

Lemma settles_ext {A} (f g : nat → option A) : (∀ fuel, f fuel = g fuel) → settles f → settles g.
Proof. intros E (n & a & Ha). exists n, a. intros fuel. rewrite <-E. apply Ha. Qed.

Lemma type_is_scalar_settles op name check s deps :
  Acc (scalar_call deps) s → settles (λ fuel, type_is_scalar_common op name check fuel s deps).
Proof.
  intros (fuel0 & [r Hr])%(type_is_scalar_common_terminates op name check). exists fuel0, r. intros fuel Hle.
  by rewrite (type_is_scalar_common_mono op name check fuel0 fuel), Hr by (try done; by eexists).
Qed.

Lemma type_is_string_enum_settles op name s deps :
  (∀ item, array_item deps s = Some item → Acc (scalar_call deps) item) →
  settles (λ fuel, type_is_string_enum fuel op name s deps).
Proof.
  unfold type_is_string_enum, array_item. destruct (type_resolve s deps) as [t|[]|m]; [|intros _; apply settles_ret].
  destruct (array_match t) as [[[[item|items]|] [ai|] mx mn ui ct]|]; intros Hi; try apply settles_ret.
  destruct (type_is_scalar_settles op name string_check item deps) as (n & r & Hr); [by apply Hi|].
  exists n, (map_err (λ _, not_string_array name) r). intros fuel Hle. unfold type_is_string. by rewrite Hr.
Qed.

Lemma validate_named_parameter_settles e kinds param :
  nesting_ends param → settles (λ fuel, validate_named_parameter fuel e kinds param).
Proof.
  unfold nesting_ends, validate_named_parameter.
  destruct (p_metadata param) as [name|name|name|ct]; [| |intros _; apply settles_ret..];
    (destruct (p_schema param) as [n g|schema deps]; [intros _; apply settles_ret|]); intros [Hs Hi].
  - destruct (bt_get name kinds) as [[]|]; [| |apply settles_ret].
    + by apply type_is_scalar_settles.
    + by apply type_is_string_enum_settles.
  - destruct (bt_contains name kinds); [apply settles_ret|by apply type_is_scalar_settles].
Qed.

Lemma for_each_param_settles (f : nat → ApiEndpointParameter → option (rust string ())) l :
  Forall (λ p, settles (λ fuel, f fuel p)) l → settles (λ fuel, for_each_param (f fuel) l).
Proof.
  induction 1 as [|p l Hp _ IH]; [apply settles_ret|].
  eapply settles_ext; [|apply (settles_bind _ (λ r fuel, match r with Ok _ => for_each_param (f fuel) l | r => Some r end) Hp)].
  - intros fuel. simpl. by destruct (f fuel p) as [[]|].
  - by intros [u|e|m]; [|apply settles_ret..].
Qed.

Lemma register_settles self e : Forall nesting_ends (parameters e) → settles (λ fuel, register fuel self e).
Proof.
  intros He.
  assert (settles (λ fuel, validate_named_parameters fuel e)) as Hn.
  { unfold validate_named_parameters. destruct (path_segments_of e); [|apply settles_ret..].
    apply for_each_param_settles. eapply Forall_impl; [done|]. intros p. apply validate_named_parameter_settles. }
  unfold register, register_inner.
  destruct (_ ← validate_tags self e; validate_path_parameters e) as [u|x|m]; [|apply settles_ret..].
  eapply settles_ext; [|apply (settles_bind _ (λ r _, Some (map_err (λ error, mk_register_error (operation_id e) error)
    (match r with
     | Ok _ => (λ r, mk_description r (tag_config self)) <$> lift_panics (insert (router self) e)
     | Err x => Err x | Panic m => Panic m end))) Hn); intros r; apply settles_ret].
  intros fuel. simpl. by destruct (validate_named_parameters fuel e) as [[]|].
Qed.
(** C5: an answer of [register] is [Ok] exactly when the endpoint is hidden
    or its tags follow the tag policy, its path parameters are the variables
    of its path, each with a scalar schema, or an array of strings for a
    wildcard, its query parameters are scalar and not path variables, its
    path is a valid pattern, and no endpoint registered before conflicts;
    the description then holds the endpoint in addition, under the same tag
    policy.  There is an answer where the nesting of its parameters' schemas
    ends. *)
Theorem register_spec eps self e :
  Rep eps (root (router self)) →
  (∀ fuel r, register fuel self e = Some r →
     ((∃ self', r = Ok self') ↔
        (visible e = false ∨ tags_conform (tag_config self) (tags e)) ∧ parameters_ok e ∧ path_ok e ∧
        Forall (λ a, endpoints_compatible a e) eps) ∧
     (∀ self', r = Ok self' → Rep (eps ++ [e]) (root (router self')) ∧ tag_config self' = tag_config self)) ∧
  (Forall nesting_ends (parameters e) → ∃ fuel0 r, ∀ fuel, fuel0 ≤ fuel → register fuel self e = Some r).
Proof.
  intros HR. split; [|apply register_settles]. intros fuel r Hr. split; [by apply (register_answer_spec fuel eps)|].
  intros self' ->. apply register_ok in Hr as (_ & _ & _ & r & Hi & ->). split; [|done].
  by apply (insert_rep eps (router self) e r HR Hi).
Qed.
End termination.

Section properties.
Context `{Crates} (fuel : nat).
Implicit Types (e : ApiEndpoint).

(** C3: a request served by a registered API carries values for exactly the
    path parameters its handler declares: a single string for each with a
    scalar schema, the remaining segments for the one with an array. *)
Theorem registered_variables eps self m uri ver res :
  register_all fuel description_new eps = Some (Ok self) →
  lookup_route (router self) m uri ver = Ok res →
  ∃ e, e ∈ eps ∧ lr_handler res = handler e ∧
    (∀ name, name ∈ path_param_names (parameters e) ↔ name ∈ bt_keys (rem_variables (lr_endpoint res))) ∧
    (∀ param name value, param ∈ parameters e → p_metadata param = MPath name →
       bt_get name (rem_variables (lr_endpoint res)) = Some value →
       ∃ schema deps, p_schema param = Static schema deps ∧
         match value with
         | VString _ => Scalar scalar_check deps schema
         | VComponents _ => string_array schema deps
         end).
Proof.
  intros Hreg Hlk.
  destruct (registered_lookup fuel eps self m uri ver res Hreg Hlk)
    as (e & q & segs & vs & He & -> & Hp & Hnd & Hm & Hkeys & Hpar).
  destruct (match_route_vars q segs vs Hm) as [Hvs Hkinds]. exists e. split_and!; [done|done|done|].
  intros param name value Hin Hmeta Hget. rewrite Forall_forall in Hpar.
  specialize (Hpar param Hin). unfold parameter_ok in Hpar. rewrite Hmeta in Hpar.
  destruct Hpar as (schema & deps & Hsch & Hk). exists schema, deps. split; [done|].
  apply bt_get_collect in Hget; [|by rewrite Hvs]. apply Hkinds in Hget.
  pose proof (path_kinds_get q name Segment Hnd) as Hseg.
  pose proof (path_kinds_get q name Wildcard Hnd) as Hwild.
  destruct value, Hk as [[Hin' ?]|[Hin' ?]]; try done; naive_solver.
Qed.
End properties.
