(* ===== verification/GenOpenApi.v ===== *)
(** * OpenAPI documents of an API

    [gen_openapi] of [dropshot/src/api_description.rs]: the document that
    describes the visible endpoints of one version of an API, with the schemas
    and error responses they share; and [OpenApiDefinition], which sets the
    information about the API.

    The loop over the endpoints keeps a [gen_state].  The generator of
    [schemars] is a parameter, and the order in which a [HashSet] is iterated. *)
From S2P Require Import Prelude BTree Externals Versions StatusCodes HttpError Schema OpenApi SchemaUtil.
From S2P Require Import SchemaTranslate ApiEndpoint Metadata Router RouterIter ApiDescription.

(** ** Names *)

(** What follows the last [::] in a string, if there is one. *)
Fixpoint after_colons (s : string) : option string :=
  match s with
  | "" => None
  | String a s1 =>
      match s1 with
      | String b s2 => if Ascii.eqb a ":" && Ascii.eqb b ":" then Some (default s2 (after_colons s2)) else after_colons s1
      | "" => None
      end
  end.

(** [type_name.split("::").last()]. *)
Definition last_component (s : string) : string := default s (after_colons s).

(** The methods that a path item has an operation for. *)
Inductive OMethod := GET | PUT | POST | DELETE | OPTIONS | HEAD | PATCH | TRACE.

#[export] Instance OMethod_eq_dec : EqDecision OMethod.
Proof. solve_decision. Defined.

Definition method_of (m : string) : option OMethod :=
  if String.eqb m "GET" then Some GET
  else if String.eqb m "PUT" then Some PUT
  else if String.eqb m "POST" then Some POST
  else if String.eqb m "DELETE" then Some DELETE
  else if String.eqb m "OPTIONS" then Some OPTIONS
  else if String.eqb m "HEAD" then Some HEAD
  else if String.eqb m "PATCH" then Some PATCH
  else if String.eqb m "TRACE" then Some TRACE
  else None.

Section is_empty.
Context `{JsonCrate}.

(** A schema without constraints, whatever its metadata and extensions. *)
Definition unconstrained (s : Schema) : bool :=
  match s with
  | Bool b => b
  | Object (mk_schema_object _ None None None None None None None None None None _) => true
  | _ => false
  end.

(** The schema that no data matches. *)
Definition is_empty (schema : Schema) : bool :=
  match schema with
  | Bool b => negb b
  | Object (mk_schema_object _ None None None None
      (Some (mk_subschemas None None None (Some not) None None None)) None None None None None _) => unconstrained not
  | _ => false
  end.
End is_empty.

Section gen.
Context `{Crates}.

Definition pi_at (m : OMethod) (pi : PathItem) : option Operation :=
  match m with
  | GET => pi_get pi | PUT => pi_put pi | POST => pi_post pi | DELETE => pi_delete pi
  | OPTIONS => pi_options pi | HEAD => pi_head pi | PATCH => pi_patch pi | TRACE => pi_trace pi
  end.

(** [method_ref.replace(operation)]. *)
Definition pi_replace (m : OMethod) (o : Operation) (pi : PathItem) : PathItem :=
  let f (m' : OMethod) := if decide (m' = m) then Some o else pi_at m' pi in
  mk_path_item (f GET) (f PUT) (f POST) (f DELETE) (f OPTIONS) (f HEAD) (f PATCH) (f TRACE).

Record ErrorResponse := mk_error_response {
  es_response : OResponse;
  es_name : string;
  es_reference : ReferenceOr OResponse;
}.

(** What the loop over the endpoints has made so far; [gs_errors] is by type
    name, [gs_names] counts the uses of a name. *)
Record gen_state := mk_gen {
  gs_paths : IndexMap PathItem;
  gs_generator : SchemaGenerator;
  gs_definitions : IndexMap Schema;
  gs_errors : IndexMap ErrorResponse;
  gs_names : gmap string nat;
}.

(** ** Schemas *)

(** A schema that must be static: its dependencies are added to the
    definitions. *)
Definition static_schema (definitions : IndexMap Schema) (g : ApiSchemaGenerator) :
    panics (IndexMap Schema * ReferenceOr OSchema) :=
  match g with
  | Static schema dependencies =>
      s ← j2oas_schema None schema; Ok (im_extend definitions dependencies, s)
  | Gen _ _ => Panic "not implemented: this may happen for complex types"
  end.

(** Any schema, with its name. *)
Definition any_schema_of (generator : SchemaGenerator) (definitions : IndexMap Schema) (g : ApiSchemaGenerator) :
    SchemaGenerator * IndexMap Schema * (option string * Schema) :=
  match g with
  | Gen name schema => let '(generator, js) := schema generator in (generator, definitions, (Some name, js))
  | Static schema dependencies => (generator, im_extend definitions dependencies, (None, schema))
  end.

(** ** Operations *)

Definition named_parameter (m : ApiEndpointParameterMetadata) : option (string * (ParameterData → OParameter)) :=
  match m with
  | MBody _ => None
  | MPath name => Some (name, PPath)
  | MQuery name => Some (name, PQuery)
  | MHeader name => Some (name, PHeader)
  end.

Fixpoint gen_parameters (definitions : IndexMap Schema) (ps : list ApiEndpointParameter) :
    panics (IndexMap Schema * list OParameter) :=
  match ps with
  | [] => Ok (definitions, [])
  | param :: ps =>
      match named_parameter (p_metadata param) with
      | None => gen_parameters definitions ps
      | Some (name, location) =>
          '(definitions, schema) ← static_schema definitions (p_schema param);
          let data := mk_parameter_data name (p_description param) (p_required param) schema in
          '(definitions, l) ← gen_parameters definitions ps;
          Ok (definitions, location data :: l)
      end
  end.

(** The first parameter that is a body. *)
Fixpoint body_parameter (ps : list ApiEndpointParameter) : option (ApiEndpointBodyContentType * ApiSchemaGenerator) :=
  match ps with
  | [] => None
  | param :: ps =>
      match p_metadata param with MBody ct => Some (ct, p_schema param) | _ => body_parameter ps end
  end.

Definition gen_request_body (generator : SchemaGenerator) (definitions : IndexMap Schema)
    (ps : list ApiEndpointParameter) : panics (SchemaGenerator * IndexMap Schema * option RequestBody) :=
  match body_parameter ps with
  | None => Ok (generator, definitions, None)
  | Some (ct, g) =>
      let '(generator, definitions, (name, js)) := any_schema_of generator definitions g in
      schema ← j2oas_schema name js;
      Ok (generator, definitions, Some (mk_request_body [(mime_type ct, schema)] true))
  end.

Definition gen_extensions (m : ExtensionMode) : IndexMap Json :=
  match m with
  | NoExtension => []
  | Paginated first_page_schema => [(PAGINATION_EXTENSION, first_page_schema)]
  | Websocket => [(WEBSOCKET_EXTENSION, JObject [])]
  end.

Fixpoint gen_headers (definitions : IndexMap Schema) (headers : list ApiEndpointHeader) :
    panics (IndexMap Schema * list (string * OHeader)) :=
  match headers with
  | [] => Ok (definitions, [])
  | header :: headers =>
      '(definitions, schema) ← static_schema definitions (h_schema header);
      '(definitions, l) ← gen_headers definitions headers;
      Ok (definitions, (h_name header, mk_oheader (h_description header) (h_required header) schema) :: l)
  end.

Definition gen_response (generator : SchemaGenerator) (definitions : IndexMap Schema) (r : ApiEndpointResponse) :
    panics (SchemaGenerator * IndexMap Schema * OResponse) :=
  let description := default "" (r_description r) in
  match r_schema r with
  | Some g =>
      let '(generator, definitions, (name, js)) := any_schema_of generator definitions g in
      content ← (if is_empty js then Ok []
                 else schema ← j2oas_schema name js; Ok [(CONTENT_TYPE_JSON, schema)]);
      '(definitions, headers) ← gen_headers definitions (r_headers r);
      Ok (generator, definitions, mk_oresponse description (im_extend [] headers) content)
  | None => Ok (generator, definitions, mk_oresponse description [] [("*/*", Item any_schema)])
  end.

(** The name of a response, told apart from other responses by a number. *)
Definition unique_name (names : gmap string nat) (name : string) : gmap string nat * string :=
  let num := match names !! name with Some num => S num | None => 1 end in
  (<[name := num]> names, if num <=? 1 then name else name +:+ show_N (N.of_nat num)).

Definition gen_error_response (st : gen_state) (e : ApiEndpointErrorResponse) : panics (gen_state * ErrorResponse) :=
  match im_get (er_type_name e) (gs_errors st) with
  | Some response => Ok (st, response)
  | None =>
      let '(generator, definitions, (name, js)) :=
        any_schema_of (gs_generator st) (gs_definitions st) (er_schema e) in
      error_schema ← j2oas_schema name js;
      let '(names, name) := unique_name (gs_names st) (default (last_component (er_type_name e)) name) in
      let response := mk_error_response (mk_oresponse name [] [(CONTENT_TYPE_JSON, error_schema)]) name
        (Reference ("#/components/responses/" +:+ name)) in
      Ok (mk_gen (gs_paths st) generator definitions
            (im_insert (er_type_name e) response (gs_errors st)) names, response)
  end.

(** The responses of an operation: by status code, and the default one. *)
Definition gen_responses (st : gen_state) (e : ApiEndpoint) (response_ : OResponse) :
    panics (gen_state * (list (OStatusCode * ReferenceOr OResponse) * option (ReferenceOr OResponse))) :=
  match r_success (response e) with
  | Some code =>
      match error e with
      | Some err =>
          '(st, r) ← gen_error_response st err;
          Ok (st, ([(Code (status_as_u16 code), Item response_); (Range 4, es_reference r); (Range 5, es_reference r)], None))
      | None => Ok (st, ([(Code (status_as_u16 code), Item response_)], None))
      end
  | None => Ok (st, ([], Some (Item response_)))
  end.

(** The body of the loop. *)
Definition gen_endpoint (st : gen_state) (item : string * string * ApiEndpoint) : panics gen_state :=
  let '(path, method, endpoint) := item in
  if negb (visible endpoint) then Ok st
  else
    let pathitem := default default_path_item (im_get path (gs_paths st)) in
    method_ref ← expect (method_of method) ("unexpected method `" +:+ method +:+ "`");
    '(definitions, parameters_) ← gen_parameters (gs_definitions st) (parameters endpoint);
    '(generator, definitions, request_body) ←
      gen_request_body (gs_generator st) definitions (parameters endpoint);
    '(generator, definitions, response_) ← gen_response generator definitions (response endpoint);
    '(st, (responses, default_)) ←
      gen_responses (mk_gen (gs_paths st) generator definitions (gs_errors st) (gs_names st)) endpoint response_;
    let operation := mk_operation (Some (operation_id endpoint)) (summary endpoint) (description endpoint)
      (tags endpoint) (deprecated endpoint) parameters_ request_body
      (gen_extensions (extension_mode endpoint)) responses default_ in
    Ok (mk_gen (im_insert path (pi_replace method_ref operation pathitem) (gs_paths st))
          (gs_generator st) (gs_definitions st) (gs_errors st) (gs_names st)).

Fixpoint gen_endpoints (st : gen_state) (items : list (string * string * ApiEndpoint)) : panics gen_state :=
  match items with
  | [] => Ok st
  | item :: items => st ← gen_endpoint st item; gen_endpoints st items
  end.

(** ** The document *)

(** The generator of [schemars]: [new], and [into_root_schema_for] by the
    definitions of the root schema it makes.  The order of a [HashSet]. *)
Variables (generator_new : SchemaGenerator) (root_definitions : SchemaGenerator → btree Schema)
  (hash_set_iter : gset string → list string).

Definition config_tag (t : string * TagDetails) : OTag :=
  mk_otag t.1 (td_description t.2) ((λ e, (td_doc_description e, td_url e)) <$> td_external_docs t.2).

(** Tags by name. *)
Definition tag_le (a b : OTag) : Prop := str_le (ot_name a) (ot_name b).

#[export] Instance tag_le_dec a b : Decision (tag_le a b).
Proof. unfold tag_le. apply _. Defined.

Definition gen_tags (c : TagConfig) (items : list (string * string * ApiEndpoint)) : list OTag :=
  let endpoint_tags :=
    flat_map (λ '(_, _, e), List.filter (λ tag, negb (bt_contains tag (config_tags c))) (tags e)) items in
  merge_sort tag_le
    ((config_tag <$> config_tags c) ++
     ((λ name, mk_otag name None None) <$> hash_set_iter (list_to_set endpoint_tags))).

(** The schemas: those of the generator first, then the definitions it does not
    have. *)
Fixpoint gen_definitions (schemas : IndexMap (ReferenceOr OSchema)) (definitions : IndexMap Schema) :
    panics (IndexMap (ReferenceOr OSchema)) :=
  match definitions with
  | [] => Ok schemas
  | (key, schema) :: definitions =>
      match im_get key schemas with
      | Some _ => gen_definitions schemas definitions
      | None => s ← j2oas_schema None schema; gen_definitions (im_insert key s schemas) definitions
      end
  end.

(** The error responses: their names must be unique. *)
Fixpoint gen_error_responses (responses : IndexMap (ReferenceOr OResponse)) (errors : list (string * ErrorResponse)) :
    panics (IndexMap (ReferenceOr OResponse)) :=
  match errors with
  | [] => Ok responses
  | (_, e) :: errors =>
      match im_get (es_name e) responses with
      | Some _ => Panic "error response names must be unique"
      | None => gen_error_responses (im_insert (es_name e) (Item (es_response e)) responses) errors
      end
  end.

Definition gen_document (c : TagConfig) (info : Info) (items : list (string * string * ApiEndpoint)) : panics OpenAPI :=
  st ← gen_endpoints (mk_gen [] generator_new [] [] ∅) items;
  schemas ← try_values (j2oas_schema None) (root_definitions (gs_generator st));
  schemas ← gen_definitions schemas (gs_definitions st);
  responses ← gen_error_responses [] (gs_errors st);
  Ok (mk_openapi "3.0.3" info (gen_tags c items) (gs_paths st) schemas responses).

(** [gen_openapi]; fuel as for the iterator over the endpoints. *)
Definition gen_openapi (n fuel : nat) (self : ApiDescription) (info : Info) (version : Version) :
    option (panics OpenAPI) :=
  gen_document (tag_config self) info <$> iter_collect n fuel (endpoints (router self) (Some version)).

(** ** [OpenApiDefinition] *)

Record OpenApiDefinition := mk_definition { od_api : ApiDescription; od_info : Info; od_version : Version }.

Definition definition_new (api : ApiDescription) (title : string) (version : Version) : OpenApiDefinition :=
  mk_definition api (mk_info title None None None None (ver_to_string version)) version.

Definition openapi (self : ApiDescription) (title : string) (version : Version) : OpenApiDefinition :=
  definition_new self title version.

Definition update_info (self : OpenApiDefinition) (f : Info → Info) : OpenApiDefinition :=
  mk_definition (od_api self) (f (od_info self)) (od_version self).

Definition od_description (self : OpenApiDefinition) (description : string) : OpenApiDefinition :=
  update_info self (λ i, mk_info (in_title i) (Some description) (in_terms_of_service i) (in_contact i)
                           (in_license i) (in_version i)).
Definition terms_of_service (self : OpenApiDefinition) (url : string) : OpenApiDefinition :=
  update_info self (λ i, mk_info (in_title i) (in_description i) (Some url) (in_contact i)
                           (in_license i) (in_version i)).

(** [contact_mut]: the contact is there from now on. *)
Definition contact_mut (self : OpenApiDefinition) (f : Contact → Contact) : OpenApiDefinition :=
  update_info self (λ i, mk_info (in_title i) (in_description i) (in_terms_of_service i)
                           (Some (f (default (mk_contact None None None) (in_contact i))))
                           (in_license i) (in_version i)).
Definition contact_name (self : OpenApiDefinition) (name : string) : OpenApiDefinition :=
  contact_mut self (λ c, mk_contact (Some name) (ct_url c) (ct_email c)).
Definition contact_url (self : OpenApiDefinition) (url : string) : OpenApiDefinition :=
  contact_mut self (λ c, mk_contact (ct_name c) (Some url) (ct_email c)).
Definition contact_email (self : OpenApiDefinition) (email : string) : OpenApiDefinition :=
  contact_mut self (λ c, mk_contact (ct_name c) (ct_url c) (Some email)).

(** [license_mut]: a license that is there keeps its name. *)
Definition license_mut (self : OpenApiDefinition) (name : string) (f : License → License) : OpenApiDefinition :=
  update_info self (λ i, mk_info (in_title i) (in_description i) (in_terms_of_service i) (in_contact i)
                           (Some (f (default (mk_license name None) (in_license i)))) (in_version i)).
Definition license (self : OpenApiDefinition) (name url : string) : OpenApiDefinition :=
  license_mut self name (λ l, mk_license (li_name l) (Some url)).
Definition license_name (self : OpenApiDefinition) (name : string) : OpenApiDefinition :=
  license_mut self name (λ l, l).

(** The document that [json] and [write] give to [serde_json]. *)
Definition definition_document (n fuel : nat) (self : OpenApiDefinition) : option (panics OpenAPI) :=
  gen_openapi n fuel (od_api self) (od_info self) (od_version self).

(** A license keeps the name it was first given. *)
Lemma license_name_kept (self : OpenApiDefinition) (l : License) (name : string) :
  in_license (od_info self) = Some l → in_license (od_info (license_name self name)) = Some l.
Proof. simpl. by intros ->. Qed.
End gen.
