(* ===== verification/GenOpenApiSpec.v ===== *)
(** * What an OpenAPI document says

    The operations of the document that [GenOpenApi] makes are those of the
    visible endpoints of the version, described as the endpoints are; the error
    responses they refer to are in the document, one for each error type; and the
    tags are those of the configuration and the endpoints, in order. *)
From S2P Require Import Prelude BTree Externals Versions StatusCodes HttpError Schema OpenApi SchemaUtil.
From S2P Require Import SchemaTranslate ApiEndpoint Metadata Router RouterSpec RouterIter ApiDescription GenOpenApi.

(** ** Maps in insertion order *)

Lemma im_get_insert {A} k k' (v : A) m :
  im_get k' (im_insert k v m) = if String.eqb k' k then Some v else im_get k' m.
Proof.
  unfold im_get. induction m as [|[k1 v1] m IH]; simpl; [done|].
  destruct (String.eqb_spec k k1) as [->|Hk]; simpl.
  - by destruct (String.eqb_spec k' k1).
  - rewrite IH. destruct (String.eqb_spec k' k1) as [->|]; [|done].
    by destruct (String.eqb_spec k1 k).
Qed.

Section ops.
Context `{Crates}.
Implicit Types (e : ApiEndpoint) (st : gen_state) (op : Operation).

(** The operation for a path and a method. *)
Definition operation_in (paths : IndexMap PathItem) (path : string) (m : OMethod) : option Operation :=
  pi ← im_get path paths; pi_at m pi.

Lemma pi_at_replace m m' op pi : pi_at m' (pi_replace m op pi) = if decide (m' = m) then Some op else pi_at m' pi.
Proof. by destruct m'. Qed.

Lemma operation_in_insert paths path m op path' m' :
  operation_in (im_insert path (pi_replace m op (default default_path_item (im_get path paths))) paths) path' m' =
  if decide (path' = path ∧ m' = m) then Some op else operation_in paths path' m'.
Proof.
  unfold operation_in. rewrite im_get_insert. destruct (String.eqb_spec path' path) as [->|Hp].
  - simpl. rewrite pi_at_replace. destruct (decide (m' = m)) as [->|Hm].
    + by rewrite decide_True.
    + rewrite decide_False by naive_solver. destruct (im_get path paths); simpl; [done|by destruct m'].
  - by rewrite decide_False by naive_solver.
Qed.

(** ** Operations and endpoints *)

(** What an operation says of a parameter, besides its schema. *)
Inductive location := AtPath | AtQuery | AtHeader.

Definition said_parameter (p : OParameter) : location * string * option string * bool :=
  match p with
  | PPath d => (AtPath, pd_name d, pd_description d, pd_required d)
  | PQuery d => (AtQuery, pd_name d, pd_description d, pd_required d)
  | PHeader d => (AtHeader, pd_name d, pd_description d, pd_required d)
  end.

Definition named_of (p : ApiEndpointParameter) : option (location * string * option string * bool) :=
  match p_metadata p with
  | MPath name => Some (AtPath, name, p_description p, p_required p)
  | MQuery name => Some (AtQuery, name, p_description p, p_required p)
  | MHeader name => Some (AtHeader, name, p_description p, p_required p)
  | MBody _ => None
  end.

Definition said_schema (p : OParameter) : ReferenceOr OSchema :=
  match p with PPath d | PQuery d | PHeader d => pd_schema d end.

(** The schemas a generator can make, and their translations. *)
Inductive generates : ApiSchemaGenerator → option string → Schema → Prop :=
| generates_gen name f g : generates (Gen name f) (Some name) (f g).2
| generates_static schema deps : generates (Static schema deps) None schema.

Definition says_schema (g : ApiSchemaGenerator) (s : ReferenceOr OSchema) : Prop :=
  ∃ name js, generates g name js ∧ j2oas_schema name js = Ok s.

Lemma any_schema_generates generator definitions g generator' definitions' name js :
  any_schema_of generator definitions g = (generator', definitions', (name, js)) → generates g name js.
Proof.
  destruct g as [n f|schema deps]; simpl; [|intros [= <- <- <- <-]; constructor].
  destruct (f generator) as [g' s] eqn:E. intros [= <- <- <- <-].
  replace s with (f generator).2 by (by rewrite E). constructor.
Qed.

(** A parameter of an operation, and the parameter of the endpoint it is for. *)
Definition says_parameter (p : ApiEndpointParameter) (o : OParameter) : Prop :=
  named_of p = Some (said_parameter o) ∧ says_schema (p_schema p) (said_schema o).

Definition is_named (p : ApiEndpointParameter) : bool :=
  match p_metadata p with MBody _ => false | _ => true end.

Definition says_body (p : option (ApiEndpointBodyContentType * ApiSchemaGenerator)) (b : option RequestBody) : Prop :=
  match p, b with
  | None, None => True
  | Some (ct, g), Some b => rb_required b = true ∧ ∃ s, rb_content b = [(mime_type ct, s)] ∧ says_schema g s
  | _, _ => False
  end.

(** The content of a response: nothing for the schema without data, anything
    for a response without a schema. *)
Definition says_content (g : option ApiSchemaGenerator) (content : Content) : Prop :=
  match g with
  | None => content = [("*/*", Item any_schema)]
  | Some g => ∃ name js, generates g name js ∧
      if is_empty js then content = [] else ∃ s, content = [(CONTENT_TYPE_JSON, s)] ∧ j2oas_schema name js = Ok s
  end.

Definition says_header (h : ApiEndpointHeader) (o : string * OHeader) : Prop :=
  o.1 = h_name h ∧ oh_description o.2 = h_description h ∧ oh_required o.2 = h_required h ∧ says_schema (h_schema h) (oh_schema o.2).

(** The headers of a response with a schema; the others lose theirs. *)
Definition says_headers (r : ApiEndpointResponse) (headers : IndexMap OHeader) : Prop :=
  match r_schema r with
  | None => headers = []
  | Some _ => ∃ l, Forall2 says_header (r_headers r) l ∧ headers = im_extend [] l
  end.

Definition says_response (r : ApiEndpointResponse) (o : OResponse) : Prop :=
  or_description o = default "" (r_description r) ∧ says_content (r_schema r) (or_content o) ∧ says_headers r (or_headers o).

(** The responses of an endpoint's operation, by how its error type is referred
    to. *)
Definition responses_of e (error_reference : string → ReferenceOr OResponse → Prop)
    (responses : list (OStatusCode * ReferenceOr OResponse)) (default_ : option (ReferenceOr OResponse)) : Prop :=
  ∃ r, says_response (response e) r ∧
  match r_success (response e), error e with
  | None, _ => responses = [] ∧ default_ = Some (Item r)
  | Some code, None => responses = [(Code (status_as_u16 code), Item r)] ∧ default_ = None
  | Some code, Some err => default_ = None ∧ ∃ reference, error_reference (er_type_name err) reference ∧
      responses = [(Code (status_as_u16 code), Item r); (Range 4, reference); (Range 5, reference)]
  end.

Record describes (error_reference : string → ReferenceOr OResponse → Prop) e op : Prop := {
  describes_id : op_operation_id op = Some (operation_id e);
  describes_summary : op_summary op = summary e;
  describes_description : op_description op = description e;
  describes_tags : op_tags op = tags e;
  describes_deprecated : op_deprecated op = deprecated e;
  describes_parameters : Forall2 says_parameter (List.filter is_named (parameters e)) (op_parameters op);
  describes_body : says_body (body_parameter (parameters e)) (op_request_body op);
  describes_extensions : op_extensions op = gen_extensions (extension_mode e);
  describes_responses : responses_of e error_reference (op_responses op) (op_default op);
}.

Lemma describes_impl (R R' : string → ReferenceOr OResponse → Prop) e op :
  (∀ t r, R t r → R' t r) → describes R e op → describes R' e op.
Proof.
  intros HR []. constructor; try done. unfold responses_of in *.
  destruct describes_responses0 as (r & Hr & Hm). exists r. split; [done|].
  destruct (r_success (response e)), (error e); naive_solver.
Qed.

Lemma static_schema_ok definitions g definitions' s :
  static_schema definitions g = Ok (definitions', s) → says_schema g s.
Proof.
  destruct g as [|schema deps]; [done|]. simpl. intros (s' & Hs & [= <- <-])%rust_bind_ok.
  exists None, schema. by split; [constructor|].
Qed.

Lemma gen_parameters_ok definitions ps definitions' l :
  gen_parameters definitions ps = Ok (definitions', l) → Forall2 says_parameter (List.filter is_named ps) l.
Proof.
  revert definitions definitions' l. induction ps as [|p ps IH]; intros d d' l; [by intros [= <- <-]|].
  destruct p as [[name|name|name|ct] desc req schema ex]; simpl; [..|by apply IH].
  all: intros ([d1 s1] & Hs%static_schema_ok & ([d2 l'] & Hl%IH & [= <- <-])%rust_bind_ok)%rust_bind_ok.
  all: by constructor.
Qed.

Lemma body_parameter_elem ps ct g :
  body_parameter ps = Some (ct, g) → ∃ p, p ∈ ps ∧ p_metadata p = MBody ct ∧ p_schema p = g.
Proof.
  induction ps as [|p ps IH]; [done|]. simpl. setoid_rewrite elem_of_cons.
  destruct (p_metadata p) eqn:Em; try (intros (q & ? & ? & ?)%IH; eauto; fail). intros [= -> <-]. eauto.
Qed.

Lemma gen_request_body_ok generator definitions ps generator' definitions' b :
  gen_request_body generator definitions ps = Ok (generator', definitions', b) → says_body (body_parameter ps) b.
Proof.
  unfold gen_request_body. destruct (body_parameter ps) as [[ct g]|]; [|by intros [= <- <- <-]].
  destruct (any_schema_of generator definitions g) as [[g1 d1] [name js]] eqn:Eg.
  intros (s & Hs & [= <- <- <-])%rust_bind_ok. split; [done|]. exists s. split; [done|].
  exists name, js. split; [|done]. by eapply any_schema_generates.
Qed.

Lemma gen_headers_ok definitions hs definitions' l :
  gen_headers definitions hs = Ok (definitions', l) → Forall2 says_header hs l.
Proof.
  revert definitions definitions' l. induction hs as [|h hs IH]; intros d d' l; simpl; [by intros [= _ <-]|].
  intros ([d1 s] & Hs%static_schema_ok & ([d2 l'] & Hl%IH & [= _ <-])%rust_bind_ok)%rust_bind_ok. by constructor.
Qed.

Lemma gen_response_ok generator definitions r generator' definitions' o :
  gen_response generator definitions r = Ok (generator', definitions', o) → says_response r o.
Proof.
  unfold gen_response, says_response, says_content, says_headers. destruct (r_schema r) as [g|]; [|by intros [= <- <- <-]].
  destruct (any_schema_of generator definitions g) as [[g1 d1] [name js]] eqn:Eg.
  intros (c & Hc & ([d2 hs] & Hh & [= <- <- <-])%rust_bind_ok)%rust_bind_ok. split; [done|].
  split; [|exists hs; split; [by eapply gen_headers_ok|done]].
  exists name, js. split; [by eapply any_schema_generates|]. destruct (is_empty js); [by injection Hc|].
  apply rust_bind_ok in Hc as (s & Hs & [= <-]). by exists s.
Qed.

(** ** The loop over the endpoints *)

Definition error_reference st (type_name : string) (r : ReferenceOr OResponse) : Prop :=
  ∃ er, im_get type_name (gs_errors st) = Some er ∧ es_reference er = r.

(** An error response is called by its name. *)
Definition error_response_wf (er : ErrorResponse) : Prop :=
  es_reference er = Reference ("#/components/responses/" +:+ es_name er) ∧ or_description (es_response er) = es_name er.

Definition errors_wf st : Prop := ∀ t er, im_get t (gs_errors st) = Some er → error_response_wf er.

(** Error responses are kept. *)
Definition errors_extend st st' : Prop :=
  ∀ t er, im_get t (gs_errors st) = Some er → im_get t (gs_errors st') = Some er.

Lemma gen_error_response_ok st err st' er :
  errors_wf st → gen_error_response st err = Ok (st', er) →
  errors_wf st' ∧ errors_extend st st' ∧ im_get (er_type_name err) (gs_errors st') = Some er ∧
  gs_paths st' = gs_paths st.
Proof.
  intros Hwf. unfold gen_error_response. destruct (im_get (er_type_name err) (gs_errors st)) as [er'|] eqn:E.
  { intros [= <- <-]. split; [done|]. split; [by intros t er|done]. }
  destruct (any_schema_of _ _ _) as [[g1 d1] [name js]]. intros (s & _ & Hr)%rust_bind_ok.
  destruct (unique_name _ _) as [names name']. injection Hr as <- <-. split_and!.
  - intros t er. simpl. rewrite im_get_insert. destruct (String.eqb t _); [|apply Hwf].
    intros [= <-]. by split.
  - intros t er Ht. simpl. rewrite im_get_insert.
    destruct (String.eqb_spec t (er_type_name err)) as [->|]; [congruence|done].
  - simpl. by rewrite im_get_insert, String.eqb_refl.
  - done.
Qed.

Lemma gen_responses_ok st e o st' responses default_ :
  errors_wf st → says_response (response e) o →
  gen_responses st e o = Ok (st', (responses, default_)) →
  errors_wf st' ∧ errors_extend st st' ∧ gs_paths st' = gs_paths st ∧
  responses_of e (error_reference st') responses default_.
Proof.
  intros Hwf Ho. unfold gen_responses, responses_of.
  destruct (r_success (response e)) as [code|] eqn:Ec; [|intros [= <- <- <-]; split; [done|]; split; [by intros t er|]; split; [done|]; by exists o].
  destruct (error e) as [err|] eqn:Ee; [|intros [= <- <- <-]; split; [done|]; split; [by intros t er|]; split; [done|]; by exists o].
  intros ([st1 er] & Her & [= <- <- <-])%rust_bind_ok.
  destruct (gen_error_response_ok st err _ er Hwf Her) as (? & ? & ? & ?). split_and!; try done.
  exists o. split; [done|]. split; [done|]. exists (es_reference er). split; [by exists er|done].
Qed.

(** The state after the endpoint: the same, or with one more operation, which
    describes it. *)
Lemma gen_endpoint_ok st path meth e st' :
  errors_wf st → gen_endpoint st (path, meth, e) = Ok st' →
  errors_wf st' ∧ errors_extend st st' ∧
  if visible e
  then ∃ m op, method_of meth = Some m ∧ describes (error_reference st') e op ∧
    ∀ path' m', operation_in (gs_paths st') path' m' =
      if decide (path' = path ∧ m' = m) then Some op else operation_in (gs_paths st) path' m'
  else st' = st.
Proof.
  intros Hwf. unfold gen_endpoint. destruct (visible e); simpl; [|intros [= <-]; split; [done|]; split; [by intros t er|done]].
  intros (m & Hm & H')%rust_bind_ok. apply expect_ok in Hm.
  apply rust_bind_ok in H' as ([d1 ps] & Hps%gen_parameters_ok & H').
  apply rust_bind_ok in H' as ([[g2 d2] b] & Hb%gen_request_body_ok & H').
  apply rust_bind_ok in H' as ([[g3 d3] o] & Ho%gen_response_ok & H').
  apply rust_bind_ok in H' as ([st1 [responses default_]] & Hr & [= <-]).
  apply gen_responses_ok in Hr as (Hwf' & Hext & Hpaths & Hr); [|exact Hwf|exact Ho]. simpl in Hpaths.
  split; [exact Hwf'|]. split; [exact Hext|]. exists m. eexists. split; [done|]. split.
  2:{ intros path' m'. simpl. rewrite Hpaths. apply operation_in_insert. }
  by constructor.
Qed.

(** What the loop has established about the endpoints it has visited. *)
Record gen_inv (visited : list (string * string * ApiEndpoint)) st : Prop := {
  gen_inv_wf : errors_wf st;
  gen_inv_sound : ∀ path m op, operation_in (gs_paths st) path m = Some op →
    ∃ meth e, (path, meth, e) ∈ visited ∧ visible e = true ∧ method_of meth = Some m ∧ describes (error_reference st) e op;
  gen_inv_complete : ∀ path meth e, (path, meth, e) ∈ visited → visible e = true →
    ∃ m op, method_of meth = Some m ∧ operation_in (gs_paths st) path m = Some op;
}.

Lemma gen_endpoint_inv visited st item st' :
  gen_inv visited st → gen_endpoint st item = Ok st' → gen_inv (visited ++ [item]) st'.
Proof.
  destruct item as [[path meth] e]. intros [Hwf Hs Hc] Hg.
  destruct (gen_endpoint_ok st path meth e st' Hwf Hg) as (Hwf' & Hext & Hstep).
  assert (∀ e op, describes (error_reference st) e op → describes (error_reference st') e op) as Hd.
  { intros e' op. apply describes_impl. intros t r (er & Ht & Hr). exists er. split; [by apply Hext|done]. }
  destruct (visible e) eqn:Hv.
  - destruct Hstep as (m & op & Hm & Hop & Hin). constructor; [done|..].
    + intros path' m' op'. rewrite Hin. case_decide as E.
      * destruct E as [-> ->]. intros [= <-]. exists meth, e. rewrite elem_of_app. set_solver.
      * intros (meth' & e' & ? & ? & ? & ?)%Hs. exists meth', e'. rewrite elem_of_app. auto.
    + intros path' meth' e' [Hin'|[= -> -> ->]%list_elem_of_singleton]%elem_of_app Hv'.
      * destruct (Hc _ _ _ Hin' Hv') as (m' & op' & Hm' & Hop'). exists m'. setoid_rewrite Hin.
        case_decide; eauto.
      * exists m. setoid_rewrite Hin. rewrite decide_True by done. eauto.
  - subst st'. constructor; [done|..].
    + intros path' m' op' (meth' & e' & ? & ? & ? & ?)%Hs. exists meth', e'. rewrite elem_of_app. auto.
    + intros path' meth' e' [Hin'|[= -> -> ->]%list_elem_of_singleton]%elem_of_app Hv'; [eauto|congruence].
Qed.

Lemma gen_endpoints_inv visited st items st' :
  gen_inv visited st → gen_endpoints st items = Ok st' → gen_inv (visited ++ items) st'.
Proof.
  revert visited st. induction items as [|item items IH]; intros visited st Hinv; simpl.
  { intros [= <-]. by rewrite app_nil_r. }
  intros (st1 & H1 & H2)%rust_bind_ok. rewrite cons_middle, app_assoc.
  exact (IH _ _ (gen_endpoint_inv _ _ _ _ Hinv H1) H2).
Qed.

(** ** The document *)

Lemma gen_error_responses_ok m errors res :
  gen_error_responses m errors = Ok res →
  NoDup ((λ p, es_name p.2) <$> errors) ∧
  (∀ p, p ∈ errors → im_get (es_name p.2) m = None) ∧
  (∀ k v, im_get k m = Some v → im_get k res = Some v) ∧
  (∀ p, p ∈ errors → im_get (es_name p.2) res = Some (Item (es_response p.2))).
Proof.
  revert m. induction errors as [|[t er] errors IH]; intros m; simpl.
  { intros [= <-]. split_and!; [constructor|set_solver|done|set_solver]. }
  destruct (im_get (es_name er) m) eqn:Em; [done|]. intros (Hnd & Hnone & Hkeep & Hin)%IH.
  assert (∀ p, p ∈ errors → es_name p.2 ≠ es_name er ∧ im_get (es_name p.2) m = None) as Hnew.
  { intros p Hp. specialize (Hnone p Hp). rewrite im_get_insert in Hnone.
    by destruct (String.eqb_spec (es_name p.2) (es_name er)). }
  split_and!.
  - constructor; [|done]. intros (p & Hp & Hinp)%list_elem_of_fmap. by apply (Hnew p Hinp).
  - intros p [->|Hp]%elem_of_cons; [done|by apply Hnew].
  - intros k v Hk. apply Hkeep. rewrite im_get_insert.
    destruct (String.eqb_spec k (es_name er)) as [->|]; [congruence|done].
  - intros p [->|Hp]%elem_of_cons; [|by apply Hin]. apply Hkeep. simpl. by rewrite im_get_insert, String.eqb_refl.
Qed.

Context (generator_new : SchemaGenerator) (root_definitions : SchemaGenerator → btree Schema)
  (hash_set_iter : gset string → list string).

Abbreviation document := (gen_document generator_new root_definitions hash_set_iter).

(** The components that error types have their responses in, [component], exist
    and are different for different types. *)
Definition names_responses (doc : OpenAPI) (component : string → option string) : Prop :=
  (∀ t n, component t = Some n → ∃ r, im_get n (oa_responses doc) = Some (Item r) ∧ or_description r = n) ∧
  (∀ t t' n, component t = Some n → component t' = Some n → t = t').

Definition refers_to (component : string → option string) (t : string) (r : ReferenceOr OResponse) : Prop :=
  ∃ n, component t = Some n ∧ r = Reference ("#/components/responses/" +:+ n).

(** A document after its loop. *)
Lemma gen_document_ok c info items doc :
  document c info items = Ok doc →
  ∃ st, gen_inv items st ∧ gen_error_responses [] (gs_errors st) = Ok (oa_responses doc) ∧
    oa_paths doc = gs_paths st ∧ oa_tags doc = gen_tags hash_set_iter c items ∧ oa_info doc = info.
Proof.
  unfold gen_document. intros (st & Hst & H')%rust_bind_ok. exists st.
  apply rust_bind_ok in H' as (s1 & _ & H'). apply rust_bind_ok in H' as (s2 & _ & H').
  apply rust_bind_ok in H' as (rs & Hrs & [= <-]). split_and!; try done.
  apply (gen_endpoints_inv [] _ items) in Hst; [done|]. constructor; [done|done|]. intros ???. set_solver.
Qed.

Lemma NoDup_fmap_inj {A B} (f : A → B) l x y : NoDup (f <$> l) → x ∈ l → y ∈ l → f x = f y → x = y.
Proof.
  induction l as [|z l IH]; simpl; [set_solver|]. intros [Hz Hnd]%NoDup_cons [->|Hx]%elem_of_cons [->|Hy]%elem_of_cons E;
    [done| | |by apply IH]; destruct Hz; apply list_elem_of_fmap; eauto.
Qed.

Lemma errors_named st doc :
  errors_wf st → gen_error_responses [] (gs_errors st) = Ok (oa_responses doc) →
  names_responses doc (λ t, es_name <$> im_get t (gs_errors st)).
Proof.
  intros Hwf (Hnd & _ & _ & Hin)%gen_error_responses_ok. split.
  - intros t n (er & Her & ->)%fmap_Some. exists (es_response er). destruct (Hwf t er Her) as [_ Hd].
    split; [|done]. exact (Hin (t, er) (bt_get_elem t er _ Her)).
  - intros t t' n (er & Her%bt_get_elem & ->)%fmap_Some (er' & Her'%bt_get_elem & E)%fmap_Some.
    by injection (NoDup_fmap_inj _ _ _ _ Hnd Her Her' E).
Qed.

Lemma gen_document_operations c info items doc :
  document c info items = Ok doc →
  ∃ component, names_responses doc component ∧
  (∀ path m op, operation_in (oa_paths doc) path m = Some op →
     ∃ meth e, (path, meth, e) ∈ items ∧ visible e = true ∧ method_of meth = Some m ∧
       describes (refers_to component) e op) ∧
  (∀ path meth e, (path, meth, e) ∈ items → visible e = true →
     ∃ m op, method_of meth = Some m ∧ operation_in (oa_paths doc) path m = Some op).
Proof.
  intros (st & [Hwf Hs Hc] & Hr & -> & _)%gen_document_ok.
  exists (λ t, es_name <$> im_get t (gs_errors st)). split; [by apply errors_named|]. split; [|done].
  intros path m op (meth & e & ? & ? & ? & Hd)%Hs. exists meth, e. split_and!; try done.
  eapply describes_impl; [|exact Hd]. intros t r (er & Her & <-). exists (es_name er). rewrite Her.
  split; [done|]. by destruct (Hwf t er Her).
Qed.

(** ** Tags *)

#[local] Instance tag_le_total : Total tag_le.
Proof. intros a b. apply str_le_total. Qed.
#[local] Instance tag_le_trans : Transitive tag_le.
Proof. intros a b c. apply str_le_trans. Qed.

Lemma str_le_ne_lt s t : str_le s t → s ≠ t → str_lt s t.
Proof. unfold str_le. by destruct (str_comparison s t). Qed.

Lemma tags_strictly_sorted (l : list OTag) :
  StronglySorted tag_le l → NoDup (ot_name <$> l) → StronglySorted str_lt (ot_name <$> l).
Proof.
  induction 1 as [|t l Hl IH Ht]; simpl; [constructor|]. intros [Hn Hnd]%NoDup_cons.
  constructor; [by apply IH|]. apply Forall_forall. intros n (t' & -> & Hin)%list_elem_of_fmap.
  apply str_le_ne_lt; [by apply (Forall_forall (tag_le t) l)|]. intros E. apply Hn. apply list_elem_of_fmap. by exists t'.
Qed.

(** One of the endpoints has the tag. *)
Definition endpoint_tag (items : list (string * string * ApiEndpoint)) (tag : string) : Prop :=
  ∃ path meth e, (path, meth, e) ∈ items ∧ tag ∈ tags e.

(** The tags of endpoints that the configuration does not have. *)
Definition other_tags (c : TagConfig) (items : list (string * string * ApiEndpoint)) : gset string :=
  list_to_set (flat_map (λ '(_, _, e), List.filter (λ tag, negb (bt_contains tag (config_tags c))) (tags e)) items).

Lemma elem_of_other_tags c items t :
  t ∈ other_tags c items ↔ t ∉ (config_tags c).*1 ∧ endpoint_tag items t.
Proof.
  unfold other_tags, endpoint_tag. rewrite elem_of_list_to_set, list_elem_of_In, in_flat_map.
  pose proof (bt_contains_spec t (config_tags c)) as Hc. unfold bt_keys in Hc.
  setoid_rewrite <-list_elem_of_In. split.
  - intros ([[path meth] e] & Hin & Ht). rewrite list_elem_of_In, filter_In, <-list_elem_of_In in Ht.
    destruct (bt_contains t (config_tags c)); naive_solver.
  - intros (Hn & path & meth & e & Hin & Ht). exists (path, meth, e). split; [done|].
    rewrite list_elem_of_In, filter_In, <-list_elem_of_In. destruct (bt_contains t (config_tags c)); naive_solver.
Qed.

Hypothesis hash_set_iter_elements : ∀ s, hash_set_iter s ≡ₚ elements s.

Lemma gen_tags_perm c items :
  gen_tags hash_set_iter c items ≡ₚ
  (config_tag <$> config_tags c) ++ ((λ name, mk_otag name None None) <$> elements (other_tags c items)).
Proof. unfold gen_tags. rewrite merge_sort_Permutation. by rewrite hash_set_iter_elements. Qed.

Lemma gen_tags_names c items :
  ot_name <$> gen_tags hash_set_iter c items ≡ₚ (config_tags c).*1 ++ elements (other_tags c items).
Proof.
  rewrite gen_tags_perm, fmap_app, <-!list_fmap_compose. f_equiv; [done|]. set (l := elements (other_tags c items)). clearbody l.
  apply Permutation_refl'. induction l as [|n l IH]; [done|]. simpl. by f_equal.
Qed.

(** the tags of a document are those the configuration defines, with their
    details, and those of endpoints that it does not define, each once and in the
    order of their names, in whatever order the set of tags is iterated.
    Endpoints that are not visible contribute theirs. *)
Lemma gen_tags_spec c items doc info :
  document c info items = Ok doc → NoDup (config_tags c).*1 →
  StronglySorted str_lt (ot_name <$> oa_tags doc) ∧
  ∀ t, t ∈ oa_tags doc ↔
    (∃ d, d ∈ config_tags c ∧ t = config_tag d) ∨
    (ot_name t ∉ (config_tags c).*1 ∧ t = mk_otag (ot_name t) None None ∧ endpoint_tag items (ot_name t)).
Proof.
  intros (st & _ & _ & _ & -> & _)%gen_document_ok Hnd. split.
  - apply tags_strictly_sorted; [apply (StronglySorted_merge_sort tag_le)|].
    rewrite gen_tags_names. apply NoDup_app. split; [done|]. split; [|apply NoDup_elements].
    intros n Hn (Hn' & _)%elem_of_elements%elem_of_other_tags. done.
  - intros t. rewrite gen_tags_perm, elem_of_app, (list_elem_of_fmap config_tag),
      (list_elem_of_fmap (λ name, mk_otag name None None)).
    setoid_rewrite elem_of_elements. setoid_rewrite elem_of_other_tags. split.
    + intros [(d & -> & ?)|(n & -> & Hn & Hin)]; [left; eauto|right; by split_and!].
    + intros [(d & ? & ->)|(Hn & -> & Hin)]; [left; eauto|right]. by exists (ot_name t).
Qed.

(** The operations of the document of an API. *)
Lemma gen_openapi_operations eps r c info ver n fuel doc :
  build eps = Ok r → length eps < n → node_size (root r) ≤ fuel →
  gen_openapi generator_new root_definitions hash_set_iter n fuel (mk_description r c) info ver = Some (Ok doc) →
  ∃ component, names_responses doc component ∧
  (∀ path m op, operation_in (oa_paths doc) path m = Some op →
     ∃ e, e ∈ eps ∧ visible e = true ∧ matches (versions e) (Some ver) = true ∧
       path = render (iter_label <$> pattern_of e) ∧ method_of (methodname e) = Some m ∧
       describes (refers_to component) e op) ∧
  (∀ e, e ∈ eps → visible e = true → matches (versions e) (Some ver) = true →
     ∃ m op, method_of (methodname e) = Some m ∧
       operation_in (oa_paths doc) (render (iter_label <$> pattern_of e)) m = Some op).
Proof.
  intros Hb Hn Hf. destruct (endpoints_collected eps r (Some ver) n fuel Hb Hn Hf) as (l & Hl & Hp).
  unfold gen_openapi. simpl. rewrite Hl. intros [= (component & Hn' & Hs & Hc)%gen_document_operations]. exists component.
  split; [done|]. split.
  - intros path m op (meth & e & Hin & Hv & Hm & Hd)%Hs. rewrite Hp in Hin.
    apply list_elem_of_fmap in Hin as (e' & [= -> -> ->] & Hin%elem_filter). exists e'. naive_solver.
  - intros e Hin Hv Hmatch. apply (Hc _ _ e); [|done]. rewrite Hp. apply list_elem_of_fmap. exists e.
    split; [done|]. by apply elem_filter.
Qed.

(** C9: the document describes the API.  It has an operation for a path and a
    method exactly where a visible endpoint of the version is, and the operation
    says of the endpoint what the endpoint declares: its name, texts and tags,
    its parameters in order, the content type of its body, its mode and its
    responses; the error response it refers to is among the document's
    components, which has one for each error type. *)
Theorem gen_openapi_spec eps r c info ver n fuel :
  build eps = Ok r → length eps < n → node_size (root r) ≤ fuel →
  ∃ result, gen_openapi generator_new root_definitions hash_set_iter n fuel (mk_description r c) info ver = Some result ∧
  ∀ doc, result = Ok doc →
    ∃ component, names_responses doc component ∧
    (∀ path m op, operation_in (oa_paths doc) path m = Some op →
       ∃ e, e ∈ eps ∧ visible e = true ∧ matches (versions e) (Some ver) = true ∧
         path = render (iter_label <$> pattern_of e) ∧ method_of (methodname e) = Some m ∧
         describes (refers_to component) e op) ∧
    (∀ e, e ∈ eps → visible e = true → matches (versions e) (Some ver) = true →
       ∃ m op, method_of (methodname e) = Some m ∧
         operation_in (oa_paths doc) (render (iter_label <$> pattern_of e)) m = Some op).
Proof.
  intros Hb Hn Hf. pose proof (gen_openapi_operations eps r c info ver n fuel) as Hops. revert Hops.
  destruct (endpoints_collected eps r (Some ver) n fuel Hb Hn Hf) as (l & Hl & _).
  unfold gen_openapi. simpl. rewrite Hl. intros Hops. eexists. split; [done|]. intros doc Hdoc. apply (Hops doc Hb Hn Hf). by rewrite <-Hdoc.
Qed.
End ops.
