(* ===== verification/GenOpenApiTotal.v ===== *)
(** * When an OpenAPI document can be made

    [gen_document] panics on schemas that cannot be translated, on methods that a
    path item does not have, and on error responses with the same name.  Without
    these it returns a document.  Error responses of types with distinct names
    have distinct names; the numbers that tell apart types with the same name may
    make it the name of another one. *)
From S2P Require Import Prelude BTree Externals Versions StatusCodes HttpError Schema OpenApi SchemaUtil.
From S2P Require Import SchemaTranslate ApiEndpoint Metadata Router RouterSpec RouterIter ApiDescription GenOpenApi GenOpenApiSpec.

Section total.
Context `{Crates}.
Implicit Types (e : ApiEndpoint) (st : gen_state) (err : ApiEndpointErrorResponse).

(** The schema can be translated. *)
Definition schema_describable (s : Schema) : Prop := ∃ s', j2oas_schema None s = Ok s'.

Lemma schema_describable_name s name : schema_describable s → ∃ s', j2oas_schema name s = Ok s'.
Proof.
  intros [s' Hs]. destruct s as [[]|obj]; [by eexists..|]. cbn in *. unfold j2oas_schema_object in *.
  destruct (so_reference obj); [by eexists|]. apply rust_bind_ok in Hs as (k & -> & _). by eexists.
Qed.

Definition definitions_describable (m : list (string * Schema)) : Prop := Forall (λ p, schema_describable p.2) m.

Lemma definitions_insert m k s :
  definitions_describable m → schema_describable s → definitions_describable (im_insert k s m).
Proof.
  unfold definitions_describable. intros Hm Hs. induction Hm as [|[k' s'] m Hs' Hm IH]; simpl; [by repeat constructor|].
  destruct (String.eqb k k'); by constructor.
Qed.

Lemma definitions_extend m l :
  definitions_describable m → definitions_describable l → definitions_describable (im_extend m l).
Proof.
  intros Hm Hl. revert m Hm. induction Hl as [|[k s] l Hs Hl IH]; intros m Hm; [done|]. simpl.
  by apply IH, definitions_insert.
Qed.

(** Everything a generator makes can be translated. *)
Definition describable (g : ApiSchemaGenerator) : Prop :=
  match g with
  | Gen _ f => ∀ generator, schema_describable (f generator).2
  | Static s deps => schema_describable s ∧ definitions_describable deps
  end.

Definition is_static (g : ApiSchemaGenerator) : bool := match g with Static _ _ => true | Gen _ _ => false end.

(** The schemas of parameters and headers are static, and there is an operation
    for the method. *)
Record endpoint_describable e : Prop := {
  ed_method : is_Some (method_of (methodname e));
  ed_parameters : Forall (λ p, describable (p_schema p) ∧ (is_named p = true → is_static (p_schema p) = true)) (parameters e);
  ed_response : ∀ g, r_schema (response e) = Some g → describable g;
  ed_headers : Forall (λ h, describable (h_schema h) ∧ is_static (h_schema h) = true) (r_headers (response e));
  ed_error : ∀ err, error e = Some err → describable (er_schema err);
}.

Lemma static_schema_total definitions g :
  definitions_describable definitions → describable g → is_static g = true →
  ∃ definitions' s, static_schema definitions g = Ok (definitions', s) ∧ definitions_describable definitions'.
Proof.
  destruct g as [|s deps]; [done|]. intros Hd [[s' Hs] Hdeps] _. simpl. rewrite Hs.
  do 2 eexists. split; [done|]. by apply definitions_extend.
Qed.

Lemma any_schema_total generator definitions g :
  definitions_describable definitions → describable g →
  ∃ generator' definitions' name js, any_schema_of generator definitions g = (generator', definitions', (name, js)) ∧
    definitions_describable definitions' ∧ ∀ n, ∃ s, j2oas_schema n js = Ok s.
Proof.
  destruct g as [n f|s deps]; simpl; intros Hd Hg.
  - specialize (Hg generator). destruct (f generator) as [g' js]. do 4 eexists. split; [done|]. split; [done|].
    intros n'. by apply schema_describable_name.
  - destruct Hg as [Hs Hdeps]. do 4 eexists. split; [done|]. split; [by apply definitions_extend|].
    intros n'. by apply schema_describable_name.
Qed.

Lemma gen_parameters_total definitions ps :
  definitions_describable definitions →
  Forall (λ p, describable (p_schema p) ∧ (is_named p = true → is_static (p_schema p) = true)) ps →
  ∃ definitions' l, gen_parameters definitions ps = Ok (definitions', l) ∧ definitions_describable definitions'.
Proof.
  intros Hd Hps. revert definitions Hd. induction Hps as [|p ps [Hp Hs] Hps IH]; intros d Hd; [by do 2 eexists|].
  destruct p as [[name|name|name|ct] desc req schema ex]; simpl in *; [..|by apply IH].
  all: destruct (static_schema_total d schema Hd Hp (Hs eq_refl)) as (d1 & s & -> & Hd1).
  all: destruct (IH d1 Hd1) as (d2 & l & E & Hd2); cbn; rewrite E; by do 2 eexists.
Qed.

Lemma gen_headers_total definitions hs :
  definitions_describable definitions →
  Forall (λ h, describable (h_schema h) ∧ is_static (h_schema h) = true) hs →
  ∃ definitions' l, gen_headers definitions hs = Ok (definitions', l) ∧ definitions_describable definitions'.
Proof.
  intros Hd Hhs. revert definitions Hd. induction Hhs as [|h hs [Hh Hs] Hhs IH]; intros d Hd; [by do 2 eexists|].
  simpl. destruct (static_schema_total d (h_schema h) Hd Hh Hs) as (d1 & s & -> & Hd1).
  destruct (IH d1 Hd1) as (d2 & l & E & Hd2). cbn. rewrite E. by do 2 eexists.
Qed.

Lemma gen_request_body_total generator definitions ps :
  definitions_describable definitions → Forall (λ p, describable (p_schema p)) ps →
  ∃ generator' definitions' b, gen_request_body generator definitions ps = Ok (generator', definitions', b) ∧
    definitions_describable definitions'.
Proof.
  intros Hd Hps. unfold gen_request_body. destruct (body_parameter ps) as [[ct g]|] eqn:Eb; [|by do 3 eexists].
  destruct (body_parameter_elem ps ct g Eb) as (p & Hin & _ & <-). rewrite Forall_forall in Hps.
  destruct (any_schema_total generator definitions (p_schema p) Hd (Hps p Hin)) as (g1 & d1 & name & js & -> & Hd1 & Hs).
  destruct (Hs name) as [s ->]. by do 3 eexists.
Qed.

Lemma gen_response_total generator definitions r :
  definitions_describable definitions → (∀ g, r_schema r = Some g → describable g) →
  Forall (λ h, describable (h_schema h) ∧ is_static (h_schema h) = true) (r_headers r) →
  ∃ generator' definitions' o, gen_response generator definitions r = Ok (generator', definitions', o) ∧
    definitions_describable definitions'.
Proof.
  intros Hd Hr Hhs. unfold gen_response. destruct (r_schema r) as [g|]; [|by do 3 eexists].
  destruct (any_schema_total generator definitions g Hd (Hr g eq_refl)) as (g1 & d1 & name & js & -> & Hd1 & Hs).
  destruct (gen_headers_total d1 (r_headers r) Hd1 Hhs) as (d2 & hs & E & Hd2). destruct (Hs name) as [s Ejs].
  destruct (is_empty js); cbn; [|rewrite Ejs; cbn]; rewrite E; by do 3 eexists.
Qed.

(** ** Error responses *)

(** The name of a type's error responses, before it is told apart from others. *)
Definition error_base err : string :=
  match er_schema err with Gen name _ => name | Static _ _ => last_component (er_type_name err) end.

(** The errors of the endpoints, [errs], have different names if they have
    different types, and only then. *)
Context (errs : ApiEndpointErrorResponse → Prop)
  (errs_distinct : ∀ a b, errs a → errs b → er_type_name a = er_type_name b ↔ error_base a = error_base b).

Record total_inv st : Prop := {
  ti_definitions : definitions_describable (gs_definitions st);
  ti_keys : NoDup (gs_errors st).*1;
  ti_errors : ∀ t er, (t, er) ∈ gs_errors st → ∃ err, errs err ∧ t = er_type_name err ∧ es_name er = error_base err;
  ti_names : ∀ n, is_Some (gs_names st !! n) → ∃ t er, (t, er) ∈ gs_errors st ∧ es_name er = n;
}.

Lemma im_insert_new {A} k (v : A) m : im_get k m = None → im_insert k v m = m ++ [(k, v)].
Proof.
  unfold im_get. induction m as [|[k' v'] m IH]; simpl; [done|]. destruct (String.eqb k k'); [done|].
  by intros ->%IH.
Qed.

Lemma gen_error_response_total st err :
  total_inv st → errs err → describable (er_schema err) →
  ∃ st' er, gen_error_response st err = Ok (st', er) ∧ total_inv st'.
Proof.
  intros [Hd Hk He Hn] Herr Hs. unfold gen_error_response.
  destruct (im_get (er_type_name err) (gs_errors st)) as [er|] eqn:E; [by do 2 eexists|].
  destruct (any_schema_total (gs_generator st) (gs_definitions st) (er_schema err) Hd Hs)
    as (g1 & d1 & name & js & Ejs & Hd1 & Hjs). rewrite Ejs. destruct (Hjs name) as [s ->]. cbn.
  assert (default (last_component (er_type_name err)) name = error_base err) as ->.
  { unfold error_base. destruct (er_schema err) as [n f|]; simpl in Ejs; [|by simplify_eq].
    destruct (f (gs_generator st)). by simplify_eq. }
  assert ((er_type_name err) ∉ (gs_errors st).*1) as Hnew.
  { intros Hin%bt_get_is_some. unfold im_get in E. rewrite E in Hin. by destruct Hin. }
  assert (gs_names st !! error_base err = None) as Hname.
  { destruct (gs_names st !! error_base err) eqn:En; [|done]. destruct (Hn (error_base err)) as (t & er & Hin & Hb); [by eexists|].
    destruct (He t er Hin) as (err' & Herr' & -> & Hb'). destruct Hnew. apply list_elem_of_fmap.
    exists (er_type_name err', er). split; [|done]. apply (errs_distinct err err' Herr Herr'). congruence. }
  unfold unique_name. rewrite Hname. cbn. do 2 eexists. split; [done|].
  constructor; simpl; rewrite ?im_insert_new by done.
  - done.
  - rewrite fmap_app. apply NoDup_app. split; [done|]. split; [|apply NoDup_singleton].
    intros t Ht ->%list_elem_of_singleton. done.
  - intros t er [Hin|[= -> ->]%list_elem_of_singleton]%elem_of_app; [by apply He|]. by exists err.
  - intros n Hsome. destruct (decide (n = error_base err)) as [->|Hne].
    + do 2 eexists. split; [apply elem_of_app; right; by apply list_elem_of_singleton|done].
    + rewrite lookup_insert_ne in Hsome by done. destruct (Hn n Hsome) as (t & er & Hin & <-).
      exists t, er. split; [apply elem_of_app; by left|done].
Qed.

Definition endpoint_ok e : Prop :=
  endpoint_describable e ∧ ∀ err, error e = Some err → errs err.

Lemma gen_endpoint_total st path e :
  total_inv st → (visible e = true → endpoint_ok e) →
  ∃ st', gen_endpoint st (path, methodname e, e) = Ok st' ∧ total_inv st'.
Proof.
  intros Hti Hok. unfold gen_endpoint. destruct (visible e); simpl; [|by exists st].
  destruct (Hok eq_refl) as [[[m Hm] Hps Hr Hhs Herr] Herrs]. rewrite Hm. cbn.
  destruct (gen_parameters_total _ _ (ti_definitions _ Hti) Hps) as (d1 & l & -> & Hd1). cbn.
  assert (Forall (λ p, describable (p_schema p)) (parameters e)) as Hps'.
  { eapply Forall_impl; [exact Hps|]. by intros p []. }
  destruct (gen_request_body_total (gs_generator st) d1 _ Hd1 Hps') as (g2 & d2 & b & -> & Hd2). cbn.
  destruct (gen_response_total g2 d2 (response e) Hd2 Hr Hhs) as (g3 & d3 & o & -> & Hd3). cbn.
  set (st1 := mk_gen _ _ _ _ _).
  assert (total_inv st1) as Hti1 by (destruct Hti; by constructor).
  assert (∃ st2 r, gen_responses st1 e o = Ok (st2, r) ∧ total_inv st2) as (st2 & [rs d] & -> & [? ? ? ?]).
  { unfold gen_responses. destruct (r_success (response e)); [|by do 2 eexists].
    destruct (error e) as [err|] eqn:Ee; [|by do 2 eexists].
    destruct (gen_error_response_total st1 err Hti1 (Herrs err eq_refl) (Herr err eq_refl)) as (st2 & er & -> & ?).
    by do 2 eexists. }
  cbn. eexists. split; [done|]. by constructor.
Qed.

Lemma gen_endpoints_total st items :
  total_inv st → (∀ path meth e, (path, meth, e) ∈ items → meth = methodname e ∧ (visible e = true → endpoint_ok e)) →
  ∃ st', gen_endpoints st items = Ok st' ∧ total_inv st'.
Proof.
  revert st. induction items as [|[[path meth] e] items IH]; intros st Hti Hok; [by exists st|]. cbn [gen_endpoints].
  destruct (Hok path meth e) as [-> He]; [by left|]. destruct (gen_endpoint_total st path e Hti He) as (st1 & -> & Hti1).
  apply IH; [done|]. intros path' meth' e' Hin. apply (Hok path'). by right.
Qed.

Lemma gen_definitions_total schemas definitions :
  definitions_describable definitions → ∃ schemas', gen_definitions schemas definitions = Ok schemas'.
Proof.
  intros Hd. revert schemas. induction Hd as [|[k s] l [s' Hs] Hl IH]; intros schemas; simpl; [by eexists|].
  destruct (im_get k schemas); [done|]. simpl in Hs. rewrite Hs. apply IH.
Qed.

Lemma try_values_total l :
  definitions_describable l → ∃ l', try_values (j2oas_schema None) l = Ok l'.
Proof.
  induction 1 as [|[k s] l [s' Hs] Hl [l' IH]]; simpl; [by eexists|]. simpl in Hs. rewrite Hs, IH. by eexists.
Qed.

Lemma gen_error_responses_total m errors :
  NoDup ((λ p : string * ErrorResponse, es_name p.2) <$> errors) → (∀ p, p ∈ errors → im_get (es_name p.2) m = None) →
  ∃ res, gen_error_responses m errors = Ok res.
Proof.
  revert m. induction errors as [|[t er] errors IH]; intros m; simpl; [by eexists|]. intros [Hn Hnd]%NoDup_cons Hm.
  pose proof (Hm (t, er) (list_elem_of_here _ _)) as Hnone. simpl in Hnone. rewrite Hnone. apply IH; [done|]. intros p Hp. rewrite im_get_insert.
  destruct (String.eqb_spec (es_name p.2) (es_name er)) as [E|_]; [|apply Hm; by right].
  destruct Hn. rewrite <-E. apply list_elem_of_fmap. by exists p.
Qed.

Lemma total_inv_names st : total_inv st → NoDup ((λ p : string * ErrorResponse, es_name p.2) <$> gs_errors st).
Proof.
  intros [_ Hk He _]. induction (gs_errors st) as [|[t er] l IH]; simpl; [constructor|].
  apply NoDup_cons in Hk as [Ht Hk]. constructor; [|apply IH; [done|intros t' er' Hin; apply He; by right]].
  intros ([t' er'] & E & Hin)%list_elem_of_fmap. destruct Ht. apply list_elem_of_fmap. exists (t', er'). split; [|done].
  destruct (He t er) as (a & Ha & -> & Ea); [by left|]. destruct (He t' er') as (b & Hb & -> & Eb); [by right|].
  simpl in *. apply (errs_distinct a b Ha Hb). congruence.
Qed.

(** C17: an OpenAPI document can be made of every API whose schemas can be
    translated, whose methods are those OpenAPI has, and whose error types have
    different names: [gen_openapi] then returns a document and does not panic. *)
Theorem gen_openapi_total generator_new root_definitions hash_set_iter eps r c info ver n fuel :
  build eps = Ok r → length eps < n → node_size (root r) ≤ fuel →
  (∀ e, e ∈ eps → visible e = true → matches (versions e) (Some ver) = true → endpoint_ok e) →
  (∀ g, definitions_describable (root_definitions g)) →
  ∃ doc, gen_openapi generator_new root_definitions hash_set_iter n fuel (mk_description r c) info ver = Some (Ok doc).
Proof.
  intros Hb Hn Hf Hok Hroot. destruct (endpoints_collected eps r (Some ver) n fuel Hb Hn Hf) as (l & Hl & Hp).
  unfold gen_openapi, gen_document. simpl. rewrite Hl. simpl.
  destruct (gen_endpoints_total (mk_gen [] generator_new [] [] ∅) l) as (st & -> & Hti).
  { constructor; simpl; [constructor|constructor|set_solver|]. intros n' Hn'. by rewrite lookup_empty in Hn'; destruct Hn'. }
  { intros path meth e Hin. rewrite Hp in Hin. apply list_elem_of_fmap in Hin as (e' & [= -> -> ->] & Hin%elem_filter).
    split; [done|]. intros Hv. apply Hok; naive_solver. }
  destruct (try_values_total _ (Hroot (gs_generator st))) as [s1 E1]. cbn. rewrite E1. cbn.
  destruct (gen_definitions_total s1 (gs_definitions st) (ti_definitions _ Hti)) as [s2 E2]. rewrite E2. cbn.
  destruct (gen_error_responses_total [] (gs_errors st) (total_inv_names st Hti)) as [res E3]; [done|].
  rewrite E3. cbn. by eexists.
Qed.
End total.

Section collision.
Context `{Crates}.

(** The name of a new error type. *)
Lemma gen_error_response_new st err st' er :
  im_get (er_type_name err) (gs_errors st) = None → gen_error_response st err = Ok (st', er) →
  let '(names, name) := unique_name (gs_names st) (error_base err) in
  gs_names st' = names ∧ es_name er = name ∧ gs_errors st' = gs_errors st ++ [(er_type_name err, er)].
Proof.
  intros Hnew. unfold gen_error_response. rewrite Hnew.
  destruct (any_schema_of _ _ _) as [[g1 d1] [name js]] eqn:Ejs. intros (s & _ & Hr)%rust_bind_ok.
  assert (default (last_component (er_type_name err)) name = error_base err) as E.
  { unfold error_base. destruct (er_schema err) as [n f|]; simpl in Ejs; [|by simplify_eq].
    destruct (f (gs_generator st)). by simplify_eq. }
  rewrite E in Hr. destruct (unique_name _ _) as [names name'].
  injection Hr as <- <-. simpl. by rewrite im_insert_new.
Qed.

(** the number that tells apart error responses of the same name can make it
    the name of another error type: with two error types named [n] and one named
    [n2], making the document panics, although the types are distinct and the
    numbers are there to give them distinct names. *)
Lemma error_response_names_collide st0 e1 e2 e3 n st1 r1 st2 r2 st3 r3 :
  gs_errors st0 = [] → gs_names st0 = ∅ →
  er_type_name e1 ≠ er_type_name e2 → er_type_name e1 ≠ er_type_name e3 → er_type_name e2 ≠ er_type_name e3 →
  error_base e1 = n → error_base e2 = n → error_base e3 = n +:+ "2" →
  gen_error_response st0 e1 = Ok (st1, r1) → gen_error_response st1 e2 = Ok (st2, r2) →
  gen_error_response st2 e3 = Ok (st3, r3) →
  gen_error_responses [] (gs_errors st3) = Panic "error response names must be unique".
Proof.
  intros He0 Hn0 H12 H13 H23 B1 B2 B3 G1 G2 G3.
  assert (n ≠ n +:+ "2") as Hn.
  { clear. induction n as [|a n IH]; [done|]. intros [= E]. by apply IH. }
  apply gen_error_response_new in G1; [|by rewrite He0].
  unfold unique_name in G1. rewrite Hn0, lookup_empty, B1, He0 in G1. destruct G1 as (N1 & E1 & L1).
  apply gen_error_response_new in G2.
  2:{ rewrite L1. unfold im_get. simpl. by destruct (String.eqb_spec (er_type_name e2) (er_type_name e1)); [congruence|]. }
  unfold unique_name in G2. rewrite N1, B2, lookup_insert_eq, L1 in G2. destruct G2 as (N2 & E2 & L2).
  apply gen_error_response_new in G3.
  2:{ rewrite L2. unfold im_get. simpl. destruct (String.eqb_spec (er_type_name e3) (er_type_name e1)); [congruence|].
      by destruct (String.eqb_spec (er_type_name e3) (er_type_name e2)); [congruence|]. }
  unfold unique_name in G3. rewrite N2, B3, !lookup_insert_ne, lookup_empty, L2 in G3 by done.
  destruct G3 as (_ & E3 & L3).
  assert (es_name r1 = n ∧ es_name r2 = n +:+ "2" ∧ es_name r3 = n +:+ "2") as (F1 & F2 & F3) by done.
  rewrite L3. unfold im_get. simpl. rewrite F1, F2, F3.
  destruct (String.eqb_spec (n +:+ "2") n) as [E|_]; [by destruct Hn|]. simpl.
  destruct (String.eqb_spec n (n +:+ "2")) as [|_]; [done|]. simpl.
  destruct (String.eqb_spec (n +:+ "2") n) as [E|_]; [by destruct Hn|]. by rewrite String.eqb_refl.
Qed.
End collision.
