(* ===== verification/HandlerErasure.v ===== *)
(** * Registration and documents do not look at handlers

    Endpoints with their handlers replaced by one handler: the router, the checks of
    [register], the iterator over endpoints and [gen_openapi] commute with it, so
    that APIs which differ in handlers only are registered alike and have the same
    documents. *)
From S2P Require Import Prelude BTree Externals Versions HttpError Schema OpenApi ApiEndpoint TypeUtil Router RouterSpec.
From S2P Require Import RouterIter ApiDescription GenOpenApi.

(** Values of a map, in place. *)
Definition bt_map {V W} (f : V → W) (m : btree V) : btree W := (λ p, (p.1, f p.2)) <$> m.

Lemma bt_get_map {V W} (f : V → W) k m : bt_get k (bt_map f m) = f <$> bt_get k m.
Proof. induction m as [|[k' v] m IH]; simpl; [done|]. by destruct (String.eqb k k'). Qed.

Lemma bt_insert_map {V W} (f : V → W) k v m : bt_insert k (f v) (bt_map f m) = bt_map f (bt_insert k v m).
Proof.
  induction m as [|[k' v'] m IH]; simpl; [done|]. destruct (String.compare k k'); simpl; [done..|]. by rewrite IH.
Qed.

Section erasure.
Context `{Crates} (h : Handler).
Implicit Types (e : ApiEndpoint) (nd : HttpRouterNode).

Definition erase e : ApiEndpoint :=
  mk_endpoint (operation_id e) h (method e) (path e) (parameters e) (body_content_type e) (request_body_max_bytes e)
    (response e) (error e) (summary e) (description e) (tags e) (extension_mode e) (visible e) (deprecated e) (versions e).

Definition erase_all (l : list ApiEndpoint) : list ApiEndpoint := erase <$> l.

Fixpoint erase_node nd : HttpRouterNode :=
  match nd with
  | Node ms None => Node (bt_map erase_all ms) None
  | Node ms (Some (Literals l)) => Node (bt_map erase_all ms) (Some (Literals ((λ p, (p.1, erase_node p.2)) <$> l)))
  | Node ms (Some (VariableSingle v c)) => Node (bt_map erase_all ms) (Some (VariableSingle v (erase_node c)))
  | Node ms (Some (VariableRest v c)) => Node (bt_map erase_all ms) (Some (VariableRest v (erase_node c)))
  end.

Definition erase_edges (es : HttpRouterEdges) : HttpRouterEdges :=
  match es with
  | Literals l => Literals (bt_map erase_node l)
  | VariableSingle v c => VariableSingle v (erase_node c)
  | VariableRest v c => VariableRest v (erase_node c)
  end.

Lemma erase_node_eq ms es : erase_node (Node ms es) = Node (bt_map erase_all ms) (erase_edges <$> es).
Proof. by destruct es as [[]|]. Qed.

Lemma erase_methods nd : methods (erase_node nd) = bt_map erase_all (methods nd).
Proof. destruct nd. by rewrite erase_node_eq. Qed.
Lemma erase_node_edges nd : edges (erase_node nd) = erase_edges <$> edges nd.
Proof. destruct nd. by rewrite erase_node_eq. Qed.

Definition erase_router (r : HttpRouter) : HttpRouter := mk_router (erase_node (root r)) (has_versioned_routes r).
Definition erase_api (self : ApiDescription) : ApiDescription := mk_description (erase_router (router self)) (tag_config self).

(** ** Insertion *)

Lemma check_overlap_erase pa m e l : check_overlap pa m (erase e) (erase_all l) = check_overlap pa m e l.
Proof.
  unfold check_overlap. induction l as [|a l IH]; [done|]. cbn [erase_all fmap list_fmap for_each]. unfold erase_all in IH. by rewrite IH.
Qed.

Lemma add_handler_erase e nd : add_handler (erase e) (erase_node nd) = erase_node <$> add_handler e nd.
Proof.
  unfold add_handler. rewrite erase_methods, bt_get_map.
  assert (default [] (erase_all <$> bt_get (methodname e) (methods nd)) = erase_all (default [] (bt_get (methodname e) (methods nd)))) as E
    by (by destruct (bt_get _ _)).
  change (methodname (erase e)) with (methodname e). rewrite E. change (path (erase e)) with (path e). rewrite check_overlap_erase.
  destruct (check_overlap _ _ _ _) as [[]|[]|msg]; [|done]. cbn [mbind rust_bind fmap rust_fmap].
  rewrite erase_node_eq, <-bt_insert_map, erase_node_edges. unfold erase_all at 3. by rewrite fmap_app.
Qed.

Lemma default_erase nd d : default (erase_edges d) (edges (erase_node nd)) = erase_edges (default d (edges nd)).
Proof. rewrite erase_node_edges. by destruct (edges nd). Qed.

Lemma insert_at_erase e vs segs nd : insert_at (erase e) vs segs (erase_node nd) = erase_node <$> insert_at e vs segs nd.
Proof.
  revert vs nd. induction segs as [|raw segs IH]; intros vs nd; [apply add_handler_erase|]. cbn [insert_at].
  destruct (path_segment_from raw) as [[lit|v|v]|[]|msg]; cbn [mbind rust_bind]; [..|done].
  - change (Literals []) with (erase_edges (Literals [])) at 1. rewrite default_erase.
    destruct (default (Literals []) (edges nd)) as [l|v c|v c]; [|done..]. cbn [erase_edges].
    assert (default node_new (bt_get lit (bt_map erase_node l)) = erase_node (default node_new (bt_get lit l))) as ->
      by (rewrite bt_get_map; by destruct (bt_get lit l)).
    rewrite IH. destruct (insert_at e vs segs _) as [child|[]|msg]; [|done]. cbn [mbind rust_bind fmap rust_fmap].
    by rewrite erase_node_eq, erase_methods, bt_insert_map.
  - change (path (erase e)) with (path e). destruct (insert_var _ _ _) as [vs'|[]|msg]; cbn [mbind rust_bind]; [|done].
    change (VariableSingle v node_new) with (erase_edges (VariableSingle v node_new)) at 1. rewrite default_erase.
    destruct (default (VariableSingle v node_new) (edges nd)) as [l|v' c|v' c]; [done| |done]. cbn [erase_edges].
    case_bool_decide; [done|]. rewrite IH. destruct (insert_at e vs' segs c) as [child|[]|msg]; [|done]. cbn [mbind rust_bind fmap rust_fmap].
    by rewrite erase_node_eq, erase_methods.
  - destruct (negb _); [done|]. change (path (erase e)) with (path e).
    destruct (insert_var _ _ _) as [vs'|[]|msg]; cbn [mbind rust_bind]; [|done].
    change (VariableRest v node_new) with (erase_edges (VariableRest v node_new)) at 1. rewrite default_erase.
    destruct (default (VariableRest v node_new) (edges nd)) as [l|v' c|v' c]; [done..|]. cbn [erase_edges].
    case_bool_decide; [done|]. rewrite IH. destruct (insert_at e vs' segs c) as [child|[]|msg]; [|done]. cbn [mbind rust_bind fmap rust_fmap].
    by rewrite erase_node_eq, erase_methods.
Qed.

Lemma insert_erase r e : insert (erase_router r) (erase e) = erase_router <$> insert r e.
Proof.
  unfold insert. change (path (erase e)) with (path e). destruct (route_path_to_segments (path e)) as [segs|[]|msg]; [|done].
  cbn [mbind rust_bind]. change (root (erase_router r)) with (erase_node (root r)). rewrite insert_at_erase.
  by destruct (insert_at e ∅ segs (root r)) as [nd|[]|msg].
Qed.

(** ** Registration *)

Definition erase_registered {E} (r : rust E ApiDescription) : rust E ApiDescription := erase_api <$> r.

Lemma register_erase fuel self e : register fuel (erase_api self) (erase e) = erase_registered <$> register fuel self e.
Proof.
  unfold register, register_inner. change (validate_tags (erase_api self) (erase e)) with (validate_tags self e).
  change (validate_path_parameters (erase e)) with (validate_path_parameters e).
  destruct (_ ← validate_tags self e; validate_path_parameters e) as [u|x|msg]; [|done..].
  change (validate_named_parameters fuel (erase e)) with (validate_named_parameters fuel e).
  destruct (validate_named_parameters fuel e) as [[u'|x|msg]|]; [|done..].
  change (router (erase_api self)) with (erase_router (router self)). rewrite insert_erase.
  by destruct (insert (router self) e) as [r|[]|msg].
Qed.

(** ** Iteration *)

Definition erase_item (i : string * string * ApiEndpoint) : string * string * ApiEndpoint := (i.1, erase i.2).

Definition erase_items (l : list (string * string * ApiEndpoint)) : list (string * string * ApiEndpoint) := erase_item <$> l.

Definition erase_branch (b : PathSegment * HttpRouterNode) : PathSegment * HttpRouterNode := (b.1, erase_node b.2).

Definition erase_handler (p : string * ApiEndpoint) : string * ApiEndpoint := (p.1, erase p.2).

Definition erase_level (b : PathSegment * list (PathSegment * HttpRouterNode)) : PathSegment * list (PathSegment * HttpRouterNode) :=
  (b.1, erase_branch <$> b.2).

Definition erase_iter (self : HttpRouterIter) : HttpRouterIter :=
  mk_iter (erase_handler <$> it_method self) (erase_level <$> it_path self) (it_version self).

Lemma filter_erase ver l :
  List.filter (λ a, matches (versions a) ver) (erase_all l) = erase <$> List.filter (λ a, matches (versions a) ver) l.
Proof.
  unfold erase_all. induction l as [|a l IH]; [done|]. cbn [fmap list_fmap List.filter]. change (versions (erase a)) with (versions a).
  destruct (matches (versions a) ver); [|exact IH]. cbn [fmap list_fmap]. f_equal. exact IH.
Qed.

Lemma iter_handlers_erase nd ver :
  iter_handlers_from_node (erase_node nd) ver = erase_handler <$> iter_handlers_from_node nd ver.
Proof.
  unfold iter_handlers_from_node. rewrite erase_methods. induction (methods nd) as [|[m l] ms IH]; [done|]. simpl.
  rewrite fmap_app, filter_erase, <-!list_fmap_compose, <-IH. f_equal.
Qed.

Lemma iter_node_erase nd : iter_node (erase_node nd) = erase_branch <$> iter_node nd.
Proof.
  unfold iter_node. rewrite erase_node_edges. destruct (edges nd) as [[l|v c|v c]|]; [|done..]. cbn [fmap option_fmap option_map erase_edges].
  unfold bt_map. rewrite <-!list_fmap_compose. apply list_fmap_ext. by intros i [s c] _.
Qed.

Lemma iter_new_erase r ver : iter_new (erase_router r) ver = erase_iter (iter_new r ver).
Proof. unfold iter_new, erase_iter. cbn. by rewrite iter_handlers_erase, iter_node_erase. Qed.

Definition erase_step (s : iter_step) : iter_step :=
  match s with
  | Yield item self => Yield (erase_item item) (erase_iter self)
  | Continue self => Continue (erase_iter self)
  | Stop => Stop
  end.

Lemma iter_path_erase self : iter_path (erase_iter self) = iter_path self.
Proof. unfold iter_path, erase_iter. cbn. by rewrite <-list_fmap_compose. Qed.

Lemma iter_turn_erase self : iter_turn (erase_iter self) = erase_step (iter_turn self).
Proof.
  unfold iter_turn. rewrite iter_path_erase. destruct self as [ms p ver]. cbn.
  destruct ms as [|[m e] ms]; [|done]. destruct p as [|[c [|[s nd] last]] p]; [done..|]. cbn.
  by rewrite iter_handlers_erase, iter_node_erase.
Qed.

Definition erase_answer (r : option (string * string * ApiEndpoint) * HttpRouterIter) :
    option (string * string * ApiEndpoint) * HttpRouterIter :=
  (erase_item <$> r.1, erase_iter r.2).

Lemma iter_loop_erase fuel self :
  iter_loop fuel (erase_iter self) = erase_answer <$> iter_loop fuel self.
Proof.
  revert self. induction fuel as [|fuel IH]; intros self; [done|]. cbn [iter_loop]. rewrite iter_turn_erase.
  destruct (iter_turn self); [done|apply IH|done].
Qed.

Lemma iter_next_erase fuel self :
  iter_next fuel (erase_iter self) = erase_answer <$> iter_next fuel self.
Proof.
  unfold iter_next. destruct (it_path self) as [|b p] eqn:E.
  - assert (it_path (erase_iter self) = []) as -> by (by unfold erase_iter; rewrite E). done.
  - assert (∃ b' p', it_path (erase_iter self) = b' :: p') as (b' & p' & ->) by (unfold erase_iter; rewrite E; by do 2 eexists).
    apply iter_loop_erase.
Qed.

Lemma iter_collect_erase n fuel self : iter_collect n fuel (erase_iter self) = erase_items <$> iter_collect n fuel self.
Proof.
  revert self. induction n as [|n IH]; intros self; [done|]. cbn [iter_collect]. rewrite iter_next_erase.
  destruct (iter_next fuel self) as [[[item|] self']|]; [|done..]. cbn. rewrite IH. by destruct (iter_collect n fuel self').
Qed.

(** ** Documents *)

Context (generator_new : SchemaGenerator) (root_definitions : SchemaGenerator → btree Schema)
  (hash_set_iter : gset string → list string).

Lemma gen_endpoint_erase st item : gen_endpoint st (erase_item item) = gen_endpoint st item.
Proof. by destruct item as [[pa m] e]. Qed.

Lemma gen_endpoints_erase st items : gen_endpoints st (erase_items items) = gen_endpoints st items.
Proof.
  unfold erase_items. revert st. induction items as [|item items IH]; intros st; [done|]. cbn [fmap list_fmap gen_endpoints].
  rewrite gen_endpoint_erase. destruct (gen_endpoint st item) as [st'|[]|msg]; [|done]. apply IH.
Qed.

Lemma gen_tags_erase c items : gen_tags hash_set_iter c (erase_items items) = gen_tags hash_set_iter c items.
Proof.
  assert (∀ keep, flat_map (λ '(_, _, e), List.filter keep (tags e)) (erase_items items) =
    flat_map (λ '(_, _, e), List.filter keep (tags e)) items) as E.
  { intros keep. induction items as [|[[pa m] e] items IH]; [done|]. cbn. f_equal. exact IH. }
  unfold gen_tags. by rewrite E.
Qed.

Lemma gen_document_erase c info items :
  gen_document generator_new root_definitions hash_set_iter c info (erase_items items) =
  gen_document generator_new root_definitions hash_set_iter c info items.
Proof. unfold gen_document. by rewrite gen_endpoints_erase, gen_tags_erase. Qed.

Lemma gen_openapi_erase n fuel self info ver :
  gen_openapi generator_new root_definitions hash_set_iter n fuel (erase_api self) info ver =
  gen_openapi generator_new root_definitions hash_set_iter n fuel self info ver.
Proof.
  unfold gen_openapi, endpoints. change (router (erase_api self)) with (erase_router (router self)).
  rewrite iter_new_erase, iter_collect_erase. destruct (iter_collect n fuel _) as [items|]; [|done]. simpl.
  by rewrite gen_document_erase.
Qed.
End erasure.
