(* ===== verification/Handler.v ===== *)
(** * Handlers

    [dropshot/src/handler.rs]: the context a handler gets, the conversion of
    handler errors and of response types into responses, and the adapter that
    runs an endpoint function on the extracted arguments.  Futures are modelled
    by their results; the server's state is a parameter. *)
From S2P Require Import Prelude BTree Externals StatusCodes Body HttpError Config Schema ApiEndpoint.
From S2P Require Import Router ToMap.

(** [HeaderMap::extend] by another map: the values of each of its names
    replace those the map had. *)
Class HeaderMapExtend `{HttpCrate} := {
  hm_try_extend : HeaderMap → HeaderMap → option HeaderMap;
}.

Class HeaderMapExtendLaws `{HeaderMapExtend} : Prop := {
  hm_get_all_extend : ∀ h other h' n, hm_try_extend h other = Some h' →
    hm_get_all h' n = match hm_get_all other n with [] => hm_get_all h n | l => l end;
}.

Section handler.
Context `{Crates} `{!HttpBuilder} `{!HeaderMapExtend}.
(** [to_string] of the [http::Error] a builder has run into. *)
Variable builder_error : Builder → string.
(** [serde_json::to_string_pretty] at [HttpErrorResponseBody]. *)
Variable to_string_pretty : HttpErrorResponseBody → option string.

(** ** The request's context *)

Record RequestInfo := mk_request_info {
  ri_method : string;
  ri_path : string;
  ri_query : option string;
  ri_headers : HeaderMap;
  ri_remote_addr : string;
}.

Definition request_info_new {B} (request : Request B) (remote_addr : string) : RequestInfo :=
  mk_request_info (req_method request) (req_path request) (req_query request)
    (req_headers request) remote_addr.

(** Of the shared server state, a request's code reads the configuration. *)
Record RequestContext := mk_request_context {
  rc_config : ServerConfig;
  rc_endpoint : RequestEndpointMetadata;
  rc_request_id : string;
  rc_request : RequestInfo;
}.

Definition request_body_max_bytes (self : RequestContext) : N :=
  match rem_request_body_max_bytes (rc_endpoint self) with
  | Some n => n
  | None => default_request_body_max_bytes (rc_config self)
  end.

(** ** Errors *)

Inductive HandlerError :=
| HandlerResponse (message : string) (rsp : Response Body)
| Dropshot (e : HttpError).

Definition handler_status_code (self : HandlerError) : StatusCode :=
  match self with
  | HandlerResponse _ rsp => resp_status rsp
  | Dropshot e => error_status (status_code e)
  end.

Definition handler_internal_message (self : HandlerError) : string :=
  match self with
  | HandlerResponse message _ => message
  | Dropshot e => internal_message e
  end.

Definition handler_external_message (self : HandlerError) : option string :=
  match self with
  | HandlerResponse _ _ => None
  | Dropshot e => Some (external_message e)
  end.

Definition with_headers {B} (rsp : Response B) (h : HeaderMap) : Response B :=
  mk_response (resp_status rsp) h (resp_no_compression rsp) (resp_body rsp).

Definition handler_into_response (self : HandlerError) (request_id : string) : panics (Response Body) :=
  match self with
  | HandlerResponse _ rsp =>
      match hv_from_str request_id with
      | Some header =>
          h ← hm_insert (resp_headers rsp) HEADER_REQUEST_ID header;
          Ok (with_headers rsp h)
      | None => Panic "request ID is not a valid HeaderValue"
      end
  | Dropshot e => into_response to_string_pretty e request_id
  end.

(** ** Response contents *)

(** [builder.body(b)?] where the function returns an [HttpError]. *)
Definition try_body (builder : Builder) (b : Body) : rust HttpError (Response Body) :=
  match builder_inner builder with
  | Some (s, h) => Ok (mk_response s h false b)
  | None => Err (from_processing_error (builder_error builder))
  end.

(** [HttpResponseContent::to_response] for [FreeformBody], [Empty], a type with
    [Serialize] ([to_string] is [serde_json::to_string]) and [HttpError]. *)
Definition freeform_to_response (b : Body) (builder : Builder) : rust HttpError (Response Body) :=
  try_body (builder_header builder CONTENT_TYPE CONTENT_TYPE_OCTET_STREAM) b.

Definition empty_to_response (builder : Builder) : rust HttpError (Response Body) :=
  try_body builder empty_body.

Definition typed_to_response {T} (to_string : T → string + string) (self : T) (builder : Builder) :
    rust HttpError (Response Body) :=
  match to_string self with
  | inr e => raise (for_internal_error e)
  | inl serialized =>
      try_body (builder_header builder CONTENT_TYPE CONTENT_TYPE_JSON) (with_content serialized)
  end.

Definition http_error_to_response (self : HttpError) (_ : Builder) : rust HttpError (Response Body) :=
  Err self.

(** [content_metadata]. *)
Definition freeform_metadata : option ApiSchemaGenerator := None.
Definition empty_metadata : option ApiSchemaGenerator := Some (Static (Bool false) []).
Definition typed_metadata (schema_name : string) (subschema : SchemaGenerator → SchemaGenerator * Schema) :
    option ApiSchemaGenerator :=
  Some (Gen schema_name subschema).

(** [trait HttpResponseError], with [to_response] of its supertrait. *)
Class HttpResponseError (E : Type) := {
  hre_to_string : E → string;
  hre_status_code : E → ErrorStatusCode;
  hre_to_response : E → Builder → rust HttpError (Response Body);
  hre_from_http_error : HttpError → E;
}.

#[export] Instance http_response_error_http_error : HttpResponseError HttpError := {
  hre_to_string := error_display;
  hre_status_code := status_code;
  hre_to_response := http_error_to_response;
  hre_from_http_error := id;
}.

(** [impl From<E> for HandlerError]. *)
Definition handler_error_from {E} `{HttpResponseError E} (e : E) : panics HandlerError :=
  match hre_to_response e (builder_status builder_new (error_status (hre_status_code e))) with
  | Ok rsp => Ok (HandlerResponse (hre_to_string e) rsp)
  | Err e => Ok (Dropshot e)
  | Panic m => Panic m
  end.

(** [?] from an [E] into a [HandlerError]. *)
Definition try_handler {E A} `{HttpResponseError E} (m : rust E A) : rust HandlerError A :=
  match m with
  | Ok a => Ok a
  | Err e => e ← lift_panics (handler_error_from e); Err e
  | Panic msg => Panic msg
  end.

(** ** Typed responses *)

(** The implementations of [HttpCodedResponse]. *)
Inductive coded_response :=
| HttpResponseCreated | HttpResponseAccepted | HttpResponseOk | HttpResponseDeleted
| HttpResponseUpdatedNoContent | HttpResponseFoundStatus | HttpResponseSeeOtherStatus
| HttpResponseTemporaryRedirectStatus.

Definition STATUS_CODE (c : coded_response) : StatusCode :=
  status_const match c with
  | HttpResponseCreated => 201
  | HttpResponseAccepted => 202
  | HttpResponseOk => 200
  | HttpResponseDeleted | HttpResponseUpdatedNoContent => 204
  | HttpResponseFoundStatus => 302
  | HttpResponseSeeOtherStatus => 303
  | HttpResponseTemporaryRedirectStatus => 307
  end%Z.

Definition DESCRIPTION (c : coded_response) : string :=
  match c with
  | HttpResponseCreated => "successful creation"
  | HttpResponseAccepted => "successfully enqueued operation"
  | HttpResponseOk => "successful operation"
  | HttpResponseDeleted => "successful deletion"
  | HttpResponseUpdatedNoContent => "resource updated"
  | HttpResponseFoundStatus => "redirect (found)"
  | HttpResponseSeeOtherStatus => "redirect (see other)"
  | HttpResponseTemporaryRedirectStatus => "redirect (temporary redirect)"
  end.

(** [for_object]; [to_response] is that of the body type. *)
Definition for_object (c : coded_response) (to_response : Builder → rust HttpError (Response Body)) :
    rust HttpError (Response Body) :=
  to_response (builder_status builder_new (STATUS_CODE c)).

Definition response_metadata (c : coded_response) (content_metadata : option ApiSchemaGenerator) :
    ApiEndpointResponse :=
  mk_endpoint_response content_metadata [] (Some (STATUS_CODE c)) (Some (DESCRIPTION c)).

(** [HttpResponseHeaders<T, H>]: [hr_body] is the result of [body.into()],
    [hr_structured] the value of type [H]. *)
Record HttpResponseHeaders := mk_response_headers {
  hr_body : rust HttpError (Response Body);
  hr_structured : ser;
  hr_other : HeaderMap;
}.

Definition response_headers_new (body : rust HttpError (Response Body)) (headers : ser) : HttpResponseHeaders :=
  mk_response_headers body headers hm_new.

Definition response_headers_new_unnamed (body : rust HttpError (Response Body)) : HttpResponseHeaders :=
  response_headers_new body (SStruct []).

Definition internal_error {A} (text : string) : rust HttpError A := raise (for_internal_error text).

(** Texts of the conversion errors of the [http] crate, and [Debug] of [str]. *)
Variables (invalid_header_name invalid_header_value : string) (string_debug : string → string).

(** The loop over the structured headers. *)
Fixpoint insert_headers (h : HeaderMap) (l : btree string) : rust HttpError HeaderMap :=
  match l with
  | [] => Ok h
  | (key, value) :: l =>
      match header_name_try_from key with
      | None => internal_error invalid_header_name
      | Some key =>
          match hv_from_str value with
          | None => internal_error invalid_header_value
          | Some value => h ← hm_insert h key value; insert_headers h l
          end
      end
  end.

Definition response_headers_to_result (self : HttpResponseHeaders) : rust HttpError (Response Body) :=
  result ← hr_body self;
  match to_map (hr_structured self) with
  | Err e => internal_error ("error processing headers: " +:+ e)
  | Panic m => Panic m
  | Ok header_map =>
      headers ← insert_headers (resp_headers result) header_map;
      headers ← expect (hm_try_extend headers (hr_other self)) "size overflows MAX_SIZE";
      Ok (with_headers result headers)
  end.

Definition http_redirect_error {A} (location : string) : rust HttpError A :=
  internal_error ("error encoding redirect URL " +:+ string_debug location +:+ ": " +:+ invalid_header_value).

(** [http_response_found], [http_response_see_other] and
    [http_response_temporary_redirect]. *)
Definition http_response_redirect (c : coded_response) (location : string) :
    rust HttpError HttpResponseHeaders :=
  match hv_from_str location with
  | None => http_redirect_error location
  | Some _ => Ok (response_headers_new (for_object c empty_to_response) (SStruct [("location", SStr location)]))
  end.

(** ** Running a handler *)

(** [HttpHandlerFunc::handle_request] for a function of any number of
    arguments, and [HttpRouteHandler::handle_request]. *)
Definition handler_func_handle {E P R} `{HttpResponseError E} (func : RequestContext → P → rust E R)
    (to_result : R → rust HttpError (Response Body)) (rqctx : RequestContext) (param_tuple : P) :
    rust HandlerError (Response Body) :=
  response ← try_handler (func rqctx param_tuple);
  match to_result response with
  | Ok r => Ok r
  | Err error => try_handler (Err (hre_from_http_error error))
  | Panic m => Panic m
  end.

Definition route_handler_handle {E P R} `{HttpResponseError E}
    (from_request : RequestContext → Request Body → rust HttpError P)
    (func : RequestContext → P → rust E R) (to_result : R → rust HttpError (Response Body))
    (rqctx : RequestContext) (request : Request Body) : rust HandlerError (Response Body) :=
  funcparams ← try_handler (map_err hre_from_http_error (from_request rqctx request));
  handler_func_handle func to_result rqctx funcparams.

(** [StubRouteHandler]. *)
Definition stub_handle (label : string) (_ : RequestContext) (_ : Request Body) :
    rust HandlerError (Response Body) :=
  Panic ("not implemented: stub handler called, not implemented: " +:+ label).
End handler.

(** ** Facts *)

Section facts.
Context `{Crates} `{!HttpBuilder} `{!HeaderMapExtend}.
Context `{!HttpCrateLaws} `{!HeaderNameLaws} `{!HttpBuilderLaws} `{!HeaderMapExtendLaws}.
Variables (builder_error : Builder → string) (to_string_pretty : HttpErrorResponseBody → option string).
Variables (invalid_header_name invalid_header_value : string) (string_debug : string → string).

Definition is_internal_error (e : HttpError) : Prop := error_as_u16 (status_code e) = 500%Z.

Lemma internal_error_err {A} text :
  ∃ e, internal_error (A := A) text = Err e ∧ is_internal_error e ∧ internal_message e = text.
Proof.
  unfold internal_error, raise. rewrite for_internal_error_ok. simpl. eexists. split; [done|].
  split; [|done]. by apply error_constant_u16.
Qed.

(** What a structured header's last entry for a name gives. *)
Definition structured_value (l : btree string) (n : string) : option HeaderValue :=
  last (omap (λ p, if bool_decide (header_name_try_from p.1 = Some n) then hv_from_str p.2 else None) l).

Lemma insert_headers_ok l h h' :
  insert_headers invalid_header_name invalid_header_value h l = Ok h' →
  ∀ n, hm_get_all h' n = match structured_value l n with Some v => [v] | None => hm_get_all h n end.
Proof.
  revert h. induction l as [|[key value] l IH]; intros h; simpl; [by intros [= <-] n|].
  destruct (header_name_try_from key) as [k|] eqn:Ek;
    [|by destruct (internal_error_err (A := HeaderMap) invalid_header_name) as (? & -> & _)].
  destruct (hv_from_str value) as [v|] eqn:Ev;
    [|by destruct (internal_error_err (A := HeaderMap) invalid_header_value) as (? & -> & _)].
  intros (h1 & Hh & Hl)%rust_bind_ok n. apply expect_ok in Hh. rewrite (IH h1 Hl n).
  rewrite (hm_get_all_insert _ _ _ _ n Hh). unfold structured_value. simpl. rewrite Ek, Ev.
  destruct (String.eqb_spec k n) as [->|Hn]; [|by rewrite bool_decide_false by congruence].
  rewrite bool_decide_true by done. rewrite last_cons. by destruct (last _).
Qed.

Lemma try_body_ok b body r :
  try_body builder_error b body = Ok r ↔
  ∃ s h, builder_inner b = Some (s, h) ∧ r = mk_response s h false body.
Proof.
  unfold try_body. destruct (builder_inner b) as [[s h]|]; [|naive_solver].
  split; [intros [= <-]; by exists s, h|]. by intros (? & ? & [= <- <-] & ->).
Qed.

Lemma for_object_empty c : for_object c (empty_to_response builder_error) =
  Ok (mk_response (STATUS_CODE c) hm_new false empty_body).
Proof.
  unfold for_object, empty_to_response, try_body. by rewrite builder_inner_status, builder_inner_new.
Qed.

(** What the response of an error holds: that the error carries, with the
    request id in place of any it has, or for an [HttpError] the body made of
    the id, the code and the external message, and the error's own headers
    followed by the content type and the request id. *)
Definition error_answer (err : HandlerError) (id : string) (r : Response Body) : Prop :=
  resp_status r = handler_status_code err ∧
  match err with
  | HandlerResponse _ rsp => resp_body r = resp_body rsp ∧
      ∃ v, hv_as_bytes v = id ∧
        ∀ n, hm_get_all (resp_headers r) n =
          if String.eqb HEADER_REQUEST_ID n then [v] else hm_get_all (resp_headers rsp) n
  | Dropshot e =>
      (∃ text, to_string_pretty (mk_error_body id (error_code e) (external_message e)) = Some text ∧
         resp_body r = with_content text) ∧
      ∃ j v, hv_as_bytes j = CONTENT_TYPE_JSON ∧ hv_as_bytes v = id ∧
        ∀ n, hm_get_all (resp_headers r) n =
          error_header_values e n ++ (if String.eqb CONTENT_TYPE n then [j] else [])
            ++ (if String.eqb HEADER_REQUEST_ID n then [v] else [])
  end.

Lemma handler_into_response_ok err id r :
  handler_into_response to_string_pretty err id = Ok r → error_answer err id r.
Proof.
  destruct err as [message rsp|e]; simpl.
  - destruct (hv_from_str id) as [v|] eqn:Ev; [|done]. intros (h & Hh & [= <-])%rust_bind_ok.
    apply expect_ok in Hh. split; [done|]. split; [done|]. exists v. split; [by apply hv_from_str_bytes|].
    intros n. apply (hm_get_all_insert _ _ _ _ n Hh).
  - by intros (Hs & Hb & Hh)%into_response_ok.
Qed.

Lemma error_answer_id err id r :
  error_answer err id r → ∃ v, hv_as_bytes v = id ∧ last (hm_get_all (resp_headers r) HEADER_REQUEST_ID) = Some v.
Proof.
  destruct err as [message rsp|e]; intros [_ H'].
  - destruct H' as (_ & v & Hv & Hg). exists v. by rewrite Hg, String.eqb_refl.
  - destruct H' as (_ & j & v & _ & Hv & Hg). exists v. split; [done|]. rewrite Hg, String.eqb_refl, app_assoc.
    apply last_snoc.
Qed.
End facts.

Section properties.
Context `{Crates} `{!HttpBuilder} `{!HeaderMapExtend}.
Context `{!HttpCrateLaws} `{!HeaderNameLaws} `{!HttpBuilderLaws} `{!HeaderMapExtendLaws}.
Variables (builder_error : Builder → string).
Variables (invalid_header_name invalid_header_value : string) (string_debug : string → string).

(** A response with headers keeps the status and body of the response it
    wraps; of each header name it has the values added by hand if there are
    any, else the value of the last structured header of that name, else what
    the wrapped response had. *)
Lemma response_headers_spec hr r :
  response_headers_to_result invalid_header_name invalid_header_value hr = Ok r →
  ∃ body named, hr_body hr = Ok body ∧ to_map (hr_structured hr) = Ok named ∧
    resp_status r = resp_status body ∧ resp_body r = resp_body body ∧
    (∃ h, insert_headers invalid_header_name invalid_header_value (resp_headers body) named = Ok h) ∧
    ∀ n, hm_get_all (resp_headers r) n =
      match hm_get_all (hr_other hr) n with
      | [] => match structured_value named n with Some v => [v] | None => hm_get_all (resp_headers body) n end
      | l => l
      end.
Proof.
  unfold response_headers_to_result. intros (body & Hb & Hr)%rust_bind_ok.
  destruct (to_map (hr_structured hr)) as [named|e|m] eqn:Em; [| |done].
  2: { by destruct (internal_error_err (A := Response Body) ("error processing headers: " +:+ e)) as (? & E & _);
       rewrite E in Hr. }
  apply rust_bind_ok in Hr as (h1 & Hi & Hr). apply rust_bind_ok in Hr as (h2 & Hx & [= <-]).
  apply expect_ok in Hx. exists body, named. split_and!; try done; [by eexists|]. intros n. simpl.
  rewrite (hm_get_all_extend _ _ _ n Hx). by rewrite (insert_headers_ok _ _ _ _ _ Hi n).
Qed.

(** A redirect is made exactly for locations that are valid header values,
    the others being internal errors; turning it into a response cannot fail
    any more, and gives the redirect's status, an empty body, and the location
    as its only header. *)
Lemma redirect_spec c location :
  ((∃ hr, http_response_redirect builder_error invalid_header_value string_debug c location = Ok hr) ↔
     is_Some (hv_from_str location)) ∧
  (∀ e, http_response_redirect builder_error invalid_header_value string_debug c location = Err e →
     is_internal_error e) ∧
  (∀ hr, http_response_redirect builder_error invalid_header_value string_debug c location = Ok hr →
     (∀ e, response_headers_to_result invalid_header_name invalid_header_value hr ≠ Err e) ∧
     ∀ r, response_headers_to_result invalid_header_name invalid_header_value hr = Ok r →
       resp_status r = STATUS_CODE c ∧ resp_body r = empty_body ∧
       ∃ v, hv_as_bytes v = location ∧
         ∀ n, hm_get_all (resp_headers r) n = if String.eqb "location" n then [v] else []).
Proof.
  assert (header_name_try_from "location" = Some "location") as Hname.
  { destruct (header_name_token "location") as [n En]; [done..|]. rewrite En. by apply header_name_lower in En as ->. }
  unfold http_response_redirect, http_redirect_error. destruct (hv_from_str location) as [v|] eqn:Ev.
  - split; [by split; eauto|]. split; [done|]. intros hr [= <-].
    unfold response_headers_to_result, response_headers_new. cbn [hr_body hr_structured hr_other].
    rewrite for_object_empty. cbn [mbind rust_bind]. change (to_map _) with (Ok (E := string) [("location", location)]).
    cbn [insert_headers resp_headers]. rewrite Hname, Ev. unfold hm_insert. split.
    + intros e. destruct (hm_try_insert hm_new "location" v) as [h1|]; [|done]. cbn.
      by destruct (hm_try_extend h1 hm_new).
    + intros r Hr. apply rust_bind_ok in Hr as (h1 & Hh & Hr). apply rust_bind_ok in Hh as (h0 & H0' & [= <-]).
      apply rust_bind_ok in Hr as (h2 & Hx & [= <-]). apply expect_ok in H0', Hx. cbn.
      split; [done|]. split; [done|]. exists v. split; [by apply hv_from_str_bytes|]. intros n.
      rewrite (hm_get_all_extend _ _ _ n Hx), hm_get_all_new, (hm_get_all_insert _ _ _ _ n H0').
      destruct (String.eqb "location" n); [done|apply hm_get_all_new].
  - destruct (internal_error_err (A := HttpResponseHeaders)
      ("error encoding redirect URL " +:+ string_debug location +:+ ": " +:+ invalid_header_value)) as (x & -> & Hx & _).
    split; [split; [by intros [? ?]|by intros [? ?]]|]. split; [by intros e [= <-]|done].
Qed.
End properties.
