(* ===== verification/Responses.v ===== *)
(** * Response types, and what documents say of them

    The traits [HttpResponseContent], [HttpCodedResponse] and [HttpResponse] of
    [dropshot/src/handler.rs] with the types that implement them, on the functions
    of [Handler] and [Metadata]; and that a handler's response is as the operation
    that [gen_openapi] makes of its type says.

    The bodies and headers of a program's own types are classes ([JsonSchema],
    [Serialize]), with what their derivations promise as laws. *)
From S2P Require Import Prelude BTree Externals Versions StatusCodes Body HttpError Config Schema OpenApi SchemaUtil SchemaTranslate.
From S2P Require Import ApiEndpoint Router ToMap Handler Metadata GenOpenApi GenOpenApiSpec.

(** Texts of the errors of the [http] crate, and [Debug] of [str]. *)
Class ErrorTexts `{HttpBuilder} := {
  et_builder_error : Builder → string;
  et_header_name : string;
  et_header_value : string;
  et_string_debug : string → string;
}.

(** What [schema2struct] needs of [schemars] and [serde_json]. *)
Class SchemaReader `{Crates} := {
  sr_dereference : btree Schema → Schema → option Schema;
  sr_pretty_schema : Schema → option string;
  sr_pretty_subschemas : @SubschemaValidation Schema → option string;
}.

Section responses.
Context `{Crates} `{!HttpBuilder} `{!HeaderMapExtend} `{!ErrorTexts} `{!SchemaReader}.

(** A type with [Serialize]: [serde_json::to_string], and the calls that its
    implementation makes on a serializer; and one with [JsonSchema]. *)
Class SerializeJson (T : Type) := { to_json_string : T → string + string }.
Class Serialize (T : Type) := { serialize : T → ser }.
Class JsonSchema (T : Type) := {
  schema_name : string;
  make_subschema_for : SchemaGenerator → SchemaGenerator * Schema;
  json_schema_type : JsonSchemaType;
}.

(** ** Contents *)

Class HttpResponseContent (T : Type) := {
  content_to_response : T → Builder → rust HttpError (Response Body);
  content_metadata : option ApiSchemaGenerator;
}.

Record FreeformBody := freeform_body { ff_body : Body }.

Definition freeform_from (body : Body) : FreeformBody := freeform_body body.

Inductive Empty := empty_content.

#[export] Instance freeform_content : HttpResponseContent FreeformBody := {
  content_to_response self := freeform_to_response et_builder_error (ff_body self);
  content_metadata := freeform_metadata;
}.

#[export] Instance empty_response_content : HttpResponseContent Empty := {
  content_to_response _ := empty_to_response et_builder_error;
  content_metadata := empty_metadata;
}.

#[export] Instance typed_content {T} `{SerializeJson T} `{JsonSchema T} : HttpResponseContent T := {
  content_to_response := typed_to_response et_builder_error to_json_string;
  content_metadata := typed_metadata (schema_name (T := T)) (make_subschema_for (T := T));
}.

(** An [HttpError] is not made a response here, and documents as its body does. *)
#[export] Instance http_error_content `{!JsonSchema HttpErrorResponseBody} : HttpResponseContent HttpError := {
  content_to_response := http_error_to_response;
  content_metadata := typed_metadata (schema_name (T := HttpErrorResponseBody)) (make_subschema_for (T := HttpErrorResponseBody));
}.

(** ** Responses *)

(** The types with [HttpCodedResponse]: [HttpResponseOk<T>] is
    [Coded HttpResponseOk T], and those without data have the content [Empty]. *)
Record Coded (c : coded_response) (T : Type) := coded { coded_body : T }.
Arguments coded {c T} _.
Arguments coded_body {c T} _.

(** Their conversion into a result, [map] and [try_map]. *)
Definition coded_into {c T} `{HttpResponseContent T} (response : Coded c T) : rust HttpError (Response Body) :=
  for_object c (content_to_response (coded_body response)).

Definition coded_map {c T U} (f : T → U) (self : Coded c T) : Coded c U := coded (f (coded_body self)).

Definition coded_try_map {c T U E} (f : T → rust E U) (self : Coded c T) : rust E (Coded c U) :=
  coded <$> f (coded_body self).

(** [HttpResponseHeaders<T, H>]. *)
Record HeadersResponse (c : coded_response) (T Hd : Type) := mk_headers_response {
  rh_body : Coded c T;
  rh_structured_headers : Hd;
  rh_other_headers : HeaderMap;
}.
Arguments mk_headers_response {c T Hd} _ _ _.
Arguments rh_body {c T Hd} _.
Arguments rh_structured_headers {c T Hd} _.
Arguments rh_other_headers {c T Hd} _.

Inductive NoHeaders := no_headers.

Definition headers_response_new {c T Hd} (body : Coded c T) (headers : Hd) : HeadersResponse c T Hd :=
  mk_headers_response body headers hm_new.

Definition headers_response_new_unnamed {c T} (body : Coded c T) : HeadersResponse c T NoHeaders :=
  mk_headers_response body no_headers hm_new.

(** A use of [headers_mut]. *)
Definition headers_mut {c T Hd} (f : HeaderMap → HeaderMap) (self : HeadersResponse c T Hd) : HeadersResponse c T Hd :=
  mk_headers_response (rh_body self) (rh_structured_headers self) (f (rh_other_headers self)).

Definition headers_response_map {c c' T U Hd} (f : Coded c T → Coded c' U) (self : HeadersResponse c T Hd) :
    HeadersResponse c' U Hd :=
  mk_headers_response (f (rh_body self)) (rh_structured_headers self) (rh_other_headers self).

Definition headers_response_try_map {c c' T U Hd E} (f : Coded c T → rust E (Coded c' U)) (self : HeadersResponse c T Hd) :
    rust E (HeadersResponse c' U Hd) :=
  body ← f (rh_body self);
  Ok (mk_headers_response body (rh_structured_headers self) (rh_other_headers self)).

(** [trait HttpResponse]; the metadata can need more fuel, for [schema2struct]. *)
Class HttpResponse (R : Type) := {
  to_result : R → rust HttpError (Response Body);
  response_metadata_of : nat → option (panics ApiEndpointResponse);
  response_status_code : R → StatusCode;
}.

#[export] Instance raw_response : HttpResponse (Response Body) := {
  to_result self := Ok self;
  response_metadata_of _ := Some (Ok (mk_endpoint_response None [] None None));
  response_status_code := resp_status;
}.

#[export] Instance coded_http_response c T `{HttpResponseContent T} : HttpResponse (Coded c T) := {
  to_result := coded_into;
  response_metadata_of _ := Some (Ok (response_metadata c (content_metadata (T := T))));
  response_status_code _ := STATUS_CODE c;
}.

#[export] Instance headers_http_response c T Hd `{HttpResponseContent T} `{Serialize Hd} `{JsonSchema Hd} :
    HttpResponse (HeadersResponse c T Hd) := {
  to_result self := response_headers_to_result et_header_name et_header_value
    (mk_response_headers (coded_into (rh_body self)) (serialize (rh_structured_headers self)) (rh_other_headers self));
  response_metadata_of fuel :=
    headers_response_metadata sr_dereference sr_pretty_schema sr_pretty_subschemas fuel (json_schema_type (T := Hd))
      (response_metadata c (content_metadata (T := T)));
  response_status_code _ := STATUS_CODE c;
}.

(** ** Redirects *)

Record RedirectHeaders := redirect_headers { location : string }.

(** The three functions; they differ in the status. *)
Definition http_response_found (location : string) :
    rust HttpError (HeadersResponse HttpResponseFoundStatus Empty RedirectHeaders) :=
  match hv_from_str location with
  | None => http_redirect_error et_header_value et_string_debug location
  | Some _ => Ok (headers_response_new (coded empty_content) (redirect_headers location))
  end.

Definition http_response_see_other (location : string) :
    rust HttpError (HeadersResponse HttpResponseSeeOtherStatus Empty RedirectHeaders) :=
  match hv_from_str location with
  | None => http_redirect_error et_header_value et_string_debug location
  | Some _ => Ok (headers_response_new (coded empty_content) (redirect_headers location))
  end.

Definition http_response_temporary_redirect (location : string) :
    rust HttpError (HeadersResponse HttpResponseTemporaryRedirectStatus Empty RedirectHeaders) :=
  match hv_from_str location with
  | None => http_redirect_error et_header_value et_string_debug location
  | Some _ => Ok (headers_response_new (coded empty_content) (redirect_headers location))
  end.

#[export] Instance no_headers_serialize : Serialize NoHeaders := { serialize _ := SStruct [] }.

#[export] Instance redirect_serialize : Serialize RedirectHeaders := {
  serialize self := SStruct [("location", SStr (location self))];
}.
End responses.
Arguments coded {c T} _.
Arguments coded_body {c T} _.
Arguments mk_headers_response {_ c T Hd} _ _ _.
Arguments rh_body {_ c T Hd} _.
Arguments rh_structured_headers {_ c T Hd} _.
Arguments rh_other_headers {_ c T Hd} _.

(** ** What documents say of responses *)

Section declared.
Context `{Crates} `{!HttpBuilder} `{!HeaderMapExtend} `{!ErrorTexts} `{!SchemaReader}.

Definition content_type (rsp : Response Body) : option string :=
  hv_as_bytes <$> head (hm_get_all (resp_headers rsp) CONTENT_TYPE).

(** A response has one of the media types, or no body if there is none. *)
Definition content_matches (content : Content) (rsp : Response Body) : Prop :=
  match content with
  | [] => resp_body rsp = empty_body ∧ content_type rsp = None
  | _ => ∃ media schema, (media, schema) ∈ content ∧ (media = "*/*" ∨ content_type rsp = Some media)
  end.

(** Each header that is required is there. *)
Definition headers_match (headers : IndexMap OHeader) (rsp : Response Body) : Prop :=
  ∀ name h, (name, h) ∈ headers → oh_required h = true →
  ∃ n, header_name_try_from name = Some n ∧ hm_get_all (resp_headers rsp) n ≠ [].

(** The response is one that the operation's entry for the status describes. *)
Record conforms (m : ApiEndpointResponse) (o : OResponse) (rsp : Response Body) : Prop := {
  conforms_status : ∀ s, r_success m = Some s → resp_status rsp = s;
  conforms_content : content_matches (or_content o) rsp;
  conforms_headers : headers_match (or_headers o) rsp;
}.

(** A type of contents: its responses have the builder's status, and are what the
    metadata of the type makes a document say. *)
Class LawfulContent (T : Type) `{!HttpResponseContent T} : Prop := {
  content_conforms : ∀ (t : T) s rsp, content_to_response t (builder_status builder_new s) = Ok rsp →
    resp_status rsp = s ∧ ∀ content, says_content (content_metadata (T := T)) content → content_matches content rsp;
}.

(** What the derivations promise: a type with values has a schema that some value
    matches; and a value has the members that the schema of its type requires. *)
Class InhabitedSchema (T : Type) `{!JsonSchema T} : Prop := {
  schema_not_empty : ∀ g, is_empty (make_subschema_for (T := T) g).2 = false;
}.

Class SerializesMembers (Hd : Type) `{!Serialize Hd} `{!JsonSchema Hd} : Prop := {
  member_serialized : ∀ (headers : Hd) named schema definitions m,
    js_root_schema (json_schema_type (T := Hd)) true = (schema, definitions) →
    to_map (serialize headers) = Ok named → Member (sr_dereference definitions) schema true m → sm_required m = true →
    ∃ v, bt_get (sm_name m) named = Some v;
}.
End declared.

(** ** The types keep it *)

Section contents.
Context `{Crates} `{!HttpBuilder} `{!HeaderMapExtend} `{!ErrorTexts} `{!SchemaReader}.
Context `{!HttpCrateLaws} `{!HeaderNameLaws} `{!HttpBuilderLaws} `{!HeaderMapExtendLaws}.

Lemma builder_start s : builder_inner (builder_status builder_new s) = Some (s, hm_new).
Proof. by rewrite builder_inner_status, builder_inner_new. Qed.

(** A body given to a builder that has got a content type. *)
Lemma try_body_typed s media body rsp :
  try_body et_builder_error (builder_header (builder_status builder_new s) CONTENT_TYPE media) body = Ok rsp →
  resp_status rsp = s ∧ resp_body rsp = body ∧ content_type rsp = Some media.
Proof.
  intros (s' & h & Hb & ->)%(proj1 (try_body_ok et_builder_error et_header_value et_string_debug _ _ _)). rewrite builder_inner_header, builder_start in Hb. cbn [mbind option_bind fst snd] in Hb.
  destruct (header_name_try_from CONTENT_TYPE) as [n|] eqn:En; [|done]. cbn [mbind option_bind] in Hb.
  destruct (hv_from_str media) as [v|] eqn:Ev; [|done]. cbn [mbind option_bind] in Hb.
  destruct (hm_try_append hm_new n v) as [h'|] eqn:Eh; [|done]. injection Hb as <- <-.
  pose proof (header_name_lower _ _ En) as ->. split; [done|]. split; [done|]. unfold content_type. cbn [resp_headers].
  rewrite (hm_get_all_append _ _ _ _ CONTENT_TYPE Eh), hm_get_all_new. change (to_ascii_lowercase CONTENT_TYPE) with CONTENT_TYPE.
  rewrite String.eqb_refl. simpl. by rewrite (hv_from_str_bytes _ _ Ev).
Qed.

#[export] Instance freeform_lawful : LawfulContent FreeformBody.
Proof.
  split. intros t s rsp (Hs & _ & Hc)%try_body_typed. split; [done|]. intros content ->.
  exists "*/*", (Item any_schema). split; [by left|by left].
Qed.

#[export] Instance empty_lawful : LawfulContent Empty.
Proof.
  split. intros t s rsp (s' & h & Hb & ->)%(proj1 (try_body_ok et_builder_error et_header_value et_string_debug _ _ _)). rewrite builder_start in Hb. injection Hb as <- <-. split; [done|].
  intros content (name & js & Hg & Hc). inversion Hg; subst. simpl in Hc. subst content. split; [done|].
  unfold content_type. cbn [resp_headers]. by rewrite hm_get_all_new.
Qed.

#[export] Instance typed_lawful {T} `{!SerializeJson T} `{!JsonSchema T} `{!InhabitedSchema T} : LawfulContent T.
Proof.
  split. intros t s rsp. cbn [content_to_response typed_content]. unfold typed_to_response.
  destruct (to_json_string t) as [text|e]; [|change (raise _) with (internal_error (A := Response Body) e);
    by destruct (internal_error_err (A := Response Body) e) as (? & -> & _)].
  intros (Hs & _ & Hc)%try_body_typed. split; [done|]. intros content (name & js & Hg & Hcontent).
  inversion Hg; subst. rewrite schema_not_empty in Hcontent. destruct Hcontent as (sch & -> & _).
  exists CONTENT_TYPE_JSON, sch. split; [by left|by right].
Qed.

Lemma coded_conforms {c T} `{!HttpResponseContent T} `{!LawfulContent T} (r : Coded c T) o rsp :
  says_response (response_metadata c (content_metadata (T := T))) o → coded_into r = Ok rsp →
  conforms (response_metadata c (content_metadata (T := T))) o rsp.
Proof.
  intros (_ & Hc & Hh) Hr. unfold coded_into, for_object in Hr. apply content_conforms in Hr as [Hs Hm].
  split; [by intros s [= <-]|by apply Hm|]. intros name h Hin. unfold says_headers in Hh. simpl in Hh.
  destruct (content_metadata (T := T)); [|rewrite Hh in Hin; by apply elem_of_nil in Hin].
  destruct Hh as (l & Hl & Ho). apply Forall2_nil_inv_l in Hl as ->. rewrite Ho in Hin. by apply elem_of_nil in Hin.
Qed.

(** The elements of a map that was extended. *)
Lemma im_insert_elem {A} k (v : A) m p : p ∈ im_insert k v m → p = (k, v) ∨ p ∈ m.
Proof.
  induction m as [|[k' v'] m IH]; simpl; [intros ->%list_elem_of_singleton; by left|].
  destruct (String.eqb_spec k k') as [->|_]; rewrite !elem_of_cons; naive_solver.
Qed.

Lemma im_extend_elem {A} (m l : IndexMap A) p : p ∈ im_extend m l → p ∈ m ∨ p ∈ l.
Proof.
  unfold im_extend. revert m. induction l as [|[k v] l IH]; intros m; simpl; [by left|].
  intros [Hi|Hl]%IH; [apply im_insert_elem in Hi as [->|Hi]|]; rewrite elem_of_cons; auto.
Qed.

(** The structured headers are all inserted. *)
Lemma insert_headers_cons h k v l h' :
  insert_headers et_header_name et_header_value h ((k, v) :: l) = Ok h' →
  ∃ n x h1, header_name_try_from k = Some n ∧ hv_from_str v = Some x ∧ insert_headers et_header_name et_header_value h1 l = Ok h'.
Proof.
  cbn [insert_headers]. destruct (header_name_try_from k) as [n|].
  2: { destruct (internal_error_err (A := HeaderMap) et_header_name) as (e & -> & _). by intros [=]. }
  destruct (hv_from_str v) as [x|].
  2: { destruct (internal_error_err (A := HeaderMap) et_header_value) as (e & -> & _). by intros [=]. }
  intros (h1 & _ & Hh)%rust_bind_ok. by exists n, x, h1.
Qed.

Lemma insert_headers_values l h h' k v :
  insert_headers et_header_name et_header_value h l = Ok h' → (k, v) ∈ l →
  ∃ n, header_name_try_from k = Some n ∧ is_Some (structured_value l n).
Proof.
  intros Hi Hin.
  assert (∃ n x, header_name_try_from k = Some n ∧ hv_from_str v = Some x) as (n & x & Hn & Hx).
  { revert h Hi. induction l as [|[k' v'] l IH]; intros h Hi; [by apply elem_of_nil in Hin|].
    apply insert_headers_cons in Hi as (n & x & h1 & Hn & Hx & Hi). apply elem_of_cons in Hin as [[= -> ->]|Hin]; [by exists n, x|].
    by apply (IH Hin h1). }
  exists n. split; [done|]. unfold structured_value. apply last_is_Some. intros Hnil.
  assert (x ∈ omap (λ p, if bool_decide (header_name_try_from p.1 = Some n) then hv_from_str p.2 else None) l) as Hx'.
  { apply list_elem_of_omap. exists (k, v). split; [done|]. simpl. by rewrite bool_decide_true. }
  rewrite Hnil in Hx'. by apply elem_of_nil in Hx'.
Qed.

(** A content type that is set by hand replaces the declared one. *)
Definition keeps_content_type {c T Hd} `{!Serialize Hd} (r : HeadersResponse c T Hd) : Prop :=
  hm_get_all (rh_other_headers r) CONTENT_TYPE = [] ∧
  ∀ named, to_map (serialize (rh_structured_headers r)) = Ok named → structured_value named CONTENT_TYPE = None.

Lemma content_matches_eq content rsp rsp' :
  resp_body rsp' = resp_body rsp → hm_get_all (resp_headers rsp') CONTENT_TYPE = hm_get_all (resp_headers rsp) CONTENT_TYPE →
  content_matches content rsp → content_matches content rsp'.
Proof. intros Hb Hh. unfold content_matches, content_type. by rewrite Hb, Hh. Qed.

Lemma headers_conform {c T Hd} `{!HttpResponseContent T} `{!LawfulContent T} `{!Serialize Hd} `{!JsonSchema Hd}
    `{!SerializesMembers Hd} (r : HeadersResponse c T Hd) fuel m o rsp :
  response_metadata_of (R := HeadersResponse c T Hd) fuel = Some (Ok m) → says_response m o →
  keeps_content_type r → to_result r = Ok rsp → conforms m o rsp.
Proof.
  cbn [response_metadata_of to_result headers_http_response]. unfold headers_response_metadata.
  destruct (js_root_schema _ _) as [schema definitions] eqn:Es. intros ([ms| |] & Hms & Em)%fmap_Some; try done.
  simpl in Em. injection Em as ->. intros (_ & Hc & Hh) [Ho Hs] Hr.
  destruct (response_headers_spec et_header_name et_header_value _ _ Hr)
    as (body & named & Hb & Hn & Hst & Hbody & (hi & Hi) & Hg). cbn [hr_body hr_structured hr_other] in *.
  unfold coded_into, for_object in Hb. apply content_conforms in Hb as [Hs' Hm]. split.
  - intros s. simpl. intros [= <-]. by rewrite Hst.
  - apply (content_matches_eq _ body); [done| |by apply Hm]. by rewrite Hg, Ho, (Hs named Hn).
  - intros name h Hin Hreq. unfold says_headers in Hh. simpl in Hh.
    destruct (content_metadata (T := T)); [|rewrite Hh in Hin; by apply elem_of_nil in Hin].
    destruct Hh as (l & Hl & El). rewrite El in Hin. apply im_extend_elem in Hin as [Hin|Hin]; [by apply elem_of_nil in Hin|].
    apply list_elem_of_lookup in Hin as [i Hli]. destruct (Forall2_lookup_r _ _ _ _ _ Hl Hli) as (hd & Hhd & Ename & _ & Ereq & _).
    apply list_elem_of_lookup_2 in Hhd. apply list_elem_of_fmap in Hhd as (mem & -> & Hmem). simpl in *. subst name.
    apply (type_members_elem _ _ _ _ _ _ _ _ _ Hms) in Hmem.
    destruct (member_serialized _ named _ _ mem Es Hn Hmem) as [v Hv]; [congruence|].
    destruct (insert_headers_values _ _ _ _ _ Hi (bt_get_elem _ _ _ Hv)) as (n & Hname & [x Hx]).
    exists n. split; [done|]. rewrite Hg, Hx. by destruct (hm_get_all (rh_other_headers r) n).
Qed.

(** A response of the adapter is that of a value of the function. *)
Lemma route_handler_ok {E P R} `{!HttpResponseError E} (from_request : RequestContext → Request Body → rust HttpError P)
    (func : RequestContext → P → rust E R) (to_res : R → rust HttpError (Response Body)) rqctx request rsp :
  route_handler_handle from_request func to_res rqctx request = Ok rsp →
  ∃ params r, from_request rqctx request = Ok params ∧ func rqctx params = Ok r ∧ to_res r = Ok rsp.
Proof.
  assert (∀ A (m : rust E A) a, try_handler m = Ok a → m = Ok a) as Htry.
  { intros A [a'|e|] a; simpl; [by intros [= ->]| |done]. by destruct (lift_panics _). }
  unfold route_handler_handle, handler_func_handle.
  intros (params & Hp%Htry%map_err_ok & (r & Hr%Htry & E')%rust_bind_ok)%rust_bind_ok.
  destruct (to_res r) as [rsp'|e|] eqn:Et; [injection E' as ->|by apply Htry in E'|done]. by exists params, r.
Qed.

(** C11: The responses of a handler are what its operation in the document says: for
    a function that returns a coded response, and for one that returns a coded
    response with headers, each response has the status of the operation, its
    content type is the one that the operation lists, a body is there only where
    one is, and each header that the operation requires is there.  Headers that are
    added by hand can replace the content type only. *)
Theorem responses_documented {E P T Hd} c `{!HttpResponseError E} `{!HttpResponseContent T} `{!LawfulContent T}
    `{!Serialize Hd} `{!JsonSchema Hd} `{!SerializesMembers Hd}
    (from_request : RequestContext → Request Body → rust HttpError P)
    (func : RequestContext → P → rust E (Coded c T)) (func_headers : RequestContext → P → rust E (HeadersResponse c T Hd))
    rqctx request fuel m o rsp :
  says_response m o →
  (response_metadata_of (R := Coded c T) fuel = Some (Ok m) →
   route_handler_handle from_request func to_result rqctx request = Ok rsp → conforms m o rsp) ∧
  (response_metadata_of (R := HeadersResponse c T Hd) fuel = Some (Ok m) →
   (∀ params r, func_headers rqctx params = Ok r → keeps_content_type r) →
   route_handler_handle from_request func_headers to_result rqctx request = Ok rsp → conforms m o rsp).
Proof.
  intros Ho. split.
  - intros [= <-] (params & r & _ & _ & Hr)%route_handler_ok. by apply (coded_conforms r).
  - intros Hm Hk (params & r & _ & Hf & Hr)%route_handler_ok. eapply (headers_conform r); [done..|by eapply Hk|done].
Qed.

(** A redirect is made for the locations that are valid, and then its response has
    the location, no body, and the status of its type. *)
Lemma redirect_documented l :
  (∃ r, http_response_see_other l = Ok r) ↔ is_Some (hv_from_str l).
Proof.
  unfold http_response_see_other, http_redirect_error. destruct (hv_from_str l); [split; eauto|].
  destruct (internal_error_err (A := HeadersResponse HttpResponseSeeOtherStatus Empty RedirectHeaders)
    ("error encoding redirect URL " +:+ et_string_debug l +:+ ": " +:+ et_header_value)) as (x & -> & _).
  split; [by intros [? ?]|by intros [? ?]].
Qed.
End contents.
