(* ===== verification/ErrorSchema.v ===== *)
(** * The schemas of error bodies and of pages

    The hand-written [JsonSchema] of [HttpErrorResponseBody] in
    [dropshot/src/error.rs], and that the bodies of error responses are what it
    accepts: the schema agrees with the derived [Serialize]; and the [JsonSchema] of
    [ResultsPage] in [dropshot/src/pagination.rs]. *)
From S2P Require Import Prelude BTree Externals StatusCodes Body HttpError Schema SchemaTranslate SchemaSemantics ApiEndpoint.
From S2P Require Import ToMap Handler Metadata Pagination Responses.

(** The generator of [schemars]: a type's schema, or a reference to it, and the
    schema at the root, from the type's [schema_name] and [json_schema]; and the
    [json_schema] of [String]. *)
Class Schemars `{Crates} := {
  subschema_for : string → (SchemaGenerator → SchemaGenerator * Schema) → SchemaGenerator → SchemaGenerator * Schema;
  root_schema_for : string → (SchemaGenerator → SchemaGenerator * Schema) → bool → Schema * btree Schema;
  string_json_schema : SchemaGenerator → SchemaGenerator * Schema;
}.

Section error_schema.
Context `{Crates} `{!Schemars}.

Definition error_description : Metadata :=
  mk_metadata None None (Some "Error information from a response.") None false false false [].

Definition error_body_schema (str_schema : Schema) : Schema :=
  Object (mk_schema_object (Some error_description) (Some (Single IObject)) None None None None None None None
    (Some (mk_object_validation None None ["message"; "request_id"]
      [("error_code", str_schema); ("message", str_schema); ("request_id", str_schema)] [] None None)) None []).

Definition error_json_schema (g : SchemaGenerator) : SchemaGenerator * Schema :=
  let '(g, str_schema) := string_json_schema g in (g, error_body_schema str_schema).

#[export] Instance error_body_json_schema : JsonSchema HttpErrorResponseBody := {
  schema_name := "Error";
  make_subschema_for := subschema_for "Error" error_json_schema;
  json_schema_type := mk_json_schema_type "Error" (root_schema_for "Error" error_json_schema);
}.

(** The derived [Serialize], with [skip_serializing_if] for the code. *)
Definition error_body_json (b : HttpErrorResponseBody) : Json :=
  JObject (bt_collect
    ([("request_id", JString (body_request_id b))] ++
     match body_error_code b with None => [] | Some c => [("error_code", JString c)] end ++
     [("message", JString (body_message b))])).

Context `{!@JsonSemantics cr_json} (rho : string → Json → bool) (str_schema : Schema).

(** What the schema accepts: objects with a message and a request id, and if there
    is a code it is a string too, not null. *)
Lemma error_body_schema_accepts v :
  js_valid rho (error_body_schema str_schema) v = true ↔
  ∃ o, v = JObject o ∧ (∃ m, bt_get "message" o = Some m ∧ js_valid rho str_schema m = true) ∧
    (∃ i, bt_get "request_id" o = Some i ∧ js_valid rho str_schema i = true) ∧
    (∀ c, bt_get "error_code" o = Some c → js_valid rho str_schema c = true).
Proof.
  destruct v as [| | | | |o]; try (split; [by cbn|by intros (? & ? & _)]).
  unfold error_body_schema. cbn -[bt_get bt_contains schema_object_is_nullable].
  rewrite andb_false_r, orb_false_l, !andb_true_r, !andb_true_iff. unfold bt_contains, opt_ok.
  destruct (bt_get "error_code" o) as [c|] eqn:Ec, (bt_get "message" o) as [m|] eqn:Em, (bt_get "request_id" o) as [i|] eqn:Ei;
    split; try (intros ([? [? ?]] & ? & ?); try done; exists o; naive_solver).
  all: intros (o' & [= <-] & (m' & Em' & ?) & (i' & Ei' & ?) & Hc); simplify_eq; repeat split; try done; by apply Hc.
Qed.

Hypothesis strings_accepted : ∀ s, js_valid rho str_schema (JString s) = true.

Lemma error_body_documented b : js_valid rho (error_body_schema str_schema) (error_body_json b) = true.
Proof.
  apply error_body_schema_accepts. unfold error_body_json. eexists. split; [done|].
  destruct (body_error_code b) as [c|]; simpl; (split; [by eexists|split; [by eexists|]]); by intros c' [= <-].
Qed.
End error_schema.

Section pages.
Context `{Crates} `{!Schemars} {ItemType : Type} `{!JsonSchema ItemType}.
(** The derived [json_schema] of [ResultsPageSchema<ItemType>]. *)
Variable results_page_schema : SchemaGenerator → SchemaGenerator * Schema.

Definition results_page_json_schema : JsonSchema (ResultsPage ItemType) :=
  let name := schema_name (T := ItemType) +:+ "ResultsPage" in {|
    schema_name := name;
    make_subschema_for := subschema_for name results_page_schema;
    json_schema_type := mk_json_schema_type name (root_schema_for name results_page_schema);
  |}.
End pages.
