(* ===== verification/WebSocket.v ===== *)
(** * WebSocket upgrades

    [dropshot/src/websocket.rs]: the extractor that checks a request's upgrade
    headers, the response that accepts the upgrade, and the task that runs the
    user's handler on the upgraded connection.  SHA-1 and the standard base64
    alphabet are parameters, as are the future of the upgraded connection and
    what it yields. *)
From S2P Require Import Prelude BTree Externals StatusCodes Body HttpError Config Schema ApiEndpoint Metadata.
From S2P Require Import Router RouterLookup Handler.

Class WebsocketCrates := {
  (** [Sha1] of all the bytes it was updated with; the [STANDARD] alphabet. *)
  sha1 : string → string;
  b64_standard : string → string;
  (** [OnUpgrade], and the connection. *)
  OnUpgrade : Type;
  Upgraded : Type;
}.

(** Encoded text is visible. *)
Class WebsocketCratesLaws `{WebsocketCrates} : Prop := {
  b64_standard_visible : ∀ s,
    forallb (λ a, let n := Ascii.nat_of_ascii a in ((32 <=? n) && (n <? 127))%nat)
      (String.list_ascii_of_string (b64_standard s)) = true;
}.

Definition CONNECTION : string := "connection".
Definition UPGRADE : string := "upgrade".
Definition SEC_WEBSOCKET_VERSION : string := "sec-websocket-version".
Definition SEC_WEBSOCKET_KEY : string := "sec-websocket-key".
Definition SEC_WEBSOCKET_ACCEPT : string := "sec-websocket-accept".
Definition WS_GUID : string := "258EAFA5-E914-47DA-95CA-C5AB0DC85B11".

Section websocket.
Context `{Crates} `{!HttpBuilder} `{!HeaderMapExtend} `{WebsocketCrates}.
Variable builder_error : Builder → string.
(** [hyper::upgrade::on]. *)
Variable upgrade_on : Request Body → OnUpgrade.
(** [Uri::to_string]. *)
Variable uri_to_string : Request Body → string.

(** ** The response *)

Record SwitchingToWebsocket := mk_switching { sw_accept_key : string }.

Definition switching_to_result (self : SwitchingToWebsocket) : rust HttpError (Response Body) :=
  try_body builder_error
    (builder_header
      (builder_header
        (builder_header (builder_status builder_new (status_const 101)) CONNECTION "Upgrade")
        UPGRADE "websocket")
      SEC_WEBSOCKET_ACCEPT (sw_accept_key self)) empty_body.

Definition switching_metadata : ApiEndpointResponse :=
  mk_endpoint_response (Some (Static (Bool false) [])) [] (Some (status_const 101))
    (Some "Negotiating protocol upgrade from HTTP/1.1 to WebSocket").

(** ** The extractor *)

Record WebsocketUpgradeInner := mk_upgrade {
  wu_upgrade_fut : OnUpgrade;
  wu_accept_key : string;
  wu_route : string;
}.

(** [WebsocketUpgrade]: what is left to handle. *)
Definition WebsocketUpgrade : Type := option WebsocketUpgradeInner.

Definition derive_accept_key (request_key : string) : string := b64_standard (sha1 (request_key +:+ WS_GUID)).

(** The pieces of a header between commas and spaces, one of which must be the
    token, in any case. *)
Definition header_has_token (headers : HeaderMap) (name token : string) : bool :=
  match hm_get headers name ≫= hv_to_str with
  | Some hv => existsb (λ vs, eq_ignore_ascii_case vs token)
                 (split_pred (λ c, Ascii.eqb c "," || Ascii.eqb c " ") hv)
  | None => false
  end.

Definition websocket_from_request (_ : RequestContext) (request : Request Body) : rust HttpError WebsocketUpgrade :=
  let headers := req_headers request in
  if negb (header_has_token headers CONNECTION "upgrade")
  then Err (for_bad_request None "expected connection upgrade")
  else if negb (header_has_token headers UPGRADE "websocket")
  then Err (for_bad_request None "unexpected protocol for upgrade")
  else if negb (bool_decide (hv_as_bytes <$> hm_get headers SEC_WEBSOCKET_VERSION = Some "13"))
  then Err (for_bad_request None "missing or invalid websocket version")
  else
    accept_key ← ok_or ((λ hv, derive_accept_key (hv_as_bytes hv)) <$> hm_get headers SEC_WEBSOCKET_KEY)
                   (for_bad_request None "missing websocket key");
    Ok (Some (mk_upgrade (upgrade_on request) accept_key (uri_to_string request))).

Definition websocket_metadata (_ : ApiEndpointBodyContentType) : ExtractorMetadata :=
  mk_extractor_metadata Websocket [].

(** ** Handling *)

(** [handle]: the result, what is left of the upgrade, and the future that a
    task has been spawned for. *)
Definition websocket_handle (self : WebsocketUpgrade) :
    rust HttpError SwitchingToWebsocket * WebsocketUpgrade * option OnUpgrade :=
  match self with
  | None => (raise (for_internal_error "Tried to handle websocket twice"), None, None)
  | Some inner => (Ok (mk_switching (wu_accept_key inner)), None, Some (wu_upgrade_fut inner))
  end.

Inductive ws_event := HandlerFailed (e : string) | UpgradeFailed (e : string) | NotHandled (route : string).

(** The spawned task: its result and what it logs, from what the future yields
    and what the handler does with the connection. *)
Definition websocket_task (await : OnUpgrade → Upgraded + string) (handler : Upgraded → unit + string)
    (upgrade_fut : OnUpgrade) : (unit + string) * list ws_event :=
  match await upgrade_fut with
  | inl upgrade =>
      match handler upgrade with
      | inl x => (inl x, [])
      | inr e => (inr e, [HandlerFailed e])
      end
  | inr e => (inr e, [UpgradeFailed e])
  end.

(** [Drop]. *)
Definition websocket_drop (self : WebsocketUpgrade) : list ws_event :=
  match self with Some inner => [NotHandled (wu_route inner)] | None => [] end.
End websocket.

(** ** Facts *)

Section facts.
Context `{Crates} `{!HttpBuilder} `{!HeaderMapExtend} `{WebsocketCrates}.
Context `{!HttpCrateLaws} `{!HeaderNameLaws} `{!HttpBuilderLaws} `{!HeaderMapRoom} `{!WebsocketCratesLaws}.
Variables (builder_error : Builder → string) (upgrade_on : Request Body → OnUpgrade)
  (uri_to_string : Request Body → string).

Abbreviation from_request := (websocket_from_request upgrade_on uri_to_string).
Abbreviation to_result := (switching_to_result builder_error).

(** One of the pieces of the header's text is the token, in any case. *)
Definition lists_token (headers : HeaderMap) (name token : string) : Prop :=
  ∃ hv text piece, hm_get headers name = Some hv ∧ hv_to_str hv = Some text ∧
    piece ∈ split_pred (λ c, Ascii.eqb c "," || Ascii.eqb c " ") text ∧
    to_ascii_lowercase piece = to_ascii_lowercase token.

Lemma header_has_token_spec headers name token :
  header_has_token headers name token = true ↔ lists_token headers name token.
Proof.
  unfold header_has_token, lists_token. destruct (hm_get headers name) as [hv|]; simpl; [|naive_solver].
  destruct (hv_to_str hv) as [text|] eqn:Et; [|naive_solver]. rewrite existsb_exists. split.
  - intros (piece & Hin & Hp). unfold eq_ignore_ascii_case in Hp. apply String.eqb_eq in Hp.
    exists hv, text, piece. by rewrite list_elem_of_In.
  - intros (? & ? & piece & [= <-] & E & Hin & Hp). simplify_eq. exists piece. rewrite <-list_elem_of_In.
    split; [done|]. unfold eq_ignore_ascii_case. by apply String.eqb_eq.
Qed.

(** The headers of a WebSocket handshake. *)
Definition handshake (headers : HeaderMap) (key : HeaderValue) : Prop :=
  lists_token headers CONNECTION "upgrade" ∧ lists_token headers UPGRADE "websocket" ∧
  hv_as_bytes <$> hm_get headers SEC_WEBSOCKET_VERSION = Some "13" ∧ hm_get headers SEC_WEBSOCKET_KEY = Some key.

Lemma from_request_ok rqctx request ws :
  from_request rqctx request = Ok ws ↔
  ∃ key, handshake (req_headers request) key ∧
    ws = Some (mk_upgrade (upgrade_on request) (derive_accept_key (hv_as_bytes key)) (uri_to_string request)).
Proof.
  unfold websocket_from_request, handshake. setoid_rewrite <-header_has_token_spec.
  destruct (header_has_token _ CONNECTION _); simpl; [|naive_solver].
  destruct (header_has_token _ UPGRADE _); simpl; [|naive_solver].
  case_bool_decide as Ev; simpl; [|naive_solver].
  destruct (hm_get (req_headers request) SEC_WEBSOCKET_KEY) as [key|]; simpl; [|naive_solver].
  split; [intros [= <-]; exists key; by split_and!|]. by intros (? & (_ & _ & _ & [= <-]) & ->).
Qed.

(** a request is taken for a WebSocket upgrade exactly if it has the headers
    of a handshake: the connection is to be upgraded, to a WebSocket, of version
    13, with a key.  The key the response will have is made from that key.  Every
    other request is answered by a 400. *)
Lemma websocket_from_request_spec rqctx request :
  (∀ ws, from_request rqctx request = Ok ws ↔
     ∃ key, handshake (req_headers request) key ∧
       ws = Some (mk_upgrade (upgrade_on request) (derive_accept_key (hv_as_bytes key)) (uri_to_string request))) ∧
  ((∃ key, handshake (req_headers request) key) ∨ ∃ e, from_request rqctx request = Err e ∧ is_bad_request e).
Proof.
  split; [intros ws; apply from_request_ok|].
  destruct (from_request rqctx request) as [ws|e|msg] eqn:E.
  - apply from_request_ok in E as (key & Hk & _). left. by exists key.
  - right. exists e. split; [done|]. unfold websocket_from_request in E.
    repeat (case_match; [injection E as <-; by eexists|]).
    destruct (hm_get (req_headers request) SEC_WEBSOCKET_KEY); simpl in E; [done|]. injection E as <-. by eexists.
  - unfold websocket_from_request in E. repeat (case_match; [done|]).
    by destruct (hm_get (req_headers request) SEC_WEBSOCKET_KEY).
Qed.

(** The token names are valid. *)
Lemma header_name_id s :
  forallb (λ a, let n := Ascii.nat_of_ascii a in
             ((65 <=? n) && (n <=? 90) || (97 <=? n) && (n <=? 122) || (n =? 45))%nat)
    (String.list_ascii_of_string s) = true → s ≠ "" →
  (N.of_nat (String.length s) <=? 65535)%N = true → to_ascii_lowercase s = s → header_name_try_from s = Some s.
Proof.
  intros Hs Hne Hm Hl. destruct (header_name_token s Hs Hne Hm) as [n En]. rewrite En.
  apply header_name_lower in En as ->. by rewrite Hl.
Qed.

(** C33: accepting an upgrade.  What the extractor returns can be handled once: a
    task is spawned for the request's connection, and the response has status
    101, the headers that accept the handshake and nothing else; the accept key is
    the encoded digest of the request's key with the protocol's GUID.  Handling it
    again is an internal error and spawns no task. *)
Theorem websocket_accept_spec rqctx request ws :
  from_request rqctx request = Ok ws →
  ∃ key sw rsp,
    hm_get (req_headers request) SEC_WEBSOCKET_KEY = Some key ∧
    websocket_handle ws = (Ok sw, None, Some (upgrade_on request)) ∧
    to_result sw = Ok rsp ∧ resp_status rsp = status_const 101 ∧ resp_body rsp = empty_body ∧
    (∀ n, hv_as_bytes <$> hm_get_all (resp_headers rsp) n =
       (if String.eqb CONNECTION n then ["Upgrade"] else []) ++
       (if String.eqb UPGRADE n then ["websocket"] else []) ++
       (if String.eqb SEC_WEBSOCKET_ACCEPT n then [b64_standard (sha1 (hv_as_bytes key +:+ WS_GUID))] else [])) ∧
    ∃ e, websocket_handle (websocket_handle ws).1.2 = (Err e, None, None) ∧ is_internal_error e.
Proof.
  intros (key & (_ & _ & _ & Hk) & ->)%from_request_ok.
  exists key, (mk_switching (derive_accept_key (hv_as_bytes key))).
  destruct (hv_from_str_visible "Upgrade") as [v1 E1]; [done|].
  destruct (hv_from_str_visible "websocket") as [v2 E2]; [done|].
  destruct (hv_from_str_visible (derive_accept_key (hv_as_bytes key)) (b64_standard_visible _)) as [v3 E3].
  destruct (hm_append_room hm_new CONNECTION v1) as [h1 A1]; [rewrite hm_iter_new; by apply Nat.ltb_lt|].
  pose proof (hm_iter_append _ _ _ _ A1) as L1. rewrite hm_iter_new in L1. simpl in L1.
  destruct (hm_append_room h1 UPGRADE v2) as [h2 A2]; [rewrite L1; by apply Nat.ltb_lt|].
  pose proof (hm_iter_append _ _ _ _ A2) as L2. rewrite L1 in L2.
  destruct (hm_append_room h2 SEC_WEBSOCKET_ACCEPT v3) as [h3 A3]; [rewrite L2; by apply Nat.ltb_lt|].
  exists (mk_response (status_const 101) h3 false empty_body). split; [done|]. split; [done|]. split_and!; try done.
  - unfold switching_to_result, try_body. rewrite !builder_inner_header, builder_inner_status, builder_inner_new. simpl.
    rewrite !header_name_id, E1 by done. simpl. rewrite A1. simpl. rewrite E2. simpl. rewrite A2. simpl.
    rewrite E3. simpl. by rewrite A3.
  - intros n. simpl. rewrite (hm_get_all_append _ _ _ _ n A3), (hm_get_all_append _ _ _ _ n A2),
      (hm_get_all_append _ _ _ _ n A1), hm_get_all_new.
    apply hv_from_str_bytes in E1, E2, E3.
    destruct (String.eqb CONNECTION n), (String.eqb UPGRADE n), (String.eqb SEC_WEBSOCKET_ACCEPT n);
      simpl; by rewrite ?E1, ?E2, ?E3.
  - destruct (internal_error_err (A := SwitchingToWebsocket) "Tried to handle websocket twice") as (e & He & Hi & _).
    exists e. split; [|done]. simpl. unfold internal_error in He. by rewrite He.
Qed.
End facts.
