(* ===== verification/Extractors.v ===== *)
(** * Extractors

    How a handler's arguments are read from a request: the body extractors of
    [dropshot/src/extractor/body.rs] with the limit on a body's size, and
    [Path], [Query] and [Header] of the other files of [extractor/].
    Deserialization ([serde_json], [serde_urlencoded] and the [Deserialize] of
    the user's types) is a parameter; texts stand for its errors. *)
From S2P Require Import Prelude BTree Externals FromMap StatusCodes Body HttpError Config Schema ApiEndpoint.
From S2P Require Import TypeUtil Router RouterSpec RouterLookup ApiDescription Handler.

Section extractors.
Context `{Crates}.

(** ** [StreamingBody] *)

Record StreamingBody := mk_streaming { sb_body : Body; sb_cap : N }.

Definition streaming_new (body : Body) (cap : N) : StreamingBody := mk_streaming body cap.

(** [__from_bytes], for doctests. *)
Definition streaming_from_bytes (data : string) : StreamingBody :=
  mk_streaming (with_content data) (bytes_len data).

Definition streaming_error (e : string) : HttpError :=
  for_bad_request None ("error streaming request body: " +:+ e).

Definition too_large (cap : N) : HttpError :=
  for_bad_request None ("request body exceeded maximum size of " +:+ show_N cap +:+ " bytes").

(** [into_stream]: the items of the stream, from [bytes_read] on.  An error
    ends the stream. *)
Fixpoint stream_from (cap bytes_read : N) (frames : list (Frame + string)) : list (string + HttpError) :=
  match frames with
  | [] => []
  | inr e :: _ => [inr (streaming_error e)]
  | inl Trailers :: frames => stream_from cap bytes_read frames
  | inl (Data buf) :: frames =>
      let len := bytes_len buf in
      if (cap <? usize_add bytes_read len)%N then
        match http_dump_body frames with
        | Err e => [inr (streaming_error e)]
        | _ => [inr (too_large cap)]
        end
      else inl buf :: stream_from cap (usize_add bytes_read len) frames
  end.

Definition into_stream (self : StreamingBody) : list (string + HttpError) :=
  stream_from (sb_cap self) 0 (body_frames (sb_body self)).

(** [try_fold] over the stream: [into_bytes_mut]. *)
Fixpoint try_fold (out : string) (stream : list (string + HttpError)) : rust HttpError string :=
  match stream with
  | [] => Ok out
  | inl chunk :: stream => try_fold (out +:+ chunk) stream
  | inr e :: _ => Err e
  end.

Definition into_bytes_mut (self : StreamingBody) : rust HttpError string := try_fold "" (into_stream self).

(** [StreamingBody], [UntypedBody] as extractors. *)
Definition streaming_from_request (rqctx : RequestContext) (request : Request Body) : rust HttpError StreamingBody :=
  Ok (mk_streaming (req_body request) (request_body_max_bytes rqctx)).

Definition untyped_from_request (rqctx : RequestContext) (request : Request Body) : rust HttpError string :=
  into_bytes_mut (streaming_new (req_body request) (request_body_max_bytes rqctx)).

(** [UntypedBody::as_str]; [from_utf8] returns the text or an error. *)
Definition untyped_as_str (from_utf8 : string → string + string) (content : string) : rust HttpError string :=
  match from_utf8 content with
  | inl s => Ok s
  | inr e => Err (for_bad_request None ("failed to parse body as UTF-8 string: " +:+ e))
  end.

(** ** [MultipartBody]: the body's data and the boundary *)

Definition BOUNDARY : string := "boundary=".

(** [split("boundary=").nth(1)]: from the first occurrence to the next. *)
Fixpoint split_str_at (sep s : string) : option string :=
  if starts_with sep s then Some (drop_prefix_len sep s)
  else match s with "" => None | String _ s => split_str_at sep s end.

Fixpoint before_str (sep s : string) : string :=
  if starts_with sep s then "" else match s with "" => "" | String a s => String a (before_str sep s) end.

Definition split_nth_1 (sep s : string) : option string :=
  rest ← split_str_at sep s; Some (before_str sep rest).

Variable to_str_error : HeaderValue → string.

Definition multipart_from_request (_ : RequestContext) (request : Request Body) :
    rust HttpError (list (string + string) * string) :=
  content_type ← ok_or (hm_get (req_headers request) CONTENT_TYPE)
                   (for_bad_request None "missing content-type header");
  content_type ← ok_or (hv_to_str content_type)
                   (for_bad_request None ("invalid content type: " +:+ to_str_error content_type));
  boundary ← ok_or (split_nth_1 BOUNDARY content_type)
               (for_bad_request None "missing boundary in content-type header");
  Ok (data_stream (body_frames (req_body request)), boundary).

(** ** [TypedBody] *)

(** The text before the first [;]. *)
Definition before_semicolon (s : string) : string :=
  match split_once ";"%char s with Some (before, _) => before | None => s end.

Definition media_type (headers : HeaderMap) : rust HttpError string :=
  match hm_get headers CONTENT_TYPE with
  | None => Ok CONTENT_TYPE_JSON
  | Some hv => ok_or (hv_to_str hv) (for_bad_request None ("invalid content type: " +:+ to_str_error hv))
  end.

Section typed.
Context {BodyType : Type}.
(** [serde_json] and [serde_urlencoded] at the body type. *)
Variables (json_parse urlencoded_parse : string → BodyType + string).

Definition parse_body (what : string) (parse : string → BodyType + string) (body : string) : rust HttpError BodyType :=
  match parse body with
  | inl content => Ok content
  | inr e => Err (for_bad_request None ("unable to parse " +:+ what +:+ " body: " +:+ e))
  end.

Definition http_request_load_body (request : Request Body) (request_body_max_bytes : N)
    (expected_body_content_type : ApiEndpointBodyContentType) : rust HttpError BodyType :=
  body ← into_bytes_mut (streaming_new (req_body request) request_body_max_bytes);
  content_type ← media_type (req_headers request);
  let mime_type := to_ascii_lowercase (trim_end (before_semicolon content_type)) in
  body_content_type ← map_err (λ e, for_bad_request None ("unsupported content-type: " +:+ e))
                        (from_mime_type mime_type);
  match expected_body_content_type, body_content_type with
  | Json_, Json_ => parse_body "JSON" json_parse body
  | UrlEncoded, UrlEncoded => parse_body "URL-encoded" urlencoded_parse body
  | expected, requested =>
      Err (for_bad_request None ("expected content type " +:+ char_str (Ascii.ascii_of_nat 34)
        +:+ ApiEndpoint.mime_type expected +:+ char_str (Ascii.ascii_of_nat 34) +:+ ", got "
        +:+ char_str (Ascii.ascii_of_nat 34) +:+ ApiEndpoint.mime_type requested
        +:+ char_str (Ascii.ascii_of_nat 34)))
  end.

Definition typed_from_request (rqctx : RequestContext) (request : Request Body) : rust HttpError BodyType :=
  http_request_load_body request (request_body_max_bytes rqctx) (rem_body_content_type (rc_endpoint rqctx)).
End typed.

(** ** Metadata of the body extractors *)

Definition binary_schema : Schema :=
  Object (mk_schema_object None (Some (Single IString)) (Some "binary") None None None None None None None None []).

Definition multipart_metadata (_ : ApiEndpointBodyContentType) : ExtractorMetadata :=
  mk_extractor_metadata NoExtension
    [new_body MultipartFormData true (Static binary_schema []) []].

Definition typed_body_metadata (schema_name : string) (subschema : SchemaGenerator → SchemaGenerator * Schema)
    (content_type : ApiEndpointBodyContentType) : ExtractorMetadata :=
  mk_extractor_metadata NoExtension [new_body content_type true (Gen schema_name subschema) []].

Definition untyped_metadata : ExtractorMetadata :=
  mk_extractor_metadata NoExtension [new_body Bytes true (Static binary_schema []) []].

(** ** [Path], [Query] and [Header] *)

Context {float : Type} (parse_float : float_type → string → option float).

(** The path type is given by its [Deserialize]. *)
Definition http_extract_path_params {T} (path_type : de float T) (path_params : VariableSet) :
    rust HttpError T :=
  match from_map parse_float path_type path_params with
  | Ok params => Ok params
  | Panic msg => Panic msg
  | Err message =>
      if starts_with "missing field: " message
      then Panic "assertion failed: the message does not start with missing field"
      else Err (for_bad_request None ("bad parameter in URL path: " +:+ message))
  end.

(** [serde_urlencoded::from_str] at the query type. *)
Definition http_request_load_query {T} (urlencoded_from_str : string → T + string) (request : RequestInfo) :
    rust HttpError T :=
  match urlencoded_from_str (default "" (ri_query request)) with
  | inl q => Ok q
  | inr e => Err (for_bad_request None ("unable to parse query string: " +:+ e))
  end.

(** Every header of the request must be text; of a repeated one the last value
    counts. *)
Definition http_request_load_header {T} (header_type : de float T) (request : RequestInfo) :
    rust HttpError T :=
  headers ← try_map (λ p : string * HeaderValue,
              match hv_to_str p.2 with
              | Some v => Ok (p.1, v)
              | None => Err (for_bad_request None (to_str_error p.2))
              end) (hm_iter (ri_headers request));
  match from_map_insensitive parse_float header_type (bt_collect headers) with
  | Ok inner => Ok inner
  | Panic msg => Panic msg
  | Err message => Err (for_bad_request None ("error processing headers: " +:+ message))
  end.
End extractors.

(** ** Facts *)

Section facts.
Context `{Crates}.
Implicit Types (frames : list (Frame + string)) (items : list (string + HttpError)).

(** What a stream yields before it ends or fails. *)
Definition yields items : list string := omap (λ i, match i with inl c => Some c | inr _ => None end) items.

(** A [Bytes] holds at most [isize::MAX] bytes. *)
Definition chunks_fit frames : Prop := Forall (λ s, (bytes_len s < 2 ^ 63)%N) (body_data frames).

Lemma yields_app l1 l2 : yields (l1 ++ l2) = yields l1 ++ yields l2.
Proof. apply omap_app. Qed.

Lemma yields_chunks chunks : yields (inl <$> chunks) = chunks.
Proof. induction chunks as [|c l IH]; [done|]. exact (f_equal (cons c) IH). Qed.

Lemma stream_from_spec cap n frames :
  (cap < 2 ^ 63)%N → (n ≤ cap)%N → chunks_fit frames →
  ∃ chunks, chunks `prefix_of` body_data frames ∧ (n + total_len chunks ≤ cap)%N ∧
    (stream_from cap n frames = inl <$> chunks ∧ chunks = body_data frames ∧ body_error frames = None ∨
     ∃ e, stream_from cap n frames = (inl <$> chunks) ++ [inr e] ∧ is_bad_request e ∧
       (is_Some (body_error frames) ∨ (cap < n + total_len (body_data frames))%N)).
Proof.
  intros Hcap. revert n. induction frames as [|[[buf|]|err] frames IH]; intros n Hn Hf.
  - exists []. split; [done|]. split; [simpl; lia|]. by left.
  - unfold chunks_fit in Hf. cbn [stream_from body_data] in *. apply Forall_cons in Hf as [Hbuf Hf'].
    rewrite (usize_add_small n (bytes_len buf)) by lia.
    destruct (N.ltb_spec cap (n + bytes_len buf)%N) as [Hlt|Hle].
    + exists []. split; [apply prefix_nil|]. split; [simpl; lia|]. right.
      unfold http_dump_body. destruct (dump_from_answer 0 frames) as [[[m ->] _]|(e & -> & _)];
        eexists; (split; [done|]); (split; [by eexists|]); right; rewrite total_len_cons; lia.
    + destruct (IH (n + bytes_len buf)%N Hle Hf') as (chunks & Hp & Ht & Hr). exists (buf :: chunks).
      split; [by apply prefix_cons|]. split; [rewrite total_len_cons; lia|].
      destruct Hr as [(-> & -> & He)|(e & -> & Hb & He)]; [by left|right].
      exists e. split; [done|]. split; [done|]. destruct He as [He|He]; [by left|].
      right. rewrite total_len_cons. lia.
  - exact (IH n Hn Hf).
  - exists []. split; [done|]. split; [simpl; lia|]. right.
    eexists. split; [done|]. split; [by eexists|]. left. by eexists.
Qed.

Lemma try_fold_chunks out chunks rest :
  try_fold out ((inl <$> chunks) ++ rest) = try_fold (out +:+ String.concat "" chunks) rest.
Proof.
  revert out. induction chunks as [|c l IH]; intros out.
  - simpl. by rewrite string_app_nil_r.
  - change (try_fold (out +:+ c) ((inl <$> l) ++ rest) = try_fold (out +:+ String.concat "" (c :: l)) rest).
    by rewrite IH, concat_cons, string_app_assoc.
Qed.

(** The body is read in full and within the limit. *)
Definition body_within cap frames (bytes : string) : Prop :=
  body_error frames = None ∧ (total_len (body_data frames) ≤ cap)%N ∧ bytes = String.concat "" (body_data frames).

Lemma into_bytes_mut_spec body cap :
  (cap < 2 ^ 63)%N → chunks_fit (body_frames body) →
  (∃ bytes, into_bytes_mut (streaming_new body cap) = Ok bytes ∧ body_within cap (body_frames body) bytes) ∨
  (∃ e, into_bytes_mut (streaming_new body cap) = Err e ∧ is_bad_request e ∧
     ∀ bytes, ¬ body_within cap (body_frames body) bytes).
Proof.
  intros Hcap Hf. unfold into_bytes_mut, into_stream. cbn [sb_cap sb_body streaming_new].
  destruct (stream_from_spec cap 0 (body_frames body) Hcap ltac:(lia) Hf)
    as (chunks & Hp & Ht & [(-> & Hc & He)|(e & -> & Hb & He)]).
  - left. rewrite <-(app_nil_r (inl <$> chunks)), try_fold_chunks. eexists. split; [done|].
    subst chunks. split_and!; [done|lia|done].
  - right. rewrite try_fold_chunks. exists e. split; [done|]. split; [done|].
    intros bytes (Hne & Hle & _). destruct He as [[? He]|He]; [congruence|lia].
Qed.
(** The content type the request declares, JSON when it declares none. *)
Definition declares (headers : HeaderMap) (ct : ApiEndpointBodyContentType) : Prop :=
  match hm_get headers CONTENT_TYPE with
  | None => ct = Json_
  | Some hv => ∃ text, hv_to_str hv = Some text ∧
      from_mime_type (to_ascii_lowercase (trim_end (before_semicolon text))) = Ok ct
  end.

Lemma declares_cases to_str_error headers :
  match (content_type ← media_type to_str_error headers;
         map_err (λ e, for_bad_request None ("unsupported content-type: " +:+ e))
           (from_mime_type (to_ascii_lowercase (trim_end (before_semicolon content_type))))) with
  | Ok ct => ∀ ct', declares headers ct' ↔ ct' = ct
  | Err e => is_bad_request e ∧ ∀ ct, ¬ declares headers ct
  | Panic _ => False
  end.
Proof.
  unfold media_type, declares. destruct (hm_get headers CONTENT_TYPE) as [hv|]; [|by intros ct'].
  destruct (hv_to_str hv) as [text|]; simpl.
  - pose proof (from_mime_type_answer (to_ascii_lowercase (trim_end (before_semicolon text)))) as Ha.
    destruct (from_mime_type _) as [ct|e|] eqn:E; simpl; [| |by destruct Ha as [[? ?]|?]].
    + intros ct'. split; [intros (t & [= <-] & E'); congruence|]. intros ->. by exists text.
    + split; [by eexists|]. intros ct (t & [= <-] & E'). congruence.
  - split; [by eexists|]. by intros ct (? & ? & _).
Qed.
End facts.

Section properties.
Context `{Crates}.
Implicit Types (frames : list (Frame + string)).

(** C36: reading a body as a stream never yields more than the limit: the chunks
    are the first ones of the body, unchanged; all of them come, and no error,
    exactly when the body has no error and fits; otherwise the last item is a
    400, and the only error. *)
Theorem streaming_body_spec body cap :
  (cap < 2 ^ 63)%N → chunks_fit (body_frames body) →
  let items := into_stream (streaming_new body cap) in
  yields items `prefix_of` body_data (body_frames body) ∧
  (total_len (yields items) ≤ cap)%N ∧
  (items = inl <$> body_data (body_frames body) ↔
     body_error (body_frames body) = None ∧ (total_len (body_data (body_frames body)) ≤ cap)%N) ∧
  (items = inl <$> yields items ∨ ∃ e, items = (inl <$> yields items) ++ [inr e] ∧ is_bad_request e).
Proof.
  intros Hcap Hf items. unfold items, into_stream. cbn [sb_cap sb_body streaming_new].
  destruct (stream_from_spec cap 0 (body_frames body) Hcap ltac:(lia) Hf)
    as (chunks & Hp & Ht & [(-> & -> & He)|(e & -> & Hb & He)]).
  - rewrite yields_chunks. split_and!; [done|lia|by split; [split; [done|lia]|]|by left].
  - rewrite yields_app, yields_chunks. simpl. rewrite app_nil_r. split_and!; [done|lia| |right; by exists e].
    split.
    + intros E. apply (f_equal yields) in E as Ey. rewrite yields_app, !yields_chunks in Ey. simpl in Ey.
      rewrite app_nil_r in Ey. rewrite <-Ey in E. apply (f_equal length) in E. rewrite length_app in E. simpl in E. lia.
    + intros [Hne Hle]. destruct He as [[? He]|He]; [congruence|lia].
Qed.

Context {BodyType : Type} (to_str_error : HeaderValue → string).
Variables (json_parse urlencoded_parse : string → BodyType + string).

(** a typed body is read exactly when the body fits the limit, its declared
    media type, up to case and parameters, is the endpoint's and is JSON or
    URL-encoded, and the bytes parse as that; the rest is refused with a 400,
    without a panic. *)
Lemma http_request_load_body_spec request max expected :
  (max < 2 ^ 63)%N → chunks_fit (body_frames (req_body request)) →
  (∀ v, http_request_load_body to_str_error json_parse urlencoded_parse request max expected = Ok v ↔
     ∃ bytes, body_within max (body_frames (req_body request)) bytes ∧ declares (req_headers request) expected ∧
       (expected = Json_ ∧ json_parse bytes = inl v ∨ expected = UrlEncoded ∧ urlencoded_parse bytes = inl v)) ∧
  (∀ e, http_request_load_body to_str_error json_parse urlencoded_parse request max expected = Err e →
     is_bad_request e) ∧
  (∀ m, http_request_load_body to_str_error json_parse urlencoded_parse request max expected ≠ Panic m).
Proof.
  intros Hmax Hf. unfold http_request_load_body.
  destruct (into_bytes_mut_spec (req_body request) max Hmax Hf) as [(bytes & -> & Hw)|(e & -> & Hb & Hn)]; simpl.
  2: { split_and!; [|by intros ? [= <-]|done]. intros v. split; [done|]. by intros (bytes & Hw & _); destruct (Hn bytes). }
  assert (∀ b, body_within max (body_frames (req_body request)) b ↔ b = bytes) as Hbytes.
  { intros b. destruct Hw as (? & ? & ->). split; [by intros (_ & _ & ->)|]. by intros ->. }
  pose proof (declares_cases to_str_error (req_headers request)) as Hd.
  destruct (media_type to_str_error (req_headers request)) as [text|e|]; simpl in *; [| |done].
  2: { destruct Hd as [Hb Hn]. split_and!; [|by intros ? [= <-]|done]. intros v. split; [done|].
       by intros (? & _ & Hd & _); destruct (Hn expected). }
  destruct (map_err _ (from_mime_type _)) as [ct|e|]; simpl in *; [| |done].
  2: { destruct Hd as [Hb Hn]. split_and!; [|by intros ? [= <-]|done]. intros v. split; [done|].
       by intros (? & _ & Hd & _); destruct (Hn expected). }
  setoid_rewrite Hbytes. setoid_rewrite Hd. unfold parse_body.
  destruct expected, ct; cbn [map_err].
  all: try (split_and!; [|by intros e [= <-]; eexists|done]; intros v; split; [done|];
    by intros (b & _ & E & [[? _]|[? _]])).
  - destruct (json_parse bytes) as [x|x] eqn:Ex; (split_and!; [intros v|intros e|done]);
      [|done| |by intros [= <-]; eexists].
    + split; [intros [= ->]; exists bytes; by repeat (split || left)|].
      intros (b & -> & _ & [[_ E]|[? _]]); congruence.
    + split; [done|]. intros (b & -> & _ & [[_ E]|[? _]]); congruence.
  - destruct (urlencoded_parse bytes) as [x|x] eqn:Ex; (split_and!; [intros v|intros e|done]);
      [|done| |by intros [= <-]; eexists].
    + split; [intros [= ->]; exists bytes; split; [done|]; split; [done|]; by right|].
      intros (b & -> & _ & [[? _]|[_ E]]); congruence.
    + split; [done|]. intros (b & -> & _ & [[? _]|[_ E]]); congruence.
Qed.

Context {float : Type} (parse_float : float_type → string → option float).

(** C4: in a registered API the path parameters of a handler cannot be missing:
    when the required fields of its path type are parameters it declares, the
    fields get the values of the request's variables, each as its own type
    reads it, or the request is refused with a 400 because one of the values
    cannot be read; the assertion against missing fields can only fail for an
    error text of a field's own. *)
Theorem registered_path_params {V} fuel eps self m uri ver res (fields : btree (de float (option V))) required :
  register_all fuel description_new eps = Some (Ok self) →
  lookup_route (router self) m uri ver = Ok res →
  ∃ e, e ∈ eps ∧ lr_handler res = handler e ∧
    let vars := rem_variables (lr_endpoint res) in
    ((∀ k, k ∈ required → k ∈ path_param_names (parameters e)) →
     match http_extract_path_params parse_float (struct_de fields required) vars with
     | Ok r => ∀ k, bt_get k r = (v ← bt_get k vars;
         match read_field parse_float fields k v with Ok o => o | _ => None end)
     | Err err => is_bad_request err ∧
         ∃ k v text, (k, v) ∈ vars ∧ read_field parse_float fields k v = Err text
     | Panic _ => ∃ k v, (k, v) ∈ vars ∧ (¬ no_panic (read_field parse_float fields k v) ∨
         ∃ text, read_field parse_float fields k v = Err text ∧ starts_with "missing field: " text = true)
     end).
Proof.
  intros Hreg Hlk. destruct (registered_lookup fuel eps self m uri ver res Hreg Hlk)
    as (e & q & segs & vs & He & -> & Hp & Hnd & Hm & Hkeys & Hpar).
  exists e. split; [done|]. split; [done|]. simpl. intros Hreq. unfold http_extract_path_params.
  pose proof (from_map_answer parse_float fields required (bt_collect vs) (bt_wf_collect vs)) as Ha.
  destruct (from_map _ _ _) as [r|text|msg].
  - by destruct Ha as (_ & _ & _ & ?).
  - destruct Ha as [(k & v & Hin & Hv)|(k & Hk & Hn & _)]; [|by destruct Hn; apply Hkeys, Hreq].
    destruct (starts_with "missing field: " text) eqn:Es.
    + exists k, v. split; [done|]. right. by exists text.
    + split; [by eexists|]. by exists k, v, text.
  - destruct Ha as (k & v & Hin & Hv). exists k, v. split; [done|]. left. rewrite Hv. naive_solver.
Qed.

(** A path parameter that the handler requires and the route does not have
    is reported to the client with a 400, and the assertion that is meant to
    catch it passes: the text of a missing field does not start with what the
    assertion looks for. *)
Lemma missing_path_param_not_asserted {V} (fields : btree (de float (option V))) required (vars : VariableSet) k :
  bt_wf vars → (∀ k v, (k, v) ∈ vars → ∃ o, read_field parse_float fields k v = Ok o) →
  k ∈ required → k ∉ bt_keys vars →
  ∃ err, http_extract_path_params parse_float (struct_de fields required) vars = Err err ∧ is_bad_request err.
Proof.
  intros Hw Hr Hk Hn. unfold http_extract_path_params.
  pose proof (from_map_answer parse_float fields required vars Hw) as Ha.
  destruct (from_map _ _ _) as [r|text|msg].
  - destruct Ha as (_ & Hreq & _). by destruct Hn; apply Hreq.
  - destruct Ha as [(k' & v & Hin & Hv)|(k' & _ & _ & ->)].
    + destruct (Hr k' v Hin). congruence.
    + by repeat eexists.
  - destruct Ha as (k' & v & Hin & Hv). destruct (Hr k' v Hin). congruence.
Qed.
End properties.
