(* ===== verification/TypedExtractors.v ===== *)
(** * Typed extractors

    The traits [SharedExtractor], [ExclusiveExtractor] and [RequestExtractor] of
    [dropshot/src/extractor/common.rs], and the types of [extractor/] that
    implement them, on the functions of [Extractors] and [Metadata]; and that a
    handler is called only with requests that have what its parameters, as they are
    documented, require.

    The [Deserialize] of a program's own types are classes, with what their
    derivation promises as laws.  Shared extractors do not wait for anything, so
    that [try_join!] runs them in order, before it reads the body. *)
From S2P Require Import Prelude BTree FromMap Externals Versions StatusCodes Body HttpError Config Schema OpenApi SchemaUtil.
From S2P Require Import ApiEndpoint TypeUtil Router RouterSpec RouterLookup ApiDescription ToMap Handler Metadata Extractors GenOpenApi GenOpenApiSpec Responses.

(** [f32] and [f64] as path and header types read them, and the texts of header
    values that are not strings. *)
Class ValueTexts `{Crates} := {
  vt_float : Type;
  vt_parse_float : float_type → string → option vt_float;
  vt_to_str_error : HeaderValue → string;
  (** The names of [form_urlencoded::parse]. *)
  vt_query_keys : string → list string;
}.

Section extractors.
Context `{Crates} `{!SchemaReader} `{!ValueTexts}.

(** The derived implementations: [Deserialize] by the calls it makes on
    [MapDeserializer], on [serde_urlencoded] for a query string, and on [serde_json]
    and [serde_urlencoded] for a body. *)
Class DeserializeMap (T : Type) := { de_type : de vt_float T }.
Class DeserializeQuery (T : Type) := { urlencoded_from_str : string → T + string }.
Class DeserializeBody (T : Type) := { json_parse : string → T + string; urlencoded_parse : string → T + string }.

(** ** The traits *)

Class SharedExtractor (T : Type) := {
  shared_from_request : RequestContext → rust HttpError T;
  shared_metadata : nat → ApiEndpointBodyContentType → option (panics ExtractorMetadata);
}.

Class ExclusiveExtractor (T : Type) := {
  exclusive_from_request : RequestContext → Request Body → rust HttpError T;
  exclusive_metadata : nat → ApiEndpointBodyContentType → option (panics ExtractorMetadata);
}.

#[export] Instance shared_is_exclusive {S} `{SharedExtractor S} : ExclusiveExtractor S := {
  exclusive_from_request rqctx _ := shared_from_request rqctx;
  exclusive_metadata := shared_metadata (T := S);
}.

(** ** Wrappers of values *)

Record Path (T : Type) := mk_path { path_inner : T }.
Record Query (T : Type) := mk_query { query_inner : T }.
Record Header (T : Type) := mk_header_value { header_inner : T }.
Record TypedBody (T : Type) := mk_typed_body { body_inner : T }.

(** [map] and [try_map]; [into_inner] and [from] are the projections and the
    constructors. *)
Definition path_map {T U} (f : T → U) (p : Path T) : Path U := mk_path U (f (path_inner T p)).
Definition path_try_map {T U E} (f : T → rust E U) (p : Path T) : rust E (Path U) := mk_path U <$> f (path_inner T p).
Definition query_map {T U} (f : T → U) (q : Query T) : Query U := mk_query U (f (query_inner T q)).
Definition query_try_map {T U E} (f : T → rust E U) (q : Query T) : rust E (Query U) := mk_query U <$> f (query_inner T q).
Definition header_map {T U} (f : T → U) (h : Header T) : Header U := mk_header_value U (f (header_inner T h)).
Definition header_try_map {T U E} (f : T → rust E U) (h : Header T) : rust E (Header U) :=
  mk_header_value U <$> f (header_inner T h).
Definition typed_body_map {T U} (f : T → U) (b : TypedBody T) : TypedBody U := mk_typed_body U (f (body_inner T b)).
Definition typed_body_try_map {T U E} (f : T → rust E U) (b : TypedBody T) : rust E (TypedBody U) :=
  mk_typed_body U <$> f (body_inner T b).

Record UntypedBody := mk_untyped { content : string }.
(** [multer]'s [Multipart], by what it is made from. *)
Record MultipartBody := mk_multipart { mp_stream : list (string + string); mp_boundary : string }.
Record RawRequest := mk_raw_request { raw_request : Request Body }.

(** ** The extractors *)

(** [get_metadata] at a type. *)
Definition metadata_of (T : Type) `{!JsonSchema T} (fuel : nat) (loc : ApiEndpointParameterLocation) :
    option (panics ExtractorMetadata) :=
  get_metadata sr_dereference sr_pretty_schema sr_pretty_subschemas fuel (json_schema_type (T := T)) loc.

#[export] Instance path_extractor {T} `{DeserializeMap T} `{!JsonSchema T} : SharedExtractor (Path T) := {
  shared_from_request rqctx :=
    mk_path T <$> http_extract_path_params vt_parse_float de_type (rem_variables (rc_endpoint rqctx));
  shared_metadata fuel _ := metadata_of T fuel LPath;
}.

#[export] Instance query_extractor {T} `{DeserializeQuery T} `{!JsonSchema T} : SharedExtractor (Query T) := {
  shared_from_request rqctx := mk_query T <$> http_request_load_query urlencoded_from_str (rc_request rqctx);
  shared_metadata fuel _ := metadata_of T fuel LQuery;
}.

#[export] Instance header_extractor {T} `{DeserializeMap T} `{!JsonSchema T} : SharedExtractor (Header T) := {
  shared_from_request rqctx :=
    mk_header_value T <$> http_request_load_header vt_to_str_error vt_parse_float de_type (rc_request rqctx);
  shared_metadata fuel _ := metadata_of T fuel LHeader;
}.

#[export] Instance typed_body_extractor {T} `{DeserializeBody T} `{!JsonSchema T} : ExclusiveExtractor (TypedBody T) := {
  exclusive_from_request rqctx request :=
    mk_typed_body T <$> typed_from_request vt_to_str_error json_parse urlencoded_parse rqctx request;
  exclusive_metadata _ content_type :=
    Some (Ok (typed_body_metadata (schema_name (T := T)) (make_subschema_for (T := T)) content_type));
}.

#[export] Instance untyped_body_extractor : ExclusiveExtractor UntypedBody := {
  exclusive_from_request rqctx request := mk_untyped <$> untyped_from_request rqctx request;
  exclusive_metadata _ _ := Some (Ok untyped_metadata);
}.

#[export] Instance streaming_body_extractor : ExclusiveExtractor StreamingBody := {
  exclusive_from_request := streaming_from_request;
  exclusive_metadata _ _ := Some (Ok untyped_metadata);
}.

#[export] Instance multipart_body_extractor : ExclusiveExtractor MultipartBody := {
  exclusive_from_request rqctx request :=
    (λ p, mk_multipart p.1 p.2) <$> multipart_from_request vt_to_str_error rqctx request;
  exclusive_metadata _ content_type := Some (Ok (multipart_metadata content_type));
}.

#[export] Instance raw_request_extractor : ExclusiveExtractor RawRequest := {
  exclusive_from_request _ request := Ok (mk_raw_request request);
  exclusive_metadata _ _ := Some (Ok (mk_extractor_metadata NoExtension []));
}.

(** ** Tuples *)

(** The macro for the tuples (S1, .., Sn, X): a tuple is a nested pair, whose last
    component is an exclusive extractor.  The metadata are those of its components
    in order; the loop of the macro goes on while there is no panic. *)
Class TupleExtractor (T : Type) := {
  tuple_from_request : RequestContext → Request Body → rust HttpError T;
  tuple_metadatas : nat → ApiEndpointBodyContentType → list (option (panics ExtractorMetadata));
}.

#[export] Instance tuple_last {X} `{ExclusiveExtractor X} : TupleExtractor X | 10 := {
  tuple_from_request := exclusive_from_request;
  tuple_metadatas fuel ct := [exclusive_metadata (T := X) fuel ct];
}.

#[export] Instance tuple_cons {S T} `{SharedExtractor S} `{TupleExtractor T} : TupleExtractor (S * T) := {
  tuple_from_request rqctx request :=
    s ← shared_from_request rqctx;
    rest ← tuple_from_request rqctx request;
    Ok (s, rest);
  tuple_metadatas fuel ct := shared_metadata (T := S) fuel ct :: tuple_metadatas (T := T) fuel ct;
}.

Fixpoint tuple_metadata_loop (acc : ExtractorMetadata) (l : list (option (panics ExtractorMetadata))) :
    option (panics ExtractorMetadata) :=
  match l with
  | [] => Some (Ok acc)
  | None :: _ => None
  | Some (Ok metadata) :: l =>
      match combine_extension_modes (em_extension_mode acc) (em_extension_mode metadata) with
      | Ok mode => tuple_metadata_loop (mk_extractor_metadata mode (em_parameters acc ++ em_parameters metadata)) l
      | Err e => Some (Err e)
      | Panic m => Some (Panic m)
      end
  | Some (Err e) :: _ => Some (Err e)
  | Some (Panic m) :: _ => Some (Panic m)
  end.

Class RequestExtractor (T : Type) := {
  from_request : RequestContext → Request Body → rust HttpError T;
  extractor_metadata : nat → ApiEndpointBodyContentType → option (panics ExtractorMetadata);
}.

#[export] Instance no_extractors : RequestExtractor () := {
  from_request _ _ := Ok ();
  extractor_metadata _ _ := Some (Ok (mk_extractor_metadata NoExtension []));
}.

(** The tuple of one element, and those of more. *)
#[export] Instance one_extractor {X} `{ExclusiveExtractor X} : RequestExtractor X | 10 := {
  from_request := exclusive_from_request;
  extractor_metadata := exclusive_metadata (T := X);
}.

#[export] Instance tuple_extractor {S T} `{SharedExtractor S} `{TupleExtractor T} : RequestExtractor (S * T) := {
  from_request := tuple_from_request;
  extractor_metadata fuel ct := tuple_metadata_loop (mk_extractor_metadata NoExtension []) (tuple_metadatas (T := S * T) fuel ct);
}.
End extractors.

(** ** What the documented parameters promise *)

Section documented.
Context `{Crates} `{!SchemaReader} `{!ValueTexts}.

(** The derived implementations of a type agree: it is read as a structure with
    fields, and the members that its schema requires are required fields. *)
Class DerivesStruct (T : Type) `{!DeserializeMap T} `{!JsonSchema T} : Prop := {
  derives_struct : ∃ (V : Type) (fields : btree (de vt_float (option V))) required (build_value : btree V → T),
    (∀ (Z : Type) (mv : MapValue Z) (d : map_deserializer Z), FromMap.run (Z := Z) vt_parse_float (de_type (T := T)) d =
       build_value <$> FromMap.run (Z := Z) vt_parse_float (struct_de fields required) d) ∧
    distinct_names fields ∧ (∀ k, k ∈ required → k ∈ bt_keys fields) ∧
    ∀ nullable schema definitions m, js_root_schema (json_schema_type (T := T)) nullable = (schema, definitions) →
      Member (sr_dereference definitions) schema true m → sm_required m = true → sm_name m ∈ required;
}.

Class QueryStruct (T : Type) `{!DeserializeQuery T} `{!JsonSchema T} : Prop := {
  query_members : ∀ s (t : T) nullable schema definitions m, urlencoded_from_str s = inl t →
    js_root_schema (json_schema_type (T := T)) nullable = (schema, definitions) →
    Member (sr_dereference definitions) schema true m → sm_required m = true → sm_name m ∈ vt_query_keys s;
}.

(** The request has the parameter. *)
Definition present (rqctx : RequestContext) (request : Request Body) (p : ApiEndpointParameter) : Prop :=
  match p_metadata p with
  | MPath name => name ∈ bt_keys (rem_variables (rc_endpoint rqctx))
  | MQuery name => name ∈ vt_query_keys (default "" (ri_query (rc_request rqctx)))
  | MHeader name => hm_get_all (ri_headers (rc_request rqctx)) (to_ascii_lowercase name) ≠ []
  | MBody Json_ => declares (req_headers request) Json_
  | MBody UrlEncoded => declares (req_headers request) UrlEncoded
  | MBody _ => True
  end.

(** The document requires the parameter; bodies always. *)
Definition demanded (p : ApiEndpointParameter) : Prop :=
  match p_metadata p with MBody _ => True | _ => p_required p = true end.

Definition all_present (rqctx : RequestContext) (request : Request Body) (l : list ApiEndpointParameter) : Prop :=
  ∀ p, p ∈ l → demanded p → present rqctx request p.

(** The names of a [HeaderMap] are in lower case, and the router's variables are a
    map. *)
Record context_wf (rqctx : RequestContext) : Prop := {
  wf_header_names : ∀ p, p ∈ hm_iter (ri_headers (rc_request rqctx)) → to_ascii_lowercase p.1 = p.1;
  wf_variables : bt_wf (rem_variables (rc_endpoint rqctx));
}.

Class DocumentedExtractor (T : Type) `{!ExclusiveExtractor T} : Prop := {
  extractor_documented : ∀ fuel rqctx request (t : T) md, context_wf rqctx →
    exclusive_from_request rqctx request = Ok t →
    exclusive_metadata (T := T) fuel (rem_body_content_type (rc_endpoint rqctx)) = Some (Ok md) →
    all_present rqctx request (em_parameters md);
  extractor_refuses : ∀ rqctx request e, exclusive_from_request (T := T) rqctx request = Err e → is_bad_request e;
}.

(** The parameters of a type's metadata. *)
Lemma metadata_of_elem {T} `{!JsonSchema T} fuel loc md p :
  metadata_of T fuel loc = Some (Ok md) → p ∈ em_parameters md →
  ∃ schema definitions m, js_root_schema (json_schema_type (T := T)) (option_nullable loc) = (schema, definitions) ∧
    Member (sr_dereference definitions) schema true m ∧ p = member_parameter loc definitions m.
Proof.
  intros Hm Hp. destruct (js_root_schema (json_schema_type (T := T)) (option_nullable loc)) as [schema definitions] eqn:Es.
  destruct (get_metadata_spec _ _ _ _ _ _ _ _ _ Es Hm) as (_ & Hps & _). destruct (proj1 (Hps p) Hp) as (m & Hmem & ->).
  by exists schema, definitions, m.
Qed.

Lemma fmap_err {E A B} (f : A → B) (m : rust E A) e : f <$> m = Err e → m = Err e.
Proof. destruct m; [done|by intros [= ->]|done]. Qed.

#[export] Instance path_documented {T} `{!DeserializeMap T} `{!JsonSchema T} `{!DerivesStruct T} : DocumentedExtractor (Path T).
Proof.
  split.
  - intros fuel rqctx request t md [_ Hw] Ht Hm p Hp Hreq.
    destruct (metadata_of_elem _ _ _ _ Hm Hp) as (schema & definitions & m & Es & Hmem & ->).
    destruct derives_struct as (V & fields & required & bv & Hrun & Hd & Hsub & Hschema).
    cbn [exclusive_from_request shared_is_exclusive shared_from_request path_extractor] in Ht.
    apply rust_fmap_ok in Ht as (v & Ht & _). unfold http_extract_path_params in Ht.
    destruct (from_map _ _ _) as [v'|msg|] eqn:Ef; [|by destruct (starts_with _ msg)|done].
    unfold from_map in Ef. rewrite Hrun in Ef. apply rust_fmap_ok in Ef as (r & Ef & _).
    pose proof (from_map_answer vt_parse_float fields required _ Hw) as Ha. unfold from_map in Ha. rewrite Ef in Ha.
    destruct Ha as (_ & Hreq' & _). apply Hreq'. by eapply Hschema.
  - intros rqctx request e He%fmap_err. unfold http_extract_path_params in He.
    destruct (from_map _ _ _) as [v'|msg|]; [done| |done]. destruct (starts_with _ msg); [done|]. injection He as <-. by eexists.
Qed.

#[export] Instance query_documented {T} `{!DeserializeQuery T} `{!JsonSchema T} `{!QueryStruct T} : DocumentedExtractor (Query T).
Proof.
  split.
  - intros fuel rqctx request t md _ Ht Hm p Hp Hreq.
    destruct (metadata_of_elem _ _ _ _ Hm Hp) as (schema & definitions & m & Es & Hmem & ->).
    cbn [exclusive_from_request shared_is_exclusive shared_from_request query_extractor] in Ht.
    apply rust_fmap_ok in Ht as (v & Ht & _). unfold http_request_load_query in Ht.
    destruct (urlencoded_from_str _) as [q|] eqn:Eq; [|done]. by eapply query_members.
  - intros rqctx request e He%fmap_err. unfold http_request_load_query in He.
    destruct (urlencoded_from_str _) as [q|]; [done|]. injection He as <-. by eexists.
Qed.

(** The headers of a request that are all text, as pairs. *)
Definition header_text (p : string * HeaderValue) : rust HttpError (string * string) :=
  match hv_to_str p.2 with
  | Some v => Ok (p.1, v)
  | None => Err (for_bad_request None (vt_to_str_error p.2))
  end.

Lemma header_texts_names l texts k : try_map header_text l = Ok texts → k ∈ texts.*1 ↔ k ∈ l.*1.
Proof.
  intros Hl%try_map_ok. assert (texts.*1 = l.*1) as ->; [|done].
  induction Hl as [|p q l texts Hp Hl IH]; [done|]. simpl. f_equal; [|done].
  unfold header_text in Hp. destruct (hv_to_str p.2); [by injection Hp as <-|done].
Qed.

Lemma header_text_cases p : (∃ q, header_text p = Ok q) ∨ ∃ e, header_text p = Err e ∧ is_bad_request e.
Proof. unfold header_text. destruct (hv_to_str p.2); [left; by eexists|right]. eexists. split; [done|by eexists]. Qed.

Lemma header_texts_err l e : try_map header_text l = Err e → is_bad_request e.
Proof.
  induction l as [|p l IH]; [done|]. cbn [try_map].
  destruct (header_text_cases p) as [[q ->]|(e' & -> & He')]; cbn [mbind rust_bind]; [|by intros [= <-]].
  destruct (try_map header_text l) as [texts|e'|]; cbn [mbind rust_bind]; [done| |done]. by intros He; apply IH.
Qed.

#[export] Instance header_documented `{!HttpCrateLaws} {T} `{!DeserializeMap T} `{!JsonSchema T} `{!DerivesStruct T} :
  DocumentedExtractor (Header T).
Proof.
  split.
  - intros fuel rqctx request t md [Hn _] Ht Hm p Hp Hreq.
    destruct (metadata_of_elem _ _ _ _ Hm Hp) as (schema & definitions & m & Es & Hmem & ->).
    destruct derives_struct as (V & fields & required & bv & Hrun & Hd & Hsub & Hschema).
    cbn [exclusive_from_request shared_is_exclusive shared_from_request header_extractor] in Ht.
    apply rust_fmap_ok in Ht as (v & Ht & _). unfold http_request_load_header in Ht.
    apply rust_bind_ok in Ht as (texts & Htexts & Ht). change (try_map header_text (hm_iter (ri_headers (rc_request rqctx))) = Ok texts) in Htexts.
    destruct (from_map_insensitive _ _ _) as [v'| |] eqn:Ef; [|done..].
    unfold from_map_insensitive in Ef. rewrite Hrun in Ef. apply rust_fmap_ok in Ef as (r & Ef & _).
    assert (lowercase_keys (bt_collect texts)) as Hlow.
    { intros k Hk%bt_collect_keys%(header_texts_names _ _ _ Htexts).
      apply list_elem_of_fmap in Hk as (q & -> & Hq). by apply Hn. }
    destruct (from_map_insensitive_spec vt_parse_float fields required _ r (bt_wf_collect texts) Hlow Hd Ef) as [_ Hkeys].
    assert (sm_name m ∈ required) as Hk by (by eapply Hschema).
    specialize (Hkeys _ (Hsub _ Hk) Hk). apply bt_collect_keys, (header_texts_names _ _ _ Htexts) in Hkeys.
    unfold present. simpl. rewrite hm_iter_get_all. apply list_elem_of_fmap in Hkeys as (q & Eq & Hq).
    assert (q ∈ filter (λ p : string * HeaderValue, p.1 = to_ascii_lowercase (sm_name m)) (hm_iter (ri_headers (rc_request rqctx)))) as Hf
      by (by apply list_elem_of_filter).
    intros Hnil. apply (list_elem_of_fmap_2 snd) in Hf. rewrite Hnil in Hf. by apply elem_of_nil in Hf.
  - intros rqctx request e He%fmap_err. unfold http_request_load_header in He.
    pose proof (header_texts_err (hm_iter (ri_headers (rc_request rqctx)))) as Hx. unfold header_text in Hx.
    destruct (try_map _ _) as [texts|e'|]; [|injection He as ->; by apply Hx|done].
    cbn [mbind rust_bind] in He. destruct (from_map_insensitive _ _ _) as [|msg|]; [done| |done]. injection He as <-. by eexists.
Qed.

Lemma into_bytes_mut_err body cap e : into_bytes_mut (streaming_new body cap) = Err e → is_bad_request e.
Proof.
  unfold into_bytes_mut, into_stream. cbn [sb_cap sb_body streaming_new]. generalize 0%N as n, "" as out.
  induction (body_frames body) as [|[[buf|]|err] frames IH]; intros n out; [done|..]; cbn [stream_from].
  - destruct (N.ltb _ _).
    + destruct (http_dump_body frames); intros [= <-]; by eexists.
    + apply IH.
  - apply IH.
  - intros [= <-]. by eexists.
Qed.

(** A typed body is of the content type of the endpoint. *)
Lemma load_body_declares {T} (json url : string → T + string) request cap expected v :
  http_request_load_body vt_to_str_error json url request cap expected = Ok v →
  (expected = Json_ ∨ expected = UrlEncoded) ∧ declares (req_headers request) expected.
Proof.
  unfold http_request_load_body. intros (body & _ & E)%rust_bind_ok. apply rust_bind_ok in E as (text & Ht & E).
  apply rust_bind_ok in E as (ct & Hct & E). pose proof (declares_cases vt_to_str_error (req_headers request)) as Hd.
  rewrite Ht in Hd. cbn [mbind rust_bind] in Hd. rewrite Hct in Hd. destruct expected, ct; try done.
  - split; [by left|by apply Hd].
  - split; [by right|by apply Hd].
Qed.

Lemma load_body_err {T} (json url : string → T + string) request cap expected e :
  http_request_load_body vt_to_str_error json url request cap expected = Err e → is_bad_request e.
Proof.
  unfold http_request_load_body. destruct (into_bytes_mut _) as [body|e'|] eqn:Eb; cbn [mbind rust_bind]; [| |done].
  2: { intros [= <-]. by eapply into_bytes_mut_err. }
  pose proof (declares_cases vt_to_str_error (req_headers request)) as Hd.
  destruct (media_type _ _) as [text|e'|]; cbn [mbind rust_bind] in *; [|by intros [= <-]; destruct Hd|done].
  destruct (map_err _ _) as [ct|e'|]; cbn [mbind rust_bind] in *; [|by intros [= <-]; destruct Hd|done].
  unfold parse_body. destruct expected, ct; try (intros [= <-]; by eexists).
  - destruct (json body); [done|]. intros [= <-]. by eexists.
  - destruct (url body); [done|]. intros [= <-]. by eexists.
Qed.

#[export] Instance typed_body_documented {T} `{!DeserializeBody T} `{!JsonSchema T} : DocumentedExtractor (TypedBody T).
Proof.
  split.
  - intros fuel rqctx request t md _ Ht [= <-] p Hp _. cbn in Hp. apply list_elem_of_singleton in Hp as ->.
    apply rust_fmap_ok in Ht as (v & Ht & _). apply load_body_declares in Ht as [Hct Hd]. unfold present. simpl.
    by destruct (rem_body_content_type (rc_endpoint rqctx)).
  - intros rqctx request e He%fmap_err. by eapply load_body_err.
Qed.

#[export] Instance untyped_body_documented : DocumentedExtractor UntypedBody.
Proof.
  split.
  - intros fuel rqctx request t md _ _ [= <-] p Hp _. cbn in Hp. by apply list_elem_of_singleton in Hp as ->.
  - intros rqctx request e He%fmap_err. by eapply into_bytes_mut_err.
Qed.

#[export] Instance streaming_body_documented : DocumentedExtractor StreamingBody.
Proof.
  split; [|done]. intros fuel rqctx request t md _ _ [= <-] p Hp _. cbn in Hp. by apply list_elem_of_singleton in Hp as ->.
Qed.

#[export] Instance multipart_body_documented : DocumentedExtractor MultipartBody.
Proof.
  split.
  - intros fuel rqctx request t md _ _ [= <-] p Hp _. cbn in Hp. by apply list_elem_of_singleton in Hp as ->.
  - intros rqctx request e He%fmap_err. unfold multipart_from_request in He.
    destruct (hm_get _ _) as [hv|]; cbn [ok_or mbind rust_bind] in He; [|injection He as <-; by eexists].
    destruct (hv_to_str hv) as [text|]; cbn [ok_or mbind rust_bind] in He; [|injection He as <-; by eexists].
    destruct (split_nth_1 _ _); [done|]. injection He as <-. by eexists.
Qed.

#[export] Instance raw_request_documented : DocumentedExtractor RawRequest.
Proof. split; [|done]. intros fuel rqctx request t md _ _ [= <-] p Hp. by apply elem_of_nil in Hp. Qed.

(** ** Tuples of extractors *)

Lemma tuple_metadata_elem acc l md p :
  tuple_metadata_loop acc l = Some (Ok md) → p ∈ em_parameters md →
  p ∈ em_parameters acc ∨ ∃ m, Some (Ok m) ∈ l ∧ p ∈ em_parameters m.
Proof.
  revert acc. induction l as [|[[m|e|msg]|] l IH]; intros acc; simpl; [by intros [= ->]; left| |done..].
  destruct (combine_extension_modes _ _) as [mode|e|]; [|done..]. intros Hl Hp.
  destruct (IH _ Hl Hp) as [Hin|(m' & Hm' & Hin)]; [|right; exists m'; split; [by right|done]].
  simpl in Hin. apply elem_of_app in Hin as [Hin|Hin]; [by left|]. right. exists m. split; [by left|done].
Qed.

(** The loop is that of [request_extractor_metadata] when each component has its
    metadata. *)
Lemma tuple_metadata_loop_from acc l : tuple_metadata_loop acc (Some <$> l) = Some (tuple_metadata_from acc l).
Proof.
  revert acc. induction l as [|[m|e|msg] l IH]; intros acc; simpl; [done| |done..].
  destruct (combine_extension_modes _ _); [apply IH|done..].
Qed.

Class DocumentedTuple (T : Type) `{!TupleExtractor T} : Prop := {
  tuple_documented : ∀ fuel rqctx request (t : T) md, context_wf rqctx → tuple_from_request rqctx request = Ok t →
    Some (Ok md) ∈ tuple_metadatas (T := T) fuel (rem_body_content_type (rc_endpoint rqctx)) →
    all_present rqctx request (em_parameters md);
  tuple_refuses : ∀ rqctx request e, tuple_from_request (T := T) rqctx request = Err e → is_bad_request e;
}.

#[export] Instance tuple_last_documented {X} `{!ExclusiveExtractor X} `{!DocumentedExtractor X} : DocumentedTuple X | 10.
Proof.
  split; [|exact extractor_refuses]. intros fuel rqctx request t md Hw Ht Hm. apply list_elem_of_singleton in Hm.
  by eapply extractor_documented.
Qed.

#[export] Instance tuple_cons_documented {S T} `{!SharedExtractor S} `{!DocumentedExtractor S} `{!TupleExtractor T}
  `{!DocumentedTuple T} : DocumentedTuple (S * T).
Proof.
  split.
  - intros fuel rqctx request [s t] md Hw Ht Hm. cbn in Ht. apply rust_bind_ok in Ht as (s' & Hs & Ht).
    apply rust_bind_ok in Ht as (t' & Ht & [= <- <-]). cbn in Hm. apply elem_of_cons in Hm as [Hm|Hm].
    + exact (extractor_documented (T := S) fuel rqctx request s' md Hw Hs (eq_sym Hm)).
    + exact (tuple_documented (T := T) fuel rqctx request t' md Hw Ht Hm).
  - intros rqctx request e He. cbn in He.
    destruct (shared_from_request rqctx) as [s|e'|] eqn:Es; cbn [mbind rust_bind] in He; [| |done].
    + destruct (tuple_from_request rqctx request) as [t|e'|] eqn:Et; [done| |done]. injection He as <-. by eapply tuple_refuses.
    + injection He as <-. exact (extractor_refuses (T := S) rqctx request _ Es).
Qed.

(** A tuple is read, or refused with a 400; and then the request is as documented. *)
Lemma tuple_extractor_documented {S T} `{!SharedExtractor S} `{!DocumentedExtractor S} `{!TupleExtractor T} `{!DocumentedTuple T}
    fuel rqctx request md :
  context_wf rqctx → extractor_metadata (T := S * T) fuel (rem_body_content_type (rc_endpoint rqctx)) = Some (Ok md) →
  match from_request (T := S * T) rqctx request with
  | Ok _ => all_present rqctx request (em_parameters md)
  | Err e => is_bad_request e
  | Panic _ => True
  end.
Proof.
  intros Hw Hm. destruct (from_request rqctx request) as [t|e|] eqn:Et; [| |done].
  - intros p Hp Hreq. destruct (tuple_metadata_elem _ (tuple_metadatas (T := S * T) fuel _) md p Hm Hp) as [Hin|(m & Hin & Hpm)]; [by apply elem_of_nil in Hin|].
    exact (tuple_documented (T := S * T) fuel rqctx request t m Hw Et Hin p Hpm Hreq).
  - exact (tuple_refuses (T := S * T) rqctx request e Et).
Qed.
End documented.

Section handlers.
Context `{Crates} `{!HttpBuilder} `{!SchemaReader} `{!ValueTexts} `{!HttpCrateLaws}.
Context {P Q Hd B : Type} `{!DeserializeMap P} `{!JsonSchema P} `{!DerivesStruct P}.
Context `{!DeserializeQuery Q} `{!JsonSchema Q} `{!QueryStruct Q} `{!DeserializeMap Hd} `{!JsonSchema Hd} `{!DerivesStruct Hd}.
Context `{!DeserializeBody B} `{!JsonSchema B}.

(** The arguments of a handler with a path, a query, headers and a body. *)
Abbreviation arguments := (Path P * (Query Q * (Header Hd * TypedBody B)))%type.

(** C12: The function of a handler is called exactly with the arguments that are
    read from the request, and then the request has each parameter that the
    endpoint's operation requires: the path its variables, the query and the
    headers theirs, and a body of the documented content type.  A request whose
    arguments cannot be read is refused with a 400, made an error of the function's
    type, without a call. *)
Theorem handler_gets_documented_request {E R} `{!HttpResponseError E} (func : RequestContext → arguments → rust E R)
    (to_res : R → rust HttpError (Response Body)) fuel rqctx request md :
  context_wf rqctx → extractor_metadata (T := arguments) fuel (rem_body_content_type (rc_endpoint rqctx)) = Some (Ok md) →
  let result := route_handler_handle from_request func to_res rqctx request in
  (∀ args, from_request rqctx request = Ok args →
     all_present rqctx request (em_parameters md) ∧ result = handler_func_handle func to_res rqctx args) ∧
  (∀ e, from_request (T := arguments) rqctx request = Err e →
     is_bad_request e ∧ result = try_handler (Err (hre_from_http_error e))).
Proof.
  intros Hw Hm result. pose proof (tuple_extractor_documented fuel rqctx request md Hw Hm) as Hdoc.
  unfold result, route_handler_handle. split.
  - intros args E'. rewrite E' in Hdoc |- *. done.
  - intros e E'. rewrite E' in Hdoc |- *. split; [done|]. cbn [map_err].
    unfold try_handler. destruct (lift_panics _); done.
Qed.
End handlers.
