(* ===== verification/Compression.v ===== *)
(** * Response compression

    [dropshot/src/compression.rs].  Quality values are [f32]s: the type and the
    operations used are the class [Float32], with the facts of floating-point
    arithmetic the theorems need.  The gzip encoder itself is a parameter. *)
From S2P Require Import Prelude Externals Body.

(** [f32]: [parse], [is_finite], [clamp(0.0, 1.0)], [max], [> 0.0] and [1.0]. *)
Class Float32 := {
  F32 : Type;
  f32_parse : string → option F32;
  f32_is_finite : F32 → bool;
  f32_clamp01 : F32 → F32;
  f32_max : F32 → F32 → F32;
  f32_positive : F32 → bool;
  f32_one : F32;
}.

Class Float32Laws `{Float32} : Prop := {
  f32_one_positive : f32_positive f32_one = true;
  f32_one_finite : f32_is_finite f32_one = true;
  f32_clamp_positive : ∀ x, f32_is_finite x = true → f32_positive (f32_clamp01 x) = f32_positive x;
  f32_clamp_finite : ∀ x, f32_is_finite x = true → f32_is_finite (f32_clamp01 x) = true;
  f32_max_positive : ∀ x y, f32_is_finite x = true → f32_is_finite y = true →
    f32_positive (f32_max x y) = f32_positive x || f32_positive y;
  f32_max_finite : ∀ x y, f32_is_finite x = true → f32_is_finite y = true →
    f32_is_finite (f32_max x y) = true;
}.

Definition ACCEPT_ENCODING : string := "accept-encoding".
Definition ACCEPT_RANGES : string := "accept-ranges".
Definition CONTENT_ENCODING : string := "content-encoding".
Definition CONTENT_LENGTH : string := "content-length".
Definition CONTENT_RANGE : string := "content-range".
Definition CONTENT_TYPE_HEADER : string := "content-type".
Definition VARY : string := "vary".
Definition MIN_COMPRESS_SIZE : N := 512.

Section compression.
Context `{HttpCrate} `{Float32}.
Implicit Types (h : HeaderMap) (v : HeaderValue).

(** ** What the client accepts *)

(** The loop over the parameters of a coding. *)
Definition apply_param (quality : F32) (param : string) : F32 :=
  match splitn2 "="%char param with
  | name :: value :: _ =>
      if eq_ignore_ascii_case (trim name) "q" then
        match f32_parse (trim value) with
        | Some parsed => if f32_is_finite parsed then f32_clamp01 parsed else quality
        | None => quality
        end
      else quality
  | _ => quality
  end.

Definition parse_directive (directive : string) : option (string * F32) :=
  match split_on ";"%char (trim directive) with
  | [] => None
  | part :: parts =>
      let encoding := trim part in
      if is_empty_str encoding then None
      else Some (to_ascii_lowercase encoding, fold_left apply_param parts f32_one)
  end.

Definition parse_accept_encoding (header : HeaderValue) : list (string * F32) :=
  match hv_to_str header with
  | None => []
  | Some header_value => omap parse_directive (split_on ","%char header_value)
  end.

Definition better (best : option F32) (quality : F32) : option F32 :=
  Some match best with None => quality | Some current => f32_max current quality end.

(** One step of the nested loops: the best qualities of [gzip] and of [*]. *)
Definition note_encoding (best : option F32 * option F32) (p : string * F32) : option F32 * option F32 :=
  let '(gzip, wildcard) := best in
  let '(encoding, quality) := p in
  if String.eqb encoding "gzip" then (better gzip quality, wildcard)
  else if String.eqb encoding "*" then (gzip, better wildcard quality)
  else (gzip, wildcard).

Definition accepts_gzip_encoding (headers : HeaderMap) : bool :=
  let '(best_gzip_quality, best_wildcard_quality) :=
    fold_left (λ best accept_encoding, fold_left note_encoding (parse_accept_encoding accept_encoding) best)
      (hm_get_all headers ACCEPT_ENCODING) (None, None) in
  match best_gzip_quality with
  | Some quality => f32_positive quality
  | None =>
      match best_wildcard_quality with
      | Some quality => f32_positive quality
      | None => false
      end
  end.

(** ** Which responses *)

Definition is_compressible_content_type (response_headers : HeaderMap) : bool :=
  match hm_get response_headers CONTENT_TYPE_HEADER with
  | None => false
  | Some content_type =>
      match hv_to_str content_type with
      | None => false
      | Some ct_str =>
          let ct_lower := to_ascii_lowercase ct_str in
          if starts_with "text/event-stream" ct_lower then false
          else
            let is_compressible :=
              starts_with "application/json" ct_lower
              || starts_with "application/ndjson" ct_lower
              || starts_with "application/x-ndjson" ct_lower
              || starts_with "text/" ct_lower
              || starts_with "application/xml" ct_lower
              || starts_with "application/javascript" ct_lower
              || starts_with "application/x-javascript" ct_lower in
            let has_compressible_suffix :=
              str_contains "+json" ct_lower || str_contains "+xml" ct_lower in
            is_compressible || has_compressible_suffix
      end
  end.

(** The declared length is known to be too small. *)
Definition declared_too_small (response_headers : HeaderMap) : bool :=
  match hm_get response_headers CONTENT_LENGTH with
  | Some content_length =>
      match hv_to_str content_length with
      | Some length_str =>
          match parse_u64 length_str with
          | Some length => (length <? MIN_COMPRESS_SIZE)%N
          | None => false
          end
      | None => false
      end
  | None => false
  end.

Definition should_compress_response (request_method : string) (request_headers : HeaderMap)
    (response_status : StatusCode) (response_headers : HeaderMap) (no_compression : bool) : bool :=
  if status_is_informational response_status
    || bool_decide (response_status = status_const 204)
    || bool_decide (response_status = status_const 304) then false
  else if String.eqb request_method "HEAD" then false
  else if bool_decide (response_status = status_const 206) then false
  else if hm_contains_key response_headers CONTENT_RANGE then false
  else if negb (accepts_gzip_encoding request_headers) then false
  else if hm_contains_key response_headers CONTENT_ENCODING then false
  else if no_compression then false
  else if declared_too_small response_headers then false
  else is_compressible_content_type response_headers.

(** ** Changing the response *)

(** [HeaderValue::from_static]. *)
Definition from_static {E} (s : string) : rust E HeaderValue :=
  expect (hv_from_str s) "invalid header value".

Definition header_value_contains_accept_encoding (value : HeaderValue) : bool :=
  match hv_to_str value with
  | Some vary => existsb (λ part, eq_ignore_ascii_case (trim part) "accept-encoding") (split_on ","%char vary)
  | None => false
  end.

Definition add_vary_header {E} (headers : HeaderMap) : rust E HeaderMap :=
  let vary_values := hm_get_all headers VARY in
  if existsb (λ value, String.eqb (hv_as_bytes value) "*") vary_values then Ok headers
  else if negb (existsb header_value_contains_accept_encoding vary_values)
  then v ← from_static "Accept-Encoding"; hm_append headers VARY v
  else Ok headers.

(** The encoder, from a body to the compressed stream. *)
Variable gzip_frames : list (string + string) → list (Frame + string).

Definition gzip_body (body : Body) : Body :=
  wrap_body (mk_body (gzip_frames (data_stream (body_frames body))) None).

Definition apply_gzip_compression {E} (response : Response Body) : rust E (Response Body) :=
  if match body_exact (resp_body response) with
     | Some exact_size => (exact_size =? 0)%N || (exact_size <? MIN_COMPRESS_SIZE)%N
     | None => false
     end
  then Ok response
  else
    gzip ← from_static "gzip";
    headers ← hm_insert (resp_headers response) CONTENT_ENCODING gzip;
    headers ← add_vary_header headers;
    let headers := hm_remove headers ACCEPT_RANGES in
    let headers := hm_remove headers CONTENT_LENGTH in
    Ok (mk_response (resp_status response) headers (resp_no_compression response)
          (gzip_body (resp_body response))).
End compression.

(** ** Specification *)

Section specification.
Context `{HttpCrate} `{Float32}.
Implicit Types (h : HeaderMap).

(** The codings of every [Accept-Encoding] header, in order, and the qualities
    given to one of them. *)
Definition codings h : list (string * F32) :=
  concat (parse_accept_encoding <$> hm_get_all h ACCEPT_ENCODING).

Definition qualities (name : string) (l : list (string * F32)) : list F32 :=
  omap (λ p, if String.eqb p.1 name then Some p.2 else None) l.

(** A cache is told that the response depends on [Accept-Encoding]. *)
Definition varies h : bool :=
  existsb (λ value, String.eqb (hv_as_bytes value) "*" || header_value_contains_accept_encoding value)
    (hm_get_all h VARY).

Context `{!HttpCrateLaws} `{!Float32Laws}.

Lemma fold_codings h (best : option F32 * option F32) :
  fold_left (λ best accept_encoding, fold_left note_encoding (parse_accept_encoding accept_encoding) best)
    (hm_get_all h ACCEPT_ENCODING) best = fold_left note_encoding (codings h) best.
Proof.
  unfold codings. generalize (hm_get_all h ACCEPT_ENCODING) as l. intros l. revert best.
  induction l as [|v l IH]; intros best; simpl; [done|]. by rewrite fold_left_app, IH.
Qed.

Lemma fold_note l g w :
  fold_left note_encoding l (g, w) =
  (fold_left better (qualities "gzip" l) g, fold_left better (qualities "*" l) w).
Proof.
  revert g w. induction l as [|[name q] l IH]; intros g w; simpl; [done|].
  destruct (String.eqb_spec name "gzip") as [->|]; [apply IH|].
  destruct (String.eqb_spec name "*") as [->|]; apply IH.
Qed.

Lemma apply_param_finite q param : f32_is_finite q = true → f32_is_finite (apply_param q param) = true.
Proof.
  intros Hq. unfold apply_param. destruct (splitn2 "="%char param) as [|name [|value rest]]; try done.
  destruct (eq_ignore_ascii_case _ _); [|done]. destruct (f32_parse _) as [x|]; [|done].
  destruct (f32_is_finite x) eqn:E; [by apply f32_clamp_finite|done].
Qed.

Lemma parse_directive_finite d name q : parse_directive d = Some (name, q) → f32_is_finite q = true.
Proof.
  unfold parse_directive. destruct (split_on ";"%char (trim d)) as [|part parts]; [done|].
  destruct (is_empty_str (trim part)); [done|]. intros [= _ <-].
  assert (∀ q0, f32_is_finite q0 = true → f32_is_finite (fold_left apply_param parts q0) = true) as Hf.
  { induction parts as [|x parts IH]; intros q0 Hq0; simpl; [done|]. by apply IH, apply_param_finite. }
  apply Hf, f32_one_finite.
Qed.

Lemma codings_finite h p : p ∈ codings h → f32_is_finite p.2 = true.
Proof.
  unfold codings. generalize (hm_get_all h ACCEPT_ENCODING) as l. intros l.
  induction l as [|v l IH]; simpl; [by intros ?%not_elem_of_nil|]. rewrite elem_of_app.
  intros [Hp|Hp]; [|by apply IH]. unfold parse_accept_encoding in Hp.
  destruct (hv_to_str v) as [s|]; [|by apply not_elem_of_nil in Hp].
  apply list_elem_of_omap in Hp as (d & _ & Hd). destruct p. by apply parse_directive_finite in Hd.
Qed.

Lemma fold_better qs q0 :
  f32_is_finite q0 = true → Forall (λ q, f32_is_finite q = true) qs →
  ∃ q, fold_left better qs (Some q0) = Some q ∧ f32_is_finite q = true ∧
    f32_positive q = f32_positive q0 || existsb f32_positive qs.
Proof.
  revert q0. induction qs as [|x qs IH]; intros q0 Hq0 Hqs; simpl.
  - exists q0. by rewrite orb_false_r.
  - inversion Hqs; subst. change (better (Some q0) x) with (Some (f32_max q0 x)).
    destruct (IH (f32_max q0 x)) as (q & -> & Hq & Hp); [by apply f32_max_finite|done|].
    exists q. split; [done|]. split; [done|]. rewrite Hp, f32_max_positive by done. by rewrite orb_assoc.
Qed.

Lemma best_positive qs : Forall (λ q, f32_is_finite q = true) qs →
  match fold_left better qs None with
  | Some q => qs ≠ [] ∧ f32_positive q = existsb f32_positive qs
  | None => qs = []
  end.
Proof.
  destruct qs as [|x qs]; [done|]. intros Hqs. inversion Hqs; subst. simpl.
  change (better None x) with (Some x). destruct (fold_better qs x) as (q & -> & _ & Hp); done.
Qed.

Lemma qualities_finite name h : Forall (λ q, f32_is_finite q = true) (qualities name (codings h)).
Proof.
  apply Forall_forall. intros q (p & Hp & Hq)%list_elem_of_omap. apply codings_finite in Hp.
  destruct (String.eqb _ _); by simplify_eq.
Qed.

Lemma from_static_ok {E} s v : from_static (E := E) s = Ok v ↔ hv_from_str s = Some v.
Proof. apply expect_ok. Qed.

Lemma contains_accept_encoding v :
  hv_from_str "Accept-Encoding" = Some v → header_value_contains_accept_encoding v = true.
Proof.
  intros Hv. unfold header_value_contains_accept_encoding.
  assert (is_Some (hv_to_str v)) as [s Hs].
  { apply hv_to_str_ascii. rewrite (hv_from_str_bytes _ _ Hv). intros i c Hc. left.
    do 15 (destruct i as [|i]; [injection Hc as <-; vm_compute; lia|]). done. }
  rewrite Hs. apply hv_to_str_bytes in Hs. rewrite (hv_from_str_bytes _ _ Hv) in Hs. subst s. by vm_compute.
Qed.

Lemma varies_spec h : varies h =
  existsb (λ value, String.eqb (hv_as_bytes value) "*") (hm_get_all h VARY)
  || existsb header_value_contains_accept_encoding (hm_get_all h VARY).
Proof.
  unfold varies. induction (hm_get_all h VARY) as [|v l IH]; simpl; [done|]. rewrite IH.
  destruct (String.eqb _ _), (header_value_contains_accept_encoding v); simpl; try done.
  by rewrite orb_true_r.
Qed.

Lemma add_vary_cases {E} h :
  add_vary_header (E := E) h =
  if varies h then Ok h else v ← from_static "Accept-Encoding"; hm_append h VARY v.
Proof.
  rewrite varies_spec. unfold add_vary_header.
  destruct (existsb (λ value, _) _); [done|]. simpl. by destruct (existsb _ _).
Qed.

Lemma add_vary_ok {E} h h' :
  add_vary_header (E := E) h = Ok h' →
  varies h' = true ∧ ∀ n, hm_get_all h' n =
    if String.eqb VARY n && negb (varies h)
    then hm_get_all h n ++ match hv_from_str "Accept-Encoding" with Some v => [v] | None => [] end
    else hm_get_all h n.
Proof.
  rewrite add_vary_cases. destruct (varies h) eqn:Ev.
  - intros [= <-]. split; [done|]. intros n. by rewrite andb_false_r.
  - intros (v & Hv & Ha)%rust_bind_ok. apply from_static_ok in Hv. apply expect_ok in Ha.
    pose proof (λ m, hm_get_all_append _ _ _ _ m Ha) as Hg. split.
    + unfold varies. rewrite Hg, String.eqb_refl, existsb_app. simpl.
      rewrite (contains_accept_encoding v Hv). by rewrite !orb_true_r.
    + intros n. rewrite andb_true_r, Hv. apply Hg.
Qed.
End specification.

Section properties.
Context `{HttpCrate} `{Float32} `{!HttpCrateLaws} `{!Float32Laws}.
Implicit Types (h : HeaderMap).

(** gzip is accepted exactly when some [gzip] coding of the request's
    [Accept-Encoding] headers has a positive quality or, if none names [gzip],
    some [*] has: an explicit refusal of [gzip] outweighs a wildcard, and
    without such a header nothing is accepted. *)
Lemma accepts_gzip_spec h :
  accepts_gzip_encoding h =
    (if bool_decide (qualities "gzip" (codings h) = [])
     then existsb f32_positive (qualities "*" (codings h))
     else existsb f32_positive (qualities "gzip" (codings h))) ∧
  (hm_get_all h ACCEPT_ENCODING = [] → accepts_gzip_encoding h = false).
Proof.
  assert (accepts_gzip_encoding h =
    (if bool_decide (qualities "gzip" (codings h) = [])
     then existsb f32_positive (qualities "*" (codings h))
     else existsb f32_positive (qualities "gzip" (codings h)))) as E.
  { unfold accepts_gzip_encoding. rewrite fold_codings, fold_note.
    pose proof (best_positive _ (qualities_finite "gzip" h)) as Hg.
    pose proof (best_positive _ (qualities_finite "*" h)) as Hw.
    destruct (fold_left better (qualities "gzip" (codings h)) None).
    - destruct Hg as [Hne ->]. by rewrite bool_decide_false.
    - rewrite bool_decide_true by done. destruct (fold_left better (qualities "*" (codings h)) None).
      + by destruct Hw as [_ ->].
      + by rewrite Hw. }
  split; [exact E|]. intros Hn. rewrite E. unfold codings. by rewrite Hn.
Qed.

(** After [add_vary_header] the headers tell caches that the response
    depends on [Accept-Encoding]; at most one value was added, no other header
    changed, and doing it again changes nothing. *)
Lemma add_vary_header_spec {E} h h' :
  add_vary_header (E := E) h = Ok h' →
  varies h' = true ∧
  (∀ n, n ≠ VARY → hm_get_all h' n = hm_get_all h n) ∧
  (varies h = true → h' = h) ∧
  (varies h = false → ∃ v, hv_as_bytes v = "Accept-Encoding" ∧ hm_get_all h' VARY = hm_get_all h VARY ++ [v]) ∧
  add_vary_header (E := E) h' = Ok h'.
Proof.
  intros Hv. destruct (add_vary_ok h h' Hv) as [Hv' Hg]. split; [done|]. split_and!.
  - intros n Hn. rewrite Hg. destruct (String.eqb_spec VARY n); [by subst|done].
  - intros E'. rewrite add_vary_cases, E' in Hv. by injection Hv.
  - intros E'. rewrite add_vary_cases, E' in Hv. apply rust_bind_ok in Hv as (v & Hs & _).
    apply from_static_ok in Hs. exists v. split; [by apply hv_from_str_bytes|].
    by rewrite Hg, String.eqb_refl, E', Hs.
  - by rewrite add_vary_cases, Hv'.
Qed.
End properties.

Section gzip.
Context `{HttpCrate} `{!HttpCrateLaws} (gzip_frames : list (string + string) → list (Frame + string)).

(** The response's body is sent through the encoder. *)
Definition gzipped (response response' : Response Body) : Prop :=
  resp_status response' = resp_status response ∧
  resp_body response' = gzip_body gzip_frames (resp_body response) ∧
  (∃ v, hv_as_bytes v = "gzip" ∧ hm_get_all (resp_headers response') CONTENT_ENCODING = [v]) ∧
  hm_get_all (resp_headers response') CONTENT_LENGTH = [] ∧
  hm_get_all (resp_headers response') ACCEPT_RANGES = [] ∧
  varies (resp_headers response') = true ∧
  ∀ n, n ∉ [CONTENT_ENCODING; VARY; ACCEPT_RANGES; CONTENT_LENGTH] →
    hm_get_all (resp_headers response') n = hm_get_all (resp_headers response) n.

Definition too_small_to_compress (body : Body) : bool :=
  match body_exact body with Some n => (n <? MIN_COMPRESS_SIZE)%N | None => false end.

Lemma size_check body :
  match body_exact body with
  | Some exact_size => (exact_size =? 0)%N || (exact_size <? MIN_COMPRESS_SIZE)%N
  | None => false
  end = too_small_to_compress body.
Proof.
  unfold too_small_to_compress. destruct (body_exact body) as [n|]; [|done].
  destruct (N.eqb_spec n 0) as [->|]; done.
Qed.

Lemma varies_ext h h' : hm_get_all h VARY = hm_get_all h' VARY → varies h = varies h'.
Proof. unfold varies. by intros ->. Qed.

Lemma apply_gzip_ok {E} response response' :
  apply_gzip_compression gzip_frames (E := E) response = Ok response' →
  if too_small_to_compress (resp_body response) then response' = response
  else gzipped response response' ∧ resp_no_compression response' = resp_no_compression response ∧
    (varies (resp_headers response) = true →
       hm_get_all (resp_headers response') VARY = hm_get_all (resp_headers response) VARY).
Proof.
  unfold apply_gzip_compression. rewrite size_check.
  destruct (too_small_to_compress _); [by intros [= <-]|].
  intros (v & Hv & Hr)%rust_bind_ok. apply rust_bind_ok in Hr as (h1 & H1 & Hr).
  apply rust_bind_ok in Hr as (h2 & H2 & [= <-]).
  apply from_static_ok in Hv. apply expect_ok in H1.
  pose proof (λ m, hm_get_all_insert _ _ _ _ m H1) as G1.
  destruct (add_vary_ok h1 h2 H2) as [Hvar G2].
  assert (∀ n, hm_get_all (hm_remove (hm_remove h2 ACCEPT_RANGES) CONTENT_LENGTH) n =
    if String.eqb CONTENT_LENGTH n || String.eqb ACCEPT_RANGES n then [] else hm_get_all h2 n) as G3.
  { intros n. rewrite !hm_get_all_remove. by destruct (String.eqb CONTENT_LENGTH n). }
  split; [|split; [done|]].
  2: { assert (hm_get_all h1 VARY = hm_get_all (resp_headers response) VARY) as Gv by apply G1.
       intros Hv'. rewrite <-(varies_ext _ _ Gv) in Hv'. simpl. rewrite G3. simpl. rewrite G2, Hv'. simpl. exact Gv. }
  split_and!; simpl; [done|done| |by rewrite G3|by rewrite G3| |].
  - exists v. split; [by apply hv_from_str_bytes|]. rewrite G3. simpl. by rewrite G2, G1.
  - rewrite <-Hvar. apply varies_ext. by rewrite G3.
  - intros n Hn. rewrite !not_elem_of_cons in Hn. destruct Hn as (N1 & N2 & N3 & N4 & _).
    rewrite G3, G2, G1.
    repeat match goal with |- context [String.eqb ?a n] => destruct (String.eqb_spec a n); [congruence|] end.
    done.
Qed.
End gzip.
