(* ===== verification/Server.v ===== *)
(** * The server

    [dropshot/src/server.rs]: the handling of one request, from the version policy
    through the router and the handler to compression and the request id.
    What is logged and traced of a request is in [Tracing]; the generated request
    id and the handlers are parameters. *)
From S2P Require Import Prelude BTree Externals Versions StatusCodes Body HttpError Config Schema TypeUtil ApiEndpoint.
From S2P Require Import Router RouterSpec RouterLookup Versioning Compression Handler ApiDescription.

Section server.
Context `{Crates} `{!HttpBuilder} `{!Float32}.
Variable to_string_pretty : HttpErrorResponseBody → option string.
Variable gzip_frames : list (string + string) → list (Frame + string).

(** [dyn RouteHandler::handle_request]. *)
Variable handle_request : Handler → RequestContext → Request Body → rust HandlerError (Response Body).

(** [DropshotState], without log, address and TLS acceptor. *)
Record DropshotState (C : Type) := mk_state {
  st_private : C;
  st_config : ServerConfig;
  st_router : HttpRouter;
  st_version_policy : VersionPolicy Version Body;
}.
Arguments mk_state {C} _ _ _ _.
Arguments st_private {C} _.
Arguments st_config {C} _.
Arguments st_router {C} _.
Arguments st_version_policy {C} _.

(** ** One request *)

(** [handle_request] run on its own task: the channel carries its result, and
    nothing when it panicked. *)
Definition spawned (result : rust HandlerError (Response Body)) : option (HandlerError + Response Body) :=
  match result with Ok r => Some (inr r) | Err e => Some (inl e) | Panic _ => None end.

(** Running the handler in either task mode, for a client that stays. *)
Definition run_handler (mode : HandlerTaskMode) (result : rust HandlerError (Response Body)) :
    rust HandlerError (Response Body) :=
  match mode with
  | CancelOnDisconnect => result
  | Detached =>
      match spawned result with
      | Some (inr response) => Ok response
      | Some (inl e) => Err e
      | None => match result with Panic m => Panic m | _ => Panic "task failed to send result but didn't panic" end
      end
  end.

(** The block that adds [Vary] and compresses. *)
Definition compress (config : ServerConfig) (m : string) (request_headers : HeaderMap) (response : Response Body) :
    rust HandlerError (Response Body) :=
  if bool_decide (compression config = Gzip) && is_compressible_content_type (resp_headers response) then
    h ← add_vary_header (resp_headers response);
    let response := with_headers response h in
    if should_compress_response m request_headers (resp_status response) (resp_headers response)
         (resp_no_compression response)
    then apply_gzip_compression gzip_frames response
    else Ok response
  else Ok response.

Context {C : Type}.
Implicit Types (server : DropshotState C).

Definition http_request_handle server (request : Request Body) (request_id : string) (remote_addr : string) :
    rust HandlerError (Response Body) :=
  let m := req_method request in
  found_version ← try_handler (request_version (st_version_policy server) request);
  lookup_result ← try_handler (lookup_route (st_router server) m (req_path request) found_version);
  let rqctx := mk_request_context (st_config server) (lr_endpoint lookup_result) request_id
                 (request_info_new request remote_addr) in
  let request_headers := ri_headers (rc_request rqctx) in
  response ← run_handler (default_handler_task_mode (st_config server))
               (handle_request (lr_handler lookup_result) rqctx request);
  response ← compress (st_config server) m request_headers response;
  id ← expect (hv_from_str request_id) "called `Result::unwrap()` on an `Err` value";
  h ← hm_insert (resp_headers response) HEADER_REQUEST_ID id;
  Ok (with_headers response h).

(** The result is always [Ok]: an error becomes its response. *)
Definition http_request_handle_wrap server (request : Request Body) (request_id : string) (remote_addr : string) :
    panics (Response Body) :=
  match http_request_handle server request request_id remote_addr with
  | Err error => handler_into_response to_string_pretty error request_id
  | Ok response => Ok response
  | Panic m => Panic m
  end.

(** The request headers that the configuration asks to log, under the names the
    log has them. *)
Definition log_header_name (name : string) : string :=
  "hdr_" +:+ str_map (λ c, if Ascii.eqb c "-"%char then "_"%char else c) (to_ascii_lowercase name).

Definition logged_headers (config : ServerConfig) (headers : HeaderMap) : list (string * string) :=
  omap (λ name, v ← hm_get headers (to_ascii_lowercase name); v ← hv_to_str v; Some (log_header_name name, v))
    (log_headers config).
End server.
Arguments mk_state {_ C} _ _ _ _.
Arguments st_private {_ C} _.
Arguments st_config {_ C} _.
Arguments st_router {_ C} _.
Arguments st_version_policy {_ C} _.

(** ** Facts *)

Section facts.
Context `{Crates} `{!HttpBuilder} `{!Float32}.
Context `{!HttpCrateLaws} `{!HeaderNameLaws} `{!HttpBuilderLaws} `{!HeaderMapRoom}.
Variable to_string_pretty : HttpErrorResponseBody → option string.
Variable gzip_frames : list (string + string) → list (Frame + string).
Variable handle_request : Handler → RequestContext → Request Body → rust HandlerError (Response Body).

(** An [HttpError] is passed on as it is. *)
Lemma try_handler_http {A} (m : rust HttpError A) :
  try_handler m = match m with Ok a => Ok a | Err e => Err (Dropshot e) | Panic msg => Panic msg end.
Proof. by destruct m. Qed.

(** For a client that stays, the task mode makes no difference. *)
Lemma run_handler_result mode result : run_handler mode result = result.
Proof. by destruct mode, result. Qed.

(** When a response is compressed, server and request permitting: the conditions
    of [is_compressible_content_type], [should_compress_response] and
    [apply_gzip_compression]. *)
Record compressible (m : string) (request_headers : HeaderMap) (response : Response Body) : Prop := {
  co_accepts : accepts_gzip_encoding request_headers = true;
  co_method : m ≠ "HEAD";
  co_type : is_compressible_content_type (resp_headers response) = true;
  co_status : ¬ (100 ≤ status_as_u16 (resp_status response) < 200)%Z ∧
    status_as_u16 (resp_status response) ∉ [204; 206; 304]%Z;
  co_range : hm_get_all (resp_headers response) CONTENT_RANGE = [];
  co_encoding : hm_get_all (resp_headers response) CONTENT_ENCODING = [];
  co_marker : resp_no_compression response = false;
  co_declared : declared_too_small (resp_headers response) = false;
  co_size : too_small_to_compress (resp_body response) = false;
}.

Lemma contains_key_false h n : hm_contains_key h n = false ↔ hm_get_all h n = [].
Proof. unfold hm_contains_key. by destruct (hm_get_all h n). Qed.

Lemma status_ne s n : (100 ≤ n < 1000)%Z → s ≠ status_const n → status_as_u16 s ≠ n.
Proof.
  intros Hn Hs E. apply Hs, status_as_u16_inj. by rewrite status_const_u16.
Qed.

Lemma should_compress_spec m rh (response : Response Body) :
  should_compress_response m rh (resp_status response) (resp_headers response) (resp_no_compression response) = true ∧
  too_small_to_compress (resp_body response) = false ↔ compressible m rh response.
Proof.
  unfold should_compress_response. split.
  - intros [Hs Hsize]. destruct (status_is_informational (resp_status response)) eqn:E1; [done|].
    case_bool_decide as E2; [done|]. case_bool_decide as E3; [done|]. cbn [orb] in Hs.
    destruct (String.eqb_spec m "HEAD") as [|E4]; [done|].
    case_bool_decide as E5; [done|].
    destruct (hm_contains_key _ CONTENT_RANGE) eqn:E6; [done|].
    destruct (accepts_gzip_encoding rh) eqn:E7; [|done].
    destruct (hm_contains_key _ CONTENT_ENCODING) eqn:E8; [done|].
    destruct (resp_no_compression response) eqn:E9; [done|].
    destruct (declared_too_small _) eqn:E10; [done|].
    split; try done; [|by apply contains_key_false..].
    split.
    + intros Hr. apply status_is_informational_spec in Hr. congruence.
    + rewrite !not_elem_of_cons. split_and!; [by apply status_ne..|]. apply not_elem_of_nil.
  - intros [Ha Hm Ht [Hi Hst] Hr He Hn Hd Hsize]. split; [|done].
    rewrite Ha, Ht, Hn, Hd, (proj2 (contains_key_false _ _) Hr), (proj2 (contains_key_false _ _) He).
    rewrite !not_elem_of_cons in Hst. destruct Hst as (N4 & N6 & N34 & _).
    rewrite !bool_decide_false by (intros Hs; rewrite Hs, status_const_u16 in *; lia).
    destruct (status_is_informational _) eqn:E1; [by apply status_is_informational_spec in E1|].
    by destruct (String.eqb_spec m "HEAD").
Qed.

(** Nothing that is asked of a response is asked of its [Vary]. *)
Lemma compressible_headers m rh (response : Response Body) h :
  (∀ n, n ≠ VARY → hm_get_all h n = hm_get_all (resp_headers response) n) →
  compressible m rh (with_headers response h) ↔ compressible m rh response.
Proof.
  intros Hsame. assert (∀ n, n ≠ VARY → hm_get h n = hm_get (resp_headers response) n) as Hg.
  { intros n Hn. unfold hm_get. by rewrite Hsame. }
  assert (is_compressible_content_type h = is_compressible_content_type (resp_headers response)) as Ht.
  { unfold is_compressible_content_type. by rewrite Hg. }
  assert (declared_too_small h = declared_too_small (resp_headers response)) as Hd.
  { unfold declared_too_small. by rewrite Hg. }
  split; intros [? ? Ht' ? Hr He ? Hd' ?]; cbn [with_headers resp_headers resp_status resp_body resp_no_compression] in *;
    split; cbn [with_headers resp_headers resp_status resp_body resp_no_compression];
    rewrite ?Ht, ?Hd, ?Hsame in * by done; try done.
Qed.

(** What the block that compresses makes of a response: where the server is
    configured for gzip and the content is of a type to compress, [Vary] tells
    so, and the body is compressed if the request and the response permit it;
    nothing else changes. *)
Definition compressed_for (config : ServerConfig) m rh (response response' : Response Body) : Prop :=
  resp_status response' = resp_status response ∧
  (∃ added, hm_get_all (resp_headers response') VARY = hm_get_all (resp_headers response) VARY ++ added ∧
     hv_as_bytes <$> added =
       if bool_decide (compression config = Gzip) && is_compressible_content_type (resp_headers response)
            && negb (varies (resp_headers response))
       then ["Accept-Encoding"] else []) ∧
  (¬ (compression config = Gzip ∧ compressible m rh response) ∧
     resp_body response' = resp_body response ∧
     (∀ n, n ≠ VARY → hm_get_all (resp_headers response') n = hm_get_all (resp_headers response) n) ∨
   compression config = Gzip ∧ compressible m rh response ∧ gzipped gzip_frames response response').

Lemma compress_ok config m rh response response' :
  compress gzip_frames config m rh response = Ok response' → compressed_for config m rh response response'.
Proof.
  unfold compress, compressed_for. destruct (_ && _) eqn:Eg.
  2: { intros [= <-]. split; [done|]. split; [exists []; by rewrite app_nil_r|]. left. split; [|done].
    intros [Hc [? ? Ht]]. rewrite bool_decide_true, Ht in Eg by done. done. }
  apply andb_true_iff in Eg as [Ec%bool_decide_eq_true Et].
  intros (h & Hv & Hr)%rust_bind_ok. destruct (add_vary_ok _ _ Hv) as [Hvar Hget].
  assert (∀ n, n ≠ VARY → hm_get_all h n = hm_get_all (resp_headers response) n) as Hsame.
  { intros n Hn. rewrite Hget. destruct (String.eqb_spec VARY n); [by subst|done]. }
  pose proof (should_compress_spec m rh (with_headers response h)) as Hs.
  rewrite (compressible_headers m rh response h Hsame) in Hs.
  assert (∃ added, hm_get_all h VARY = hm_get_all (resp_headers response) VARY ++ added ∧
    hv_as_bytes <$> added = if negb (varies (resp_headers response)) then ["Accept-Encoding"] else []) as Hvary.
  { rewrite Hget, String.eqb_refl, andb_true_l. destruct (hv_from_str_visible "Accept-Encoding") as [v Hs']; [done|].
    destruct (negb _); [exists [v]; by rewrite Hs', <-(hv_from_str_bytes _ _ Hs')|exists []; by rewrite app_nil_r]. }
  rewrite andb_true_l.
  assert (response' = with_headers response h ∧ ¬ compressible m rh response ∨
    compressible m rh response ∧ gzipped gzip_frames (with_headers response h) response' ∧
      hm_get_all (resp_headers response') VARY = hm_get_all h VARY) as [[-> Hn]|(Hc & Hz & Hv')].
  { destruct (should_compress_response _ _ _ _ _) eqn:Es.
    2: { injection Hr as <-. left. split; [done|]. intros []%Hs. congruence. }
    apply apply_gzip_ok in Hr. cbn [with_headers resp_body resp_headers] in *.
    destruct (too_small_to_compress (resp_body response)) eqn:Ez; [left|right].
    - split; [done|]. by intros []%Hs.
    - destruct Hr as (Hg & _ & Hv'). split; [by apply Hs|]. split; [done|by apply Hv']. }
  - split; [done|]. split; [done|]. left. split; [naive_solver|]. by split.
  - destruct Hz as (Hst & Hb & He & Hl & Ha & Hvr & Hg). split; [done|]. split; [by rewrite Hv'|]. right.
    unfold gzipped. split_and!; try done. intros n Hn. rewrite (Hg n Hn). apply Hsame. set_solver.
Qed.

Lemma add_vary_never_err {E} h : never_err (add_vary_header (E := E) h).
Proof.
  unfold add_vary_header, from_static, hm_append. cbv zeta. auto 6 with never_err.
Qed.

Lemma compress_never_err config m rh response : never_err (compress gzip_frames config m rh response).
Proof.
  unfold compress, apply_gzip_compression, from_static, hm_insert. cbv zeta.
  repeat first [apply add_vary_never_err|apply never_err_expect|apply never_err_ok
    |apply never_err_if|apply never_err_bind; [|intros ?]].
Qed.

Definition resp_header_count (r : Response Body) : nat := length (hm_iter (resp_headers r)).

Lemma add_vary_total {E} h : length (hm_iter h) < header_room →
  ∃ h', add_vary_header (E := E) h = Ok h' ∧ length (hm_iter h') ≤ S (length (hm_iter h)).
Proof.
  intros Hroom. rewrite add_vary_cases. destruct (varies h); [exists h; split; [done|lia]|].
  destruct (hv_from_str_visible "Accept-Encoding") as [v Hv]; [done|].
  unfold from_static, hm_append. rewrite Hv. simpl. destruct (hm_append_room h VARY v Hroom) as [h' E'].
  rewrite E'. exists h'. split; [done|]. rewrite (hm_iter_append _ _ _ _ E'). lia.
Qed.

Lemma compress_total config m rh response :
  resp_header_count response + 2 < header_room →
  ∃ r, compress gzip_frames config m rh response = Ok r ∧
    resp_header_count r ≤ resp_header_count response + 3.
Proof.
  intros Hroom. unfold compress. destruct (_ && _); [|exists response; split; [done|lia]].
  unfold resp_header_count in *.
  destruct (add_vary_total (E := HandlerError) (resp_headers response)) as (h & -> & Hh); [lia|]. cbn [mbind rust_bind].
  destruct (should_compress_response _ _ _ _ _); [|eexists; split; [done|]; cbn; lia].
  unfold apply_gzip_compression. rewrite size_check.
  destruct (too_small_to_compress _); [eexists; split; [done|]; cbn; lia|].
  destruct (hv_from_str_visible "gzip") as [v Hv]; [done|]. unfold from_static at 1, hm_insert. rewrite Hv.
  cbn [expect mbind rust_bind with_headers resp_headers].
  destruct (hm_insert_room h CONTENT_ENCODING v) as [h1 E1]; [lia|]. rewrite E1. cbn [expect mbind rust_bind].
  apply hm_iter_insert in E1.
  destruct (add_vary_total (E := HandlerError) h1) as (h2 & -> & Hh2); [lia|]. cbn [mbind rust_bind].
  eexists. split; [done|]. cbn [resp_headers].
  pose proof (hm_iter_remove (hm_remove h2 ACCEPT_RANGES) CONTENT_LENGTH).
  pose proof (hm_iter_remove h2 ACCEPT_RANGES). lia.
Qed.
End facts.

(** ** Properties *)

Section properties.
Context `{Crates} `{!HttpBuilder} `{!Float32}.
Context `{!HttpCrateLaws} `{!HeaderNameLaws} `{!HttpBuilderLaws} `{!HeaderMapRoom}.
Variable to_string_pretty : HttpErrorResponseBody → option string.
Variable gzip_frames : list (string + string) → list (Frame + string).
Variable handle_request : Handler → RequestContext → Request Body → rust HandlerError (Response Body).
Context {C : Type}.
Implicit Types (server : DropshotState C) (request : Request Body) (r : Response Body).

(** The context of the handler that the router found. *)
Definition context_of server request id addr (res : RouterLookupResult) : RequestContext :=
  mk_request_context (st_config server) (lr_endpoint res) id (request_info_new request addr).

(** What a request comes to: it is refused for its version, refused by the
    router, or given to the handler the router finds, once, which fails or
    answers. *)
Inductive outcome server request id addr : HandlerError + Response Body → Prop :=
| version_refused e :
    request_version (st_version_policy server) request = Err e →
    outcome server request id addr (inl (Dropshot e))
| route_refused ver e :
    request_version (st_version_policy server) request = Ok ver →
    lookup_route (st_router server) (req_method request) (req_path request) ver = Err e →
    outcome server request id addr (inl (Dropshot e))
| handler_failed ver res err :
    request_version (st_version_policy server) request = Ok ver →
    lookup_route (st_router server) (req_method request) (req_path request) ver = Ok res →
    handle_request (lr_handler res) (context_of server request id addr res) request = Err err →
    outcome server request id addr (inl err)
| handler_answered ver res resp :
    request_version (st_version_policy server) request = Ok ver →
    lookup_route (st_router server) (req_method request) (req_path request) ver = Ok res →
    handle_request (lr_handler res) (context_of server request id addr res) request = Ok resp →
    outcome server request id addr (inr resp).

(** The handling of a request sets the request id last. *)
Lemma answer_has_id server request id addr r :
  http_request_handle gzip_frames handle_request server request id addr = Ok r →
  ∃ v, hv_as_bytes v = id ∧ last (hm_get_all (resp_headers r) HEADER_REQUEST_ID) = Some v.
Proof.
  unfold http_request_handle. intros (ver & _ & (res & _ & (resp & _ & (resp' & _ & E)%rust_bind_ok)%rust_bind_ok)%rust_bind_ok)%rust_bind_ok.
  apply rust_bind_ok in E as (v & Hv & (h & Hh & [= <-])%rust_bind_ok). apply expect_ok in Hv, Hh.
  exists v. split; [by apply hv_from_str_bytes|]. cbn [with_headers resp_headers].
  by rewrite (hm_get_all_insert _ _ _ _ _ Hh), String.eqb_refl.
Qed.

(** What becomes of the handler's response [resp]: compressed where that is due,
    and given the request id. *)
Definition handler_answer (config : ServerConfig) request (id : string) (resp r : Response Body) : Prop :=
  ∃ resp' v, compressed_for gzip_frames config (req_method request) (req_headers request) resp resp' ∧
    resp_status r = resp_status resp' ∧ resp_body r = resp_body resp' ∧ hv_as_bytes v = id ∧
    ∀ n, hm_get_all (resp_headers r) n =
      if String.eqb HEADER_REQUEST_ID n then [v] else hm_get_all (resp_headers resp') n.

Lemma handle_ok server request id addr r :
  http_request_handle gzip_frames handle_request server request id addr = Ok r →
  ∃ resp, outcome server request id addr (inr resp) ∧ handler_answer (st_config server) request id resp r.
Proof.
  unfold http_request_handle. rewrite try_handler_http. intros E.
  destruct (request_version _ _) as [ver|e|] eqn:Ev; try done.
  cbn [mbind rust_bind] in E. rewrite try_handler_http in E.
  destruct (lookup_route _ _ _ _) as [res|e|] eqn:El; try done. cbn [mbind rust_bind] in E.
  rewrite run_handler_result in E. apply rust_bind_ok in E as (resp & Eh & E).
  apply rust_bind_ok in E as (resp' & Ec & E). apply rust_bind_ok in E as (v & Hv & E).
  apply rust_bind_ok in E as (h & Hh & [= <-]). apply expect_ok in Hv, Hh.
  exists resp. split; [by eapply handler_answered|]. exists resp', v. apply compress_ok in Ec.
  split; [exact Ec|]. split; [done|]. split; [done|]. split; [by apply hv_from_str_bytes|].
  intros n. apply (hm_get_all_insert _ _ _ _ n Hh).
Qed.

Lemma handle_err server request id addr err :
  http_request_handle gzip_frames handle_request server request id addr = Err err →
  outcome server request id addr (inl err).
Proof.
  unfold http_request_handle. rewrite try_handler_http. intros E.
  destruct (request_version _ _) as [ver|e|] eqn:Ev; try done; [|injection E as <-; by apply version_refused].
  cbn [mbind rust_bind] in E. rewrite try_handler_http in E.
  destruct (lookup_route _ _ _ _) as [res|e|] eqn:El; try done;
    [|injection E as <-; by eapply route_refused]. cbn [mbind rust_bind] in E.
  rewrite run_handler_result in E.
  destruct (handle_request _ _ _) as [resp|err'|] eqn:Eh; try done;
    [|injection E as <-; by eapply handler_failed].
  cbn [mbind rust_bind] in E. exfalso. revert E.
  apply never_err_bind; [apply compress_never_err|intros resp']. unfold hm_insert. auto with never_err.
Qed.

(** C13: every response says which request it answers, its last request id being
    the one generated, and is what the request comes to.  For a request refused
    or a handler that failed it is the response of that error, [error_answer]:
    the error's status, its body and exactly its headers, the content type and
    request id added.  Otherwise it is the handler's response,
    [handler_answer], with the request id in place of any it had and otherwise
    changed only by compression: where the server is configured for gzip and the
    content type is one to compress, [Vary] gets [Accept-Encoding] unless it
    says so already; and exactly if the request and the response also permit
    it, the body is the compressed one, [Content-Encoding] says gzip, and
    [Content-Length] and [Accept-Ranges] are gone.  Every other header is as the
    handler set it. *)
Theorem request_answered server request id addr r :
  http_request_handle_wrap to_string_pretty gzip_frames handle_request server request id addr = Ok r →
  (∃ v, hv_as_bytes v = id ∧ last (hm_get_all (resp_headers r) HEADER_REQUEST_ID) = Some v) ∧
  ∃ o, outcome server request id addr o ∧
    match o with
    | inl err => error_answer to_string_pretty err id r
    | inr resp => handler_answer (st_config server) request id resp r
    end.
Proof.
  unfold http_request_handle_wrap.
  destruct (http_request_handle _ _ _ _ _ _) as [r'|err|] eqn:E; [intros [= <-]|intros Hr|done].
  - split; [by eapply answer_has_id|]. apply handle_ok in E as (resp & Ho & Ha). by exists (inr resp).
  - apply handler_into_response_ok in Hr; [|done..]. split; [by eapply error_answer_id|].
    exists (inl err). split; [by apply handle_err|done].
Qed.

(** The headers an error's response starts with. *)
Definition handler_error_headers (err : HandlerError) : nat :=
  match err with HandlerResponse _ rsp => resp_header_count rsp | Dropshot e => header_count e end.

(** The handlers return, with responses whose header maps are not almost full. *)
Definition handlers_return : Prop := ∀ h ctx request,
  match handle_request h ctx request with
  | Ok resp => resp_header_count resp + 3 < header_room
  | Err err => handler_error_headers err + 1 < header_room
  | Panic _ => False
  end.

Definition policy_returns (policy : VersionPolicy Version Body) : Prop := ∀ request,
  match request_version policy request with
  | Ok _ => True
  | Err e => header_count e + 1 < header_room
  | Panic _ => False
  end.

Lemma handler_into_response_total err id :
  is_Some (hv_from_str id) → (∀ b, is_Some (to_string_pretty b)) → handler_error_headers err + 1 < header_room →
  ∃ r, handler_into_response to_string_pretty err id = Ok r.
Proof.
  intros Hid Hs Hroom. destruct err as [msg rsp|e]; cbn [handler_into_response].
  - destruct Hid as [v ->]. unfold handler_error_headers, resp_header_count in Hroom. unfold hm_insert.
    destruct (hm_insert_room (resp_headers rsp) HEADER_REQUEST_ID v) as [h ->]; [lia|]. by eexists.
  - by apply into_response_total.
Qed.

(** C14: the server answers every request: when the version policy and the
    handlers return and the request id is a valid header value, then whatever
    the request, its path and its headers are, the handling of the request
    does not panic but gives a response. *)
Theorem every_request_answered server eps request id addr :
  build eps = Ok (st_router server) → methods_fit eps → length eps + 1 < header_room →
  policy_returns (st_version_policy server) → handlers_return →
  (∀ b, is_Some (to_string_pretty b)) → is_Some (hv_from_str id) →
  ∃ r, http_request_handle_wrap to_string_pretty gzip_frames handle_request server request id addr = Ok r.
Proof.
  intros HR%build_rep Hfit Heps Hpol Hhan Hser Hid. unfold http_request_handle_wrap, http_request_handle.
  rewrite try_handler_http. specialize (Hpol request).
  destruct (request_version _ request) as [ver|e|]; [|by apply handler_into_response_total|done].
  cbn [mbind rust_bind]. rewrite try_handler_http.
  pose proof (lookup_answer eps (st_router server) (req_method request) (req_path request) ver HR Hfit) as Hl.
  destruct (lookup_route _ _ _ ver) as [res|e|]; [| |done].
  2: { apply handler_into_response_total; [done|done|]. cbn [handler_error_headers]. lia. }
  cbn [mbind rust_bind]. rewrite run_handler_result.
  specialize (Hhan (lr_handler res) (context_of server request id addr res) request). unfold context_of in Hhan.
  destruct (handle_request _ _ request) as [resp|err|]; [|by apply handler_into_response_total|done].
  cbn [mbind rust_bind].
  destruct (compress_total gzip_frames (st_config server) (req_method request)
    (req_headers request) resp) as (resp' & E & Hc); [lia|].
  cbn [ri_headers rc_request request_info_new]. rewrite E. cbn [mbind rust_bind].
  destruct Hid as [v ->]. cbn [expect mbind rust_bind]. unfold hm_insert.
  destruct (hm_insert_room (resp_headers resp') HEADER_REQUEST_ID v) as [h ->]; [unfold resp_header_count in *; lia|].
  by eexists.
Qed.
End properties.
