(* ===== verification/Tracing.v ===== *)
(** * What is logged and traced of a request

    The log messages and the DTrace probes of [http_request_handle_wrap] in
    [dropshot/src/server.rs], with the data of [dropshot/src/dtrace.rs]: when a
    request comes in, and when it is done or its task is dropped or unwound.

    Latencies are left out; what [http_request_handle] and the handler's own task
    log in between is in [HandlerTasks].  That the crate has the feature [usdt-probes] is
    [usdt_probes]; with it, probes that nobody listens to are fired all the same. *)
From S2P Require Import Prelude BTree Externals Versions StatusCodes Body HttpError Config Schema TypeUtil ApiEndpoint.
From S2P Require Import Router RouterLookup Versioning Compression Handler ApiDescription Server.

(** [dtrace::RequestInfo] and [dtrace::ResponseInfo], with addresses as text. *)
Record ProbeRequestInfo := mk_probe_request {
  pr_id : string;
  pr_local_addr : string;
  pr_remote_addr : string;
  pr_method : string;
  pr_path : string;
  pr_query : option string;
}.

Record ProbeResponseInfo := mk_probe_response {
  pd_id : string;
  pd_local_addr : string;
  pd_remote_addr : string;
  pd_status_code : Z;
  pd_message : string;
}.

(** The messages, with the error's internal and external messages, and events:
    a message with the fields of its logger, or a probe. *)
Inductive log_message :=
| IncomingRequest
| RequestCompleted (response_code : Z) (errors : option (string * option string))
| RequestCancelled.

Inductive trace_event :=
| Logged (fields : list (string * string)) (m : log_message)
| RequestStart (info : ProbeRequestInfo)
| RequestDone (info : ProbeResponseInfo).

Definition message_of (e : trace_event) : option log_message :=
  match e with Logged _ m => Some m | _ => None end.

Definition is_probe (e : trace_event) : bool := match e with Logged _ _ => false | _ => true end.

Section tracing.
Context `{Crates} `{!HttpBuilder} `{!Float32} {C : Type}.
Variables (to_string_pretty : HttpErrorResponseBody → option string)
  (gzip_frames : list (string + string) → list (Frame + string))
  (handle_request : Handler → RequestContext → Request Body → rust HandlerError (Response Body)).
Variables (usdt_probes : bool) (uri_to_string : Request Body → string).
Implicit Types (server : DropshotState C) (request : Request Body).

(** The fields of [request_log], the oldest first. *)
Definition request_fields server request (request_id remote_addr : string) : list (string * string) :=
  [("remote_addr", remote_addr); ("req_id", request_id); ("method", req_method request); ("uri", uri_to_string request)]
  ++ logged_headers (st_config server) (req_headers request).

Definition probe (e : trace_event) : list trace_event := if usdt_probes then [e] else [].

Definition request_start request (request_id local_addr remote_addr : string) : list trace_event :=
  probe (RequestStart (mk_probe_request request_id local_addr remote_addr
    (req_method request) (req_path request) (req_query request))).

(** The code of the scope guard [on_disconnect]. *)
Definition on_disconnect (fields : list (string * string)) (request_id local_addr remote_addr : string) : list trace_event :=
  [Logged fields RequestCancelled] ++
  probe (RequestDone (mk_probe_response request_id local_addr remote_addr 499
    "client disconnected before response returned")).

(** What is logged and traced of the result. *)
Definition request_done (fields : list (string * string)) (request_id local_addr remote_addr : string)
    (maybe_response : HandlerError + Response Body) : list trace_event :=
  match maybe_response with
  | inl error =>
      let status := status_as_u16 (handler_status_code error) in
      probe (RequestDone (mk_probe_response request_id local_addr remote_addr status
        (default (handler_internal_message error) (handler_external_message error)))) ++
      [Logged fields (RequestCompleted status (Some (handler_internal_message error, handler_external_message error)))]
  | inr response =>
      let status := status_as_u16 (resp_status response) in
      [Logged fields (RequestCompleted status None)] ++
      probe (RequestDone (mk_probe_response request_id local_addr remote_addr status ""))
  end.

(** [http_request_handle_wrap] with its trace, for a client that [disconnects]
    while [http_request_handle] is awaited, which drops the task, or does not.
    The guard's code runs when the task is dropped or unwinds, and not once the
    guard is defused. *)
Definition http_request_handle_traced server request (request_id local_addr remote_addr : string) (disconnects : bool) :
    list trace_event * panics (option (Response Body)) :=
  let fields := request_fields server request request_id remote_addr in
  let before := Logged fields IncomingRequest :: request_start request request_id local_addr remote_addr in
  let guard := on_disconnect fields request_id local_addr remote_addr in
  if disconnects then (before ++ guard, Ok None)
  else
    match http_request_handle gzip_frames handle_request server request request_id remote_addr with
    | Panic m => (before ++ guard, Panic m)
    | Err error => (before ++ request_done fields request_id local_addr remote_addr (inl error),
        Some <$> handler_into_response to_string_pretty error request_id)
    | Ok response => (before ++ request_done fields request_id local_addr remote_addr (inr response), Ok (Some response))
    end.

(** ** Properties *)

(** For a client that stays the result is that of [http_request_handle_wrap]. *)
Lemma traced_result server request id laddr raddr :
  (http_request_handle_traced server request id laddr raddr false).2 =
  Some <$> http_request_handle_wrap to_string_pretty gzip_frames handle_request server request id raddr.
Proof. unfold http_request_handle_traced, http_request_handle_wrap. by destruct (http_request_handle _ _ _ _ _ _). Qed.

Context `{!HttpCrateLaws} `{!HeaderNameLaws} `{!HttpBuilderLaws} `{!HeaderMapRoom}.

(** The end of a trace: its last message and its last probe. *)
Definition trace_ends (before : list trace_event) (m : log_message) (d : ProbeResponseInfo) (tr : list trace_event) : Prop :=
  omap message_of tr = [IncomingRequest; m] ∧ List.filter is_probe tr = List.filter is_probe before ++ probe (RequestDone d).

Lemma on_disconnect_ends fields request id laddr raddr :
  let before := Logged fields IncomingRequest :: request_start request id laddr raddr in
  trace_ends before RequestCancelled
    (mk_probe_response id laddr raddr 499 "client disconnected before response returned")
    (before ++ on_disconnect fields id laddr raddr).
Proof. unfold trace_ends, on_disconnect, request_start, probe. by destruct usdt_probes. Qed.

Lemma request_done_ends fields request id laddr raddr result :
  let before := Logged fields IncomingRequest :: request_start request id laddr raddr in
  let status := status_as_u16 (match result with inl e => handler_status_code e | inr r => resp_status r end) in
  ∃ errors msg,
    trace_ends before (RequestCompleted status errors) (mk_probe_response id laddr raddr status msg)
      (before ++ request_done fields id laddr raddr result).
Proof. unfold trace_ends, request_done, request_start, probe. destruct result; do 2 eexists; by destruct usdt_probes. Qed.

(** All of it is logged with the same fields. *)
Definition logged_with (fields : list (string * string)) (tr : list trace_event) : Prop :=
  Forall (λ e, match e with Logged f _ => f = fields | _ => True end) tr.

Lemma logged_with_probe fields e : is_probe e = true → logged_with fields (probe e).
Proof. unfold probe, logged_with. intros He. destruct usdt_probes; [|done]. by destruct e; repeat constructor. Qed.

Lemma before_logged fields request id laddr raddr :
  logged_with fields (Logged fields IncomingRequest :: request_start request id laddr raddr).
Proof. constructor; [done|]. by apply logged_with_probe. Qed.

Lemma on_disconnect_logged fields id laddr raddr : logged_with fields (on_disconnect fields id laddr raddr).
Proof. constructor; [done|]. by apply logged_with_probe. Qed.

Lemma request_done_logged fields id laddr raddr o : logged_with fields (request_done fields id laddr raddr o).
Proof.
  destruct o; simpl; [|by constructor; [|by apply logged_with_probe]].
  apply Forall_app. split; [by apply logged_with_probe|]. by repeat constructor.
Qed.

(** C15: each request is traced by one message and one probe when it comes in
    and one of each when it ends, under the same request id and addresses.  If there
    is a response, the last two tell its status and the request id that its headers
    have; the request is said to be cancelled by its client, with the status 499,
    exactly when the client did disconnect or the handling panicked. *)
Theorem request_traced server request id laddr raddr disconnects :
  let '(tr, result) := http_request_handle_traced server request id laddr raddr disconnects in
  ∃ m d,
    omap message_of tr = [IncomingRequest; m] ∧
    List.filter is_probe tr = request_start request id laddr raddr ++ probe (RequestDone d) ∧
    pd_id d = id ∧ pd_local_addr d = laddr ∧ pd_remote_addr d = raddr ∧
    logged_with (request_fields server request id raddr) tr ∧
    (∀ r, result = Ok (Some r) →
       pd_status_code d = status_as_u16 (resp_status r) ∧
       (∃ errors, m = RequestCompleted (status_as_u16 (resp_status r)) errors) ∧
       ∃ v, hv_as_bytes v = id ∧ last (hm_get_all (resp_headers r) HEADER_REQUEST_ID) = Some v) ∧
    (m = RequestCancelled ↔ disconnects = true ∨
       ∃ msg, http_request_handle gzip_frames handle_request server request id raddr = Panic msg) ∧
    (m = RequestCancelled → pd_status_code d = 499%Z).
Proof.
  assert (List.filter is_probe (request_start request id laddr raddr) = request_start request id laddr raddr) as Hs.
  { unfold request_start, probe. by destruct usdt_probes. }
  unfold http_request_handle_traced. set (fields := request_fields _ _ _ _).
  pose proof (on_disconnect_ends fields request id laddr raddr) as Hd.
  pose proof (request_done_ends fields request id laddr raddr) as Hr. cbv zeta in Hd, Hr.
  pose proof (before_logged fields request id laddr raddr) as Hb.
  pose proof (on_disconnect_logged fields id laddr raddr) as Hg. pose proof (request_done_logged fields id laddr raddr) as Hh.
  destruct disconnects; [|destruct (http_request_handle _ _ _ _ _ _) as [r|e|msg] eqn:E].
  - destruct Hd as [Hd1 Hd2]. simpl in Hd2. rewrite Hs in Hd2. do 2 eexists. split_and!; [exact Hd1|exact Hd2|done..| |done| |done].
    + by apply Forall_app.
    + split; [by left|done].
  - destruct (Hr (inr r)) as (errors & msg & Hd1 & Hd2). simpl in Hd2. rewrite Hs in Hd2.
    do 2 eexists. split_and!; [exact Hd1|exact Hd2|done..| | | |done].
    + apply Forall_app. by split; [|apply Hh].
    + intros r' [= <-]. split; [done|]. split; [by exists errors|]. by eapply answer_has_id.
    + split; [done|]. by intros [?|[? ?]].
  - destruct (Hr (inl e)) as (errors & msg & Hd1 & Hd2). simpl in Hd2. rewrite Hs in Hd2.
    do 2 eexists. split_and!; [exact Hd1|exact Hd2|done..| | | |done].
    + apply Forall_app. by split; [|apply Hh].
    + intros r Hresp. destruct (handler_into_response _ e id) as [r'| |] eqn:Er; [|done..]. injection Hresp as <-.
      apply handler_into_response_ok in Er; [|done..]. cbn [pd_status_code]. rewrite (proj1 Er).
      split; [done|]. split; [by exists errors|by eapply error_answer_id].
    + split; [done|]. by intros [?|[? ?]].
  - destruct Hd as [Hd1 Hd2]. simpl in Hd2. rewrite Hs in Hd2. do 2 eexists. split_and!; [exact Hd1|exact Hd2|done..| |done| |done].
    + by apply Forall_app.
    + split; [|done]. intros _. right. by exists msg.
Qed.
End tracing.
