(* ===== verification/TypedEndpoints.v ===== *)
(** * Endpoints of typed functions, and the requests they serve

    [ApiEndpoint::new] and [new_for_types] of [dropshot/src/api_description.rs] at
    the types of a function, with the route handlers of [dropshot/src/handler.rs];
    and the composition of registration, document, lookup and handlers: an
    operation of the document is what the server does for its requests. *)
From S2P Require Import Prelude BTree FromMap Externals Versions StatusCodes Body HttpError Config Schema OpenApi SchemaUtil.
From S2P Require Import SchemaTranslate ApiEndpoint TypeUtil Router RouterSpec RouterLookup RouterIter ApiDescription ToMap Handler Metadata Versioning.
From S2P Require Import GenOpenApi GenOpenApiSpec Extractors Responses TypedExtractors Compression Server.

Section endpoints.
Context `{Crates} `{!HttpBuilder} `{!SchemaReader} `{!ValueTexts}.

(** [dyn RouteHandler]: [label] and [handle_request]. *)
Record RouteHandler := mk_route_handler {
  label : string;
  route_handle : RequestContext → Request Body → rust HandlerError (Response Body);
}.

(** [std::any::type_name]. *)
Class TypeName (T : Type) := { type_name : string }.

Section new.
Context {A R E : Type} `{!RequestExtractor A} `{!HttpResponse R} `{!HttpResponseError E} `{!HttpResponseContent E} `{!TypeName E}.

Definition http_route_handler_new_with_name (func : RequestContext → A → rust E R) (label : string) : RouteHandler :=
  mk_route_handler label (route_handler_handle from_request func to_result).

Definition http_route_handler_new (func : RequestContext → A → rust E R) : RouteHandler :=
  http_route_handler_new_with_name func "<unlabeled handler>".

(** [new], for the handler that [http_route_handler_new] has put at [arc]. *)
Definition typed_endpoint_new (fuel : nat) (operation_id : string) (arc : Handler) (m content_type p : string)
    (v : ApiEndpointVersions Version) : option (panics ApiEndpoint) :=
  match from_mime_type content_type with
  | Ok body_content_type =>
      func_parameters ← extractor_metadata (T := A) fuel body_content_type;
      match func_parameters with
      | Ok func_parameters =>
          response ← response_metadata_of (R := R) fuel;
          match response with
          | Ok response =>
              Some (Ok (mk_endpoint operation_id arc m p (em_parameters func_parameters) body_content_type None response
                (error_for_type (content_metadata (T := E)) (type_name (T := E))) None None []
                (em_extension_mode func_parameters) true false v))
          | Err e => Some (Err e)
          | Panic msg => Some (Panic msg)
          end
      | Err e => Some (Err e)
      | Panic msg => Some (Panic msg)
      end
  | _ => Some (Panic "unsupported mime type")
  end.
End new.

Definition stub_route_handler_new_with_name (label : string) : RouteHandler :=
  mk_route_handler label (stub_handle label).

(** [new_for_types], with the stub named by the operation at [arc]. *)
Definition endpoint_new_for_types (A R E : Type) `{!RequestExtractor A} `{!HttpResponse R} `{!HttpResponseContent E} `{!TypeName E}
    (fuel : nat) (operation_id : string) (arc : RouteHandler → Handler) (m content_type p : string)
    (v : ApiEndpointVersions Version) : option (panics ApiEndpoint) :=
  typed_endpoint_new (A := A) (R := R) (E := E) fuel operation_id (arc (stub_route_handler_new_with_name operation_id))
    m content_type p v.
End endpoints.

(** ** What an operation of a document says of requests and responses *)

Section operation.
Context `{Crates} `{!HttpBuilder} `{!SchemaReader} `{!ValueTexts}.

(** The request has the parameters that the operation requires, and a body of its
    content type where that is JSON or a form. *)
Definition has_parameter (rqctx : RequestContext) (o : OParameter) : Prop :=
  match o with
  | PPath d => pd_name d ∈ bt_keys (rem_variables (rc_endpoint rqctx))
  | PQuery d => pd_name d ∈ vt_query_keys (default "" (ri_query (rc_request rqctx)))
  | PHeader d => hm_get_all (ri_headers (rc_request rqctx)) (to_ascii_lowercase (pd_name d)) ≠ []
  end.

Definition parameter_data (o : OParameter) : ParameterData :=
  match o with PPath d | PQuery d | PHeader d => d end.

Record request_fits (op : Operation) (rqctx : RequestContext) (request : Request Body) : Prop := {
  fits_parameters : ∀ o, o ∈ op_parameters op → pd_required (parameter_data o) = true → has_parameter rqctx o;
  fits_body : ∀ b ct s, op_request_body op = Some b → (mime_type ct, s) ∈ rb_content b → ct = Json_ ∨ ct = UrlEncoded →
    declares (req_headers request) ct;
}.

(** The response is one that the operation lists: under its status, or as the only
    one, with a content type and the headers it gives. *)
Definition response_fits (op : Operation) (rsp : Response Body) : Prop :=
  ∃ o, ((Code (status_as_u16 (resp_status rsp)), Item o) ∈ op_responses op ∨ op_default op = Some (Item o)) ∧
    content_matches (or_content o) rsp ∧ headers_match (or_headers o) rsp.

(** ** The types of functions that keep it *)

Class DocumentedRequest (A : Type) `{!RequestExtractor A} : Prop := {
  request_documented : ∀ fuel rqctx request (a : A) md, context_wf rqctx → from_request rqctx request = Ok a →
    extractor_metadata (T := A) fuel (rem_body_content_type (rc_endpoint rqctx)) = Some (Ok md) →
    all_present rqctx request (em_parameters md);
}.

#[export] Instance no_extractors_documented : DocumentedRequest ().
Proof. split. intros fuel rqctx request a md _ _ [= <-] p Hp. by apply elem_of_nil in Hp. Qed.

#[export] Instance one_extractor_documented {X} `{!ExclusiveExtractor X} `{!DocumentedExtractor X} : DocumentedRequest X | 10.
Proof. split. intros fuel rqctx request a md. apply extractor_documented. Qed.

#[export] Instance tuple_documented_request {S T} `{!SharedExtractor S} `{!DocumentedExtractor S} `{!TupleExtractor T}
  `{!DocumentedTuple T} : DocumentedRequest (S * T).
Proof.
  split. intros fuel rqctx request a md Hw Ha Hm. pose proof (tuple_extractor_documented fuel rqctx request md Hw Hm) as Hd.
  by rewrite Ha in Hd.
Qed.

(** [sound] are the values whose response is as documented. *)
Class DocumentedResponse (R : Type) `{!HttpResponse R} := {
  sound : R → Prop;
  response_conforms : ∀ fuel m o (r : R) rsp, response_metadata_of (R := R) fuel = Some (Ok m) → says_response m o →
    sound r → to_result r = Ok rsp → conforms m o rsp;
}.

#[export, refine] Instance raw_documented : DocumentedResponse (Response Body) := { sound _ := True }.
Proof.
  intros fuel m o r rsp [= <-] (_ & Hc & Hh) _ _. unfold says_headers in Hh. cbn in Hc, Hh. split; [done| |].
  - rewrite Hc. exists "*/*", (Item any_schema). split; by left.
  - intros name h Hin. rewrite Hh in Hin. by apply elem_of_nil in Hin.
Defined.
End operation.

Section documented_types.
Context `{Crates} `{!HttpBuilder} `{!HeaderMapExtend} `{!ErrorTexts} `{!SchemaReader}.
Context `{!HttpCrateLaws} `{!HeaderNameLaws} `{!HttpBuilderLaws} `{!HeaderMapExtendLaws}.

#[export, refine] Instance coded_documented c T `{!HttpResponseContent T} `{!LawfulContent T} : DocumentedResponse (Coded c T) :=
  { sound _ := True }.
Proof. intros fuel m o r rsp [= <-] Ho _ Hr. by apply (coded_conforms r). Defined.

#[export, refine] Instance headers_documented c T Hd `{!HttpResponseContent T} `{!LawfulContent T} `{!Serialize Hd} `{!JsonSchema Hd}
  `{!SerializesMembers Hd} : DocumentedResponse (HeadersResponse c T Hd) := { sound := keeps_content_type }.
Proof. intros fuel m o r rsp Hm Ho Hs Hr. by eapply (headers_conform r). Defined.
End documented_types.

(** ** Served as documented *)

Section served.
Context `{Crates} `{!HttpBuilder} `{!SchemaReader} `{!ValueTexts} `{!Float32} `{!SemVerLaws Version}.
Variable handle_request : Handler → RequestContext → Request Body → rust HandlerError (Response Body).
Variables (generator_new : SchemaGenerator) (root_definitions : SchemaGenerator → btree Schema)
  (hash_set_iter : gset string → list string).
Implicit Types (e : ApiEndpoint) (eps : list ApiEndpoint).

(** A use of a builder method. *)
Inductive adjusted e : ApiEndpoint → Prop :=
| adjusted_summary s : adjusted e (with_summary e s)
| adjusted_description s : adjusted e (with_description e s)
| adjusted_max_bytes n : adjusted e (with_request_body_max_bytes e n)
| adjusted_tag t : adjusted e (with_tag e t)
| adjusted_visible b : adjusted e (with_visible e b)
| adjusted_deprecated b : adjusted e (with_deprecated e b).

(** An endpoint that was made from a function, whose values are sound, and adjusted;
    its handler is the one that runs the function. *)
Inductive function_endpoint e : Prop :=
| function_endpoint_intro A R E `{!RequestExtractor A} `{!DocumentedRequest A} `{!HttpResponse R} `{!DocumentedResponse R}
    `{!HttpResponseError E} `{!HttpResponseContent E} `{!TypeName E} (func : RequestContext → A → rust E R)
    fuel id arc m ct p v e0 :
    typed_endpoint_new (A := A) (R := R) (E := E) fuel id arc m ct p v = Some (Ok e0) → rtc adjusted e0 e →
    (∀ rqctx a r, func rqctx a = Ok r → sound r) →
    (∀ rqctx request, handle_request arc rqctx request = route_handle (http_route_handler_new func) rqctx request) →
    function_endpoint e.

(** What the builder methods leave. *)
Lemma adjusted_keeps e e' : rtc adjusted e e' →
  handler e' = handler e ∧ parameters e' = parameters e ∧ body_content_type e' = body_content_type e ∧
  response e' = response e.
Proof. induction 1 as [|e e1 e2 Ha _ IH]; [done|]. destruct Ha; exact IH. Qed.

Lemma typed_endpoint_new_ok {A R E} `{!RequestExtractor A} `{!HttpResponse R} `{!HttpResponseContent E} `{!TypeName E}
    fuel id arc m ct p v e :
  typed_endpoint_new (A := A) (R := R) (E := E) fuel id arc m ct p v = Some (Ok e) →
  handler e = arc ∧ response_metadata_of (R := R) fuel = Some (Ok (response e)) ∧
  ∃ md, extractor_metadata (T := A) fuel (body_content_type e) = Some (Ok md) ∧ parameters e = em_parameters md.
Proof.
  unfold typed_endpoint_new. destruct (from_mime_type ct) as [bct| |]; [|done..].
  destruct (extractor_metadata fuel bct) as [[md| |]|] eqn:Em; [|done..]. cbn [mbind option_bind].
  destruct (response_metadata_of fuel) as [[rm| |]|]; [|done..]. intros [= <-]. split_and!; [done|done|]. by exists md.
Qed.

(** A response of such an endpoint's handler. *)
Lemma function_endpoint_answers e rqctx request rsp :
  function_endpoint e → rem_body_content_type (rc_endpoint rqctx) = body_content_type e → context_wf rqctx →
  handle_request (handler e) rqctx request = Ok rsp →
  all_present rqctx request (parameters e) ∧ ∀ o, says_response (response e) o → conforms (response e) o rsp.
Proof.
  intros [A R E ? ? ? ? ? ? ? func fuel id arc m ct p v e0 Hnew Hadj Hsound Harc] Hct Hw Hr.
  destruct (adjusted_keeps _ _ Hadj) as (Hh & Hps & Hbct & Hre).
  destruct (typed_endpoint_new_ok _ _ _ _ _ _ _ _ Hnew) as (Ha & Hm & md & Hmd & Hpmd).
  rewrite Hh, Ha, Harc in Hr. apply route_handler_ok in Hr as (a & r & Hfrom & Hf & Hres). split.
  - rewrite Hps, Hpmd. eapply (request_documented fuel); [done|exact Hfrom|]. by rewrite Hct, Hbct.
  - intros o Ho. rewrite Hre in Ho |- *. by eapply (response_conforms fuel); [..|by eapply Hsound|].
Qed.

(** The presence of an endpoint's parameters is that of its operation's. *)
Lemma present_fits e op component rqctx request :
  describes component e op → all_present rqctx request (parameters e) → request_fits op rqctx request.
Proof.
  intros [_ _ _ _ _ Hps Hbody _ _] Hall. split.
  - intros o Ho Hreq. apply list_elem_of_lookup in Ho as [i Hi].
    destruct (Forall2_lookup_r _ _ _ _ _ Hps Hi) as (p & Hp & [Hsaid _]).
    apply list_elem_of_lookup_2, list_elem_of_In, filter_In in Hp as [Hp%list_elem_of_In _]. unfold named_of in Hsaid.
    specialize (Hall p Hp). unfold present, demanded in Hall.
    destruct (p_metadata p), o as [d|d|d]; try done; cbn in Hsaid; injection Hsaid as -> _ Er; cbn in Hreq |- *;
      apply Hall; congruence.
  - intros b ct s Eb Hs Hct. rewrite Eb in Hbody. unfold says_body in Hbody.
    destruct (body_parameter (parameters e)) as [[ct' g]|] eqn:Ebp; [|done]. destruct Hbody as (_ & s' & Ec & _).
    rewrite Ec in Hs. apply list_elem_of_singleton in Hs. assert (ct = ct') as -> by (destruct Hct; subst ct; destruct ct'; naive_solver).
    destruct (body_parameter_elem _ _ _ Ebp) as (p & Hp & Em & _). specialize (Hall p Hp).
    unfold present, demanded in Hall. rewrite Em in Hall. specialize (Hall I). by destruct Hct as [-> | ->].
Qed.
Definition method_name (m : OMethod) : string :=
  match m with
  | GET => "GET" | PUT => "PUT" | POST => "POST" | DELETE => "DELETE" | OPTIONS => "OPTIONS" | HEAD => "HEAD"
  | PATCH => "PATCH" | TRACE => "TRACE"
  end.

Lemma method_of_name m o : method_of m = Some o → m = method_name o.
Proof.
  unfold method_of. repeat match goal with |- context [String.eqb m ?y] => destruct (String.eqb_spec m y) as [->|_]; [by intros [= <-]|] end.
  done.
Qed.

Lemma method_of_inj m m' o : method_of m = Some o → method_of m' = Some o → m = m'.
Proof. by intros ->%method_of_name ->%method_of_name. Qed.

(** No range of the API is a single version. *)
Definition no_single_versions eps : Prop := ∀ e v, e ∈ eps → versions e ≠ FromUntil (mk_pair v v).

(** The operation for a visible endpoint describes it, not another one. *)
Lemma operation_of_endpoint eps r c info ver n fuel doc e :
  build eps = Ok r → no_single_versions eps → length eps < n → node_size (root r) ≤ fuel →
  gen_openapi generator_new root_definitions hash_set_iter n fuel (mk_description r c) info ver = Some (Ok doc) →
  e ∈ eps → visible e = true → matches (versions e) (Some ver) = true →
  ∃ m op component, method_of (methodname e) = Some m ∧
    operation_in (oa_paths doc) (render (iter_label <$> pattern_of e)) m = Some op ∧ describes (refers_to component) e op.
Proof.
  intros Hb Hsv Hn Hf Hdoc He Hv Hm.
  destruct (gen_openapi_operations _ _ _ _ _ _ _ _ _ _ _ Hb Hn Hf Hdoc) as (component & _ & Hs & Hc).
  destruct (Hc e He Hv Hm) as (m & op & Hmeth & Hop). exists m, op, component. split_and!; [done|done|].
  destruct (Hs _ _ _ Hop) as (e' & He' & _ & Hm' & Hpath & Hmeth' & Hd). assert (e = e') as ->; [|done].
  destruct (proj1 (build_ok eps) (ex_intro _ r Hb)) as [Hok _]. rewrite Forall_forall in Hok.
  destruct (Hok e He) as (p & Hp & _), (Hok e' He') as (p' & Hp' & _).
  destruct (build_endpoints eps r e e' Hb He He') as [|Hcomp]; [done|]. destruct (Hcomp _ _ Hp Hp') as [Hpc _].
  unfold pattern_of in Hpath. rewrite Hp, Hp' in Hpath. rewrite <-(rendered_patterns _ _ _ _ Hp Hp' Hpc Hpath) in Hp'.
  pose proof (method_of_inj _ _ _ Hmeth Hmeth') as Hmn.
  destruct (build_versions eps r e e' p ver Hb He He' Hp Hp' Hmn Hm Hm') as [|[E'|E']]; [done|by destruct (Hsv e ver)|by destruct (Hsv e' ver)].
Qed.

(** What a lookup in a registered API gives, with the request's match. *)
Lemma registered_match eps c self fuel m uri found res :
  register_all fuel (mk_description router_new c) eps = Some (Ok self) → lookup_route (router self) m uri found = Ok res →
  ∃ e q segs vs, e ∈ eps ∧ res = result_of e (bt_collect vs) ∧ path_pattern (path e) = Ok q ∧
    input_path_to_segments uri = Ok segs ∧ match_route q segs = Some vs ∧ to_ascii_uppercase m = methodname e ∧
    matches (versions e) found = true.
Proof.
  intros Hreg Hlk. pose proof (build_rep _ _ (register_all_insert _ _ _ _ Hreg)) as HR.
  destruct (lookup_ok_inv _ _ _ _ _ _ HR Hlk) as (segs & q & vs & e & Hs & (_ & Hm & _) & He & ->).
  apply head_Some_elem_of in He. unfold candidates in He. rewrite elem_filter, andb_true_iff, at_route_true in He.
  destruct He as (He & [Hp Hmeth] & Hv). by exists e, q, segs, vs.
Qed.

(** The version of a request, when the document is the one for it: there is one
    document when nothing is versioned. *)
Definition documented_version (r : HttpRouter) (ver : Version) (found : option Version) : Prop :=
  found = Some ver ∨ found = None ∧ has_versioned_routes r = false.

Lemma documented_matches eps r ver found e :
  build eps = Ok r → documented_version r ver found → e ∈ eps →
  matches (versions e) found = true → matches (versions e) (Some ver) = true.
Proof.
  intros Hb [->|[-> Hnv]] He Hm; [done|]. destruct (versions e) eqn:Ev; [done|..].
  all: assert (has_versioned_routes r = true) by
    (apply (build_versioned _ _ Hb); exists e; split; [done|by rewrite Ev]); congruence.
Qed.

Context {C : Type}.
Implicit Types (server : DropshotState C).

(** A server of an API whose endpoints are functions, and the document of a version. *)
Record serves eps c server (doc : OpenAPI) (ver : Version) : Prop := {
  serves_api : ∃ fuel, register_all fuel (mk_description router_new c) eps = Some (Ok (mk_description (st_router server) c));
  serves_document : ∃ info n fuel, length eps < n ∧ node_size (root (st_router server)) ≤ fuel ∧
    gen_openapi generator_new root_definitions hash_set_iter n fuel (mk_description (st_router server) c) info ver = Some (Ok doc);
  serves_functions : Forall function_endpoint eps;
  serves_ranges : no_single_versions eps;
}.

(** C10: What the document says of an operation is what the server does.  A request
    that the server's router sends to a visible endpoint is one for an operation of
    the document: of the path that matches it, of its method, and with the
    endpoint's name.  If the endpoint's function answers it, then the request had
    each parameter that the operation requires and a body of its content type, and
    the response has a status that the operation lists, with a content type and the
    headers that it gives for it. *)
Theorem request_served_as_documented eps c server doc ver request id addr found res :
  serves eps c server doc ver →
  (∀ p, p ∈ hm_iter (req_headers request) → to_ascii_lowercase p.1 = p.1) →
  request_version (st_version_policy server) request = Ok found →
  documented_version (st_router server) ver found →
  lookup_route (st_router server) (req_method request) (req_path request) found = Ok res →
  ∃ e q segs vs, e ∈ eps ∧ res = result_of e (bt_collect vs) ∧ path_pattern (path e) = Ok q ∧
    input_path_to_segments (req_path request) = Ok segs ∧ match_route q segs = Some vs ∧
    (visible e = true → ∃ m op, method_of (to_ascii_uppercase (req_method request)) = Some m ∧
       operation_in (oa_paths doc) (render (iter_label <$> q)) m = Some op ∧
       op_operation_id op = Some (rem_operation_id (lr_endpoint res)) ∧
       ∀ resp, outcome handle_request server request id addr (inr resp) →
         request_fits op (context_of server request id addr res) request ∧ response_fits op resp).
Proof.
  intros [[fuel0 Hreg] (info & n & fuel & Hn & Hf & Hdoc) Hfun Hsv] Hnames Hver Hdv Hlk.
  destruct (registered_match _ _ _ _ _ _ _ _ Hreg Hlk) as (e & q & segs & vs & He & -> & Hp & Hs & Hm & Hmeth & Hv).
  exists e, q, segs, vs. split_and!; [done..|]. intros Hvis.
  pose proof (register_all_insert _ _ _ _ Hreg) as Hb. pose proof (documented_matches eps _ ver found e Hb Hdv He Hv) as Hv'.
  destruct (operation_of_endpoint _ _ _ _ _ _ _ _ e Hb Hsv Hn Hf Hdoc He Hvis Hv') as (m & op & component & Hmo & Hop & Hd).
  unfold pattern_of in Hop. rewrite Hp in Hop. rewrite Hmeth. exists m, op.
  split_and!; [done|done|apply (describes_id _ _ _ Hd)|]. intros resp Hout. inversion Hout as [| | |ver' res' resp' Hver' Hlk' Hr]; subst.
  rewrite Hver in Hver'. injection Hver' as <-. rewrite Hlk in Hlk'. injection Hlk' as <-.
  rewrite Forall_forall in Hfun.
  assert (context_wf (context_of server request id addr (result_of e (bt_collect vs)))) as Hw
    by (split; [exact Hnames|apply bt_wf_collect]).
  destruct (function_endpoint_answers e (context_of server request id addr (result_of e (bt_collect vs))) request resp (Hfun e He) eq_refl Hw Hr) as [Hpres Hresp].
  split; [by eapply present_fits|]. destruct (describes_responses _ _ _ Hd) as (o & Ho & Hlist).
  destruct (Hresp o Ho) as [Hst Hc Hh]. exists o. split; [|done].
  destruct (r_success (response e)) as [code|]; [|right; by destruct Hlist as [_ ->]].
  left. rewrite (Hst code eq_refl). destruct (error e); [destruct Hlist as (_ & reference & _ & ->)|destruct Hlist as [-> _]]; by left.
Qed.
End served.
