(* ===== verification/ServerStart.v ===== *)
(** * Building, starting and closing a server

    [ServerBuilder], [HttpServerStarter], [HttpServer] and the services of
    [dropshot/src/server.rs]: a server is built from an API description, a
    configuration, a version policy and perhaps a TLS configuration; it runs the
    task of [Acceptor], and each of its connections hands its requests to
    [http_request_handle_wrap] with the address of its client. *)
From S2P Require Import Prelude BTree Externals Versions StatusCodes Body HttpError Config Schema TypeUtil ApiEndpoint.
From S2P Require Import Router RouterSpec RouterLookup Versioning Compression Handler ApiDescription Server Tls Acceptor.

(** The network: [SocketAddr], and [TcpListener]s of the standard library and of
    [tokio]. *)
Class TcpNet := {
  SocketAddr : Type;
  TcpListener : Type;
  addr_parse : string → option SocketAddr;
  addr_to_string : SocketAddr → string;
  tcp_bind : SocketAddr → TcpListener + IoError;
  tcp_set_nonblocking : TcpListener → TcpListener + IoError;
  tcp_from_std : TcpListener → TcpListener + IoError;
  tcp_local_addr : TcpListener → SocketAddr + IoError;
}.

(** The result of registering the probes of [usdt], or none without the feature. *)
Inductive ProbeRegistration := ProbesDisabled | ProbesSucceeded | ProbesFailed (msg : string).

Section build.
Context `{Crates} `{!HttpBuilder} `{!Float32} `{!TlsCrate} `{!TcpNet} {C : Type}.

(** ** Building *)

Record ServerBuilder := mk_server_builder {
  sb_private : C;
  sb_api : ApiDescription;
  sb_config : ConfigDropshot SocketAddr;
  sb_version_policy : VersionPolicy Version Body;
  sb_tls : option ConfigTls;
}.

Definition server_builder_new (api : ApiDescription) (private : C) : panics ServerBuilder :=
  config ← config_default addr_parse;
  Ok (mk_server_builder private api config Unversioned None).

Definition builder_config (self : ServerBuilder) (config : ConfigDropshot SocketAddr) : ServerBuilder :=
  mk_server_builder (sb_private self) (sb_api self) config (sb_version_policy self) (sb_tls self).

Definition builder_tls (self : ServerBuilder) (tls : option ConfigTls) : ServerBuilder :=
  mk_server_builder (sb_private self) (sb_api self) (sb_config self) (sb_version_policy self) tls.

Definition builder_version_policy (self : ServerBuilder) (policy : VersionPolicy Version Body) : ServerBuilder :=
  mk_server_builder (sb_private self) (sb_api self) (sb_config self) policy (sb_tls self).

(** The acceptor of TLS is its configuration, which is shared with the state. *)
Record HttpServerStarter := mk_starter {
  ss_app_state : DropshotState C;
  ss_local_addr : SocketAddr;
  ss_http_acceptor : TcpListener;
  ss_tls_acceptor : option TlsConfig;
}.

(** The listening socket, and its address. *)
Definition listen (address : SocketAddr) : rust (BuildError SocketAddr) (TcpListener * SocketAddr) :=
  std_listener ← map_err (λ e, bind_error e address) (from_sum (tcp_bind address));
  std_listener ← map_err (λ e, generic_system e "setting non-blocking") (from_sum (tcp_set_nonblocking std_listener));
  tcp ← map_err (λ e, generic_system e "creating TCP listener") (from_sum (tcp_from_std std_listener));
  local_addr ← map_err (λ e, generic_system e "getting local TCP address") (from_sum (tcp_local_addr tcp));
  Ok (tcp, local_addr).

(** [tls.as_ref().map(..).transpose()]. *)
Definition tls_acceptor_of (tls : option ConfigTls) : rust (BuildError SocketAddr) (option TlsConfig) :=
  match tls with None => Ok None | Some tls => Some <$> server_config_try_from tls end.

Definition new_internal (config : ConfigDropshot SocketAddr) (api : ApiDescription) (private : C)
    (tls : option ConfigTls) (version_policy : VersionPolicy Version Body) : rust (BuildError SocketAddr) HttpServerStarter :=
  '(tcp, local_addr) ← listen (bind_address config);
  tls_acceptor ← tls_acceptor_of tls;
  let router := into_router api in
  _ ← match version_policy with
      | Unversioned => if has_versioned_routes router then Err UnversionedServerHasVersionedRoutes else Ok ()
      | Dynamic _ => Ok ()
      end;
  Ok (mk_starter (mk_state private (server_config config) router version_policy) local_addr tcp tls_acceptor).

Definition build_starter (self : ServerBuilder) : rust (BuildError SocketAddr) HttpServerStarter :=
  new_internal (sb_config self) (sb_api self) (sb_private self) (sb_tls self) (sb_version_policy self).

(** [HttpServerStarter::new_with_tls] and [new]; errors are boxed as they are. *)
Definition starter_new_with_tls (config : ConfigDropshot SocketAddr) (api : ApiDescription) (private : C)
    (tls : option ConfigTls) : rust (BuildError SocketAddr) HttpServerStarter :=
  builder ← lift_panics (server_builder_new api private);
  build_starter (builder_tls (builder_config builder config) tls).

Definition starter_new (config : ConfigDropshot SocketAddr) (api : ApiDescription) (private : C) :
    rust (BuildError SocketAddr) HttpServerStarter :=
  starter_new_with_tls config api private None.

(** ** Running *)

Context {TcpStream TlsStream : Type}.

Record HttpServer := mk_http_server {
  srv_probe_registration : ProbeRegistration;
  srv_app_state : DropshotState C;
  srv_local_addr : SocketAddr;
  srv_closer : CloseHandle;
  srv_task : accept_task (TcpStream := TcpStream) (SocketAddr := SocketAddr) (TlsStream := TlsStream);
}.

(** [register_probes] is the [usdt] crate's, with the feature that has it. *)
Definition start (register_probes : option (() + string)) (self : HttpServerStarter) : HttpServer :=
  mk_http_server
    (match register_probes with
     | None => ProbesDisabled
     | Some (inl _) => ProbesSucceeded
     | Some (inr msg) => ProbesFailed msg
     end)
    (ss_app_state self) (ss_local_addr self) (mk_close_handle (Some true)) (accept_task_new (ss_tls_acceptor self)).

(** [ServerBuilder::start]. *)
Definition builder_start (register_probes : option (() + string)) (self : ServerBuilder) :
    rust (BuildError SocketAddr) HttpServer :=
  start register_probes <$> build_starter self.

Definition using_tls (self : HttpServer) : bool := if tt_config (srv_task self) then true else false.

(** [ServerConnectionHandler] has the server's state, and the service it makes
    for a connection the address of the client, too. *)
Record ServerRequestHandler := mk_request_handler { rh_server : DropshotState C; rh_remote_addr : SocketAddr }.

Definition make_http_request_handler (server : DropshotState C) (remote_addr : SocketAddr) : ServerRequestHandler :=
  mk_request_handler server remote_addr.

Definition connection_handler (self : HttpServer)
    (c : connection (TcpStream := TcpStream) (SocketAddr := SocketAddr) (TlsStream := TlsStream)) : ServerRequestHandler :=
  make_http_request_handler (srv_app_state self) (remote_addr c).

(** [Service::call]. *)
Definition call (to_string_pretty : HttpErrorResponseBody → option string)
    (gzip_frames : list (string + string) → list (Frame + string))
    (handle_request : Handler → RequestContext → Request Body → rust HandlerError (Response Body))
    (self : ServerRequestHandler) (req : Request Body) (request_id : string) : panics (Response Body) :=
  http_request_handle_wrap to_string_pretty gzip_frames handle_request (rh_server self) req request_id
    (addr_to_string (rh_remote_addr self)).
End build.

(** ** Properties *)

Section properties.
Context `{Crates} `{!HttpBuilder} `{!Float32} `{!TlsCrate} `{!TcpNet} {C : Type}.
Implicit Types b : ServerBuilder (C := C).

Lemma listen_no_panic address : no_panic (listen address).
Proof.
  unfold listen. destruct (tcp_bind address) as [l|]; [|done]. simpl. destruct (tcp_set_nonblocking l) as [l1|]; [|done].
  simpl. destruct (tcp_from_std l1) as [l2|]; [|done]. simpl. by destruct (tcp_local_addr l2).
Qed.

Lemma listen_bind_error address a io : listen address = Err (BindError a io) ↔ a = address ∧ tcp_bind address = inr io.
Proof.
  unfold listen. destruct (tcp_bind address) as [l|io']; [|simpl; split; [by intros [= <- <-]|by intros [-> [= ->]]]].
  split; [|by intros [_ ?]]. simpl. destruct (tcp_set_nonblocking l) as [l1|]; [|done]. simpl.
  destruct (tcp_from_std l1) as [l2|]; [|done]. simpl.
  destruct (tcp_local_addr l2); simpl; [done|by intros [=]].
Qed.

(** What a configuration of TLS that is not usable makes of the builder. *)
Definition tls_refused (tls : option ConfigTls) (e : BuildError SocketAddr) : Prop :=
  ∃ config, tls = Some config ∧
    ((∃ path io, e = SystemError ("opening " +:+ path) io ∧ file_open path = inr io ∧ tls_readers config = Err e) ∨
     ∃ certs keys, tls_readers (SocketAddr := SocketAddr) config = Ok (inr (certs, keys)) ∧
       config_from_readers certs keys = Err e).

Lemma tls_acceptor_err tls e : tls_acceptor_of tls = Err e ↔ tls_refused tls e.
Proof.
  unfold tls_refused, tls_acceptor_of. destruct tls as [config|]; [|split; [done|by intros (? & ? & _)]].
  unfold server_config_try_from. split.
  - intros E. exists config. split; [done|].
    destruct (tls_readers config) as [[raw|[certs keys]]|e'|] eqn:Er; simpl in E; [done| | |done].
    + right. exists certs, keys. split; [done|].
      destruct (config_from_readers certs keys); simpl in E; [done|by injection E as ->|done].
    + injection E as ->. destruct (tls_readers_err _ _ Er) as (path & io & ? & ?). left. by exists path, io.
  - intros (config' & [= <-] & [(path & io & _ & _ & ->)|(certs & keys & -> & Ec)]); [done|]. simpl. by rewrite Ec.
Qed.

Lemma unversioned_refused fuel eps api policy :
  register_all fuel description_new eps = Some (Ok api) →
  (match policy : VersionPolicy Version Body with Unversioned => has_versioned_routes (into_router api) | _ => false end = true ↔
   policy = Unversioned ∧ ∃ e, e ∈ eps ∧ versions e ≠ All).
Proof.
  intros Hreg%register_all_insert. destruct policy as [|p]; [|naive_solver].
  change (into_router api) with (router api). rewrite (build_versioned eps (router api)) by done. naive_solver.
Qed.

(** C29: A server that is built listens where it was told to, with the API, the
    policy and the TLS configuration it was given.  Building fails, in this order,
    when it cannot listen, when the TLS configuration cannot be used (a file that
    does not open, the first section that does not parse, not one private key), and
    when the API has endpoints for some versions only and there is no policy; and it
    panics only for a private key that does not go with the certificates. *)
Theorem build_starter_spec fuel eps b :
  register_all fuel description_new eps = Some (Ok (sb_api b)) →
  let needs_policy := sb_version_policy b = Unversioned ∧ ∃ e, e ∈ eps ∧ versions e ≠ All in
  (∀ s, build_starter b = Ok s ↔
     ∃ tcp addr tls, listen (bind_address (sb_config b)) = Ok (tcp, addr) ∧ tls_acceptor_of (sb_tls b) = Ok tls ∧ ¬ needs_policy ∧
       s = mk_starter (mk_state (sb_private b) (server_config (sb_config b)) (router (sb_api b)) (sb_version_policy b)) addr tcp tls) ∧
  (∀ e, build_starter b = Err e ↔
     listen (bind_address (sb_config b)) = Err e ∨
     is_ok (listen (bind_address (sb_config b))) = true ∧ tls_refused (sb_tls b) e ∨
     is_ok (listen (bind_address (sb_config b))) = true ∧ is_ok (tls_acceptor_of (sb_tls b)) = true ∧ needs_policy ∧
       e = UnversionedServerHasVersionedRoutes) ∧
  (∀ m, build_starter b = Panic m → ∃ config certs keys cs k err, sb_tls b = Some config ∧
     tls_readers (SocketAddr := SocketAddr) config = Ok (inr (certs, keys)) ∧ readable certs keys cs k ∧ with_single_cert cs k = inr err).
Proof.
  intros Hreg. cbv zeta. pose proof (unversioned_refused fuel eps _ (sb_version_policy b) Hreg) as Hv.
  unfold build_starter, new_internal. pose proof (listen_no_panic (bind_address (sb_config b))) as Hl.
  pose proof (tls_acceptor_err (sb_tls b)) as Ht.
  destruct (listen _) as [[tcp addr]|e|]; cbn [mbind rust_bind is_ok]; [|split_and!; naive_solver|done].
  destruct (tls_acceptor_of (sb_tls b)) as [tls|e|m] eqn:Etls; cbn [mbind rust_bind is_ok].
  - assert (match sb_version_policy b with
      | Unversioned => if has_versioned_routes (into_router (sb_api b)) then Err UnversionedServerHasVersionedRoutes else Ok ()
      | Dynamic _ => Ok ()
      end = if match sb_version_policy b with Unversioned => has_versioned_routes (into_router (sb_api b)) | _ => false end
        then Err (E := BuildError SocketAddr) UnversionedServerHasVersionedRoutes else Ok ()) as -> by by destruct (sb_version_policy b).
    destruct (match sb_version_policy b with Unversioned => _ | _ => _ end); cbn [mbind rust_bind].
    + pose proof (proj1 Hv eq_refl) as Hn. split_and!; [naive_solver| |done]. intros e. rewrite <-Ht. naive_solver.
    + assert (¬ (sb_version_policy b = Unversioned ∧ ∃ e, e ∈ eps ∧ versions e ≠ All)) as Hn by (intros Hn%Hv; done).
      split_and!; [naive_solver| |done]. intros e. rewrite <-Ht. naive_solver.
  - split_and!; [naive_solver| |done]. intros e'. rewrite <-Ht. naive_solver.
  - split_and!; [naive_solver| |].
    + intros e'. rewrite <-Ht. naive_solver.
    + intros m' [= ->]. unfold tls_acceptor_of in Etls. destruct (sb_tls b) as [config|]; [|done].
      unfold server_config_try_from in Etls. pose proof (tls_readers_no_panic (SocketAddr := SocketAddr) config).
      destruct (tls_readers config) as [[raw|[certs keys]]| |] eqn:Er; try done. simpl in Etls.
      destruct (config_from_readers certs keys) as [| |m1] eqn:Ec; try done.
      apply config_from_readers_panic in Ec as (_ & cs & k & err & ? & ?). by exists config, certs, keys, cs, k, err.
Qed.

(** In an unversioned server that is built no two endpoints share pattern and
    method, so that each request has at most one candidate. *)
Lemma unversioned_server_spec fuel eps b s :
  register_all fuel description_new eps = Some (Ok (sb_api b)) → sb_version_policy b = Unversioned → build_starter b = Ok s →
  build eps = Ok (st_router (ss_app_state s)) ∧
  ∀ q m a a', a ∈ candidates eps q m None → a' ∈ candidates eps q m None → a = a'.
Proof.
  intros Hreg Hu. pose proof (unversioned_refused fuel eps _ (sb_version_policy b) Hreg) as Hv. rewrite Hu in Hv. cbv beta iota in Hv.
  apply register_all_insert in Hreg as Hi. unfold build_starter, new_internal. rewrite Hu.
  destruct (listen _) as [[tcp addr]| |]; [|done..]. cbn [mbind rust_bind]. destruct (tls_acceptor_of _) as [tls| |]; [|done..].
  cbn [mbind rust_bind]. destruct (has_versioned_routes _) eqn:E; [done|]. intros [= <-]. split; [done|].
  assert (∀ e, e ∈ eps → versions e = All) as Hall.
  { intros e He. destruct (decide (versions e = All)) as [|Hne]; [done|]. discriminate (proj2 Hv (conj eq_refl (ex_intro _ e (conj He Hne)))). }
  intros q m a a' Ha Ha'. unfold candidates in Ha, Ha'. rewrite elem_filter, andb_true_iff, at_route_true in Ha, Ha'.
  destruct Ha as (Ha & [Hpa Hma] & _), Ha' as (Ha' & [Hpb Hmb] & _).
  destruct (build_endpoints eps (router (sb_api b)) a a' Hi Ha Ha') as [Heq|Hc]; [exact Heq|].
  destruct (Hc _ _ Hpa Hpb) as [_ Ho]. specialize (Ho eq_refl ltac:(congruence)). by rewrite (Hall a Ha), (Hall a' Ha') in Ho.
Qed.
End properties.
