(* ===== verification/HandlerTasks.v ===== *)
(** * Handler tasks, disconnecting clients and shutdown

    The concurrency of [dropshot/src/server.rs], as a step relation: each
    request has a task of its own that [http_request_handle_wrap] runs on;
    under [Detached] its handler runs on a second task, with a channel for the
    result and a clone of the server's wait-group worker; a client can
    disconnect at any await, which drops the request's task; and [close] stops
    the server and waits.  One step is what happens between two points where a
    task can be dropped or others can run. *)
From S2P Require Import Prelude Config.
From stdpp Require Import relations.

(** The request's task: waiting for the handler, ended with a response, ended
    by a panic, or dropped. *)
Inductive request_phase := Waiting | Answered | Unwound | Disconnected.

(** The handler: running; its result sent; returned; panicked; or its future
    dropped before it returned. *)
Inductive handler_phase := Running | Sent | Returned | Panicked | Dropped.

#[export] Instance request_phase_eq_dec : EqDecision request_phase.
Proof. solve_decision. Defined.

#[export] Instance handler_phase_eq_dec : EqDecision handler_phase.
Proof. solve_decision. Defined.

(** The messages logged for a request. *)
Inductive log_event := RequestCompleted | RequestCancelled | CompletedAfterCancel | PanicPropagated.

#[export] Instance log_event_eq_dec : EqDecision log_event.
Proof. solve_decision. Defined.

(** [tk_guarded]: the [on_disconnect] scope guard is armed.  [tk_worker]: the
    handler's own task holds a worker of the wait group. *)
Record task := mk_task {
  tk_request : request_phase;
  tk_handler : handler_phase;
  tk_guarded : bool;
  tk_worker : bool;
  tk_log : list log_event;
}.

(** [http_request_handle_wrap] up to its first await, with the handler started:
    directly or, with a worker, on a task of its own. *)
Definition task_new (mode : HandlerTaskMode) : task :=
  mk_task Waiting Running true (bool_decide (mode = Detached)) [].

(** The request's task ends: normally, after the guard was defused, or with the
    guard's code run by the drop. *)
Definition complete (t : task) (h : handler_phase) : task :=
  mk_task Answered h false (tk_worker t) (tk_log t ++ [RequestCompleted]).

Definition drop_request (t : task) (p : request_phase) (h : handler_phase) (log : list log_event) : task :=
  mk_task p h false (tk_worker t)
    (tk_log t ++ log ++ if tk_guarded t then [RequestCancelled] else []).

Inductive task_step : HandlerTaskMode → task → task → Prop :=
(** [CancelOnDisconnect]: the handler is part of the request's future. *)
| step_return t :
    tk_request t = Waiting → tk_handler t = Running →
    task_step CancelOnDisconnect t (complete t Returned)
| step_panic t :
    tk_request t = Waiting → tk_handler t = Running →
    task_step CancelOnDisconnect t (drop_request t Unwound Panicked [])
| step_disconnect t :
    tk_request t = Waiting → tk_handler t = Running →
    task_step CancelOnDisconnect t (drop_request t Disconnected Dropped [])
(** [Detached]: the handler's task sends its result, which fails with a warning
    when the request's task is gone, and then drops its worker; a panic drops
    both the sender and the worker. *)
| step_send t :
    tk_request t = Waiting → tk_handler t = Running →
    task_step Detached t (mk_task Waiting Sent (tk_guarded t) (tk_worker t) (tk_log t))
| step_send_fails t :
    tk_request t = Disconnected → tk_handler t = Running →
    task_step Detached t
      (mk_task Disconnected Sent (tk_guarded t) (tk_worker t) (tk_log t ++ [CompletedAfterCancel]))
| step_drop_worker t :
    tk_handler t = Sent →
    task_step Detached t (mk_task (tk_request t) Returned (tk_guarded t) false (tk_log t))
| step_handler_panics t :
    tk_handler t = Running →
    task_step Detached t (mk_task (tk_request t) Panicked (tk_guarded t) false (tk_log t))
| step_receive t :
    tk_request t = Waiting → tk_handler t = Sent ∨ tk_handler t = Returned →
    task_step Detached t (complete t (tk_handler t))
| step_receive_fails t :
    tk_request t = Waiting → tk_handler t = Panicked →
    task_step Detached t (drop_request t Unwound Panicked [PanicPropagated])
| step_detached_disconnect t :
    tk_request t = Waiting →
    task_step Detached t (drop_request t Disconnected (tk_handler t) []).

(** ** The server *)

(** Serving; after [close] sent its signal and dropped the state; after the
    graceful shutdown of the connections; and after [join_future]. *)
Inductive server_phase := Serving | Closing | Stopped | Joined.

#[export] Instance server_phase_eq_dec : EqDecision server_phase.
Proof. solve_decision. Defined.

Record system := mk_system { sys_phase : server_phase; sys_tasks : list task }.

Definition system_new : system := mk_system Serving [].

(** No connection is in use: no request's task is left. *)
Definition connections_done (l : list task) : Prop := Forall (λ t, tk_request t ≠ Waiting) l.

(** [handler_waitgroup.wait()] returns: no clone of the worker is left. *)
Definition workers_done (l : list task) : Prop := Forall (λ t, tk_worker t = false) l.

Inductive step (mode : HandlerTaskMode) : system → system → Prop :=
| step_request p l :
    p = Serving ∨ p = Closing → step mode (mk_system p l) (mk_system p (l ++ [task_new mode]))
| step_task p l1 t t' l2 :
    task_step mode t t' → step mode (mk_system p (l1 ++ t :: l2)) (mk_system p (l1 ++ t' :: l2))
| step_close l : step mode (mk_system Serving l) (mk_system Closing l)
| step_shutdown l : connections_done l → step mode (mk_system Closing l) (mk_system Stopped l)
| step_join l : workers_done l → step mode (mk_system Stopped l) (mk_system Joined l).

Definition reachable (mode : HandlerTaskMode) (s : system) : Prop := rtc (step mode) system_new s.

(** ** Invariants *)

(** What holds of a task in every state. *)
Record task_inv (mode : HandlerTaskMode) (t : task) : Prop := {
  inv_worker : tk_worker t = true ↔ mode = Detached ∧ (tk_handler t = Running ∨ tk_handler t = Sent);
  inv_guard : tk_guarded t = true ↔ tk_request t = Waiting;
  inv_cancel : mode = CancelOnDisconnect → tk_handler t = Running ↔ tk_request t = Waiting;
  inv_cancel_phases : mode = CancelOnDisconnect → tk_handler t ≠ Sent;
  inv_dropped : tk_handler t = Dropped → mode = CancelOnDisconnect;
  inv_answered : tk_request t = Answered → tk_handler t = Sent ∨ tk_handler t = Returned;
  inv_completed : RequestCompleted ∈ tk_log t ↔ tk_request t = Answered;
  inv_cancelled : RequestCancelled ∈ tk_log t ↔ tk_request t = Disconnected ∨ tk_request t = Unwound;
  inv_late : CompletedAfterCancel ∈ tk_log t → mode = Detached ∧ tk_request t = Disconnected ∧
    (tk_handler t = Sent ∨ tk_handler t = Returned);
  inv_unwound : tk_request t = Unwound → tk_handler t = Panicked;
  inv_propagated : PanicPropagated ∈ tk_log t → tk_request t = Unwound;
}.

Lemma task_new_inv mode : task_inv mode (task_new mode).
Proof. split; simpl; try rewrite bool_decide_eq_true; try rewrite elem_of_nil; naive_solver. Qed.

Lemma task_step_inv mode t t' : task_step mode t t' → task_inv mode t → task_inv mode t'.
Proof.
  intros Hs [H1 H2 H3 H4 H5 H6 H7 H8 H9 H10 H11].
  destruct t as [rq h g w log]; simpl in *. inversion Hs; subst; simpl in *; subst;
    try (assert (g = true) as -> by tauto); split; simpl;
    rewrite ?elem_of_app, ?list_elem_of_singleton, ?elem_of_cons, ?elem_of_nil; intuition congruence.
Qed.

(** What holds of the system: after the graceful shutdown no request's task is
    left, and after the wait no worker. *)
Record system_inv (mode : HandlerTaskMode) (s : system) : Prop := {
  inv_tasks : Forall (task_inv mode) (sys_tasks s);
  inv_stopped : sys_phase s = Stopped ∨ sys_phase s = Joined → connections_done (sys_tasks s);
  inv_joined : sys_phase s = Joined → workers_done (sys_tasks s);
}.

(** A task that the connections have left stays left, and a worker dropped stays
    dropped. *)
Lemma task_step_left mode t t' :
  task_step mode t t' → tk_request t ≠ Waiting → tk_request t' ≠ Waiting.
Proof. by destruct 1. Qed.

Lemma task_step_worker mode t t' : task_step mode t t' → tk_worker t = false → tk_worker t' = false.
Proof. by destruct 1. Qed.

Lemma forall_middle {A} (P : A → Prop) l1 x y l2 :
  (P x → P y) → Forall P (l1 ++ x :: l2) → Forall P (l1 ++ y :: l2).
Proof. rewrite !Forall_app, !Forall_cons. naive_solver. Qed.

Lemma step_inv mode s s' : step mode s s' → system_inv mode s → system_inv mode s'.
Proof.
  intros Hs [Ht Hst Hj]. destruct Hs as [p l Hp|p l1 t t' l2 Hts|l|l Hc|l Hw]; simpl in *.
  - split; simpl; [|destruct Hp; naive_solver..].
    rewrite Forall_app, Forall_singleton. split; [done|apply task_new_inv].
  - split; simpl.
    + revert Ht. apply forall_middle. by apply task_step_inv.
    + intros Hp. specialize (Hst Hp). revert Hst. apply forall_middle. by eapply task_step_left.
    + intros Hp. specialize (Hj Hp). revert Hj. apply forall_middle. by eapply task_step_worker.
  - split; simpl; [done|naive_solver|done].
  - split; simpl; [done|done|done].
  - split; simpl; [done|intros _; apply Hst; by left|done].
Qed.

Lemma reachable_inv mode s : reachable mode s → system_inv mode s.
Proof.
  unfold reachable. intros Hr.
  assert (system_inv mode system_new) as H0 by (split; simpl; [constructor|naive_solver|done]).
  revert H0. induction Hr as [|x y z Hxy _ IH]; [done|]. intros Hx. apply IH. by eapply step_inv.
Qed.

Lemma reachable_task mode s t : reachable mode s → t ∈ sys_tasks s → task_inv mode t.
Proof. intros Hr Ht. apply reachable_inv in Hr as [H _ _]. rewrite Forall_forall in H. by apply H. Qed.

(** ** Progress *)

(** How far a task is from its end. *)
Definition task_rank (t : task) : nat :=
  match tk_request t with Waiting => 1 | _ => 0 end +
  match tk_handler t with Running => 2 | Sent => 1 | _ => 0 end.

Definition tasks_rank (l : list task) : nat := sum_list_with task_rank l.

Lemma tasks_rank_middle l1 t l2 : tasks_rank (l1 ++ t :: l2) = tasks_rank l1 + task_rank t + tasks_rank l2.
Proof. unfold tasks_rank. rewrite sum_list_with_app. simpl. lia. Qed.

Lemma task_step_rank mode t t' : task_step mode t t' → task_rank t' < task_rank t.
Proof.
  destruct t as [rq h g w log]. intros Hs. inversion Hs; subst; simpl in *; subst; unfold task_rank; simpl;
    repeat match goal with H : _ ∨ _ |- _ => destruct H; subst; simpl end; try lia.
Qed.

(** A task that is not at its end can go on. *)
Lemma task_progress mode t : task_inv mode t → task_rank t ≠ 0 → ∃ t', task_step mode t t'.
Proof.
  intros Hi Hr. destruct mode.
  - assert (tk_request t = Waiting ∧ tk_handler t = Running) as [Hq Hh].
    { pose proof (inv_cancel _ _ Hi eq_refl). pose proof (inv_cancel_phases _ _ Hi eq_refl).
      unfold task_rank in Hr. destruct (tk_request t), (tk_handler t); naive_solver. }
    eexists. by apply step_return.
  - destruct (tk_handler t) eqn:Eh.
    + eexists. by apply step_handler_panics.
    + eexists. by apply step_drop_worker.
    + assert (tk_request t = Waiting) by (unfold task_rank in Hr; rewrite Eh in Hr; by destruct (tk_request t)).
      eexists. by apply step_detached_disconnect.
    + assert (tk_request t = Waiting) by (unfold task_rank in Hr; rewrite Eh in Hr; by destruct (tk_request t)).
      eexists. by apply step_detached_disconnect.
    + pose proof (inv_dropped _ _ Hi Eh). done.
Qed.

Lemma rank_zero l : tasks_rank l = 0 → Forall (λ t, task_rank t = 0) l.
Proof. unfold tasks_rank. induction l as [|t l IH]; simpl; [by constructor|]. constructor; [lia|apply IH; lia]. Qed.

Lemma rank_nonzero l : tasks_rank l ≠ 0 → ∃ l1 t l2, l = l1 ++ t :: l2 ∧ task_rank t ≠ 0.
Proof.
  induction l as [|t l IH]; [done|]. intros Hl. destruct (decide (task_rank t = 0)) as [E|E].
  - destruct IH as (l1 & u & l2 & -> & Hu); [unfold tasks_rank in *; simpl in *; lia|].
    by exists (t :: l1), u, l2.
  - by exists [], t, l.
Qed.

Lemma rank_zero_done mode l :
  Forall (task_inv mode) l → tasks_rank l = 0 → connections_done l ∧ workers_done l.
Proof.
  intros Hi Hr. apply rank_zero in Hr. rewrite Forall_forall in Hi, Hr.
  split; apply Forall_forall; intros t Ht; specialize (Hi t Ht); specialize (Hr t Ht); unfold task_rank in Hr.
  - intros E. rewrite E in Hr. lia.
  - pose proof (inv_worker _ _ Hi) as Hw. destruct (tk_worker t); [|done].
    destruct (proj1 Hw eq_refl) as [_ [E|E]]; rewrite E in Hr; lia.
Qed.

(** The steps without new requests lead from a closing server to its end. *)
Lemma closing_ends mode n l :
  tasks_rank l ≤ n → Forall (task_inv mode) l →
  ∃ l', rtc (step mode) (mk_system Closing l) (mk_system Joined l') ∧ length l' = length l.
Proof.
  revert l. induction n as [|n IH]; intros l Hn Hi.
  - destruct (rank_zero_done mode l Hi) as [Hc Hw]; [lia|]. exists l. split; [|done].
    eapply rtc_l; [by apply step_shutdown|]. apply rtc_once. by apply step_join.
  - destruct (decide (tasks_rank l = 0)) as [E|E]; [apply IH; [lia|done]|].
    destruct (rank_nonzero l E) as (l1 & t & l2 & -> & Ht).
    assert (task_inv mode t) as Hti by (rewrite Forall_app, Forall_cons in Hi; tauto).
    destruct (task_progress mode t Hti Ht) as [t' Hs]. pose proof (task_step_rank mode t t' Hs).
    destruct (IH (l1 ++ t' :: l2)) as (l' & Hr & Hl).
    { rewrite tasks_rank_middle in *. lia. }
    { revert Hi. apply forall_middle. by apply task_step_inv. }
    exists l'. split; [eapply rtc_l; [by apply step_task|done]|]. rewrite Hl, !length_app. done.
Qed.

(** ** Properties *)

(** C22: under [Detached] a handler that was started is never dropped, whatever
    its client does: while it runs it can still send its result or panic, also
    after the client has gone. *)
Theorem detached_handler_completes s t :
  reachable Detached s → t ∈ sys_tasks s →
  tk_handler t ≠ Dropped ∧
  (tk_handler t = Running → (∃ t', task_step Detached t t' ∧ tk_handler t' = Sent) ∧
     ∃ t', task_step Detached t t' ∧ tk_handler t' = Panicked).
Proof.
  intros Hr Ht. pose proof (reachable_task _ _ _ Hr Ht) as Hi. split.
  - intros E. by apply (inv_dropped _ _ Hi) in E.
  - intros E. split; [|eexists; split; [by apply step_handler_panics|done]].
    destruct (tk_request t) eqn:Eq.
    + eexists. split; [by apply step_send|done].
    + destruct (inv_answered _ _ Hi Eq); congruence.
    + pose proof (inv_unwound _ _ Hi Eq). congruence.
    + eexists. split; [by apply step_send_fails|done].
Qed.

(** C23: under [CancelOnDisconnect] a handler runs exactly as long as its
    request waits: none is left running for a client that has gone, or for a
    request that was answered. *)
Theorem cancelled_handler_stops s t :
  reachable CancelOnDisconnect s → t ∈ sys_tasks s →
  (tk_handler t = Running ↔ tk_request t = Waiting) ∧
  (tk_request t = Disconnected → tk_handler t ≠ Running).
Proof.
  intros Hr Ht. pose proof (reachable_task _ _ _ Hr Ht) as Hi. pose proof (inv_cancel _ _ Hi eq_refl) as Hc.
  split; [done|]. intros E Hh%Hc. congruence.
Qed.

(** C21: once [close] has returned nothing of any request is left: no request
    waits and no handler runs, in either mode; and a server that is closing can
    always get there, from every state, by steps of the tasks it has. *)
Theorem close_waits_for_handlers mode s :
  reachable mode s →
  (sys_phase s = Joined → ∀ t, t ∈ sys_tasks s →
     tk_request t ≠ Waiting ∧ tk_handler t ≠ Running ∧ tk_worker t = false) ∧
  (sys_phase s = Closing → ∃ s', rtc (step mode) s s' ∧ sys_phase s' = Joined ∧
     length (sys_tasks s') = length (sys_tasks s)).
Proof.
  intros Hr. pose proof (reachable_inv mode s Hr) as [Hi Hst Hj]. split.
  - intros E t Ht. specialize (Hst (or_intror E)). specialize (Hj E).
    rewrite Forall_forall in Hi. specialize (Hi t Ht).
    unfold connections_done, workers_done in *. rewrite Forall_forall in Hst, Hj.
    specialize (Hst t Ht). specialize (Hj t Ht). split_and!; [done| |done]. intros Eh. destruct mode.
    + by apply (inv_cancel _ _ Hi eq_refl) in Eh.
    + assert (tk_worker t = true) by (apply (inv_worker _ _ Hi); split; [done|by left]). congruence.
  - intros E. destruct s as [p l]. simpl in *. subst.
    destruct (closing_ends mode (tasks_rank l) l ltac:(done) Hi) as (l' & Hl & Hlen). by exists (mk_system Joined l').
Qed.

(** what is logged for a request tells how it ended, except that a handler's
    panic is logged as a client's disconnection: completed exactly when it was
    answered, cancelled exactly when its task was dropped or unwound, and
    completed after cancellation only for a detached handler whose client had
    gone. *)
Lemma request_log_spec mode s t :
  reachable mode s → t ∈ sys_tasks s →
  (RequestCompleted ∈ tk_log t ↔ tk_request t = Answered) ∧
  (RequestCancelled ∈ tk_log t ↔ tk_request t = Disconnected ∨ tk_request t = Unwound) ∧
  (CompletedAfterCancel ∈ tk_log t → mode = Detached ∧ tk_request t = Disconnected) ∧
  (PanicPropagated ∈ tk_log t → RequestCancelled ∈ tk_log t ∧ tk_handler t = Panicked).
Proof.
  intros Hr Ht. pose proof (reachable_task _ _ _ Hr Ht) as Hi. split_and!.
  - apply Hi.
  - apply Hi.
  - intros Hl. by destruct (inv_late _ _ Hi Hl) as (? & ? & _).
  - intros Hp. pose proof (inv_propagated _ _ Hi Hp) as Hu. split; [|by apply (inv_unwound _ _ Hi)].
    apply (inv_cancelled _ _ Hi). by right.
Qed.
