(* ===== verification/TestClient.v ===== *)
(** * The test client

    [ClientTestContext] of [dropshot/src/test_util.rs], with which programs test
    their servers: the requests it makes, the checks that every response has to
    pass, reading bodies, and walking through a paginated collection.

    A check that fails panics.  The server, the network and the client's clock
    are a [World]: sending a request gives its response, if there is one, in the
    next world.  All requests go to the server under test, whose address is left
    out of the URIs; logging is left out. *)
From S2P Require Import Prelude Externals StatusCodes Body HttpError Pagination.

(** ** Computations with the world *)

Section monad.
Context {World : Type}.

Definition testM (A : Type) : Type := World → panics (A * World).

#[global] Instance testM_ret : MRet testM := λ A a w, Ok (a, w).
#[global] Instance testM_bind : MBind testM := λ A B k m w,
  match m w with Ok (a, w) => k a w | Err e => Err e | Panic msg => Panic msg end.

Definition checked {A} (m : panics A) : testM A := λ w, (λ a, (a, w)) <$> m.

Lemma testM_bind_ok {A B} (m : testM A) (k : A → testM B) w b w' :
  (m ≫= k) w = Ok (b, w') ↔ ∃ a w1, m w = Ok (a, w1) ∧ k a w1 = Ok (b, w').
Proof.
  unfold mbind, testM_bind. destruct (m w) as [[a w1]|[]|msg]; [|naive_solver].
  split; [by exists a, w1|by intros (? & ? & [= <- <-] & ?)].
Qed.

Lemma checked_ok {A} (m : panics A) w a w' : checked m w = Ok (a, w') ↔ m = Ok a ∧ w' = w.
Proof. unfold checked. destruct m; simpl; naive_solver. Qed.

Lemma testM_bind_step {A B} (m : testM A) (k : A → testM B) w a w1 :
  m w = Ok (a, w1) → (m ≫= k) w = k a w1.
Proof. unfold mbind, testM_bind. by intros ->. Qed.
End monad.

(** [assert!] and [assert_eq!]. *)
Definition assert_that (b : bool) (msg : string) : panics () := if b then Ok () else Panic msg.
Definition assert_failed : string := "assertion `left == right` failed".

Lemma assert_that_ok b msg u : assert_that b msg = Ok u ↔ b = true.
Proof. destruct u. by destruct b. Qed.

(** ** Headers that a response may have *)

Inductive AllowedValue := AnyValue | OneOf (values : list string).
Record AllowedHeader := mk_allowed { ah_name : string; ah_value : AllowedValue }.

Definition allowed_header_new (name : string) : AllowedHeader := mk_allowed name AnyValue.

Definition TEST_HEADER_1 : string := "x-dropshot-test-header-1".
Definition TEST_HEADER_2 : string := "x-dropshot-test-header-2".

Definition ALLOWED_HEADERS : list AllowedHeader :=
  (allowed_header_new <$>
     ["content-encoding"; "content-length"; "content-type"; "date"; "location"; "vary"; "x-request-id"])
  ++ [mk_allowed "transfer-encoding" (OneOf ["chunked"]);
      allowed_header_new TEST_HEADER_1; allowed_header_new TEST_HEADER_2].

Definition DATE : string := "date".

Section client.
Context `{HttpCrate} {World : Type}.
(** The server and the network, and the clock, in seconds. *)
Context (send : World → Request Body → World * option (Response Body)) (now : World → Z).
(** [DateTime::parse_from_rfc2822], with the time in seconds; the path and the
    query of a URI with this [path_and_query]. *)
Context (parse_from_rfc2822 : string → option Z) (path_and_query : string → option (string * option string)).

Local Abbreviation M := (testM (World := World)).

(** The inner loop over [ALLOWED_HEADERS], and its test for one header. *)
Definition header_okay (header_name : string) (header_value : HeaderValue) : panics bool :=
  match List.find (λ a, eq_ignore_ascii_case header_name (ah_name a)) ALLOWED_HEADERS with
  | None => Ok false
  | Some allowed_header =>
      match ah_value allowed_header with
      | AnyValue => Ok true
      | OneOf allowed_values =>
          header ← expect (hv_to_str header_value) "Cannot turn header value to string";
          Ok (existsb (String.eqb header) allowed_values)
      end
  end.

Definition check_headers (headers : HeaderMap) : panics () :=
  for_each (λ '(header_name, header_value),
    okay ← header_okay header_name header_value;
    assert_that okay ("header name not in allowed list: " +:+ header_name)) (hm_iter headers).

Definition check_date (headers : HeaderMap) (time_before time_after : Z) : panics () :=
  date ← expect (hm_get headers DATE) "missing Date header";
  date_header ← expect (hv_to_str date) "non-ASCII characters in Date header";
  time_request ← expect (parse_from_rfc2822 date_header) "unable to parse server's Date header";
  _ ← assert_that (time_before <=? time_after)%Z "time obviously went backwards during the test";
  _ ← assert_that (time_before - 1 <=? time_request)%Z "assertion failed: time_request.timestamp() >= time_before - 1";
  assert_that (time_request <=? time_after + 1)%Z "assertion failed: time_request.timestamp() <= time_after + 1".

Definition request_id_header (headers : HeaderMap) : panics string :=
  v ← expect (hm_get headers HEADER_REQUEST_ID) "missing request id header";
  expect (hv_to_str v) "non-ASCII characters in request id".

(** Reading bodies. *)
Definition read_bytes (response : Response Body) : panics string :=
  match body_error (body_frames (resp_body response)) with
  | Some _ => Panic "error reading body"
  | None => Ok (String.concat "" (body_data (body_frames (resp_body response))))
  end.

Definition check_content_type (response : Response Body) (content_type : string) : panics () :=
  v ← expect (hm_get (resp_headers response) CONTENT_TYPE) "missing content-type";
  assert_that (String.eqb content_type (hv_as_bytes v)) assert_failed.

Definition read_json {T} (from_slice : string → option T) (response : Response Body) : panics T :=
  _ ← check_content_type response CONTENT_TYPE_JSON;
  body_bytes ← read_bytes response;
  expect (from_slice body_bytes) "failed to parse server body as expected type".

Definition read_string (from_utf8 : string → option string) (response : Response Body) : panics string :=
  body_bytes ← read_bytes response;
  expect (from_utf8 body_bytes) "response contained non-UTF-8 bytes".

Definition read_ndjson {T} (from_utf8 : string → option string) (from_str : string → option T) (response : Response Body) :
    panics (list T) :=
  _ ← check_content_type response CONTENT_TYPE_NDJSON;
  body_string ← read_string from_utf8 response;
  mapM (λ line, expect (from_str line) "failed to parse server body as expected type")
    (List.filter (λ line, negb (is_empty_str line)) (split_on (Ascii.ascii_of_nat 10) body_string)).

Definition unwrap_none_value : string := "called `Option::unwrap()` on a `None` value".
Definition unwrap_err_value : string := "called `Result::unwrap()` on an `Err` value".

Definition read_content_length (response : Response Body) : panics N :=
  v ← expect (hm_get (resp_headers response) "content-length") unwrap_none_value;
  s ← expect (hv_to_str v) unwrap_err_value;
  expect (parse_unsigned 64 s) unwrap_err_value.

(** The body of a response that was read to its end. *)
Definition body_read (response : Response Body) : Response Body :=
  mk_response (resp_status response) (resp_headers response) (resp_no_compression response) empty_body.

(** What is checked of a response, with the clock's readings around the
    request, up to reading the error's body. *)
Definition check_response (response : Response Body) (expected_status : StatusCode) (time_before time_after : Z) :
    panics (string * Response Body) :=
  let status := resp_status response in
  _ ← assert_that (bool_decide (expected_status = status)) assert_failed;
  let headers := resp_headers response in
  _ ← check_headers headers;
  _ ← check_date headers time_before time_after;
  request_id ← request_id_header headers;
  response ← if bool_decide (status = status_const 204)
             then body_bytes ← read_bytes response;
                  _ ← assert_that (String.length body_bytes =? 0) assert_failed;
                  Ok (body_read response)
             else Ok response;
  Ok (request_id, response).

(** The result's [Ok] is on the left. *)
Definition make_request_inner {E} (from_slice : string → option E) (request : Request Body)
    (expected_status : StatusCode) : M (Response Body + string * E) := λ w,
  let time_before := now w in
  let (w, answer) := send w request in
  response ← expect answer "failed to make request to server";
  let time_after := now w in
  '(request_id, response) ← check_response response expected_status time_before time_after;
  if negb (status_is_client_error (resp_status response)) && negb (status_is_server_error (resp_status response))
  then Ok (inl response, w)
  else error_body ← read_json from_slice response; Ok (inr (request_id, error_body), w).

(** ** The methods *)

Definition unwrap_err_ok : string := "called `Result::unwrap_err()` on an `Ok` value".

Definition unwrap_result {A E} (r : A + E) : panics A :=
  match r with inl a => Ok a | inr _ => Panic unwrap_err_value end.
Definition unwrap_error {A E} (r : A + E) : panics E :=
  match r with inl _ => Panic unwrap_err_ok | inr e => Ok e end.

Definition url (path : string) : panics (string * option string) :=
  expect (path_and_query path) "attempted to construct invalid URI".

Definition build_request (method path : string) (headers : panics HeaderMap) (body : Body) : panics (Request Body) :=
  '(p, q) ← url path; headers ← headers; Ok (mk_request method p q headers body).

(** The header that [Request::builder] is given for form data. *)
Definition url_encoded_headers : panics HeaderMap :=
  v ← expect (hv_from_str CONTENT_TYPE_URL_ENCODED) "attempted to construct invalid request";
  expect (hm_try_append hm_new CONTENT_TYPE v) "attempted to construct invalid request".

(** [impl_client_test_context!], given [make_request_with_request]. *)
Section methods.
Context {E : Type} (make_request_with_request : Request Body → StatusCode → M (Response Body + E)).

Definition make_request_with_body (method path : string) (body : Body) (expected_status : StatusCode) :
    M (Response Body + E) :=
  request ← checked (build_request method path (Ok hm_new) body);
  make_request_with_request request expected_status.

Definition make_request_with_body_url_encoded (method path : string) (body : Body) (expected_status : StatusCode) :
    M (Response Body + E) :=
  request ← checked (build_request method path url_encoded_headers body);
  make_request_with_request request expected_status.

(** [to_string] is the serialization of the body, which is unwrapped. *)
Definition make_request {S} (to_string : S → option string) (method path : string) (request_body : option S)
    (expected_status : StatusCode) : M (Response Body + E) :=
  body ← checked match request_body with
                 | None => Ok empty_body
                 | Some input => s ← expect (to_string input) unwrap_err_value; Ok (with_content s)
                 end;
  make_request_with_body method path body expected_status.

Definition make_request_url_encoded {S} (to_string : S → option string) (method path : string) (request_body : option S)
    (expected_status : StatusCode) : M (Response Body + E) :=
  body ← checked match request_body with
                 | None => Ok empty_body
                 | Some input => s ← expect (to_string input) unwrap_err_value; Ok (with_content s)
                 end;
  make_request_with_body_url_encoded method path body expected_status.

Definition make_request_no_body (method path : string) (expected_status : StatusCode) : M (Response Body + E) :=
  make_request_with_body method path empty_body expected_status.

Definition make_request_error (method path : string) (expected_status : StatusCode) : M E :=
  r ← make_request_with_body method path (with_content "") expected_status; checked (unwrap_error r).

Definition make_request_error_body {S} (to_string : S → option string) (method path : string) (body : S)
    (expected_status : StatusCode) : M E :=
  r ← make_request to_string method path (Some body) expected_status; checked (unwrap_error r).
End methods.

(** [ClientTestContext] expects [HttpErrorResponseBody] and checks its request
    id; [TypedErrorClientTestContext] expects another type. *)
Definition make_request_with_request (from_slice : string → option HttpErrorResponseBody) (request : Request Body)
    (expected_status : StatusCode) : M (Response Body + HttpErrorResponseBody) :=
  r ← make_request_inner from_slice request expected_status;
  match r with
  | inl response => mret (inl response)
  | inr (request_id_header, error_body) =>
      _ ← checked (assert_that (String.eqb (body_request_id error_body) request_id_header) assert_failed);
      mret (inr error_body)
  end.

Definition typed_make_request_with_request {E} (from_slice : string → option E) (request : Request Body)
    (expected_status : StatusCode) : M (Response Body + E) :=
  r ← make_request_inner from_slice request expected_status;
  mret match r with inl response => inl response | inr (_, error_body) => inr error_body end.

(** ** Objects and collections *)

Section objects.
Context (from_slice_error : string → option HttpErrorResponseBody).
Local Abbreviation send_body := (make_request_with_body (make_request_with_request from_slice_error)).

(** The requests that have to succeed. *)
Definition get_ok (object_url : string) : M (Response Body) :=
  r ← send_body "GET" object_url (with_content "") (status_const 200); checked (unwrap_result r).

Definition object_get {T} (from_slice : string → option T) (object_url : string) : M T :=
  response ← get_ok object_url; checked (read_json from_slice response).

Definition objects_list {T} (from_utf8 : string → option string) (from_str : string → option T) (list_url : string) :
    M (list T) :=
  response ← get_ok list_url; checked (read_ndjson from_utf8 from_str response).

Definition objects_post {S T} (to_string : S → option string) (from_slice : string → option T)
    (collection_url : string) (input : S) : M T :=
  r ← make_request (make_request_with_request from_slice_error) to_string "POST" collection_url (Some input) (status_const 201);
  response ← checked (unwrap_result r);
  checked (read_json from_slice response).

Definition object_put {S} (to_string : S → option string) (object_url : string) (input : S) (status : StatusCode) : M () :=
  r ← make_request (make_request_with_request from_slice_error) to_string "PUT" object_url (Some input) status;
  _ ← checked (unwrap_result r); mret ().

Definition object_delete (object_url : string) : M () :=
  r ← make_request_no_body (make_request_with_request from_slice_error) "DELETE" object_url (status_const 204);
  _ ← checked (unwrap_result r); mret ().

Context {ItemType : Type} (from_slice_page : string → option (ResultsPage ItemType)).

Definition objects_list_page (list_url : string) : M (ResultsPage ItemType) := object_get from_slice_page list_url.

Definition first_page_url (collection_url initial_params : string) (limit : nat) : string :=
  collection_url +:+ "?limit=" +:+ show_N (N.of_nat limit) +:+ "&" +:+ initial_params.
Definition next_page_url (collection_url token : string) (limit : nat) : string :=
  collection_url +:+ "?limit=" +:+ show_N (N.of_nat limit) +:+ "&page_token=" +:+ token.

Definition check_page (page : ResultsPage ItemType) (limit : nat) : panics () :=
  assert_that (length (rp_items page) <=? limit) "assertion failed: page.items.len() <= limit".

(** The [while] loop of [iter_collection], with fuel. *)
Fixpoint iter_pages (fuel : nat) (collection_url : string) (limit : nat) (page : ResultsPage ItemType)
    (rv : list ItemType) (npages : nat) (w : World) : option (panics (list ItemType * nat * World)) :=
  match rp_next_page page with
  | None => Some (Ok (rv, npages, w))
  | Some token =>
      match fuel with
      | 0 => None
      | S fuel =>
          match (page ← objects_list_page (next_page_url collection_url token limit);
                 _ ← checked (check_page page limit); mret page) w with
          | Ok (page, w) => iter_pages fuel collection_url limit page (rv ++ rp_items page) (npages + 1) w
          | Err e => match e with end
          | Panic msg => Some (Panic msg)
          end
      end
  end.

Definition iter_collection (fuel : nat) (collection_url initial_params : string) (limit : nat) (w : World) :
    option (panics (list ItemType * nat * World)) :=
  match (page ← objects_list_page (first_page_url collection_url initial_params limit);
         _ ← checked (check_page page limit); mret page) w with
  | Ok (page, w) => iter_pages fuel collection_url limit page (rp_items page) 1 w
  | Err e => match e with end
  | Panic msg => Some (Panic msg)
  end.
End objects.

(** ** What is accepted *)

(** A header of the list, with one of the values that the list has for it. *)
Definition header_allowed (name : string) (value : HeaderValue) : Prop :=
  ∃ a, a ∈ ALLOWED_HEADERS ∧ to_ascii_lowercase name = to_ascii_lowercase (ah_name a) ∧
    match ah_value a with AnyValue => True | OneOf values => ∃ s, hv_to_str value = Some s ∧ s ∈ values end.

Record accepted (expected_status : StatusCode) (time_before time_after : Z) (id : string) (r : Response Body) : Prop := {
  ac_status : resp_status r = expected_status;
  ac_headers : ∀ name value, (name, value) ∈ hm_iter (resp_headers r) → header_allowed name value;
  ac_date : ∃ v s t, hm_get (resp_headers r) DATE = Some v ∧ hv_to_str v = Some s ∧ parse_from_rfc2822 s = Some t ∧
    (time_before ≤ time_after ∧ time_before - 1 ≤ t ≤ time_after + 1)%Z;
  ac_id : ∃ v, hm_get (resp_headers r) HEADER_REQUEST_ID = Some v ∧ hv_to_str v = Some id;
  ac_no_content : resp_status r = status_const 204 → read_bytes r = Ok "";
}.

(** The response that the caller sees. *)
Definition seen (r : Response Body) : Response Body :=
  if bool_decide (resp_status r = status_const 204) then body_read r else r.

Lemma allowed_names_nodup : NoDup ((λ a, to_ascii_lowercase (ah_name a)) <$> ALLOWED_HEADERS).
Proof. apply (bool_decide_unpack _). by vm_compute. Qed.

Lemma find_allowed l name a :
  NoDup ((λ a, to_ascii_lowercase (ah_name a)) <$> l) →
  List.find (λ a, eq_ignore_ascii_case name (ah_name a)) l = Some a ↔
  a ∈ l ∧ to_ascii_lowercase name = to_ascii_lowercase (ah_name a).
Proof.
  unfold eq_ignore_ascii_case. induction l as [|b l IH]; intros Hnd; cbn [List.find].
  { split; [done|]. by intros [?%not_elem_of_nil _]. }
  apply NoDup_cons in Hnd as [Hb Hnd]. rewrite elem_of_cons.
  destruct (String.eqb_spec (to_ascii_lowercase name) (to_ascii_lowercase (ah_name b))) as [E|E].
  - split; [by intros [= <-]; auto|]. intros [[->|Hin] Ea]; [done|]. destruct Hb. rewrite <-E, Ea.
    by apply (list_elem_of_fmap_2 (λ a, to_ascii_lowercase (ah_name a))).
  - rewrite (IH Hnd). split; [by intros [? ?]; auto|]. intros [[->|Hin] Ea]; [done|by split].
Qed.

Lemma existsb_eqb s l : existsb (String.eqb s) l = true ↔ s ∈ l.
Proof.
  rewrite existsb_exists, list_elem_of_In. split; [|intros Hs; exists s; by rewrite String.eqb_refl].
  by intros (x & Hx & ->%String.eqb_eq).
Qed.

Lemma header_okay_true name value : header_okay name value = Ok true ↔ header_allowed name value.
Proof.
  unfold header_okay, header_allowed. split.
  - destruct (List.find _ _) as [a|] eqn:Ea; [|done]. apply find_allowed in Ea as [Hin Hn]; [|apply allowed_names_nodup].
    intros Ho. exists a. split_and!; [done..|]. destruct (ah_value a) as [|values]; [done|].
    apply rust_bind_ok in Ho as (s & Hs%expect_ok & [= Hv%existsb_eqb]). by exists s.
  - intros (a & Hin & Hn & Hv). rewrite (proj2 (find_allowed _ name a allowed_names_nodup)) by done.
    destruct (ah_value a) as [|values]; [done|]. destruct Hv as (s & -> & Hs%existsb_eqb). cbn [expect mbind rust_bind].
    by rewrite Hs.
Qed.

Lemma check_headers_ok headers u :
  check_headers headers = Ok u ↔ ∀ name value, (name, value) ∈ hm_iter headers → header_allowed name value.
Proof.
  destruct u. unfold check_headers. rewrite for_each_ok, Forall_forall. split.
  - intros Hf name value Hin. specialize (Hf _ Hin). simpl in Hf.
    apply rust_bind_ok in Hf as (okay & Ho & Ha%assert_that_ok). apply header_okay_true. by rewrite Ho, Ha.
  - intros Hf [name value] Hin. apply rust_bind_ok. exists true. split; [by apply header_okay_true, Hf|done].
Qed.

Lemma check_date_ok headers b a u :
  check_date headers b a = Ok u ↔
  ∃ v s t, hm_get headers DATE = Some v ∧ hv_to_str v = Some s ∧ parse_from_rfc2822 s = Some t ∧
    (b ≤ a ∧ b - 1 ≤ t ≤ a + 1)%Z.
Proof.
  unfold check_date. rewrite rust_bind_ok. setoid_rewrite rust_bind_ok. setoid_rewrite rust_bind_ok.
  setoid_rewrite rust_bind_ok. setoid_rewrite rust_bind_ok. setoid_rewrite expect_ok.
  setoid_rewrite assert_that_ok. setoid_rewrite Z.leb_le. destruct u. split.
  - intros (v & Hv & s & Hs & t & Ht & _ & H1 & _ & H2 & H3). exists v, s, t. split_and!; done.
  - intros (v & s & t & Hv & Hs & Ht & H1 & H2 & H3). exists v. split; [done|]. exists s. split; [done|].
    exists t. split; [done|]. by do 2 (exists (); split; [done|]).
Qed.

Lemma check_response_ok r expected b a id r' :
  check_response r expected b a = Ok (id, r') ↔ accepted expected b a id r ∧ r' = seen r.
Proof.
  unfold check_response. cbv zeta. split.
  - intros ([] & Hs%assert_that_ok%bool_decide_eq_true & H1)%rust_bind_ok.
    apply rust_bind_ok in H1 as ([] & Hh & H1). pose proof (proj1 (check_headers_ok _ _) Hh) as Hh'. apply rust_bind_ok in H1 as ([] & Hd%check_date_ok & H1).
    apply rust_bind_ok in H1 as (id' & Hid & H1). apply rust_bind_ok in H1 as (r1 & Hr & [= -> ->]).
    unfold request_id_header in Hid. apply rust_bind_ok in Hid as (v & Hv%expect_ok & Hi%expect_ok).
    unfold seen. case_bool_decide as E.
    + apply rust_bind_ok in Hr as (body & Hb & Hr). apply rust_bind_ok in Hr as ([] & Hl%assert_that_ok & [= <-]).
      split; [|done]. split; try done; [by exists v|]. intros _. rewrite Hb. apply Nat.eqb_eq in Hl. destruct body; [reflexivity|discriminate Hl].
    + injection Hr as <-. split; [|done]. split; try done. by exists v.
  - intros [[Hs Hh Hd (v & Hv & Hi) Hn] ->]. rewrite Hs, (bool_decide_eq_true_2 (expected = expected)) by done. cbn [assert_that mbind rust_bind].
    rewrite (proj2 (check_headers_ok _ ()) Hh), (proj2 (check_date_ok _ _ _ ()) Hd). cbn [mbind rust_bind].
    unfold request_id_header, seen. rewrite Hv. cbn [expect mbind rust_bind]. rewrite Hi. cbn [expect mbind rust_bind].
    rewrite Hs in *. case_bool_decide; [|done]. by rewrite Hn.
Qed.

Lemma read_json_ok {T} (from_slice : string → option T) r x :
  read_json from_slice r = Ok x ↔
  ∃ v text, hm_get (resp_headers r) CONTENT_TYPE = Some v ∧ hv_as_bytes v = CONTENT_TYPE_JSON ∧
    read_bytes r = Ok text ∧ from_slice text = Some x.
Proof.
  unfold read_json, check_content_type. split.
  - intros ([] & (v & Hv%expect_ok & Ht%assert_that_ok%String.eqb_eq)%rust_bind_ok & H1)%rust_bind_ok.
    apply rust_bind_ok in H1 as (text & Hb & Hx%expect_ok). by exists v, text.
  - intros (v & text & Hv & Ht & Hb & Hx). rewrite Hv. cbn [expect mbind rust_bind].
    rewrite Ht, String.eqb_refl. cbn [assert_that mbind rust_bind]. rewrite Hb. cbn [mbind rust_bind]. by rewrite Hx.
Qed.

Context `{!HttpCrateLaws}.

Definition error_status_code (s : StatusCode) : Prop := (400 ≤ status_as_u16 s < 600)%Z.

Lemma not_error s :
  negb (status_is_client_error s) && negb (status_is_server_error s) = true ↔ ¬ error_status_code s.
Proof.
  unfold error_status_code. rewrite andb_true_iff, !negb_true_iff.
  pose proof (status_is_client_error_spec s) as Hc. pose proof (status_is_server_error_spec s) as Hs.
  split.
  - intros [Hc' Hs'] Hr. destruct (decide (status_as_u16 s < 500)%Z) as [Hl|Hl].
    + assert (status_is_client_error s = true); [apply Hc; lia|congruence].
    + assert (status_is_server_error s = true); [apply Hs; lia|congruence].
  - intros Hr. split; apply not_true_iff_false; intros E; apply Hr; [apply Hc in E|apply Hs in E]; lia.
Qed.

Lemma error_seen r : error_status_code (resp_status r) → seen r = r.
Proof.
  unfold error_status_code, seen. case_bool_decide as E; [|done]. rewrite E, status_const_u16 by lia. lia.
Qed.

Lemma seen_status r : resp_status (seen r) = resp_status r.
Proof. unfold seen. by case_bool_decide. Qed.

(** A request gives a result, and no panic, exactly if there is a response
    that passes the checks: it has the status that is expected, only headers of
    the list, a date between the clock's readings, give or take a second, a
    request id, and no content for the status 204.  The result is the response or,
    for an error, the request id and the error that the JSON body holds. *)
Lemma make_request_inner_spec {E} (from_slice : string → option E) (request : Request Body) expected w result w' :
  make_request_inner from_slice request expected w = Ok (result, w') ↔
  ∃ r id, send w request = (w', Some r) ∧ accepted expected (now w) (now w') id r ∧
    match result with
    | inl response => response = seen r ∧ ¬ error_status_code expected
    | inr (request_id, error) => request_id = id ∧ error_status_code expected ∧
        ∃ v text, hm_get (resp_headers r) CONTENT_TYPE = Some v ∧ hv_as_bytes v = CONTENT_TYPE_JSON ∧
          read_bytes r = Ok text ∧ from_slice text = Some error
    end.
Proof.
  unfold make_request_inner. cbv zeta. destruct (send w request) as [w1 answer]. split.
  - intros (r & ->%expect_ok & H1)%rust_bind_ok. apply rust_bind_ok in H1 as ([id r'] & Hr & H1).
    apply check_response_ok in Hr as [Ha ->]. exists r, id. pose proof (ac_status _ _ _ _ _ Ha) as Hst.
    rewrite seen_status, Hst in H1.
    destruct (negb _ && negb _) eqn:En; [apply not_error in En; injection H1 as <- <-; done|].
    assert (error_status_code expected) as Herr.
    { destruct (decide (error_status_code expected)) as [|Hn]; [done|]. apply not_error in Hn. congruence. }
    rewrite error_seen in H1 by by rewrite Hst. apply rust_bind_ok in H1 as (e & He%read_json_ok & [= <- <-]).
    by split_and!.
  - intros (r & id & [= -> ->] & Ha & Hres). cbn [expect mbind rust_bind].
    rewrite (proj2 (check_response_ok _ _ _ _ id (seen r))) by done. cbn [mbind rust_bind].
    pose proof (ac_status _ _ _ _ _ Ha) as Hst. rewrite seen_status, Hst.
    destruct result as [response|[request_id error]].
    + destruct Hres as [-> ->%not_error]. done.
    + destruct Hres as (-> & He & Hj). rewrite error_seen by by rewrite Hst.
      destruct (negb _ && negb _) eqn:En; [by apply not_error in En|].
      rewrite (proj2 (read_json_ok from_slice r error)) by done. done.
Qed.
End client.
