(* ===== verification/TestClientSpec.v ===== *)
(** * The test client and the server

    What the test client makes of the errors of a server of [Server], delivered
    as [hyper] delivers responses, and that [iter_collection] reads a collection
    that a server pages through with [ResultsPage::new]. *)
From S2P Require Import Prelude BTree Externals StatusCodes Body HttpError Config Pagination Handler Router RouterLookup Compression.
From S2P Require Import ApiDescription Server TestClient.

(** ** Delivery *)

Section delivery.
Context `{HttpCrate} (parse_from_rfc2822 : string → option Z).

(** The documented behaviour of [hyper] for a response [r] that the client gets
    as [got]: the status and the data are the same; a date is added, and a length
    or a chunked encoding; other headers stay as they are.  (The request is not a
    HEAD, to which the body is not sent.) *)
Record delivers (time_before time_after : Z) (r got : Response Body) : Prop := {
  de_status : resp_status got = resp_status r;
  de_body : read_bytes got = read_bytes r;
  de_added : ∀ n v, (n, v) ∈ hm_iter (resp_headers got) →
    (n, v) ∈ hm_iter (resp_headers r) ∨ n = "date" ∨ n = "content-length" ∨
    n = "transfer-encoding" ∧ hv_to_str v = Some "chunked";
  de_kept : ∀ n, hm_get_all (resp_headers r) n ≠ [] →
    hm_get_all (resp_headers got) n = hm_get_all (resp_headers r) n;
  de_date : hm_get_all (resp_headers r) DATE = [] →
    ∃ v s t, hm_get (resp_headers got) DATE = Some v ∧ hv_to_str v = Some s ∧ parse_from_rfc2822 s = Some t ∧
      (time_before ≤ time_after ∧ time_before - 1 ≤ t ≤ time_after + 1)%Z;
}.

Context `{!HttpCrateLaws}.

Lemma hm_iter_elem h n v : (n, v) ∈ hm_iter h ↔ v ∈ hm_get_all h n.
Proof.
  rewrite hm_iter_get_all, list_elem_of_fmap. setoid_rewrite list_elem_of_filter. split.
  - intros Hin. by exists (n, v).
  - by intros ([n' v'] & -> & [<- Hin]).
Qed.

Lemma read_bytes_content s h b text :
  read_bytes (mk_response s h b (with_content text)) = Ok text.
Proof. by destruct text. Qed.

Lemma allowed_name n v :
  existsb (λ a, String.eqb n (ah_name a) && match ah_value a with AnyValue => true | _ => false end) ALLOWED_HEADERS = true →
  header_allowed n v.
Proof.
  intros (a & Hin & [->%String.eqb_eq Ha]%andb_true_iff)%existsb_exists. exists a.
  rewrite list_elem_of_In. split_and!; [done..|]. by destruct (ah_value a).
Qed.

Lemma chunked_allowed v : hv_to_str v = Some "chunked" → header_allowed "transfer-encoding" v.
Proof.
  intros Hv. exists (mk_allowed "transfer-encoding" (OneOf ["chunked"])). split_and!; [|done|].
  - apply list_elem_of_In. vm_compute. tauto.
  - exists "chunked". split; [done|left].
Qed.
End delivery.

(** ** Errors of the server *)

Section errors.
Context `{Crates} `{!HttpBuilder} `{!Float32}.
Context `{!HttpCrateLaws} `{!HeaderNameLaws} `{!HttpBuilderLaws}.
Context (to_string_pretty : HttpErrorResponseBody → option string)
  (gzip_frames : list (string + string) → list (Frame + string))
  (handle_request : Handler → RequestContext → Request Body → rust HandlerError (Response Body)).
Context {C World : Type} (send : World → Request Body → World * option (Response Body)) (now : World → Z)
  (parse_from_rfc2822 : string → option Z) (from_slice : string → option HttpErrorResponseBody).
Implicit Types (server : DropshotState C).

(** The error's own headers are on the client's list, and none of those that
    every error has. *)
Definition plain_error (e : HttpError) : Prop := ∀ n v, v ∈ error_header_values e n →
  header_allowed n v ∧ n ∉ [CONTENT_TYPE; HEADER_REQUEST_ID; DATE].

Definition visible_id (id : string) : Prop := ∀ i c, String.get i id = Some c → (32 ≤ Ascii.nat_of_ascii c < 127)%nat.

Lemma visible_to_str id v : visible_id id → hv_as_bytes v = id → hv_to_str v = Some id.
Proof.
  intros Hid <-. destruct (proj1 (hv_to_str_ascii v)) as [s Hs]; [intros i c Hc; left; by apply (Hid i)|].
  rewrite Hs. by rewrite (hv_to_str_bytes v s Hs).
Qed.

Lemma plain_no_values e n : plain_error e → n ∈ [CONTENT_TYPE; HEADER_REQUEST_ID; DATE] → error_header_values e n = [].
Proof. intros Hp Hn. destruct (error_header_values e n) as [|v l] eqn:E; [done|]. destruct (Hp n v); [rewrite E; left|done]. Qed.

Lemma error_accepted e id r got b a :
  into_response to_string_pretty e id = Ok r → delivers parse_from_rfc2822 b a r got →
  plain_error e → visible_id id → error_wf (status_code e) →
  accepted parse_from_rfc2822 (error_status (status_code e)) b a id got ∧
  ∃ v text, hm_get (resp_headers got) CONTENT_TYPE = Some v ∧ hv_as_bytes v = CONTENT_TYPE_JSON ∧
    read_bytes got = Ok text ∧ to_string_pretty (mk_error_body id (error_code e) (external_message e)) = Some text.
Proof.
  intros (Hst & (text & Htext & Hbody) & j & i & Hj & Hi & Hget)%into_response_ok [Hs Hb Hadd Hkept Hdate] Hp Hid Hwf.
  assert (hm_get_all (resp_headers r) CONTENT_TYPE = [j]) as Hct.
  { rewrite Hget, (plain_no_values e CONTENT_TYPE Hp) by (left). done. }
  assert (hm_get_all (resp_headers r) HEADER_REQUEST_ID = [i]) as Hri.
  { rewrite Hget, (plain_no_values e HEADER_REQUEST_ID Hp) by (right; left). done. }
  split; [split|].
  - by rewrite Hs, Hst.
  - intros n v [Hin| [->|[->|[-> Hv]]]]%Hadd; [|by apply allowed_name..|by apply chunked_allowed].
    apply hm_iter_elem in Hin. rewrite Hget, !elem_of_app in Hin. destruct Hin as [Hin|[Hin|Hin]].
    + by apply (Hp n v).
    + destruct (String.eqb_spec CONTENT_TYPE n) as [<-|]; [by apply allowed_name|by apply not_elem_of_nil in Hin].
    + destruct (String.eqb_spec HEADER_REQUEST_ID n) as [<-|]; [by apply allowed_name|by apply not_elem_of_nil in Hin].
  - apply Hdate. rewrite Hget, (plain_no_values e DATE Hp) by (right; right; left). done.
  - exists i. split; [|by apply visible_to_str]. unfold hm_get. rewrite Hkept, Hri by by rewrite Hri. done.
  - rewrite Hs, Hst. intros E. unfold error_wf, error_as_u16 in Hwf. rewrite E, status_const_u16 in Hwf; lia.
  - exists j, text. split_and!; [|done| |done].
    + unfold hm_get. rewrite Hkept, Hct by by rewrite Hct. done.
    + rewrite Hb. unfold read_bytes. rewrite Hbody. apply (read_bytes_content (resp_status r) hm_new false).
Qed.

(** C16: The test client gets each error of the server as it was: where the error
    has no headers of its own but those on the client's list, all checks pass and
    the result is the error's code and message with the request id.  An error
    with an [Allow] header, which is what the router answers when the method is
    not allowed, is never accepted: the client panics. *)
Theorem server_error_received server (request : Request Body) id addr e r got w w' :
  http_request_handle gzip_frames handle_request server request id addr = Err (Dropshot e) →
  http_request_handle_wrap to_string_pretty gzip_frames handle_request server request id addr = Ok r →
  send w request = (w', Some got) → delivers parse_from_rfc2822 (now w) (now w') r got →
  (let b := mk_error_body id (error_code e) (external_message e) in
   ∀ text, to_string_pretty b = Some text → from_slice text = Some b) →
  visible_id id → error_wf (status_code e) →
  (plain_error e →
     make_request_with_request send now parse_from_rfc2822 from_slice request (error_status (status_code e)) w =
     Ok (inr (mk_error_body id (error_code e) (external_message e)), w')) ∧
  (error_header_values e ALLOW ≠ [] → ∀ expected,
     ∃ msg, make_request_with_request send now parse_from_rfc2822 from_slice request expected w = Panic msg).
Proof.
  intros He Hr Hsend Hd Hjson Hid Hwf. unfold http_request_handle_wrap in Hr. rewrite He in Hr. simpl in Hr. split.
  - intros Hp. destruct (error_accepted e id r got _ _ Hr Hd Hp Hid Hwf) as (Ha & v & text & Hv & Hj & Hb & Ht).
    unfold make_request_with_request.
    rewrite (testM_bind_step _ _ w (inr (id, mk_error_body id (error_code e) (external_message e))) w').
    2: { apply (proj2 (make_request_inner_spec _ _ _ _ _ _ _ _ _)). exists got, id. split_and!; [done..|]. exists v, text.
         split_and!; [done..|by apply Hjson]. }
    cbn [body_request_id]. rewrite String.eqb_refl. done.
  - intros Hal expected. destruct (make_request_with_request _ _ _ _ _ _ w) as [[res w1]|[]|msg] eqn:E; [|by exists msg].
    exfalso. unfold make_request_with_request in E. apply testM_bind_ok in E as (res1 & w2 & E & _).
    destruct (proj1 (make_request_inner_spec _ _ _ _ _ _ _ _ _) E) as (got' & id' & Hs & Ha & _). rewrite Hsend in Hs. injection Hs as _ <-.
    apply into_response_ok in Hr as (_ & _ & j & i & _ & _ & Hget). destruct Hd as [_ _ _ Hkept _].
    assert (hm_get_all (resp_headers r) ALLOW = error_header_values e ALLOW) as Hra by (rewrite Hget; simpl; by rewrite app_nil_r).
    destruct (error_header_values e ALLOW) as [|v l] eqn:Ev; [done|].
    assert ((ALLOW, v) ∈ hm_iter (resp_headers got)) as Hin.
    { apply hm_iter_elem. rewrite Hkept, Hra by by rewrite Hra. left. }
    apply (ac_headers _ _ _ _ _ _ Ha) in Hin as (a & Hin & Hn & _). apply list_elem_of_In in Hin. vm_compute in Hin.
    decompose [or] Hin; try done; subst a; vm_compute in Hn; done.
Qed.
End errors.

(** ** Paginated collections *)

Section scan.
Context `{HttpCrate} `{Base64Crate} `{!HttpCrateLaws} `{!Base64Laws}.
Context {World ItemType PageSelector ScanParams : Type}.
Context (send : World → Request Body → World * option (Response Body)) (now : World → Z)
  (parse_from_rfc2822 : string → option Z) (path_and_query : string → option (string * option string)).
Context (from_slice_error : string → option HttpErrorResponseBody) (from_slice_page : string → option (ResultsPage ItemType)).
Context (to_vec : SerializedToken PageSelector → string + string) (from_slice : string → SerializedToken PageSelector + string).

(** The server answers a [GET] with this page. *)
Definition answers_page (page_url : string) (page : ResultsPage ItemType) : Prop := ∀ w,
  ∃ p q w' r id v text, path_and_query page_url = Some (p, q) ∧
    send w (mk_request "GET" p q hm_new (with_content "")) = (w', Some r) ∧
    accepted parse_from_rfc2822 (status_const 200) (now w) (now w') id r ∧
    hm_get (resp_headers r) CONTENT_TYPE = Some v ∧ hv_as_bytes v = CONTENT_TYPE_JSON ∧
    read_bytes r = Ok text ∧ from_slice_page text = Some page.

Local Abbreviation list_page := (objects_list_page send now parse_from_rfc2822 path_and_query from_slice_error from_slice_page).

Lemma objects_list_page_ok page_url page w :
  answers_page page_url page → ∃ w', list_page page_url w = Ok (page, w').
Proof.
  intros Ha. destruct (Ha w) as (p & q & w' & r & id & v & text & Hu & Hs & Hac & Hv & Hj & Hb & Ht). exists w'.
  assert (resp_status r = status_const 200) as Hst by apply Hac.
  assert (status_const 200 ≠ status_const 204) as Hne by (intros E; apply status_const_inj in E; lia).
  assert (seen r = r) as Hseen by (unfold seen; rewrite Hst; by case_bool_decide).
  assert (make_request_inner send now parse_from_rfc2822 from_slice_error
    (mk_request "GET" p q hm_new (with_content "")) (status_const 200) w = Ok (inl r, w')) as Hreq.
  { apply (proj2 (make_request_inner_spec _ _ _ _ _ _ _ _ _)). exists r, id. split_and!; [done..|].
    unfold error_status_code. rewrite status_const_u16 by lia. lia. }
  unfold objects_list_page, object_get, get_ok, make_request_with_body, build_request, url, make_request_with_request.
  rewrite Hu. cbn [expect mbind rust_bind]. unfold mbind, testM_bind, checked. cbn [fmap rust_fmap].
  rewrite Hreq. cbn [mret testM_ret unwrap_result fmap rust_fmap].
  rewrite (proj2 (read_json_ok from_slice_page r page)); [done|]. by exists v, text.
Qed.

Lemma check_page_ok (page : ResultsPage ItemType) n (w : World) :
  length (rp_items page) ≤ n → (checked (check_page page n) ≫= λ _, mret page) w = Ok (page, w).
Proof. intros Hl. unfold check_page. by rewrite (proj2 (Nat.leb_le _ _) Hl). Qed.

(** The server scans [items] in pages of [limit]: the first ones without a token,
    and with the token of an item those that come after it.  Each page is made
    with [ResultsPage::new]. *)
Context (items : list ItemType) (params : ScanParams) (sel : ItemType → ScanParams → PageSelector) (limit : nat).

Record paginates (collection_url initial_params : string) : Prop := {
  pg_first : ∀ page, results_page_new to_vec (take limit items) params sel = Ok page →
    answers_page (first_page_url collection_url initial_params limit) page;
  pg_next : ∀ token pre x rest page, items = pre ++ x :: rest →
    deserialize_page_token from_slice token = Ok (sel x params) →
    results_page_new to_vec (take limit rest) params sel = Ok page →
    answers_page (next_page_url collection_url token limit) page;
  pg_tokens : ∀ x, x ∈ items → ∃ token, serialize_page_token to_vec (sel x params) = Ok token;
}.

Definition pages (n : nat) : nat := (n + limit - 1) / limit.

Lemma pages_step n : 0 < limit → 0 < n → pages n = S (pages (n - limit)).
Proof.
  intros Hl Hn. unfold pages. destruct (decide (n < limit)) as [Hlt|Hge].
  - replace (n - limit) with 0 by lia. rewrite (Nat.div_small (0 + limit - 1)) by lia.
    symmetry. apply (Nat.div_unique _ _ 1 (n - 1)); lia.
  - replace (n + limit - 1) with (1 * limit + (n - 1)) by lia. rewrite Nat.div_add_l by lia.
    replace (n - limit + limit - 1) with (n - 1) by lia. done.
Qed.

Hypothesis from_slice_to_vec : ∀ s json, to_vec (mk_token V1 s) = inl json → from_slice json = inl (mk_token V1 s).

Lemma page_of_ok url0 initial l : paginates url0 initial → (∀ x, x ∈ l → x ∈ items) →
  ∃ page, results_page_new to_vec (take limit l) params sel = Ok page ∧ rp_items page = take limit l.
Proof.
  intros Hp Hl. unfold results_page_new. destruct (last (take limit l)) as [x|] eqn:E; [|by eexists].
  destruct (pg_tokens _ _ Hp x) as [token Ht].
  { apply Hl. rewrite <-(take_drop limit l), elem_of_app. left. by apply last_Some_elem_of. }
  rewrite Ht. by eexists.
Qed.

Lemma iter_pages_ok url0 initial rest pre page n w fuel :
  paginates url0 initial → 0 < limit → items = pre ++ rest → length rest ≤ fuel →
  results_page_new to_vec (take limit rest) params sel = Ok page →
  ∃ w', iter_pages send now parse_from_rfc2822 path_and_query from_slice_error from_slice_page fuel url0 limit page
          (pre ++ take limit rest) n w = Some (Ok (items, n + pages (length rest), w')).
Proof.
  intros Hp Hlim. revert rest pre page n w.
  induction fuel as [|fuel IH]; intros rest pre page n w Hit Hf Hpage; unfold results_page_new in Hpage.
  { destruct rest; [|simpl in Hf; lia]. rewrite take_nil in Hpage. injection Hpage as <-. exists w. simpl.
    unfold pages. by rewrite Nat.div_small, Nat.add_0_r, take_nil, Hit by lia. }
  destruct (last (take limit rest)) as [x|] eqn:E.
  - apply rust_bind_ok in Hpage as (token & Htok & [= <-]). cbn [iter_pages rp_next_page].
    apply last_Some in E as [init Einit].
    assert (items = (pre ++ init) ++ x :: drop limit rest) as Hit'.
    { rewrite Hit, <-app_assoc. f_equal. rewrite <-(take_drop limit rest) at 1. rewrite Einit. by rewrite <-app_assoc. }
    assert (0 < length rest) as Hrest by (destruct rest; [rewrite take_nil in Einit; by destruct init|simpl; lia]).
    destruct (page_of_ok url0 initial (drop limit rest) Hp) as (page & Hpage & Hitems).
    { intros y Hy. rewrite Hit'. apply elem_of_app. right. by right. }
    destruct (objects_list_page_ok (next_page_url url0 token limit) page w) as [w1 Hw1].
    { apply (pg_next _ _ Hp token (pre ++ init) x (drop limit rest)); [done| |done].
      by apply (deserialize_serialize to_vec from_slice from_slice_to_vec). }
    rewrite (testM_bind_step _ _ w page w1) by done.
    rewrite check_page_ok by (rewrite Hitems, length_take; lia).
    destruct (IH (drop limit rest) (pre ++ take limit rest) page (n + 1) w1) as [w2 Hw2].
    + by rewrite <-app_assoc, take_drop.
    + rewrite length_drop. lia.
    + done.
    + exists w2. rewrite Hitems, Hw2. rewrite (pages_step (length rest)), length_drop by done.
      do 4 f_equal. lia.
  - injection Hpage as <-. apply last_None in E. destruct rest as [|y rest]; [|destruct limit; [lia|done]].
    exists w. cbn [iter_pages rp_next_page]. unfold pages. simpl. by rewrite Nat.div_small, Nat.add_0_r, take_nil, Hit by lia.
Qed.

(** C32: [iter_collection] reads a collection that the server pages through with
    [ResultsPage::new] completely: every item once, in the order of the scan, in
    as many requests as there are full or partial pages and one more.  It ends,
    since each page but the last has an item; the loop's fuel is the number of
    items. *)
Theorem iter_collection_spec collection_url initial_params w fuel :
  paginates collection_url initial_params → 0 < limit → length items ≤ fuel →
  ∃ w', iter_collection send now parse_from_rfc2822 path_and_query from_slice_error from_slice_page fuel
          collection_url initial_params limit w = Some (Ok (items, 1 + pages (length items), w')).
Proof.
  intros Hp Hl Hf. destruct (page_of_ok collection_url initial_params items Hp) as (page & Hpage & Hitems); [done|].
  destruct (objects_list_page_ok (first_page_url collection_url initial_params limit) page w) as [w1 Hw1];
    [by apply (pg_first _ _ Hp)|].
  unfold iter_collection. rewrite (testM_bind_step _ _ w page w1) by done.
  rewrite check_page_ok by (rewrite Hitems, length_take; lia). rewrite Hitems. by apply (iter_pages_ok collection_url initial_params items []).
Qed.
End scan.
