(* ===== verification/Logging.v ===== *)
(** * Loggers and logs

    [ConfigLogging] of [dropshot/src/logging.rs] and what [dropshot/src/test_util.rs]
    has for logs: the file of a test's log, and the checks on Bunyan records.

    The file system is a map from the paths of files to their contents, with
    [OpenOptions] as the Rust documentation describes them; directories and
    the errors of the system other than files that exist or do not are a
    parameter.  What a logger writes is [slog]'s. *)
From S2P Require Import Prelude TestClient.

Inductive ConfigLoggingLevel := LTrace | LDebug | LInfo | LWarn | LError | LCritical.
Inductive Level := Trace | Debug | Info | Warning | Error | Critical.

Definition level_from (config_level : ConfigLoggingLevel) : Level :=
  match config_level with
  | LTrace => Trace | LDebug => Debug | LInfo => Info | LWarn => Warning | LError => Error | LCritical => Critical
  end.

Inductive ConfigLoggingIfExists := IfFail | IfTruncate | IfAppend.

Inductive ConfigLogging :=
| StderrTerminal (level : ConfigLoggingLevel)
| LogFile (level : ConfigLoggingLevel) (path : string) (if_exists : ConfigLoggingIfExists).

(** ** Files *)

Record OpenOptions := mk_open_options {
  oo_write : bool;
  oo_append : bool;
  oo_truncate : bool;
  oo_create : bool;
  oo_create_new : bool;
}.

Inductive IoError := AlreadyExists | NotFound | InvalidInput | OtherIo (text : string).

Definition fs : Type := gmap string string.

(** [OpenOptions::open]: the options that make no sense together are refused;
    [create_new] needs a file that does not exist, and goes before the others. *)
Definition open (o : OpenOptions) (path : string) (files : fs) : IoError + fs :=
  let writes := oo_write o || oo_append o in
  if negb writes && (oo_truncate o || oo_create o || oo_create_new o) then inl InvalidInput
  else if oo_append o && oo_truncate o && negb (oo_create_new o) then inl InvalidInput
  else match files !! path with
       | Some contents =>
           if oo_create_new o then inl AlreadyExists
           else inr (if oo_truncate o then <[path := ""]> files else files)
       | None => if oo_create o || oo_create_new o then inr (<[path := ""]> files) else inl NotFound
       end.

Section logging.
(** [create_dir_all] of the path's parent, if it has one, and the other errors of
    opening a file. *)
Variable system_error : string → option IoError.

(** What the drain of a logger is: its level filter, and where records go. *)
Inductive Drain :=
| TermDrain
| BunyanDrain (log_name path : string).
Record Logger := mk_logger { lg_level : Level; lg_drain : Drain }.

Definition async_root_logger (level : ConfigLoggingLevel) (drain : Drain) : Logger :=
  mk_logger (level_from level) drain.

Definition log_drain_for_file (open_options : OpenOptions) (path log_name : string) (files : fs) : rust IoError (Drain * fs) :=
  match system_error path with
  | Some e => Err e
  | None => match open open_options path files with
            | inl e => Err e
            | inr files => Ok (BunyanDrain log_name path, files)
            end
  end.

Definition open_options_for (if_exists : ConfigLoggingIfExists) : OpenOptions :=
  match if_exists with
  | IfFail => mk_open_options true false false true true
  | IfAppend => mk_open_options true true false true false
  | IfTruncate => mk_open_options true false true true false
  end.

(** The note on stderr is left out: it does not change the result. *)
Definition to_logger (self : ConfigLogging) (log_name : string) (files : fs) : rust IoError (Logger * fs) :=
  match self with
  | StderrTerminal level => Ok (async_root_logger level TermDrain, files)
  | LogFile level path if_exists =>
      '(drain, files) ← log_drain_for_file (open_options_for if_exists) path log_name files;
      Ok (async_root_logger level drain, files)
  end.

(** A logger to a file changes that file alone: it is there afterwards, with what
    it had if records are appended.  Where the file exists and must not, there
    is an error, and nothing changes. *)
Lemma to_logger_file level path if_exists name files :
  system_error path = None →
  to_logger (LogFile level path if_exists) name files =
  match if_exists, files !! path with
  | IfFail, Some _ => Err AlreadyExists
  | IfAppend, Some _ => Ok (mk_logger (level_from level) (BunyanDrain name path), files)
  | _, _ => Ok (mk_logger (level_from level) (BunyanDrain name path), <[path := ""]> files)
  end.
Proof.
  intros Hs. unfold to_logger, log_drain_for_file, open. rewrite Hs.
  destruct if_exists, (files !! path); done.
Qed.

(** ** Logs of tests *)

Section test_logs.
(** The file name of the program, the temporary directory and the process. *)
Context (arg0 temp_dir : string) (pid : N).

(** [TEST_SUITE_LOGGER_ID], a counter that wraps around, is passed along. *)
Definition log_prefix_for_test (test_name : string) (counter : N) : string * string * N :=
  (temp_dir, arg0 +:+ "-" +:+ test_name +:+ "." +:+ show_N pid +:+ "." +:+ show_N counter, ((counter + 1) mod 2 ^ 32)%N).

Definition log_file_for_test (test_name : string) (counter : N) : string * N :=
  let '(dir, prefix, counter) := log_prefix_for_test test_name counter in
  (dir +:+ "/" +:+ prefix +:+ ".log", counter).

Record LogContext := mk_log_context { lc_log : Logger; lc_test_name : string; lc_log_path : option string }.

Definition log_context_new (test_name : string) (initial : ConfigLogging) (counter : N) (files : fs) :
    panics (LogContext * N * fs) :=
  '(log_path, log_config, counter) ← match initial with
    | LogFile level dummy_path if_exists =>
        _ ← assert_that (String.eqb dummy_path "UNUSED")
              "for test suite logging configuration, when mode = 'file' is used, the path MUST be the sentinel string 'UNUSED'";
        let '(new_path, counter) := log_file_for_test test_name counter in
        Ok (Some new_path, LogFile level new_path if_exists, counter)
    | other_config => Ok (None, other_config, counter)
    end;
  match to_logger log_config test_name files with
  | Ok (log, files) => Ok (mk_log_context log test_name log_path, counter, files)
  | Err _ => Panic unwrap_err_value
  | Panic msg => Panic msg
  end.

Definition cleanup_successful (self : LogContext) (files : fs) : panics fs :=
  match lc_log_path self with
  | Some log_path =>
      match files !! log_path with
      | Some _ => Ok (delete log_path files)
      | None => Panic unwrap_err_value
      end
  | None => Ok files
  end.
Lemma split_on_middle c s t : split_on c (s +:+ char_str c +:+ t) = split_on c s ++ split_on c t.
Proof.
  unfold split_on. induction s as [|a s IH]; simpl.
  - by rewrite Ascii.eqb_refl.
  - destruct (Ascii.eqb c a); [by rewrite IH|]. rewrite IH.
    by destruct (split_pred_cons (Ascii.eqb c) s) as (x & xs & ->).
Qed.

Lemma parse_N_no_char c s n acc : digit c = None → parse_N_from acc s = Some n → has_char c s = false.
Proof.
  intros Hc. revert acc. induction s as [|a s IH]; intros acc; simpl; [done|].
  destruct (digit a) as [d|] eqn:Ed; [|done]. intros Hp. apply IH in Hp. rewrite Hp.
  destruct (Ascii.eqb_spec c a) as [->|]; [congruence|done].
Qed.

Lemma show_N_no_dot n : has_char "."%char (show_N n) = false.
Proof.
  pose proof (parse_N_show n) as Hp. unfold parse_N in Hp. destruct (is_empty_str _); [done|].
  by apply (parse_N_no_char _ _ n 0).
Qed.

(** Tests of a process have different log files as long as the counter does not
    wrap around. *)
Lemma log_files_distinct test1 test2 i j :
  i ≠ j → (log_file_for_test test1 i).1 ≠ (log_file_for_test test2 j).1.
Proof.
  intros Hij E. apply Hij.
  assert (∀ test n, ∃ l, split_on "."%char (log_file_for_test test n).1 = l ++ [show_N n; "log"]) as Hs.
  { intros test n. exists (split_on "."%char (temp_dir +:+ "/" +:+ arg0 +:+ "-" +:+ test +:+ "." +:+ show_N pid)).
    replace (log_file_for_test test n).1
      with ((temp_dir +:+ "/" +:+ arg0 +:+ "-" +:+ test +:+ "." +:+ show_N pid) +:+ char_str "."%char +:+
            show_N n +:+ char_str "."%char +:+ "log").
    - rewrite split_on_middle, split_on_app by apply show_N_no_dot. by rewrite (split_on_no_char _ "log").
    - cbn [log_file_for_test log_prefix_for_test fst]. unfold char_str. by rewrite <-!string_app_assoc. }
  destruct (Hs test1 i) as [l1 E1], (Hs test2 j) as [l2 E2]. rewrite E, E2 in E1.
  change [show_N i; "log"] with ([show_N i] ++ ["log"]) in E1. change [show_N j; "log"] with ([show_N j] ++ ["log"]) in E1.
  rewrite !app_assoc in E1. apply app_inj_tail in E1 as [E1 _]. apply app_inj_tail in E1 as [_ E1].
  apply (f_equal parse_N) in E1. rewrite !parse_N_show in E1. congruence.
Qed.
End test_logs.
End logging.

(** ** Bunyan records *)

(** [time] in seconds. *)
Record BunyanLogRecord := mk_record {
  br_time : Z;
  br_name : string;
  br_hostname : string;
  br_pid : N;
  br_msg : string;
  br_v : N;
}.

Definition read_bunyan_log (from_str : string → option BunyanLogRecord) (logpath : string) (files : fs) :
    panics (list BunyanLogRecord) :=
  log_contents ← expect (files !! logpath) unwrap_err_value;
  mapM (λ line, expect (from_str line) unwrap_err_value)
    (List.filter (λ line, negb (is_empty_str line)) (split_on (Ascii.ascii_of_nat 10) log_contents)).

Record BunyanLogRecordSpec := mk_record_spec {
  rs_name : option string;
  rs_hostname : option string;
  rs_pid : option N;
  rs_v : option N;
}.

Definition check_opt {A} (eqb : A → A → bool) (expected : option A) (a : A) : panics () :=
  match expected with Some e => assert_that (eqb e a) assert_failed | None => Ok () end.

Definition verify_bunyan_records (records : list BunyanLogRecord) (expected : BunyanLogRecordSpec) : panics () :=
  for_each (λ record,
    _ ← check_opt String.eqb (rs_name expected) (br_name record);
    _ ← check_opt String.eqb (rs_hostname expected) (br_hostname record);
    _ ← check_opt N.eqb (rs_pid expected) (br_pid record);
    check_opt N.eqb (rs_v expected) (br_v record)) records.

Definition not_before (a b : Z) : panics () := assert_that (a <=? b)%Z "assertion failed: should_be_before.timestamp()".

(** The loop, with [maybe_should_be_before]. *)
Fixpoint sequential_from (before : option Z) (records : list BunyanLogRecord) : panics (option Z) :=
  match records with
  | [] => Ok before
  | record :: records =>
      _ ← match before with Some b => not_before b (br_time record) | None => Ok () end;
      sequential_from (Some (br_time record)) records
  end.

Definition verify_bunyan_records_sequential (records : list BunyanLogRecord) (time_before time_after : option Z) :
    panics () :=
  before ← sequential_from time_before records;
  match before, time_after with
  | Some b, Some a => not_before b a
  | _, _ => Ok ()
  end.

(** The checks pass exactly if the times are in order, those before and after
    the records included. *)
Lemma verify_sequential_spec records time_before time_after :
  verify_bunyan_records_sequential records time_before time_after = Ok () ↔
  Sorted Z.le (option_list time_before ++ (br_time <$> records) ++ option_list time_after).
Proof.
  unfold verify_bunyan_records_sequential, not_before.
  revert time_before. induction records as [|r records IH]; intros before; cbn [sequential_from fmap list_fmap].
  - cbn [mbind rust_bind app]. destruct before as [b|], time_after as [a|]; simpl; try by repeat constructor.
    rewrite assert_that_ok, Z.leb_le. split; [by repeat constructor|].
    intros Hs. apply Sorted_inv in Hs as [_ Hs]. by inversion Hs.
  - destruct before as [b|]; [|exact (IH (Some (br_time r)))]. specialize (IH (Some (br_time r))). cbn [option_list app] in IH |- *.
    split.
    + intros (t & ([] & Hb%assert_that_ok%Z.leb_le & Ht)%rust_bind_ok & Ha)%rust_bind_ok.
      constructor; [|by constructor]. apply IH. apply rust_bind_ok. by exists t.
    + intros [Hs Hb]%Sorted_inv. inversion Hb as [|? ? Hle]; subst. apply IH, rust_bind_ok in Hs as (t & Ht & Ha).
      apply rust_bind_ok. exists t. split; [|done]. apply rust_bind_ok. exists (). split; [|done].
      by apply assert_that_ok, Z.leb_le.
Qed.
