(* ===== verification/TestServer.v ===== *)
(** * A server and a client for tests

    [TestContext] of [dropshot/src/test_util.rs] and [HttpServer::close] of
    [dropshot/src/server.rs]: a program's test starts a server ([ServerStart]) and
    a client of it ([TestClient]), and in the end closes the server and removes
    its log ([Logging]).

    How the server's tasks end is [tasks_end]; the files are those of [Logging]. *)
From S2P Require Import Prelude BTree Externals Versions StatusCodes Body HttpError Config Schema TypeUtil ApiEndpoint.
From S2P Require Import Router RouterLookup Versioning Handler ApiDescription Server Tls Acceptor ServerStart TestClient Logging.

(** [Result::expect], with the error by its text. *)
Definition expect_ok {A} (msg : string) (r : rust string A) : panics A :=
  match r with Ok a => Ok a | Err e => Panic (msg +:+ ": " +:+ e) | Panic m => Panic m end.

Section test_server.
Context `{Crates} `{!HttpBuilder} `{!Float32} `{!TlsCrate} `{!TcpNet} {C TcpStream TlsStream : Type}.
(** [SocketAddr::port], and the result of registering probes. *)
Context (port : SocketAddr → Z) (register_probes : option (() + string)).

Local Abbreviation server := (HttpServer (C := C) (TcpStream := TcpStream) (TlsStream := TlsStream)).

(** [HttpServer::close]: what is sent to the accepting task, and the result. *)
Definition server_close (tasks_end : () + string) (self : server) : rust string (list ()) :=
  '(sent, _) ← lift_panics (http_server_close (srv_closer self));
  _ ← join_future tasks_end;
  Ok sent.

(** The address of a [ClientTestContext]. *)
Record ClientTestContext := client_test_context_new { ct_bind_address : SocketAddr }.

Record TestContext := mk_test_context {
  tx_client : ClientTestContext;
  tx_server : server;
  tx_log_context : option LogContext;
}.

Definition test_context_new (api : ApiDescription) (private : C) (config_dropshot : ConfigDropshot SocketAddr)
    (log_context : option LogContext) : panics TestContext :=
  _ ← assert_that (0 =? port (bind_address config_dropshot))%Z
        "test suite only supports binding on port 0 (any available port)";
  builder ← server_builder_new api private;
  match builder_start register_probes (builder_config builder config_dropshot) with
  | Ok server => Ok (mk_test_context (client_test_context_new (srv_local_addr server)) server log_context)
  | Err _ => Panic unwrap_err_value
  | Panic msg => Panic msg
  end.

Definition teardown (tasks_end : () + string) (self : TestContext) (files : fs) : panics fs :=
  _ ← expect_ok "server stopped with an error" (server_close tasks_end (tx_server self));
  match tx_log_context self with
  | Some log_context => cleanup_successful log_context files
  | None => Ok files
  end.

(** ** Properties *)

(** Removing the one file that was new and changed. *)
Lemma delete_restores (p : string) (written files' files : gmap string string) :
  files !! p = None → delete p files' = delete p files → (∀ q, q ≠ p → written !! q = files' !! q) →
  delete p written = files.
Proof.
  intros Hn Hd Hw. rewrite <-(delete_id files p Hn), <-Hd. apply map_eq. intros q.
  destruct (decide (q = p)) as [->|Hne]; [by rewrite !lookup_delete_eq|].
  rewrite !lookup_delete_ne by done. by apply Hw.
Qed.

(** A context's client talks to its server, which is one without TLS and versions
    for the API; each of its requests has at most one candidate. *)
Lemma test_context_new_spec fuel eps api private config log_context ctx :
  register_all fuel description_new eps = Some (Ok api) →
  test_context_new api private config log_context = Ok ctx →
  port (bind_address config) = 0%Z ∧
  (∃ tcp, listen (bind_address config) = Ok (tcp, ct_bind_address (tx_client ctx))) ∧
  srv_local_addr (tx_server ctx) = ct_bind_address (tx_client ctx) ∧
  srv_app_state (tx_server ctx) = mk_state private (server_config config) (router api) Unversioned ∧
  using_tls (tx_server ctx) = false ∧ tx_log_context ctx = log_context ∧
  ∀ q m a a', a ∈ candidates eps q m None → a' ∈ candidates eps q m None → a = a'.
Proof.
  intros Hreg ([] & Hp%assert_that_ok%Z.eqb_eq & Hc)%rust_bind_ok.
  apply rust_bind_ok in Hc as (b & (dflt & _ & [= <-])%rust_bind_ok & Hc).
  unfold builder_start in Hc. destruct (build_starter _) as [s| |] eqn:Es; [|done..].
  pose proof (unversioned_server_spec fuel eps (builder_config (mk_server_builder private api dflt Unversioned None) config) s Hreg eq_refl Es) as [_ Hu].
  unfold build_starter, new_internal in Es. simpl in Es.
  apply rust_bind_ok in Es as ([tcp addr] & Hl & Es). simpl in Es.
  destruct (has_versioned_routes _); [done|]. simpl in Es. injection Es as <-.
  injection Hc as <-. simpl. split_and!; [lia|by exists tcp|done..|exact Hu].
Qed.

(** Tearing a context down succeeds exactly if the server's task is there to be
    told and ends well, and the file of the log, if it has one, exists; this file
    is removed, and no other. *)
Lemma teardown_spec tasks_end ctx files files' :
  teardown tasks_end ctx files = Ok files' ↔
  close_channel (srv_closer (tx_server ctx)) = Some true ∧ tasks_end = inl () ∧
  match tx_log_context ctx ≫= lc_log_path with
  | Some path => is_Some (files !! path) ∧ files' = delete path files
  | None => files' = files
  end.
Proof.
  unfold teardown, server_close, http_server_close.
  destruct (close_channel _) as [[]|]; simpl; [|naive_solver..].
  destruct tasks_end as [[]|e]; simpl; [|naive_solver].
  destruct (tx_log_context ctx) as [l|]; simpl; [|naive_solver]. unfold cleanup_successful.
  destruct (lc_log_path l) as [p|]; [|naive_solver]. destruct (files !! p) eqn:E; [naive_solver|].
  split; [done|]. intros (_ & _ & [? [=]] & _).
Qed.

Section test_run.
Context (system_error : string → option IoError) (arg0 temp_dir : string) (pid : N).

Lemma log_context_new_path test_name initial counter files l counter' files' :
  log_context_new system_error arg0 temp_dir pid test_name initial counter files = Ok (l, counter', files') →
  lc_log_path l = match initial with
                  | LogFile _ _ _ => Some (log_file_for_test arg0 temp_dir pid test_name counter).1
                  | StderrTerminal _ => None
                  end ∧
  match lc_log_path l with
  | Some path => is_Some (files' !! path) ∧ delete path files' = delete path files
  | None => files' = files
  end.
Proof.
  destruct initial as [level|level dummy if_exists]; [by intros [= <- <- <-]|].
  intros ([[path cfg] n] & ([] & _ & [= <- <- <-])%rust_bind_ok & E)%rust_bind_ok. simpl in E.
  set (path := temp_dir +:+ _) in *. unfold log_drain_for_file, open in E. fold path in E.
  destruct (system_error path); [done|].
  destruct if_exists, (files !! path) eqn:Ef; simpl in E; try done; injection E as <- <- <-; simpl; (split; [done|]);
    (split; [|first [done|apply (delete_insert_eq (M := gmap string))]]); first [by eexists|exists ""; apply (lookup_insert_eq (M := gmap string))].
Qed.

(** A test leaves no trace: whatever the program writes to the log, if the files
    of earlier tests are gone then tearing the context down leaves the files as they
    were before the log was made. *)
Lemma test_leaves_no_files test_name initial counter files l counter' files' ctx written torn_down :
  log_context_new system_error arg0 temp_dir pid test_name initial counter files = Ok (l, counter', files') →
  files !! (log_file_for_test arg0 temp_dir pid test_name counter).1 = None →
  tx_log_context ctx = Some l →
  (∀ path, Some path ≠ lc_log_path l → written !! path = files' !! path) →
  teardown (inl ()) ctx written = Ok torn_down → torn_down = files.
Proof.
  intros [Hp Hf]%log_context_new_path Hfresh Hl Hw Ht. apply teardown_spec in Ht as (_ & _ & Ht). rewrite Hl in Ht. simpl in Ht.
  destruct (lc_log_path l) as [p|] eqn:Elp.
  - destruct Ht as [_ ->], Hf as [_ Hf]. destruct initial; [done|].
    apply (delete_restores p written files' files); [|done|]; [rewrite <-Hfresh; f_equal; congruence|]. intros q Hq. apply Hw. by intros [= <-].
  - subst. apply (map_eq (M := gmap string)). intros q. by apply Hw.
Qed.
End test_run.
End test_server.
