(* ===== verification/ErrorStore.v ===== *)
(** * Errors of the procedural macros

    [dropshot_endpoint/src/error_store.rs]: a store of errors with a tree of
    sinks, each of which knows whether an error was pushed to it or below it.

    A sink is its id; the store, shared through a [RefCell], is threaded through
    the computations on its sinks ([sinkM]).  The loop that goes up the tree has
    as much fuel as there are sinks; [None] stands for no answer, which does not
    happen as parents are registered before their children. *)
From S2P Require Import Prelude.

Record ErrorSinkData := mk_sink { esd_parent : option nat; esd_has_errors : bool }.

Definition sink_data_new (parent : option nat) : ErrorSinkData := mk_sink parent false.

Record ErrorStoreData (T : Type) := mk_store { esd_errors : list T; esd_sinks : list ErrorSinkData }.
Arguments mk_store {T} _ _.
Arguments esd_errors {T} _.
Arguments esd_sinks {T} _.

Section store.
Context {T : Type}.
Implicit Types (s : ErrorStoreData T) (e : T).

Definition store_new : ErrorStoreData T := mk_store [] [].

Definition out_of_bounds {A} : panics A := Panic "index out of bounds".

(** Sets [has_errors] of a sink. *)
Definition mark (id : nat) (sinks : list ErrorSinkData) : panics (list ErrorSinkData) :=
  match sinks !! id with
  | Some d => Ok (<[id := mk_sink (esd_parent d) true]> sinks)
  | None => out_of_bounds
  end.

Fixpoint propagate (fuel : nat) (curr : nat) (sinks : list ErrorSinkData) : option (panics (list ErrorSinkData)) :=
  match fuel with
  | 0 => None
  | S fuel =>
      match sinks !! curr with
      | None => Some out_of_bounds
      | Some d =>
          match esd_parent d with
          | None => Some (Ok sinks)
          | Some parent =>
              match mark parent sinks with
              | Ok sinks => propagate fuel parent sinks
              | r => Some r
              end
          end
      end
  end.

(** [ErrorStoreData::push]. *)
Definition push (id : nat) e s : option (panics (ErrorStoreData T)) :=
  match mark id (esd_sinks s) with
  | Ok sinks => (λ r, sinks ← r; Ok (mk_store (esd_errors s ++ [e]) sinks)) <$> propagate (length sinks) id sinks
  | Err x => Some (Err x)
  | Panic msg => Some (Panic msg)
  end.

Definition register_sink (parent : option nat) s : nat * ErrorStoreData T :=
  (length (esd_sinks s), mk_store (esd_errors s) (esd_sinks s ++ [sink_data_new parent])).

(** [ErrorStore::sink] and [into_inner]; [ErrorSink::new] and [has_errors]. *)
Definition store_sink s : nat * ErrorStoreData T := register_sink None s.
Definition into_inner s : list T := esd_errors s.
Definition sink_new (id : nat) s : nat * ErrorStoreData T := register_sink (Some id) s.
Definition has_errors (id : nat) s : panics bool :=
  match esd_sinks s !! id with Some d => Ok (esd_has_errors d) | None => out_of_bounds end.

(** ** Computations that report errors *)

Definition sinkM (A : Type) : Type := ErrorStoreData T → option (panics (A * ErrorStoreData T)).

#[export] Instance sink_ret : MRet sinkM := λ A a s, Some (Ok (a, s)).
#[export] Instance sink_bind : MBind sinkM := λ A B k m s,
  match m s with
  | Some (Ok (a, s)) => k a s
  | Some (Err x) => Some (Err x)
  | Some (Panic msg) => Some (Panic msg)
  | None => None
  end.

Definition sink_push (id : nat) e : sinkM () := λ s, (λ r, s ← r; Ok ((), s)) <$> push id e s.
Definition sink_child (id : nat) : sinkM nat := λ s, Some (Ok (sink_new id s)).
Definition sink_has_errors (id : nat) : sinkM bool := λ s, Some (b ← has_errors id s; Ok (b, s)).
Definition sink_panic {A} (msg : string) : sinkM A := λ _, Some (Panic msg).

Lemma sink_bind_inv {A B} (m : sinkM A) (k : A → sinkM B) s b s' :
  (m ≫= k) s = Some (Ok (b, s')) → ∃ a s1, m s = Some (Ok (a, s1)) ∧ k a s1 = Some (Ok (b, s')).
Proof. unfold mbind, sink_bind. destruct (m s) as [[[a s1]|e|msg]|]; naive_solver. Qed.

(** [if c { errors.push(e); }]. *)
Definition push_when (c : bool) (id : nat) e : sinkM () := if c then sink_push id e else mret ().

(** ** The tree of sinks *)

Definition parents s : list (option nat) := esd_parent <$> esd_sinks s.

(** The sink [p] is the parent of [c]. *)
Definition parent_of (ps : list (option nat)) (c p : nat) : Prop := ps !! c = Some (Some p).

(** The sink [i] is [id] or above it. *)
Definition above (ps : list (option nat)) (id i : nat) : Prop := rtc (parent_of ps) id i.

(** Parents come before their children. *)
Definition tree_wf (ps : list (option nat)) : Prop := ∀ c p, parent_of ps c p → p < c.

Definition errors_at (sinks : list ErrorSinkData) (i : nat) : Prop :=
  ∃ d, sinks !! i = Some d ∧ esd_has_errors d = true.

Lemma mark_ok id sinks :
  id < length sinks →
  ∃ sinks', mark id sinks = Ok sinks' ∧ esd_parent <$> sinks' = esd_parent <$> sinks ∧
    ∀ i, errors_at sinks' i ↔ errors_at sinks i ∨ i = id.
Proof.
  intros [d Hd]%lookup_lt_is_Some. unfold mark, errors_at. rewrite Hd. eexists. split; [done|]. split.
  - rewrite list_fmap_insert. apply list_insert_id. by rewrite list_lookup_fmap, Hd.
  - intros i. destruct (decide (i = id)) as [->|Hi].
    + rewrite list_lookup_insert_eq by (by eapply lookup_lt_Some). naive_solver.
    + rewrite list_lookup_insert_ne by done. naive_solver.
Qed.

Lemma propagate_ok fuel curr sinks :
  tree_wf (esd_parent <$> sinks) → curr < fuel → curr < length sinks →
  ∃ sinks', propagate fuel curr sinks = Some (Ok sinks') ∧ esd_parent <$> sinks' = esd_parent <$> sinks ∧
    ∀ i, errors_at sinks' i ↔ errors_at sinks i ∨ tc (parent_of (esd_parent <$> sinks)) curr i.
Proof.
  revert curr sinks. induction fuel as [|fuel IH]; intros curr sinks Hwf Hf Hl; [lia|]. simpl.
  destruct (lookup_lt_is_Some_2 sinks curr Hl) as [d Hd]. rewrite Hd.
  assert ((esd_parent <$> sinks) !! curr = Some (esd_parent d)) as Hp by (by rewrite list_lookup_fmap, Hd).
  destruct (esd_parent d) as [p|].
  - specialize (Hwf curr p Hp) as Hlt. destruct (mark_ok p sinks) as (sinks1 & -> & Hs1 & He1); [lia|].
    assert (length sinks1 = length sinks) as Hlen by (by rewrite <-(length_fmap esd_parent), Hs1, length_fmap).
    destruct (IH p sinks1) as (sinks' & -> & Hs' & He'); [by rewrite Hs1|lia|lia|].
    exists sinks'. split; [done|]. split; [by rewrite Hs'|]. intros i. rewrite He', He1, Hs1. split.
    + intros [[?| ->]|Htc]; [by left|right; by apply tc_once|right; by eapply tc_l].
    + intros [?|Htc]; [by left; left|]. inversion Htc as [? ? Hpi|? y ? Hpy Hyi]; subst;
        unfold parent_of in *; simplify_eq; [by left; right|by right].
  - exists sinks. split; [done|]. split; [done|]. intros i. split; [by left|]. intros [?|Htc]; [done|].
    inversion Htc as [? ? Hpi|? y ? Hpy Hyi]; subst; unfold parent_of in *; congruence.
Qed.

Lemma push_ok id e s :
  tree_wf (parents s) → id < length (esd_sinks s) →
  ∃ s', push id e s = Some (Ok s') ∧ esd_errors s' = esd_errors s ++ [e] ∧ parents s' = parents s ∧
    ∀ i, errors_at (esd_sinks s') i ↔ errors_at (esd_sinks s) i ∨ above (parents s) id i.
Proof.
  intros Hwf Hl. unfold push, parents. destruct (mark_ok id (esd_sinks s) Hl) as (sinks1 & -> & Hs1 & He1).
  assert (length sinks1 = length (esd_sinks s)) as Hlen by (by rewrite <-(length_fmap esd_parent), Hs1, length_fmap).
  destruct (propagate_ok (length sinks1) id sinks1) as (sinks' & -> & Hs' & He'); [by rewrite Hs1|lia..|].
  eexists. split; [done|]. simpl. split; [done|]. split; [by rewrite Hs'|]. intros i. unfold above.
  rewrite He', He1, Hs1. split.
  - intros [[?| ->]|Htc]; [by left|right; apply rtc_refl|right; by apply tc_rtc].
  - intros [?|Hrtc]; [by left; left|]. apply rtc_tc in Hrtc as [->|?]; [by left; right|by right].
Qed.

Lemma has_errors_true id s : has_errors id s = Ok true ↔ errors_at (esd_sinks s) id.
Proof.
  unfold has_errors, errors_at. destruct (esd_sinks s !! id) as [d|]; split.
  - intros [= Hd]. by exists d.
  - intros (d' & [= <-] & Hd). by rewrite Hd.
  - done.
  - by intros (d & ? & _).
Qed.

Lemma has_errors_false id s :
  has_errors id s = Ok false ↔ id < length (esd_sinks s) ∧ ¬ errors_at (esd_sinks s) id.
Proof.
  unfold has_errors, errors_at. destruct (esd_sinks s !! id) as [d|] eqn:E; split.
  - intros [= Hd]. split; [by apply lookup_lt_Some in E|]. intros (d' & [= <-] & Hd'). congruence.
  - intros [_ Hn]. destruct (esd_has_errors d) eqn:Ed; [|done]. destruct Hn. by exists d.
  - done.
  - apply lookup_ge_None in E. intros [? _]. lia.
Qed.

Lemma has_errors_dec id s b :
  id < length (esd_sinks s) → (errors_at (esd_sinks s) id ↔ b = true) → has_errors id s = Ok b.
Proof.
  intros Hl Hb. destruct b; [by apply has_errors_true, Hb|]. apply has_errors_false. split; [done|].
  intros H%Hb. done.
Qed.

Lemma parents_length s : length (parents s) = length (esd_sinks s).
Proof. apply length_fmap. Qed.
End store.

(** ** The life of a store

    The operations name a sink by its place in the order in which the sinks were
    made: a program refers to a sink by the handle that [sink] or [new] gave it,
    and [hs] are the handles it was given so far. *)

Section life.
Context {T : Type}.
Implicit Types (s : ErrorStoreData T) (e : T) (hs : list nat).

Inductive store_op :=
| OpSink
| OpNew (k : nat)
| OpPush (k : nat) (e : T).

Definition run_op (op : store_op) hs s : option (panics (list nat * ErrorStoreData T)) :=
  match op with
  | OpSink => let '(id, s) := store_sink s in Some (Ok (hs ++ [id], s))
  | OpNew k => id ← hs !! k; let '(id', s) := sink_new id s in Some (Ok (hs ++ [id'], s))
  | OpPush k e => id ← hs !! k; (λ r, s ← r; Ok (hs, s)) <$> push id e s
  end.

Fixpoint run_ops (ops : list store_op) hs s : option (panics (list nat * ErrorStoreData T)) :=
  match ops with
  | [] => Some (Ok (hs, s))
  | op :: ops => match run_op op hs s with Some (Ok (hs, s)) => run_ops ops hs s | r => r end
  end.

(** Operations on sinks that were made before, of which there are [n]. *)
Fixpoint ops_valid (n : nat) (ops : list store_op) : Prop :=
  match ops with
  | [] => True
  | OpSink :: ops => ops_valid (S n) ops
  | OpNew k :: ops => k < n ∧ ops_valid (S n) ops
  | OpPush k _ :: ops => k < n ∧ ops_valid n ops
  end.

(** What the operations ask for: the errors pushed, and for each sink made the
    sink it is a child of. *)
Definition pushed (ops : list store_op) : list T :=
  omap (λ op, match op with OpPush _ e => Some e | _ => None end) ops.

Definition declared (ops : list store_op) : list (option nat) :=
  omap (λ op, match op with OpSink => Some None | OpNew k => Some (Some k) | OpPush _ _ => None end) ops.

Definition pushed_at (ops : list store_op) (k : nat) : Prop := ∃ e, OpPush k e ∈ ops.

(** Where sinks are added, those that are there stay below the same ones. *)
Lemma above_app ps qs id i : tree_wf (ps ++ qs) → id < length ps → above (ps ++ qs) id i ↔ above ps id i.
Proof.
  intros Hwf Hid. unfold above. split; intros H; revert Hid; induction H as [|x y z Hxy Hyz IH]; intros Hx; try apply rtc_refl.
  - pose proof (Hwf x y Hxy). unfold parent_of in Hxy. rewrite lookup_app_l in Hxy by exact Hx.
    eapply rtc_l; [exact Hxy|apply IH; lia].
  - assert (parent_of (ps ++ qs) x y) as Hxy' by (unfold parent_of in *; rewrite lookup_app_l; [exact Hxy|exact Hx]).
    pose proof (Hwf x y Hxy'). eapply rtc_l; [exact Hxy'|apply IH; lia].
Qed.

Lemma tree_wf_snoc ps (o : option nat) :
  tree_wf ps → (∀ p, o = Some p → p < length ps) → tree_wf (ps ++ [o]).
Proof.
  intros Hwf Ho c p. unfold parent_of. intros H. apply lookup_snoc_Some in H as [[_ Hc]|[Hc Ho']]; [by apply Hwf|].
  subst c. by apply Ho.
Qed.

(** What a run has established: [visited] are the operations so far. *)
Record store_inv (visited : list store_op) hs s : Prop := {
  si_wf : tree_wf (parents s);
  si_declared : parents s = declared visited;
  si_handles : hs = seq 0 (length (esd_sinks s));
  si_errors : esd_errors s = pushed visited;
  si_bound : ∀ id, pushed_at visited id → id < length (esd_sinks s);
  si_has : ∀ i, errors_at (esd_sinks s) i ↔ ∃ id, pushed_at visited id ∧ above (parents s) id i;
}.

Lemma pushed_at_snoc visited op id :
  pushed_at (visited ++ [op]) id ↔ pushed_at visited id ∨ ∃ e, op = OpPush id e.
Proof.
  unfold pushed_at. setoid_rewrite elem_of_app. setoid_rewrite list_elem_of_singleton. naive_solver.
Qed.

Lemma store_inv_new : store_inv [] [] store_new.
Proof.
  constructor; [by intros c p [=]|done..|intros id [e He]; by inversion He|]. intros i. split.
  - intros (d & [=] & _).
  - intros (id & [e He] & _). by inversion He.
Qed.

(** A handle of the run is the number of the sink. *)
Lemma handle_lookup visited hs s k : store_inv visited hs s → k < length (esd_sinks s) → hs !! k = Some k.
Proof. intros H Hk. rewrite (si_handles _ _ _ H). by rewrite lookup_seq_lt. Qed.

Lemma register_inv visited op parent hs s :
  declared [op] = [parent] → (∀ p, parent = Some p → p < length (esd_sinks s)) →
  store_inv visited hs s →
  store_inv (visited ++ [op]) (hs ++ [(register_sink parent s).1]) (register_sink parent s).2.
Proof.
  intros Hop Hp [Hwf Hd Hhs He Hb Hh]. unfold register_sink. simpl.
  assert (∀ id e, op ≠ OpPush id e) as Hno by (by intros id e ->).
  assert (tree_wf (parents s ++ [parent])) as Hwf'.
  { apply tree_wf_snoc; [done|]. intros p ->. unfold parents. rewrite length_fmap. by apply Hp. }
  assert (parents (mk_store (esd_errors s) (esd_sinks s ++ [sink_data_new parent])) = parents s ++ [parent]) as Hps
    by (unfold parents; simpl; by rewrite fmap_app).
  assert (∀ id, pushed_at (visited ++ [op]) id ↔ pushed_at visited id) as Hpa.
  { intros id. rewrite pushed_at_snoc. naive_solver. }
  constructor; simpl.
  - by rewrite Hps.
  - rewrite Hps, Hd, <-Hop. unfold declared. by rewrite omap_app.
  - by rewrite Hhs, length_app, seq_app.
  - rewrite He. unfold pushed. rewrite omap_app. destruct op as [| |k e]; simpl; [by rewrite app_nil_r..|].
    by destruct (Hno k e).
  - intros id Hid%Hpa. rewrite length_app. specialize (Hb id Hid). simpl. lia.
  - intros i. rewrite Hps. setoid_rewrite Hpa. unfold errors_at.
    assert ((∃ d, (esd_sinks s ++ [sink_data_new parent]) !! i = Some d ∧ esd_has_errors d = true) ↔
      errors_at (esd_sinks s) i) as ->.
    { unfold errors_at. split; intros (d & Hd' & Ht).
      - apply lookup_snoc_Some in Hd' as [[_ Hd']|[_ <-]]; [by exists d|done].
      - exists d. split; [|done]. by apply lookup_app_l_Some. }
    rewrite Hh. f_equiv. intros id. split; intros [Hid Ha]; split; try done;
      specialize (Hb id Hid); apply (above_app (parents s) [parent] id i Hwf'); try done;
      unfold parents; by rewrite length_fmap.
Qed.

Lemma push_inv visited k e hs s :
  store_inv visited hs s → k < length (esd_sinks s) →
  ∃ s', push k e s = Some (Ok s') ∧ store_inv (visited ++ [OpPush k e]) hs s' ∧
    length (esd_sinks s') = length (esd_sinks s).
Proof.
  intros [Hwf Hd Hhs He Hb Hh] Hk. destruct (push_ok k e s Hwf Hk) as (s' & E & He' & Hp' & Hh').
  assert (length (esd_sinks s') = length (esd_sinks s)) as Hlen.
  { apply (f_equal length) in Hp'. unfold parents in Hp'. by rewrite !length_fmap in Hp'. }
  exists s'. split; [done|]. split; [|done]. constructor.
  - by rewrite Hp'.
  - rewrite Hp', Hd. unfold declared. by rewrite omap_app, app_nil_r.
  - by rewrite Hlen.
  - rewrite He', He. unfold pushed. by rewrite omap_app.
  - intros i [Hi|[e' [= <- _]]]%pushed_at_snoc; rewrite Hlen; [by apply Hb|done].
  - intros i. rewrite Hh', Hh, Hp'. setoid_rewrite pushed_at_snoc. naive_solver.
Qed.

Lemma run_op_inv visited op hs s :
  store_inv visited hs s → ops_valid (length (esd_sinks s)) [op] →
  ∃ hs' s', run_op op hs s = Some (Ok (hs', s')) ∧ store_inv (visited ++ [op]) hs' s' ∧
    ∀ ops, ops_valid (length (esd_sinks s)) (op :: ops) → ops_valid (length (esd_sinks s')) ops.
Proof.
  intros Hinv. destruct op as [|k|k e]; simpl.
  - intros _. eexists _, _. split; [done|]. split; [by apply (register_inv visited OpSink None)|].
    intros ops. simpl. by rewrite length_app, Nat.add_1_r.
  - intros [Hk _]. rewrite (handle_lookup visited hs s k Hinv Hk). simpl. eexists _, _. split; [done|].
    split; [apply (register_inv visited (OpNew k) (Some k)); try done; by intros p [= <-]|].
    intros ops [_ Hv]. simpl. by rewrite length_app, Nat.add_1_r.
  - intros [Hk _]. rewrite (handle_lookup visited hs s k Hinv Hk). simpl.
    destruct (push_inv visited k e hs s Hinv Hk) as (s' & -> & Hinv' & Hlen).
    eexists _, s'. split; [done|]. split; [done|]. intros ops [_ Hv]. by rewrite Hlen.
Qed.

Lemma run_ops_inv ops visited hs s :
  store_inv visited hs s → ops_valid (length (esd_sinks s)) ops →
  ∃ hs' s', run_ops ops hs s = Some (Ok (hs', s')) ∧ store_inv (visited ++ ops) hs' s'.
Proof.
  revert visited hs s. induction ops as [|op ops IH]; intros visited hs s Hinv Hv.
  { exists hs, s. by rewrite app_nil_r. }
  destruct (run_op_inv visited op hs s Hinv) as (hs1 & s1 & E & Hinv1 & Hv1); [by destruct op; simpl in *; naive_solver|].
  simpl. rewrite E. destruct (IH _ hs1 s1 Hinv1 (Hv1 ops Hv)) as (hs' & s' & -> & Hinv'). exists hs', s'.
  by rewrite cons_middle, app_assoc.
Qed.

(** C26: whatever is done with a store, through sinks that were made before,
    ends without a panic, and each sink made has a handle.  The errors of the
    store are those pushed to its sinks, in the order of the pushes, whatever
    sinks they went to.  And [has_errors] of the [k]-th sink made answers
    whether an error was pushed to that sink or to one made as a child of it, a
    child of its child and so on: the tree is the one the operations declare. *)
Theorem error_store_spec (ops : list store_op) :
  ops_valid 0 ops →
  ∃ hs s, run_ops ops [] store_new = Some (Ok (hs, s)) ∧ length hs = length (declared ops) ∧
    into_inner s = pushed ops ∧
    ∀ k id, hs !! k = Some id →
      ∃ b, has_errors id s = Ok b ∧
        (b = true ↔ ∃ k' e, OpPush k' e ∈ ops ∧ above (declared ops) k' k).
Proof.
  intros Hv. destruct (run_ops_inv ops [] [] store_new store_inv_new Hv) as (hs & s & Hs & [_ Hd Hhs He _ Hh]).
  simpl in *. exists hs, s. split; [done|]. rewrite <-Hd.
  split; [by rewrite Hhs, length_seq; unfold parents; rewrite length_fmap|]. split; [exact He|].
  intros k id Hk. rewrite Hhs in Hk. apply lookup_seq in Hk as [-> Hk]. simpl.
  destruct (lookup_lt_is_Some_2 _ _ Hk) as [d Hdk]. exists (esd_has_errors d). unfold has_errors. rewrite Hdk.
  split; [done|]. transitivity (errors_at (esd_sinks s) k).
  - unfold errors_at. split; [by exists d|]. intros (d' & Hd' & ?). congruence.
  - rewrite (Hh k). unfold pushed_at. naive_solver.
Qed.
End life.
Arguments store_op T : clear implicits.

(** ** What a computation reports

    [runs id pre m a errs]: run at the sink [id], to which errors were pushed
    before exactly if [pre] is true, [m] ends with the result [a] and without a
    panic, having pushed the errors [errs], in this order and all of them to
    [id] or to new sinks below it. *)
Section runs.
Context {T : Type}.
Implicit Types (s : ErrorStoreData T) (e : T) (errs : list T).

Definition has_any (errs : list T) : bool := match errs with [] => false | _ => true end.

Definition runs {A} (id : nat) (pre : bool) (m : sinkM (T := T) A) (a : A) errs : Prop :=
  ∀ s, tree_wf (parents s) → id < length (esd_sinks s) → has_errors id s = Ok pre →
  ∃ s', m s = Some (Ok (a, s')) ∧ esd_errors s' = esd_errors s ++ errs ∧
    tree_wf (parents s') ∧ (∃ qs, parents s' = parents s ++ qs) ∧
    (∀ i, i < length (esd_sinks s) →
       (errors_at (esd_sinks s') i ↔ errors_at (esd_sinks s) i ∨ errs ≠ [] ∧ above (parents s) id i)) ∧
    has_errors id s' = Ok (pre || has_any errs).

Lemma runs_ret {A} id pre (a : A) : runs id pre (mret a) a [].
Proof.
  intros s Hwf Hl Hp. exists s. split; [done|]. split; [by rewrite app_nil_r|]. split; [done|].
  split; [by exists []; rewrite app_nil_r|]. split; [naive_solver|]. by rewrite orb_false_r.
Qed.

Lemma runs_push id pre e : runs id pre (sink_push id e) () [e].
Proof.
  intros s Hwf Hl Hp. destruct (push_ok id e s Hwf Hl) as (s' & E & He & Hps & Hh). exists s'.
  unfold sink_push. rewrite E. split; [done|]. split; [done|]. split; [by rewrite Hps|].
  split; [by exists []; rewrite app_nil_r|]. split.
  - intros i _. rewrite Hh. naive_solver.
  - rewrite orb_true_r. apply has_errors_true, Hh. right. apply rtc_refl.
Qed.

Lemma runs_bind {A B} id pre (m : sinkM A) (k : A → sinkM B) a b (e1 e2 : list T) :
  runs id pre m a e1 → runs id (pre || has_any e1) (k a) b e2 → runs id pre (m ≫= k) b (e1 ++ e2).
Proof.
  intros H1 H2 s Hwf Hl Hp. destruct (H1 s Hwf Hl Hp) as (s1 & E1 & He1 & Hw1 & [q1 Hq1] & Hh1 & Hp1).
  assert (length (esd_sinks s) ≤ length (esd_sinks s1)) as Hle.
  { rewrite <-(parents_length s), <-(parents_length s1), Hq1, length_app. lia. }
  destruct (H2 s1 Hw1) as (s2 & E2 & He2 & Hw2 & [q2 Hq2] & Hh2 & Hp2); [lia|done|].
  exists s2. unfold mbind, sink_bind. rewrite E1. split; [done|]. split; [by rewrite He2, He1, app_assoc|].
  split; [done|]. split; [exists (q1 ++ q2); by rewrite Hq2, Hq1, app_assoc|]. split.
  - intros i Hi. rewrite Hh2, Hh1 by lia.
    assert (above (parents s1) id i ↔ above (parents s) id i) as ->.
    { rewrite Hq1. apply above_app; [by rewrite <-Hq1|by rewrite parents_length]. }
    destruct e1, e2; simpl; naive_solver.
  - rewrite Hp2, <-orb_assoc. do 2 f_equal. by destruct e1.
Qed.

(** First a computation without errors; last one without errors. *)
Lemma runs_bind_ret {A B} id pre (m : sinkM A) (k : A → sinkM B) a b errs :
  runs id pre m a [] → runs id pre (k a) b errs → runs id pre (m ≫= k) b errs.
Proof. intros H1 H2. apply (runs_bind id pre m k a b [] errs); simpl; by rewrite ?orb_false_r. Qed.

Lemma runs_bind_nil {A B} id pre (m : sinkM A) (k : A → sinkM B) a b errs :
  runs id pre m a errs → runs id (pre || has_any errs) (k a) b [] → runs id pre (m ≫= k) b errs.
Proof. intros H1 H2. rewrite <-(app_nil_r errs). by apply (runs_bind id pre m k a b errs []). Qed.

Lemma runs_has_errors id pre : runs id pre (sink_has_errors id) pre [].
Proof.
  intros s Hwf Hl Hp. exists s. unfold sink_has_errors. rewrite Hp. split; [done|].
  split; [by rewrite app_nil_r|]. split; [done|]. split; [by exists []; rewrite app_nil_r|].
  split; [naive_solver|]. by rewrite orb_false_r.
Qed.

(** A computation on a sink of its own. *)
Lemma runs_child {A} id pre (k : nat → sinkM A) a errs :
  (∀ id', runs id' false (k id') a errs) → runs id pre (sink_child id ≫= k) a errs.
Proof.
  intros H s Hwf Hl Hp. unfold mbind, sink_bind, sink_child, sink_new, register_sink.
  set (s1 := mk_store (esd_errors s) (esd_sinks s ++ [sink_data_new (Some id)])).
  assert (parents s1 = parents s ++ [Some id]) as Hps1 by (unfold parents, s1; simpl; by rewrite fmap_app).
  assert (length (esd_sinks s1) = S (length (esd_sinks s))) as Hl1 by (unfold s1; simpl; rewrite length_app; simpl; lia).
  assert (tree_wf (parents s1)) as Hwf1.
  { rewrite Hps1. apply tree_wf_snoc; [done|]. intros p [= <-]. by rewrite parents_length. }
  assert (∀ i, i < length (esd_sinks s) → (errors_at (esd_sinks s1) i ↔ errors_at (esd_sinks s) i)) as Hat.
  { intros i Hi. unfold errors_at, s1. simpl. rewrite lookup_app_l; done. }
  destruct (H (length (esd_sinks s)) s1 Hwf1) as (s2 & E2 & He2 & Hw2 & [q Hq] & Hh2 & Hp2); [lia| |].
  { unfold has_errors, s1. simpl. rewrite lookup_app_r, Nat.sub_diag by lia. done. }
  assert (∀ i, i < length (esd_sinks s) → above (parents s1) (length (esd_sinks s)) i ↔ above (parents s) id i) as Hab.
  { intros i Hi. rewrite <-(above_app (parents s) [Some id]) by (rewrite <-?Hps1, ?parents_length; done).
    rewrite <-Hps1. assert (parent_of (parents s1) (length (esd_sinks s)) id) as Hpo.
    { unfold parent_of. rewrite Hps1. apply list_lookup_middle. symmetry. apply parents_length. }
    split; [|by apply rtc_l]. intros Ha. apply rtc_inv in Ha as [Hi0|(y & Hy & Ha)]; [lia|].
    unfold parent_of in *. by simplify_eq. }
  exists s2. split; [done|]. split; [done|]. split; [done|].
  split; [exists (Some id :: q); by rewrite Hq, Hps1, <-app_assoc|]. split.
  - intros i Hi. rewrite Hh2, Hat, Hab by lia. done.
  - assert (length (esd_sinks s1) ≤ length (esd_sinks s2)) as Hl2.
    { rewrite <-(parents_length s1), <-(parents_length s2), Hq, length_app. lia. }
    apply has_errors_dec; [lia|]. rewrite Hh2, Hat, Hab by lia. destruct pre; simpl.
    + apply has_errors_true in Hp. naive_solver.
    + apply has_errors_false in Hp as [_ Hp]. destruct errs; simpl; [naive_solver|].
      split; [done|]. intros _. right. split; [done|]. apply rtc_refl.
Qed.

Lemma runs_push_when c id pre e : runs id pre (push_when c id e) () (if c : bool then [e] else []).
Proof. destruct c; [apply runs_push|apply runs_ret]. Qed.

Lemma runs_eq {A} id pre (m : sinkM A) a b (e1 e2 : list T) : runs id pre m a e1 → a = b → e1 = e2 → runs id pre m b e2.
Proof. by intros H -> <-. Qed.

(** Errors of a whole store, from a computation on a sink at its top. *)
Lemma runs_store {A} (k : nat → sinkM A) a errs :
  (∀ id, runs id false (k id) a errs) →
  ∃ s, (let '(id, s) := store_sink (T := T) store_new in k id s) = Some (Ok (a, s)) ∧ into_inner s = errs.
Proof.
  intros H. simpl. destruct (H 0 (store_sink store_new).2) as (s & E & He & _).
  - by intros [|c] p [=].
  - simpl. lia.
  - done.
  - exists s. split; [done|exact He].
Qed.
End runs.
