(* ===== verification/MacroSyn.v ===== *)
(** * Rust syntax, as far as the macros take it apart

    The data of the [syn] crate that [dropshot_endpoint] matches on and builds
    ([syn::Type], [Signature], [FnArg]).  What is passed through unseen (other
    types, patterns, token streams) is its text.  How [syn::visit] traverses a
    type is a parameter, [type_visits], by the calls of the methods that the code
    overrides; the overriding methods do not go deeper. *)
From S2P Require Import Prelude.

(** A token stream, by its text. *)
Definition TokenStream : Type := string.

(** [TImplFuture output] is [impl ::core::future::Future<Output = output> + Send +
    'static], as [transform_signature] builds it.

    A [QSelf] has the type and the position of the trait's end in the path; an
    angle-bracketed argument is a type or something else. *)
Inductive SynType :=
| TPath (qself : option (SynType * nat)) (leading_colon : bool) (segments : list (string * PathArguments))
| TTuple (elems : list SynType)
| TImplFuture (output : SynType)
| TOther (text : TokenStream)
with PathArguments :=
| PNone
| AngleBracketed (args : list (SynType + TokenStream))
| Parenthesized (text : TokenStream).

(** ** Equality of types ([PartialEq]) *)

Fixpoint type_eqb (x y : SynType) {struct x} : bool :=
  match x, y with
  | TPath q l segs, TPath q' l' segs' =>
      match q, q' with
      | None, None => true
      | Some (t, n), Some (t', n') => type_eqb t t' && Nat.eqb n n'
      | _, _ => false
      end && Bool.eqb l l' &&
      (fix segs_eqb (a b : list (string * PathArguments)) : bool :=
         match a, b with
         | [], [] => true
         | (i, x) :: a, (j, y) :: b => String.eqb i j && args_eqb x y && segs_eqb a b
         | _, _ => false
         end) segs segs'
  | TTuple a, TTuple b =>
      (fix types_eqb (a b : list SynType) : bool :=
         match a, b with
         | [], [] => true
         | x :: a, y :: b => type_eqb x y && types_eqb a b
         | _, _ => false
         end) a b
  | TImplFuture x, TImplFuture y => type_eqb x y
  | TOther s, TOther t => String.eqb s t
  | _, _ => false
  end
with args_eqb (x y : PathArguments) {struct x} : bool :=
  match x, y with
  | PNone, PNone => true
  | AngleBracketed a, AngleBracketed b =>
      (fix generics_eqb (a b : list (SynType + TokenStream)) : bool :=
         match a, b with
         | [], [] => true
         | inl x :: a, inl y :: b => type_eqb x y && generics_eqb a b
         | inr s :: a, inr t :: b => String.eqb s t && generics_eqb a b
         | _, _ => false
         end) a b
  | Parenthesized s, Parenthesized t => String.eqb s t
  | _, _ => false
  end.

Fixpoint type_eqb_eq (x y : SynType) {struct x} : type_eqb x y = true ↔ x = y
with args_eqb_eq (x y : PathArguments) {struct x} : args_eqb x y = true ↔ x = y.
Proof.
  - destruct x as [q l segs|a|x|s], y as [q' l' segs'|b|y|t]; simpl; try (split; congruence).
    + rewrite !andb_true_iff, Bool.eqb_true_iff.
      assert (∀ b, (fix segs_eqb (a b : list (string * PathArguments)) : bool :=
         match a, b with
         | [], [] => true
         | (i, x) :: a, (j, y) :: b => String.eqb i j && args_eqb x y && segs_eqb a b
         | _, _ => false
         end) segs b = true ↔ segs = b) as ->.
      { induction segs as [|[i x] segs IH]; intros [|[j y] b]; try (split; congruence).
        rewrite !andb_true_iff, String.eqb_eq, args_eqb_eq, IH. split; [intuition congruence|by intros [= -> -> ->]]. }
      destruct q as [[t n]|], q' as [[t' n']|];
        rewrite ?andb_true_iff, ?type_eqb_eq, ?Nat.eqb_eq; split; try (intuition congruence);
        intros [=]; subst; auto.
    + transitivity (a = b); [|split; congruence]. revert b.
      induction a as [|x a IH]; intros [|y b]; try (split; congruence).
      rewrite andb_true_iff, type_eqb_eq, IH. split; [intuition congruence|by intros [= -> ->]].
    + rewrite type_eqb_eq. split; congruence.
    + rewrite String.eqb_eq. split; congruence.
  - destruct x as [|a|s], y as [|b|t]; simpl; try (split; congruence).
    + transitivity (a = b); [|split; congruence]. revert b.
      induction a as [|[x|x] a IH]; intros [|[y|y] b]; try (split; congruence);
        rewrite andb_true_iff, ?type_eqb_eq, ?String.eqb_eq, IH; (split; [intuition congruence|by intros [= -> ->]]).
    + rewrite String.eqb_eq. split; congruence.
Qed.

#[export] Instance SynType_eq_dec : EqDecision SynType.
Proof. intros x y. destruct (type_eqb x y) eqn:E; [left|right]; rewrite <-type_eqb_eq; congruence. Defined.

(** [parse_quote] of a path with plain segments, and of the type [()]. *)
Definition plain_path (segments : list string) : SynType := TPath None false ((λ i, (i, PNone)) <$> segments).
Definition unit_type : SynType := TTuple [].

(** [<ty as trait_ident>::ident]. *)
Definition qualified (ty : SynType) (trait_ident ident : string) : SynType :=
  TPath (Some (ty, 1)) false [(trait_ident, PNone); (ident, PNone)].

(** ** Functions *)

Inductive FnArg := Receiver | Typed (ty : SynType).
Inductive Safety := SafeKw | UnsafeKw | DefaultSafety.
Inductive ReturnType := DefaultReturn | ReturnTy (ty : SynType).

(** Optional keywords and the like by whether they are there; the predicates
    and parameters of generics by their text. *)
Record Signature := mk_signature {
  constness : bool;
  asyncness : bool;
  safety : Safety;
  abi : bool;
  ident : string;
  generics_params : list TokenStream;
  where_clause : option (list TokenStream);
  inputs : list FnArg;
  variadic : bool;
  output : ReturnType;
}.

(** ** Visiting a type *)

Inductive Visit :=
| VisitBoundLifetimes
| VisitLifetime (ident : string)
| VisitIdent (ident : string)
| VisitTypeImplTrait.
