(* ===== verification/MacroDoc.v ===== *)
(** * Documentation comments

    [dropshot_endpoint/src/doc.rs]: the summary and description of an endpoint,
    taken from the [doc] attributes of its function.

    An attribute ([syn::Attribute]) is known by the identifier that its path is,
    if it is one, and by its form; the value of a name-value attribute matters
    only where it is a string literal. *)
From S2P Require Import Prelude.

Section attributes.
Context {TokenStream : Type}.

Inductive Meta :=
| MetaPath
| MetaList (tokens : TokenStream)
| NameValue (value : option string).

Record Attribute := mk_attribute { attr_ident : option string; attr_meta : Meta }.

(** [attr.path().is_ident(ident)]. *)
Definition is_ident (ident : string) (a : Attribute) : bool :=
  match attr_ident a with Some i => String.eqb i ident | None => false end.
End attributes.
Arguments Meta TokenStream : clear implicits.
Arguments Attribute TokenStream : clear implicits.

Definition newline : ascii := Ascii.ascii_of_nat 10.
Definition paragraph_break : string := String newline (char_str newline).

(** [str::strip_prefix]. *)
Definition strip_prefix (pre s : string) : option string :=
  if starts_with pre s then Some (drop_prefix_len pre s) else None.

Definition normalize_line (idx : nat) (s : string) : string :=
  match idx with
  | 0 => trim s
  | S _ =>
      let trimmed := trim s in
      match strip_prefix "* " trimmed with
      | Some t => t
      | None => default trimmed (strip_prefix "*" trimmed)
      end
  end.

Definition normalize_comment_string (s : string) : list string :=
  imap normalize_line (split_on newline s).

(** The loops that skip blank lines: the first line that is not blank, and the
    iterator after it. *)
Fixpoint next_nonblank (lines : list string) : option string * list string :=
  match lines with
  | [] => (None, [])
  | s :: lines => if is_empty_str s then next_nonblank lines else (Some s, lines)
  end.

Definition fold_line (acc comment : string) : string :=
  if ends_with_char "-"%char acc || ends_with_char newline acc || is_empty_str acc then acc +:+ comment
  else if is_empty_str comment then acc +:+ paragraph_break
  else acc +:+ " " +:+ comment.

Record ExtractedDoc := mk_doc { doc_summary : option string; doc_description : option string }.

Definition from_lines (lines : list string) : ExtractedDoc :=
  let '(summary, lines) := next_nonblank lines in
  let '(first, lines) := next_nonblank lines in
  mk_doc summary ((λ first, trim_end (fold_left fold_line lines first)) <$> first).

Section doc.
Context {TokenStream : Type}.

Definition attr_lines (a : Attribute TokenStream) : list string :=
  match attr_meta a with
  | NameValue (Some s) => if is_ident "doc" a then normalize_comment_string s else []
  | _ => []
  end.

Definition doc_lines (attrs : list (Attribute TokenStream)) : list string := attrs ≫= attr_lines.

(** [ExtractedDoc::from_attrs]. *)
Definition from_attrs (attrs : list (Attribute TokenStream)) : ExtractedDoc := from_lines (doc_lines attrs).

(** [str::lines], without the carriage return that ends a line. *)
Definition strip_cr (s : string) : string :=
  if ends_with_char (Ascii.ascii_of_nat 13) s then drop_last_char s else s.

Definition str_lines (s : string) : list string :=
  let pieces := split_on newline s in
  match last pieces with
  | None | Some "" => strip_cr <$> removelast pieces
  | Some l => (strip_cr <$> removelast pieces) ++ [l]
  end.

Definition string_to_doc_attrs (s : string) : list (Attribute TokenStream) :=
  (λ line, mk_attribute (Some "doc") (NameValue (Some (" " +:+ line)))) <$> str_lines s.
End doc.

(** [ExtractedDoc::comment_text]. *)
Definition comment_text (self : ExtractedDoc) (name : string) : string :=
  "API Endpoint: " +:+ name
  +:+ match doc_summary self with Some s => char_str newline +:+ s | None => "" end
  +:+ match doc_description self with Some s => char_str newline +:+ s | None => "" end.

(** ** What the description is *)

(** The lines between blank lines. *)
Fixpoint paragraphs (cur lines : list string) : list (list string) :=
  match lines with
  | [] => match cur with [] => [] | _ => [cur] end
  | s :: lines =>
      if is_empty_str s then match cur with [] => paragraphs [] lines | _ => cur :: paragraphs [] lines end
      else paragraphs (cur ++ [s]) lines
  end.

Definition render_paragraphs (ps : list (list string)) : string := join paragraph_break (join " " <$> ps).

(** The last character, if any, is not white space. *)
Definition trimmed (s : string) : Prop := trim_end s = s.

Lemma trimmed_tail a s : trimmed (String a s) → trimmed s.
Proof. unfold trimmed. simpl. destruct (trim_end s) eqn:E; [|congruence].
  destruct (is_space a); [done|]. by intros [= <-]. Qed.

Lemma trimmed_trim_end s : trimmed (trim_end s).
Proof.
  unfold trimmed. induction s as [|a s IH]; [done|]. simpl.
  destruct (trim_end s) as [|b t] eqn:E.
  - destruct (is_space a) eqn:Ea; [done|]. simpl. by rewrite Ea.
  - cbn [trim_end] in *. by rewrite IH.
Qed.

Lemma trim_end_nonempty s : trimmed s → s ≠ "" → ∀ t, trim_end (t +:+ s) = t +:+ s.
Proof.
  intros Hs Hne t. induction t as [|a t IH]; [exact Hs|].
  change (String a t +:+ s) with (String a (t +:+ s)). simpl. rewrite IH. destruct (t +:+ s) eqn:E; [|done].
  by destruct t, s.
Qed.

Lemma ends_with_char_app c s t : s ≠ "" → ends_with_char c (t +:+ s) = ends_with_char c s.
Proof.
  intros Hs. induction t as [|a t IH]; [done|].
  change (String a t +:+ s) with (String a (t +:+ s)). simpl. rewrite <-IH. destruct (t +:+ s) eqn:E; [|done].
  by destruct t, s.
Qed.

Lemma trimmed_no_newline s : trimmed s → ends_with_char newline s = false.
Proof.
  induction s as [|a s IH]; [done|]. intros H. pose proof (trimmed_tail a s H) as Hs. destruct s as [|b s].
  - change (Ascii.eqb newline a = false). destruct (Ascii.eqb_spec newline a) as [<-|]; [discriminate H|done].
  - by apply IH.
Qed.

(** ** The lines of a comment *)

Lemma trimmed_prefix pre s t : trimmed s → strip_prefix pre s = Some t → trimmed t.
Proof.
  unfold strip_prefix, starts_with. destruct (String.prefix pre s) eqn:E; [|done]. intros Hs [= <-].
  apply prefix_split in E. rewrite E in Hs. clear E. revert Hs. generalize (drop_prefix_len pre s) as t. clear s. intros t Hs.
  induction pre as [|a pre IH]; [done|].
  apply IH. by apply (trimmed_tail a).
Qed.

Lemma normalize_line_trimmed idx s : trimmed (normalize_line idx s).
Proof.
  pose proof (trimmed_trim_end (trim_start s)) as Ht. unfold normalize_line. destruct idx as [|idx]; [done|].
  destruct (strip_prefix "* " (trim s)) eqn:E; [by eapply trimmed_prefix|].
  destruct (strip_prefix "*" (trim s)) eqn:E'; [by eapply trimmed_prefix|done].
Qed.

Lemma doc_lines_trimmed {TokenStream} (attrs : list (Attribute TokenStream)) : Forall trimmed (doc_lines attrs).
Proof.
  unfold doc_lines. apply Forall_bind, Forall_true. intros [i [| |[s|]]]; try apply Forall_nil_2.
  unfold attr_lines; simpl. destruct (is_ident "doc" _); [|apply Forall_nil_2].
  apply Forall_lookup. unfold normalize_comment_string. intros k l. rewrite list_lookup_imap.
  intros (x & _ & ->)%fmap_Some. apply normalize_line_trimmed.
Qed.

(** ** The fold *)

(** What the lines add to a description, inside a paragraph or after a break. *)
Fixpoint rest_text (broken : bool) (lines : list string) : string :=
  match lines with
  | [] => ""
  | s :: lines =>
      if is_empty_str s then rest_text true lines
      else (if broken then paragraph_break else " ") +:+ s +:+ rest_text false lines
  end.

Definition no_hyphen (s : string) : Prop := ends_with_char "-"%char s = false.

Lemma trim_end_break s : trim_end (s +:+ paragraph_break) = trim_end s.
Proof. induction s as [|a s IH]; [done|]. simpl. by rewrite IH. Qed.

(** The text of a description up to a line that is not blank. *)
Record paragraph_end (p : string) : Prop := {
  pe_trimmed : trimmed p;
  pe_hyphen : no_hyphen p;
  pe_nonempty : is_empty_str p = false;
}.

Lemma paragraph_end_app p q : paragraph_end q → paragraph_end (p +:+ q).
Proof.
  intros [Ht Hh Hn%is_empty_str_false]. constructor.
  - by apply trim_end_nonempty.
  - unfold no_hyphen in *. by rewrite ends_with_char_app.
  - apply is_empty_str_false. by destruct p, q.
Qed.

Lemma ends_with_break p : ends_with_char newline (p +:+ paragraph_break) = true.
Proof. by rewrite ends_with_char_app. Qed.

Lemma fold_line_blank p (broken : bool) :
  paragraph_end p →
  fold_line (p +:+ (if broken then paragraph_break else "")) "" = p +:+ paragraph_break.
Proof.
  intros [Ht Hh Hn]. unfold fold_line. destruct broken.
  - rewrite ends_with_break, orb_true_r. simpl. by rewrite string_app_nil_r.
  - by rewrite string_app_nil_r, Hh, (trimmed_no_newline p Ht), Hn.
Qed.

Lemma fold_line_text p (broken : bool) s :
  paragraph_end p → is_empty_str s = false →
  fold_line (p +:+ (if broken then paragraph_break else "")) s =
    p +:+ (if broken then paragraph_break else " ") +:+ s.
Proof.
  intros [Ht Hh Hn] Hs. unfold fold_line. destruct broken.
  - rewrite ends_with_break, orb_true_r. simpl. by rewrite string_app_assoc.
  - by rewrite string_app_nil_r, Hh, (trimmed_no_newline p Ht), Hn, Hs.
Qed.

Lemma fold_lines lines : Forall trimmed lines → Forall no_hyphen lines → ∀ p (broken : bool),
  paragraph_end p →
  trim_end (fold_left fold_line lines (p +:+ (if broken then paragraph_break else ""))) =
    p +:+ rest_text broken lines.
Proof.
  induction 1 as [|s lines Ht _ IH]; intros Hh p broken Hp; simpl.
  - rewrite string_app_nil_r. destruct broken; [rewrite trim_end_break|rewrite string_app_nil_r]; apply Hp.
  - apply Forall_cons in Hh as [Hh Hhs]. specialize (IH Hhs). destruct (is_empty_str s) eqn:Hs.
    + apply is_empty_str_true in Hs as ->. rewrite fold_line_blank by done. by apply (IH p true).
    + rewrite fold_line_text by done.
      pose proof (IH (p +:+ (if broken then paragraph_break else " ") +:+ s) false) as E.
      rewrite string_app_nil_r, <-!string_app_assoc in E. rewrite E; [done|].
      rewrite string_app_assoc. by apply paragraph_end_app.
Qed.

Lemma join_snoc sep cur s : cur ≠ [] → join sep (cur ++ [s]) = join sep cur +:+ sep +:+ s.
Proof.
  intros Hc. induction cur as [|x [|y cur] IH]; [done..|]. change ((x :: y :: cur) ++ [s]) with (x :: y :: (cur ++ [s])).
  rewrite !join_cons_cons. change (y :: (cur ++ [s])) with ((y :: cur) ++ [s]). rewrite IH by done.
  by rewrite !string_app_assoc.
Qed.

Lemma render_cons p ps :
  render_paragraphs (p :: ps) =
    join " " p +:+ match ps with [] => "" | _ => paragraph_break +:+ render_paragraphs ps end.
Proof.
  unfold render_paragraphs. destruct ps as [|q ps]; simpl; [by rewrite string_app_nil_r|done].
Qed.

Lemma paragraphs_nonempty cur l : cur ≠ [] → paragraphs cur l ≠ [].
Proof.
  revert cur. induction l as [|s l IH]; intros cur Hc; simpl; [by destruct cur|].
  destruct (is_empty_str s); [by destruct cur|]. apply IH. by destruct cur.
Qed.

Lemma paragraphs_text lines :
  (rest_text true lines =
     match paragraphs [] lines with [] => "" | ps => paragraph_break +:+ render_paragraphs ps end) ∧
  ∀ cur, cur ≠ [] → render_paragraphs (paragraphs cur lines) = join " " cur +:+ rest_text false lines.
Proof.
  induction lines as [|s lines [IHb IHp]]; simpl.
  - split; [done|]. intros cur Hc. destruct cur as [|x cur]; [done|]. by rewrite render_cons.
  - destruct (is_empty_str s).
    + split; [done|]. intros [|x cur] Hc; [done|]. rewrite render_cons, IHb. by destruct (paragraphs [] lines).
    + split.
      * pose proof (paragraphs_nonempty [s] lines) as Hn. specialize (IHp [s]). destruct (paragraphs [s] lines); [by destruct Hn|].
        rewrite IHp by done. done.
      * intros cur Hc. rewrite IHp by (by destruct cur). by rewrite join_snoc, <-!string_app_assoc.
Qed.

(** ** The lines before the description *)

Lemma next_nonblank_spec lines :
  let '(first, rest) := next_nonblank lines in
  match first with
  | None => Forall (λ s, s = "") lines ∧ rest = []
  | Some s => s ≠ "" ∧ ∃ blanks, Forall (λ s, s = "") blanks ∧ lines = blanks ++ s :: rest
  end.
Proof.
  induction lines as [|s lines IH]; simpl; [done|]. destruct (is_empty_str s) eqn:Hs.
  - apply is_empty_str_true in Hs as ->. destruct (next_nonblank lines) as [[first|] rest].
    + destruct IH as (Hf & blanks & Hb & ->). split; [done|]. exists ("" :: blanks). by split; [constructor|].
    + destruct IH as [Hf ->]. by split; [constructor|].
  - apply is_empty_str_false in Hs. split; [done|]. by exists [].
Qed.

Lemma paragraphs_blanks blanks lines :
  Forall (λ s, s = "") blanks → paragraphs [] (blanks ++ lines) = paragraphs [] lines.
Proof. induction 1 as [|s l -> Hl IH]; [done|]. exact IH. Qed.

(** The summary of the documentation is its first line that is not blank; the
    description is what follows, where it is not all blank: the paragraphs
    between blank lines, each with its lines separated by spaces.  (A line that
    ends with a hyphen is joined to the next one without a space, and no such
    line is in the text here.) *)
Lemma from_attrs_spec {TokenStream} (attrs : list (Attribute TokenStream)) :
  Forall no_hyphen (doc_lines attrs) →
  match doc_summary (from_attrs attrs) with
  | None => Forall (λ s, s = "") (doc_lines attrs) ∧ doc_description (from_attrs attrs) = None
  | Some s => s ≠ "" ∧ ∃ blanks rest,
      Forall (λ s, s = "") blanks ∧ doc_lines attrs = blanks ++ s :: rest ∧
      doc_description (from_attrs attrs) =
        match paragraphs [] rest with [] => None | ps => Some (render_paragraphs ps) end
  end.
Proof.
  pose proof (doc_lines_trimmed attrs) as Ht. unfold from_attrs, from_lines. revert Ht.
  generalize (doc_lines attrs) as lines. intros lines Ht Hh. pose proof (next_nonblank_spec lines) as H1.
  destruct (next_nonblank lines) as [[s|] rest]; simpl.
  2:{ destruct H1 as [H1 ->]. done. }
  destruct H1 as (Hs & blanks & Hb & ->). apply Forall_app in Ht as [_ [_ Ht]%Forall_cons].
  apply Forall_app in Hh as [_ [_ Hh]%Forall_cons]. pose proof (next_nonblank_spec rest) as H2.
  destruct (next_nonblank rest) as [[first|] rest'] eqn:E; simpl; (split; [done|]); exists blanks, rest; (split_and!; [done..|]).
  - destruct H2 as (Hf & blanks' & Hb' & ->). apply Forall_app in Ht as [_ [Htf Ht]%Forall_cons].
    apply Forall_app in Hh as [_ [Hhf Hh]%Forall_cons]. rewrite paragraphs_blanks by done. simpl.
    apply is_empty_str_false in Hf. rewrite Hf. simpl. destruct (paragraphs_text rest') as [_ Hp].
    specialize (Hp [first]). pose proof (fold_lines rest' Ht Hh first false) as Hfold.
    rewrite string_app_nil_r in Hfold. rewrite Hfold by done.
    { pose proof (paragraphs_nonempty [first] rest') as Hn. destruct (paragraphs [first] rest'); [by destruct Hn|].
      by rewrite Hp. }
  - destruct H2 as [H2 ->]. rewrite <-(app_nil_r rest), paragraphs_blanks by done. done.
Qed.

(** ** Generated documentation *)

Lemma has_char_strip_cr c s : has_char c s = false → has_char c (strip_cr s) = false.
Proof.
  unfold strip_cr. destruct (ends_with_char _ s); [|done]. induction s as [|a s IH]; [done|].
  simpl. intros [Ha Hs]%orb_false_iff. destruct s as [|b s]; [done|]. simpl in *. rewrite Ha. by apply IH.
Qed.

Lemma str_lines_no_newline s : Forall (λ l, has_char newline l = false) (str_lines s).
Proof.
  unfold str_lines. pose proof (split_on_pieces newline s) as Hp.
  assert (Forall (λ l, has_char newline l = false) (strip_cr <$> removelast (split_on newline s))) as Hr.
  { apply Forall_fmap. destruct (split_on newline s) as [|x l _] using rev_ind; [done|]. rewrite removelast_last.
    apply Forall_app in Hp as [Hp _]. eapply Forall_impl; [exact Hp|]. intros l' Hl. by apply has_char_strip_cr. }
  destruct (last (split_on newline s)) as [l|] eqn:El; [|done].
  assert (has_char newline l = false) as Hl.
  { apply last_Some in El as [l' El]. rewrite El in Hp. apply Forall_app in Hp as [_ Hp]. by inversion Hp. }
  destruct l; [done|]. apply Forall_app. by split; [|constructor].
Qed.

(** The text of attributes that are made of a string is read back by lines, without
    the white space around them. *)
Lemma doc_lines_string {TokenStream} s :
  doc_lines (TokenStream := TokenStream) (string_to_doc_attrs s) = trim <$> str_lines s.
Proof.
  unfold doc_lines, string_to_doc_attrs. induction (str_lines_no_newline s) as [|l lines Hl _ IH]; [done|].
  rewrite fmap_cons, bind_cons, IH.
  change (normalize_comment_string (" " +:+ l) ++ (trim <$> lines) = trim l :: (trim <$> lines)).
  unfold normalize_comment_string. by rewrite split_on_no_char.
Qed.
