(* ===== verification/MacroModuleDoc.v ===== *)
(** * The documentation of the generated module

    [ModuleDocComments] of [dropshot_endpoint/src/api_trait.rs]: the texts that
    document the support module of a trait and its two functions, and the
    attributes they become ([string_to_doc_attrs] of [doc.rs]). *)
From S2P Require Import Prelude MacroSyn MacroDoc.

Definition quote : ascii := Ascii.ascii_of_nat 34.

(** A text by its lines. *)
Definition text_of (lines : list string) : string := join (char_str newline) lines.

Record ModuleDocComments := mk_module_docs {
  md_outer : string;
  md_api_description : string;
  md_stub_api_description : string;
}.

Definition generate_outer (trait_ident : string) : string :=
  "Support module for the Dropshot API trait [`" +:+ trait_ident +:+ "`](" +:+ trait_ident +:+ ").".

Definition generate_api_description (dropshot trait_ident context_ident module_ident : string) : string :=
  text_of
    [ "Given an implementation of [`" +:+ trait_ident +:+ "`], generate an API description.";
     "";
     "This function accepts a single type argument `ServerImpl`, turning it into a";
     "Dropshot [`ApiDescription`]`<ServerImpl::`[`" +:+ context_ident +:+ "`]`>`.";
     "The returned `ApiDescription` can then be turned into a Dropshot server that";
     "accepts a concrete `" +:+ context_ident +:+ "`.";
     "";
     "## Example";
     "";
     "```rust,ignore";
     "/// A type used to define the concrete implementation for `" +:+ trait_ident +:+ "`.";
     "///";
     "/// This type is never constructed -- it is just a place to define your";
     "/// implementation of `" +:+ trait_ident +:+ "`.";
     "enum " +:+ trait_ident +:+ "Impl {}";
     "";
     "impl " +:+ trait_ident +:+ " for " +:+ trait_ident +:+ "Impl {";
     "    type " +:+ context_ident +:+ " = /* context type */;";
     "";
     "    // ... trait methods";
     "}";
     "";
     "#[tokio::main]";
     "async fn main() {";
     "    // Generate the description for `" +:+ trait_ident +:+ "Impl`.";
     "    let description = " +:+ module_ident +:+ "::api_description::<" +:+ trait_ident +:+ "Impl>().unwrap();";
     "";
     "    // Create a value of the concrete context type.";
     "    let context = /* some value of type `" +:+ trait_ident +:+ "Impl::" +:+ context_ident +:+ "` */;";
     "";
     "    // Create a Dropshot server from the description.";
     "    let log = /* ... */;";
     "    let server = dropshot::ServerBuilder::new(description, context, log)";
     "        .start()";
     "        .unwrap();";
     "";
     "    // Run the server.";
     "    server.await";
     "}";
     "```";
     "";
     "[`ApiDescription`]: " +:+ dropshot +:+ "::ApiDescription";
     "[`" +:+ trait_ident +:+ "`]: " +:+ trait_ident;
     "[`" +:+ context_ident +:+ "`]: " +:+ trait_ident +:+ "::" +:+ context_ident;
     "" ].

Definition generate_stub_api_description (dropshot trait_ident module_ident : string) : string :=
  text_of
    [ "Generate a _stub_ API description for [`" +:+ trait_ident +:+ "`], meant for OpenAPI";
     "generation.";
     "";
     "Unlike [`api_description`], this function does not require an implementation";
     "of [`" +:+ trait_ident +:+ "`] to be available, instead generating handlers that panic.";
     "The return value is of type [`ApiDescription`]`<`[`StubContext`]`>`.";
     "";
     "The main use of this function is in cases where [`" +:+ trait_ident +:+ "`] is defined";
     "in a separate crate from its implementation. The OpenAPI spec can then be";
     "generated directly from the stub API description.";
     "";
     "## Example";
     "";
     "A function that prints the OpenAPI spec to standard output:";
     "";
     "```rust,ignore";
     "fn print_openapi_spec() {";
     "    let stub = " +:+ module_ident +:+ "::stub_api_description().unwrap();";
     "";
     "    // Generate OpenAPI spec from `stub`.";
     "    let spec = stub.openapi(" +:+ char_str quote +:+ trait_ident +:+ char_str quote +:+ ", " +:+ char_str quote +:+ "0.1.0" +:+ char_str quote +:+ ");";
     "    spec.write(&mut std::io::stdout()).unwrap();";
     "}";
     "```";
     "";
     "[`" +:+ trait_ident +:+ "`]: " +:+ trait_ident;
     "[`api_description`]: " +:+ module_ident +:+ "::api_description";
     "[`ApiDescription`]: " +:+ dropshot +:+ "::ApiDescription";
     "[`StubContext`]: " +:+ dropshot +:+ "::StubContext";
     "" ].

Definition generate (dropshot trait_ident context_ident module_ident : string) : ModuleDocComments :=
  mk_module_docs (generate_outer trait_ident)
    (generate_api_description dropshot trait_ident context_ident module_ident)
    (generate_stub_api_description dropshot trait_ident module_ident).

Definition generate_invalid (trait_ident : string) : ModuleDocComments :=
  mk_module_docs
    (text_of
      [ "**Invalid**: Support module for the Dropshot API trait `" +:+ trait_ident +:+ "`.";
     "";
     "Errors were encountered while parsing the API.";
     "" ])
    (text_of
      [ "**Invalid, panics:** Given an implementation of `" +:+ trait_ident +:+ "`, generate an API description.";
     "";
     "Errors were encountered while parsing the API, so this function panics.";
     "" ])
    (text_of
      [ "**Invalid, panics:** Generate a _stub_ API description for `" +:+ trait_ident +:+ "`, meant for OpenAPI";
     "generation.";
     "";
     "Errors were encountered while parsing the API, so this function panics.";
     "" ]).

Definition module_outer (self : ModuleDocComments) : list (Attribute TokenStream) := string_to_doc_attrs (md_outer self).
Definition module_api_description (self : ModuleDocComments) : list (Attribute TokenStream) :=
  string_to_doc_attrs (md_api_description self).
Definition module_stub_api_description (self : ModuleDocComments) : list (Attribute TokenStream) :=
  string_to_doc_attrs (md_stub_api_description self).
