(* ===== verification/MacroMetadata.v ===== *)
(** * The metadata of endpoints in macros

    [dropshot_endpoint/src/metadata.rs] and [util.rs]: the arguments of the
    [endpoint] and [channel] attributes, their validation, the ranges of versions
    in them, and the expression that builds the [ApiEndpoint].

    Errors are known by their messages, not by their spans.  The expression that
    [to_api_endpoint_fn] quotes is data ([EndpointExpr]): the call of [new] or
    [new_for_types] and the calls of builder methods on it; [eval_endpoint] runs
    it with the definitions of [ApiEndpoint].  Deserialization of attributes is
    the [serde_tokenstream] crate's. *)
From S2P Require Import Prelude Externals Versions HttpError Schema ApiEndpoint ErrorStore MacroSyn MacroDoc.

Definition Error : Type := string.

Definition is_some {A} (o : option A) : bool := match o with Some _ => true | None => false end.

(** ** [util.rs] *)

Definition APPLICATION_JSON : string := "application/json".
Definition APPLICATION_X_WWW_FORM_URLENCODED : string := "application/x-www-form-urlencoded".
Definition MULTIPART_FORM_DATA : string := "multipart/form-data".

Inductive MacroKind := FunctionMacro | TraitMacro.

Definition is_trait (k : MacroKind) : bool := match k with TraitMacro => true | FunctionMacro => false end.

Inductive ValidContentType := ApplicationJson | ApplicationXWwwFormUrlencoded | MultipartForm.

Definition as_static_str (self : ValidContentType) : string :=
  match self with
  | ApplicationJson => APPLICATION_JSON
  | ApplicationXWwwFormUrlencoded => APPLICATION_X_WWW_FORM_URLENCODED
  | MultipartForm => MULTIPART_FORM_DATA
  end.

Definition to_supported_string : string :=
  APPLICATION_JSON +:+ ", " +:+ APPLICATION_X_WWW_FORM_URLENCODED +:+ ", " +:+ MULTIPART_FORM_DATA.

Definition content_type_from_str (s : string) : option ValidContentType :=
  if String.eqb s APPLICATION_JSON then Some ApplicationJson
  else if String.eqb s APPLICATION_X_WWW_FORM_URLENCODED then Some ApplicationXWwwFormUrlencoded
  else if String.eqb s MULTIPART_FORM_DATA then Some MultipartForm
  else None.

Definition DROPSHOT : string := "dropshot".

(** [parse_str] is [syn::parse_str] at token streams. *)
Definition get_crate (parse_str : string → option TokenStream) (var : option string) : TokenStream :=
  match var with
  | Some s => match parse_str s with Some ts => ts | None => DROPSHOT end
  | None => DROPSHOT
  end.

Definition is_wildcard_path (path : string) : bool := str_contains ":.*}" path.

(** ** Methods *)

Inductive MethodType := DELETE | GET | HEAD | PATCH | POST | PUT | OPTIONS.

Definition method_as_str (self : MethodType) : string :=
  match self with
  | DELETE => "DELETE" | GET => "GET" | HEAD => "HEAD" | PATCH => "PATCH"
  | POST => "POST" | PUT => "PUT" | OPTIONS => "OPTIONS"
  end.

(** ** Version ranges *)

(** The parts of a [semver::Version]. *)
Class SemVerParts (V : Type) := {
  ver_parts : V → N * N * N;
  ver_pre_empty : V → bool;
  ver_build_empty : V → bool;
  (** [Version::new] *)
  ver_new : N → N → N → V;
}.

Class SemVerPartsLaws (V : Type) `{SemVerParts V} : Prop := {
  ver_new_parts : ∀ v, ver_pre_empty v = true → ver_build_empty v = true →
    ver_new (ver_parts v).1.1 (ver_parts v).1.2 (ver_parts v).2 = v;
}.

(** A [syn::Path] is its text. *)
Inductive VersionSpecifier (V : Type) :=
| SLiteral (v : V)
| SIdentifier (path : TokenStream).
Arguments SLiteral {V} _.
Arguments SIdentifier {V} _.

Inductive VersionRange (V : Type) :=
| RAll
| RFrom (x : VersionSpecifier V)
| RUntil (y : VersionSpecifier V)
| RFromUntil (x y : VersionSpecifier V).
Arguments RAll {V}.
Arguments RFrom {V} _.
Arguments RUntil {V} _.
Arguments RFromUntil {V} _ _.

(** The tokens that the parser of ranges looks at. *)
Inductive Token :=
| DotDot
| LitStr (s : string)
| IdentTok (i : string)
| OtherTok (t : TokenStream).

Section ranges.
Context {V : Type} `{SemVer V} `{SemVerParts V}.
(** [syn::Path]'s parser: the path and the tokens after it, or an error. *)
Context (parse_path : list Token → rust Error (TokenStream * list Token)).

Definition parse_semver (v : string) : rust Error V :=
  s ← match ver_parse v with inl s => Ok s | inr e => Err ("expected semver: " +:+ e) end;
  s ← if ver_pre_empty s then Ok s else Err "semver pre-release string is not supported here";
  if ver_build_empty s then Ok s else Err "semver build metadata is not supported here".

Definition version_specifier_parse (input : list Token) : rust Error (VersionSpecifier V * list Token) :=
  match input with
  | LitStr s :: input => v ← parse_semver s; Ok (SLiteral v, input)
  | _ => '(p, input) ← parse_path input; Ok (SIdentifier p, input)
  end.

(** The text of [syn]'s error where a [..] is missing. *)
Definition expected_dotdot : Error := "expected `..`".

Definition parse_dotdot (input : list Token) : rust Error (list Token) :=
  match input with DotDot :: input => Ok input | _ => Err expected_dotdot end.


Definition range_order_error (e l : V) : Error :=
  quoted "from" +:+ " version (" +:+ ver_to_string e +:+ ") must be earlier than "
  +:+ quoted "until" +:+ " version (" +:+ ver_to_string l +:+ ")".

(** The branch for a range that starts with a version. *)
Definition range_from_parse (input : list Token) : rust Error (VersionRange V * list Token) :=
  '(earliest, input) ← version_specifier_parse input;
  input ← parse_dotdot input;
  match input with
  | LitStr _ :: _ | IdentTok _ :: _ =>
      '(latest, input) ← version_specifier_parse input;
      match earliest, latest with
      | SLiteral e, SLiteral l =>
          if ver_lt l e then Err (range_order_error e l) else Ok (RFromUntil earliest latest, input)
      | _, _ => Ok (RFromUntil earliest latest, input)
      end
  | _ => Ok (RFrom earliest, input)
  end.

Definition version_range_parse (input : list Token) : rust Error (VersionRange V * list Token) :=
  match input with
  | DotDot :: [] => Ok (RAll, [])
  | DotDot :: input => '(latest, input) ← version_specifier_parse input; Ok (RUntil latest, input)
  | _ => range_from_parse input
  end.

(** ** What a parsed range is *)

Definition plain (x : VersionSpecifier V) : Prop :=
  match x with SLiteral v => ver_pre_empty v = true ∧ ver_build_empty v = true | SIdentifier _ => True end.

Definition range_plain (r : VersionRange V) : Prop :=
  match r with
  | RAll => True
  | RFrom x | RUntil x => plain x
  | RFromUntil x y => plain x ∧ plain y ∧
      match x, y with SLiteral e, SLiteral l => ver_lt l e = false | _, _ => True end
  end.

Lemma parse_semver_plain s v : parse_semver s = Ok v → plain (SLiteral v).
Proof.
  unfold parse_semver. intros (v1 & E1 & (v2 & E2 & E3)%rust_bind_ok)%rust_bind_ok. simpl.
  destruct (ver_pre_empty v1) eqn:Hp; simplify_eq. destruct (ver_build_empty v2) eqn:Hb; by simplify_eq.
Qed.

Lemma version_specifier_plain input x rest : version_specifier_parse input = Ok (x, rest) → plain x.
Proof.
  unfold version_specifier_parse. intros Hi. destruct input as [|[|s|i|t] input].
  3: { apply rust_bind_ok in Hi as (v & Hv & [= <- _]). by apply (parse_semver_plain s). }
  all: apply rust_bind_ok in Hi as ([p rest'] & Hp & [= <- _]); done.
Qed.

Lemma range_from_plain input r rest : range_from_parse input = Ok (r, rest) → range_plain r.
Proof.
  intros ([x i1] & Hx%version_specifier_plain & (i2 & _ & Hm)%rust_bind_ok)%rust_bind_ok.
  assert (∀ y i3, plain y → match x, y with
      | SLiteral e, SLiteral l => if ver_lt l e then Err (range_order_error e l) else Ok (RFromUntil x y, i3)
      | _, _ => Ok (RFromUntil x y, i3)
      end = Ok (r, rest) → range_plain r) as Hy.
  { intros y i3 Hy E. destruct x as [e|], y as [l|]; try by simplify_eq. destruct (ver_lt l e) eqn:El; by simplify_eq. }
  destruct i2 as [|[|s|i|t] i2]; try by simplify_eq.
  all: apply rust_bind_ok in Hm as ([y i3] & Hp%version_specifier_plain & Hm); by apply (Hy y i3).
Qed.

Lemma version_range_plain input r rest : version_range_parse input = Ok (r, rest) → range_plain r.
Proof.
  unfold version_range_parse. intros Hi. destruct input as [|[|s|i|t] input]; try by apply range_from_plain in Hi.
  destruct input as [|t input]; [by simplify_eq|].
  apply rust_bind_ok in Hi as ([x i1] & Hx%version_specifier_plain & [= <- _]). done.
Qed.
End ranges.

(** ** Endpoint metadata *)

Section metadata.
Context {V : Type} {Expr : Type} `{SemVer V} `{SemVerParts V}.

Record EndpointMetadata := mk_endpoint_metadata {
  md_operation_id : option string;
  md_method : MethodType;
  md_path : string;
  md_tags : list string;
  md_unpublished : bool;
  md_deprecated : bool;
  md_request_body_max_bytes : option Expr;
  md_content_type : option string;
  md_dropshot_crate : option string;
  md_versions : option (VersionRange V);
}.

Record ValidatedEndpointMetadata := mk_validated {
  v_operation_id : option string;
  v_method : MethodType;
  v_path : string;
  v_tags : list string;
  v_unpublished : bool;
  v_deprecated : bool;
  v_request_body_max_bytes : option Expr;
  v_content_type : ValidContentType;
  v_versions : VersionRange V;
}.

Definition crate_error (what name_str : string) : Error :=
  what +:+ " `" +:+ name_str +:+ "` must not specify `_dropshot_crate`" +:+ char_str newline
  +:+ "note: specify this as an argument to `#[api_description]` instead".

Definition wildcard_error (name_str : string) : Error :=
  "endpoint `" +:+ name_str
  +:+ "` has paths that contain a wildcard match, but is not marked 'unpublished = true'".

Definition content_type_error (name_str : string) : Error :=
  "endpoint `" +:+ name_str +:+ "` has an invalid content type" +:+ char_str newline
  +:+ "note: supported content types are: " +:+ to_supported_string.

(** [EndpointMetadata::validate]. *)
Definition endpoint_validate (self : EndpointMetadata) (name_str : string) (kind : MacroKind) (errors : nat) :
    sinkM (T := Error) (option ValidatedEndpointMetadata) :=
  errors ← sink_child errors;
  push_when (is_trait kind && is_some (md_dropshot_crate self)) errors (crate_error "endpoint" name_str);;
  push_when (str_contains ":.*}" (md_path self) && negb (md_unpublished self)) errors (wildcard_error name_str);;
  content_type ← match md_content_type self with
    | Some content_type =>
        match content_type_from_str content_type with
        | Some c => mret (Some c)
        | None => sink_push errors (content_type_error name_str);; mret None
        end
    | None => mret (Some ApplicationJson)
    end;
  failed ← sink_has_errors errors;
  if failed : bool then mret None
  else match content_type with
       | Some content_type =>
           mret (Some (mk_validated (md_operation_id self) (md_method self) (md_path self) (md_tags self)
             (md_unpublished self) (md_deprecated self) (md_request_body_max_bytes self) content_type
             (default RAll (md_versions self))))
       | None => sink_panic "no validation errors, but content_type is None"
       end.

(** ** Channel metadata

    [ChannelProtocol] has the one value [WEBSOCKETS]. *)
Record ChannelMetadata := mk_channel_metadata {
  ch_operation_id : option string;
  ch_path : string;
  ch_tags : list string;
  ch_unpublished : bool;
  ch_deprecated : bool;
  ch_dropshot_crate : option string;
  ch_versions : option (VersionRange V);
}.

Definition channel_wildcard_error (name_str : string) : Error :=
  "channel `" +:+ name_str +:+ "` has a wildcard path, which is not allowed".

(** [ChannelMetadata::validate]; the result is the inner metadata. *)
Definition channel_validate (self : ChannelMetadata) (name_str : string) (kind : MacroKind) (errors : nat) :
    sinkM (T := Error) (option ValidatedEndpointMetadata) :=
  errors ← sink_child errors;
  push_when (is_trait kind && is_some (ch_dropshot_crate self)) errors (crate_error "channel" name_str);;
  push_when (is_wildcard_path (ch_path self)) errors (channel_wildcard_error name_str);;
  failed ← sink_has_errors errors;
  if failed : bool then mret None
  else mret (Some (mk_validated (ch_operation_id self) GET (ch_path self) (ch_tags self) (ch_unpublished self)
    (ch_deprecated self) None ApplicationJson (default RAll (ch_versions self)))).

(** ** The expression that builds an endpoint *)

Inductive VersionExpr :=
| VersionNew (major minor patch : N)
| VersionPath (path : TokenStream).

Inductive VersionsExpr :=
| VersionsAll
| VersionsFrom (v : VersionExpr)
| VersionsUntil (v : VersionExpr)
| VersionsFromUntil (x y : VersionExpr).

(** The function named, or the types of a stub. *)
Inductive ApiEndpointKind :=
| Regular (endpoint_fn : TokenStream)
| Stub (extractor_types : list SynType) (ret_ty : SynType).

Inductive BuilderCall :=
| CallSummary (s : string)
| CallDescription (s : string)
| CallTag (s : string)
| CallVisible (b : bool)
| CallDeprecated (b : bool)
| CallRequestBodyMaxBytes (e : Expr).

Record EndpointExpr := mk_expr {
  x_dropshot : TokenStream;
  x_target : ApiEndpointKind;
  x_operation_id : string;
  x_method : string;
  x_content_type : string;
  x_path : string;
  x_versions : VersionsExpr;
  x_calls : list BuilderCall;
}.

Definition semver_parts (x : V) : panics (N * N * N) :=
  if negb (ver_pre_empty x) then Panic "assertion `left == right` failed"
  else if negb (ver_build_empty x) then Panic "assertion `left == right` failed"
  else Ok (ver_parts x).

Definition semver_expr (x : VersionSpecifier V) : panics VersionExpr :=
  match x with
  | SLiteral v => '(major, minor, patch) ← semver_parts v; Ok (VersionNew major minor patch)
  | SIdentifier p => Ok (VersionPath p)
  end.

Definition versions_expr (r : VersionRange V) : panics VersionsExpr :=
  match r with
  | RAll => Ok VersionsAll
  | RFrom x => VersionsFrom <$> semver_expr x
  | RUntil y => VersionsUntil <$> semver_expr y
  | RFromUntil x y => x ← semver_expr x; y ← semver_expr y; Ok (VersionsFromUntil x y)
  end.

Definition option_call {A} (f : A → BuilderCall) (o : option A) : list BuilderCall :=
  match o with Some a => [f a] | None => [] end.

(** [ValidatedEndpointMetadata::to_api_endpoint_fn]. *)
Definition to_api_endpoint_fn (self : ValidatedEndpointMetadata) (dropshot : TokenStream)
    (endpoint_name : string) (kind : ApiEndpointKind) (doc : ExtractedDoc) : panics EndpointExpr :=
  versions ← versions_expr (v_versions self);
  Ok (mk_expr dropshot kind (default endpoint_name (v_operation_id self)) (method_as_str (v_method self))
    (as_static_str (v_content_type self)) (v_path self) versions
    (option_call CallSummary (doc_summary doc) ++ option_call CallDescription (doc_description doc)
     ++ (CallTag <$> v_tags self)
     ++ (if v_unpublished self then [CallVisible false] else [])
     ++ (if v_deprecated self then [CallDeprecated true] else [])
     ++ option_call CallRequestBodyMaxBytes (v_request_body_max_bytes self))).

(** ** What validation reports *)

Definition endpoint_errors (self : EndpointMetadata) (name_str : string) (kind : MacroKind) : list Error :=
  (if is_trait kind && is_some (md_dropshot_crate self) then [crate_error "endpoint" name_str] else [])
  ++ (if str_contains ":.*}" (md_path self) && negb (md_unpublished self) then [wildcard_error name_str] else [])
  ++ match md_content_type self with
     | Some c => match content_type_from_str c with Some _ => [] | None => [content_type_error name_str] end
     | None => []
     end.

(** The content type of the metadata, where it is one. *)
Definition content_type_of (self : EndpointMetadata) : ValidContentType :=
  default ApplicationJson (md_content_type self ≫= content_type_from_str).

Definition validated (self : EndpointMetadata) : ValidatedEndpointMetadata :=
  mk_validated (md_operation_id self) (md_method self) (md_path self) (md_tags self) (md_unpublished self)
    (md_deprecated self) (md_request_body_max_bytes self) (content_type_of self) (default RAll (md_versions self)).

Definition channel_errors (self : ChannelMetadata) (name_str : string) (kind : MacroKind) : list Error :=
  (if is_trait kind && is_some (ch_dropshot_crate self) then [crate_error "channel" name_str] else [])
  ++ (if is_wildcard_path (ch_path self) then [channel_wildcard_error name_str] else []).

Definition channel_validated (self : ChannelMetadata) : ValidatedEndpointMetadata :=
  mk_validated (ch_operation_id self) GET (ch_path self) (ch_tags self) (ch_unpublished self)
    (ch_deprecated self) None ApplicationJson (default RAll (ch_versions self)).

(** A value, where nothing was reported. *)
Definition unless_errors {A} (errs : list Error) (a : A) : option A := if has_any errs then None else Some a.

Lemma endpoint_validate_runs self name_str kind id pre :
  runs id pre (endpoint_validate self name_str kind id)
    (unless_errors (endpoint_errors self name_str kind) (validated self)) (endpoint_errors self name_str kind).
Proof.
  apply runs_child. intros id'. unfold endpoint_errors, validated, content_type_of.
  apply runs_bind with (a := ()); [apply runs_push_when|]. apply runs_bind with (a := ()); [apply runs_push_when|].
  set (c1 := is_trait kind && _). set (c2 := str_contains _ _ && _).
  destruct (md_content_type self) as [ct|]; [destruct (content_type_from_str ct) as [c|] eqn:Ec|]; simpl; rewrite ?Ec; simpl.
  - eapply runs_bind_ret; [apply runs_ret|]. eapply runs_bind_ret; [apply runs_has_errors|].
    destruct c1, c2; apply runs_ret.
  - eapply runs_bind_nil. { eapply runs_bind_nil; [apply runs_push|apply runs_ret]. }
    eapply runs_bind_ret; [apply runs_has_errors|]. destruct c1, c2; apply runs_ret.
  - eapply runs_bind_ret; [apply runs_ret|]. eapply runs_bind_ret; [apply runs_has_errors|].
    destruct c1, c2; apply runs_ret.
Qed.

Lemma channel_validate_runs self name_str kind id pre :
  runs id pre (channel_validate self name_str kind id)
    (unless_errors (channel_errors self name_str kind) (channel_validated self)) (channel_errors self name_str kind).
Proof.
  apply runs_child. intros id'. unfold channel_errors.
  apply runs_bind with (a := ()); [apply runs_push_when|]. eapply runs_bind_nil; [apply runs_push_when|].
  eapply runs_bind_ret; [apply runs_has_errors|]. destruct (is_trait kind && _), (is_wildcard_path _); apply runs_ret.
Qed.
End metadata.

Lemma content_type_from_str_spec s c : content_type_from_str s = Some c ↔ s = as_static_str c.
Proof.
  split; [|intros ->; by destruct c]. unfold content_type_from_str.
  repeat (match goal with |- context [String.eqb s ?x] => destruct (String.eqb_spec s x) as [->|] end;
    [by intros [= <-]|]). done.
Qed.

Lemma unless_errors_Some {A} errs (a b : A) : unless_errors errs a = Some b ↔ errs = [] ∧ b = a.
Proof.
  destruct errs; simpl; split; [by intros [= ->]|by intros [_ ->]|done|by intros [[=] _]].
Qed.

Section validation.
Context {V : Type} {Expr : Type}.
Implicit Types (self : EndpointMetadata (V := V) (Expr := Expr)).

(** Metadata that validation accepts. *)
Record endpoint_valid self (kind : MacroKind) : Prop := {
  valid_crate : kind = TraitMacro → md_dropshot_crate self = None;
  valid_path : str_contains ":.*}" (md_path self) = true → md_unpublished self = true;
  valid_content_type : ∀ c, md_content_type self = Some c → ∃ t, c = as_static_str t;
}.

Lemma endpoint_errors_nil self name_str kind : endpoint_errors self name_str kind = [] ↔ endpoint_valid self kind.
Proof.
  unfold endpoint_errors. rewrite !app_nil. split.
  - intros (H1 & H2 & H3). constructor.
    + intros ->. by destruct (md_dropshot_crate self).
    + intros Hc. rewrite Hc in H2. by destruct (md_unpublished self).
    + intros c Hc. rewrite Hc in H3. destruct (content_type_from_str c) as [t|] eqn:E; [|done].
      apply content_type_from_str_spec in E. by exists t.
  - intros [H1 H2 H3]. split_and!.
    + destruct kind; [done|]. by rewrite H1.
    + destruct (str_contains _ _) eqn:E; [|done]. by rewrite H2.
    + destruct (md_content_type self) as [c|]; [|done]. destruct (H3 c eq_refl) as [t Ht].
      apply content_type_from_str_spec in Ht. by rewrite Ht.
Qed.

(** What validation gives is the metadata with its defaults. *)
Lemma endpoint_validate_result self name_str kind id s v s' :
  endpoint_validate self name_str kind id s = Some (Ok (Some v, s')) → v = validated self.
Proof.
  unfold endpoint_validate, validated, content_type_of. intros (id' & s1 & _ & H)%sink_bind_inv.
  apply sink_bind_inv in H as (_ & s2 & _ & H). apply sink_bind_inv in H as (_ & s3 & _ & H).
  apply sink_bind_inv in H as (ct & s4 & Hct & H). apply sink_bind_inv in H as (failed & s5 & _ & H).
  destruct failed, ct as [ct|]; try done. injection H as <- _. f_equal.
  destruct (md_content_type self) as [c|]; simpl in *; [|by injection Hct as <- _].
  destruct (content_type_from_str c) as [t|]; simpl; [by injection Hct as <- _|].
  by apply sink_bind_inv in Hct as (_ & s6 & _ & [= ? _]).
Qed.

(** Validation of an endpoint's metadata ends without a panic (its
    [unreachable!] is not reached).  It reports an error exactly if it gives no
    validated metadata, and accepts metadata that names the crate only in
    function macros, has a wildcard path only if it is unpublished and no other
    content type than the three that are supported; all fields are kept, and no
    content type means JSON, no versions all of them. *)
Lemma endpoint_validate_spec self (name_str : string) (kind : MacroKind) :
  ∃ r errs, (∀ id pre, runs id pre (endpoint_validate self name_str kind id) r errs) ∧
    (r = None ↔ errs ≠ []) ∧
    (∀ v, r = Some v ↔ v = validated self ∧ endpoint_valid self kind).
Proof.
  exists (unless_errors (endpoint_errors self name_str kind) (validated self)), (endpoint_errors self name_str kind).
  split; [intros; apply endpoint_validate_runs|]. split.
  - by destruct (endpoint_errors _ _ _).
  - intros v. rewrite unless_errors_Some, endpoint_errors_nil. naive_solver.
Qed.
End validation.

(** ** Running the expression *)

Section eval.
Context `{Crates} `{!SemVerParts Version} {Expr : Type}.

(** What [ApiEndpoint::new] takes from the type of a function, and
    [new_for_types] from the types: the handler, the metadata of the extractors,
    the response and the error. *)
Record EndpointFn := mk_endpoint_fn {
  fn_handler : Handler;
  fn_extractors : ApiEndpointBodyContentType → list (panics ExtractorMetadata);
  fn_response : ApiEndpointResponse;
  fn_error : option ApiEndpointErrorResponse;
}.

(** The meaning of the program's functions and types, constants and
    expressions. *)
Context (target : ApiEndpointKind → EndpointFn) (eval_path : TokenStream → Version) (eval_expr : Expr → N).

Definition eval_version (x : VersionExpr) : Version :=
  match x with VersionNew a b c => ver_new a b c | VersionPath p => eval_path p end.

Definition eval_versions (x : VersionsExpr) : panics (ApiEndpointVersions Version) :=
  match x with
  | VersionsAll => Ok All
  | VersionsFrom v => Ok (From (eval_version v))
  | VersionsUntil v => Ok (Until (eval_version v))
  | VersionsFromUntil x y =>
      match from_until (eval_version x) (eval_version y) with
      | Ok r => Ok r
      | Err e => Panic ("called `Result::unwrap()` on an `Err` value: " +:+ e)
      | Panic m => Panic m
      end
  end.

Definition eval_call (e : ApiEndpoint) (c : BuilderCall (Expr := Expr)) : ApiEndpoint :=
  match c with
  | CallSummary s => with_summary e s
  | CallDescription s => with_description e s
  | CallTag s => with_tag e s
  | CallVisible b => with_visible e b
  | CallDeprecated b => with_deprecated e b
  | CallRequestBodyMaxBytes x => with_request_body_max_bytes e (eval_expr x)
  end.

Definition eval_endpoint (x : EndpointExpr (Expr := Expr)) : panics ApiEndpoint :=
  versions ← eval_versions (x_versions x);
  let f := target (x_target x) in
  e ← endpoint_new (x_operation_id x) (fn_handler f) (x_method x) (x_content_type x) (x_path x) versions
        (fn_extractors f) (fn_response f) (fn_error f);
  Ok (fold_left eval_call (x_calls x) e).

(** ** The endpoint that is built *)

Definition specifier_version (x : VersionSpecifier Version) : Version :=
  match x with SLiteral v => v | SIdentifier p => eval_path p end.

Definition range_versions (r : VersionRange Version) : ApiEndpointVersions Version :=
  match r with
  | RAll => All
  | RFrom x => From (specifier_version x)
  | RUntil y => Until (specifier_version y)
  | RFromUntil x y => FromUntil (mk_pair (specifier_version x) (specifier_version y))
  end.

(** The versions that constants name are in order, too. *)
Definition range_ordered (r : VersionRange Version) : Prop :=
  match r with RFromUntil x y => ver_lt (specifier_version y) (specifier_version x) = false | _ => True end.

(** The body content type that a name stands for. *)
Definition body_content_type_of (c : ValidContentType) : ApiEndpointBodyContentType :=
  match c with
  | ApplicationJson => Json_
  | ApplicationXWwwFormUrlencoded => UrlEncoded
  | MultipartForm => MultipartFormData
  end.

Lemma from_mime_type_valid c : from_mime_type (as_static_str c) = Ok (body_content_type_of c).
Proof. by destruct c. Qed.

Context `{!SemVerPartsLaws Version}.

Lemma semver_expr_eval x : plain x → ∃ e, semver_expr x = Ok e ∧ eval_version e = specifier_version x.
Proof.
  destruct x as [v|p]; simpl; [|by eexists]. intros [Hp Hb]. unfold semver_parts. rewrite Hp, Hb. simpl.
  pose proof (ver_new_parts v Hp Hb) as Hv. destruct (ver_parts v) as [[a b] c]. simpl in *. by eexists.
Qed.

Lemma versions_expr_eval r :
  range_plain r → ∃ e, versions_expr r = Ok e ∧ (range_ordered r → eval_versions e = Ok (range_versions r)).
Proof.
  destruct r as [|x|y|x y]; simpl.
  - by eexists.
  - intros (e & -> & He)%semver_expr_eval. eexists. split; [done|]. simpl. by rewrite He.
  - intros (e & -> & He)%semver_expr_eval. eexists. split; [done|]. simpl. by rewrite He.
  - intros ((e1 & -> & He1)%semver_expr_eval & (e2 & -> & He2)%semver_expr_eval & _).
    eexists. split; [done|]. simpl. rewrite He1, He2. unfold from_until. by intros ->.
Qed.

Lemma fold_option_call {A} (f : A → BuilderCall) o e :
  fold_left eval_call (option_call f o) e = match o with Some a => eval_call e (f a) | None => e end.
Proof. by destruct o. Qed.

Lemma fold_tags (ts : list string) e :
  fold_left eval_call (CallTag <$> ts) e =
    mk_endpoint (operation_id e) (handler e) (method e) (path e) (parameters e) (body_content_type e)
      (request_body_max_bytes e) (response e) (error e) (summary e) (description e) (tags e ++ ts)
      (extension_mode e) (visible e) (deprecated e) (versions e).
Proof.
  revert e. induction ts as [|t ts IH]; intros e; simpl.
  - rewrite app_nil_r. by destruct e.
  - rewrite IH. simpl. by rewrite <-app_assoc.
Qed.

(** The endpoint that validated metadata describes. *)
Definition described_endpoint (m : ValidatedEndpointMetadata (V := Version) (Expr := Expr)) (name : string)
    (k : ApiEndpointKind) (doc : ExtractedDoc) (fm : ExtractorMetadata) : ApiEndpoint :=
  mk_endpoint (default name (v_operation_id m)) (fn_handler (target k)) (method_as_str (v_method m)) (v_path m)
    (em_parameters fm) (body_content_type_of (v_content_type m)) (eval_expr <$> v_request_body_max_bytes m)
    (fn_response (target k)) (fn_error (target k)) (doc_summary doc) (doc_description doc) (v_tags m)
    (em_extension_mode fm) (negb (v_unpublished m)) (v_deprecated m) (range_versions (v_versions m)).

Lemma to_api_endpoint_fn_eval m dropshot name k doc fm :
  range_plain (v_versions m) → range_ordered (v_versions m) →
  request_extractor_metadata (fn_extractors (target k) (body_content_type_of (v_content_type m))) = Ok fm →
  ∃ x, to_api_endpoint_fn m dropshot name k doc = Ok x ∧ eval_endpoint x = Ok (described_endpoint m name k doc fm).
Proof.
  intros Hp Ho Hfm. unfold to_api_endpoint_fn. destruct (versions_expr_eval _ Hp) as (e & -> & He). eexists.
  split; [done|]. unfold eval_endpoint, endpoint_new, described_endpoint. simpl. rewrite (He Ho). simpl.
  rewrite from_mime_type_valid. simpl. rewrite Hfm. simpl. f_equal. rewrite !fold_left_app, !fold_option_call. simpl.
  destruct (doc_summary doc), (doc_description doc); simpl; rewrite fold_tags; simpl;
    destruct (v_unpublished m), (v_deprecated m), (v_request_body_max_bytes m); done.
Qed.

(** Conversely, where the expression builds something. *)
Lemma versions_expr_ordered r e v :
  range_plain r → versions_expr r = Ok e → eval_versions e = Ok v → range_ordered r.
Proof.
  destruct r as [|x|y|x y]; [done..|]. intros ((e1 & Hx & Ev1)%semver_expr_eval & (e2 & Hy & Ev2)%semver_expr_eval & _).
  unfold versions_expr. rewrite Hx, Hy. intros [= <-]. simpl. rewrite Ev1, Ev2. unfold from_until.
  by destruct (ver_lt _ _).
Qed.

Lemma to_api_endpoint_fn_eval_inv m dropshot name k doc x ep :
  range_plain (v_versions m) → to_api_endpoint_fn m dropshot name k doc = Ok x → eval_endpoint x = Ok ep →
  ∃ fm, ep = described_endpoint m name k doc fm ∧ range_ordered (v_versions m).
Proof.
  intros Hp Hx He. assert (range_ordered (v_versions m)) as Ho.
  { apply rust_bind_ok in Hx as (vx & Hvx & [= <-]). apply rust_bind_ok in He as (vs & Hvs & _).
    by eapply versions_expr_ordered. }
  assert (∃ fm, request_extractor_metadata (fn_extractors (target k) (body_content_type_of (v_content_type m))) = Ok fm)
    as [fm Hfm].
  { apply rust_bind_ok in Hx as (vx & Hvx & [= <-]). apply rust_bind_ok in He as (vs & Hvs & He). simpl in He.
    apply rust_bind_ok in He as (e & He & _). unfold endpoint_new in He. rewrite from_mime_type_valid in He. simpl in He.
    apply rust_bind_ok in He as (fm & Hfm & _). by exists fm. }
  exists fm. split; [|done]. destruct (to_api_endpoint_fn_eval m dropshot name k doc fm Hp Ho Hfm) as (x' & Hx' & He'). congruence.
Qed.

(** C25: The metadata that validation accepts, with the versions as they were parsed,
    makes an expression that builds the endpoint it describes: quoting it does
    not panic, the content type is one that [ApiEndpoint::new] knows, and, where
    the versions that constants name are in order (the parser has checked
    literals) and the extractors go together, the endpoint has the operation id,
    method, path, tags, documentation, visibility, versions and limit given. *)
Theorem macro_endpoint_spec (md : EndpointMetadata (Expr := Expr)) (name : string) (kind : MacroKind)
    (id : nat) v s s' (parse_path : list Token → rust Error (TokenStream * list Token)) (input rest : list Token)
    (dropshot : TokenStream) (k : ApiEndpointKind) (doc : ExtractedDoc) (fm : ExtractorMetadata) :
  endpoint_validate md name kind id s = Some (Ok (Some v, s')) →
  match md_versions md with None => True | Some r => version_range_parse parse_path input = Ok (r, rest) end →
  range_ordered (default RAll (md_versions md)) →
  request_extractor_metadata (fn_extractors (target k) (body_content_type_of (content_type_of md))) = Ok fm →
  ∃ x, to_api_endpoint_fn v dropshot name k doc = Ok x ∧
    eval_endpoint x = Ok (mk_endpoint (default name (md_operation_id md)) (fn_handler (target k))
      (method_as_str (md_method md)) (md_path md) (em_parameters fm) (body_content_type_of (content_type_of md))
      (eval_expr <$> md_request_body_max_bytes md) (fn_response (target k)) (fn_error (target k))
      (doc_summary doc) (doc_description doc) (md_tags md) (em_extension_mode fm)
      (negb (md_unpublished md)) (md_deprecated md) (range_versions (default RAll (md_versions md)))).
Proof.
  intros ->%endpoint_validate_result Hr Ho Hfm. apply (to_api_endpoint_fn_eval (validated md)); [|done..].
  simpl. destruct (md_versions md) as [r|]; [|done]. by eapply version_range_plain.
Qed.
End eval.
