(* ===== verification/MacroParams.v ===== *)
(** * The parameters of endpoint functions in macros

    [dropshot_endpoint/src/params.rs], and the [EndpointParams] and
    [ChannelParams] of [endpoint.rs] and [channel.rs]: the checks that the
    [endpoint] and [channel] macros make on a function's signature, and what they
    find in it.

    The iterator over the inputs is the list of those left.  Errors are known by
    their messages; [ParamValidator] keeps the signature and the name, which are
    arguments here. *)
From S2P Require Import Prelude ErrorStore MacroSyn MacroDoc MacroMetadata.

(** ** The signature *)

Definition endpoint_must (name_str what : string) : Error := "endpoint `" +:+ name_str +:+ "` must " +:+ what.

(** The where clause has predicates. *)
Definition where_nonempty (sig : Signature) : bool :=
  match where_clause sig with Some (_ :: _) => true | _ => false end.

Definition validate_fn_ast (sig : Signature) (name_str : string) (errors : nat) : sinkM (T := Error) () :=
  push_when (constness sig) errors (endpoint_must name_str "not be a const fn");;
  push_when (negb (asyncness sig)) errors (endpoint_must name_str "be async");;
  match safety sig with
  | SafeKw => sink_push errors (endpoint_must name_str "not be marked safe")
  | UnsafeKw => sink_push errors (endpoint_must name_str "not be unsafe")
  | DefaultSafety => mret ()
  end;;
  push_when (abi sig) errors (endpoint_must name_str "not use an alternate ABI");;
  push_when (has_any (generics_params sig)) errors (endpoint_must name_str "not have generics");;
  push_when (where_nonempty sig) errors (endpoint_must name_str "not have a where clause");;
  push_when (variadic sig) errors (endpoint_must name_str "not have a variadic argument").

(** ** Types *)

Inductive ParamTyKind := RequestContextTy | ExtractorTy | ReturnKind | WebsocketConnTy.

Definition kind_to_string (k : ParamTyKind) : string :=
  match k with
  | RequestContextTy => "RequestContext"
  | ExtractorTy => "extractor"
  | ReturnKind => "return type"
  | WebsocketConnTy => "WebsocketConnection"
  end.

(** The [Visitor]'s methods: the error, if any, that a visit reports. *)
Definition visit_error (name_str : string) (kind : ParamTyKind) (v : Visit) : option Error :=
  match v with
  | VisitBoundLifetimes =>
      Some (endpoint_must name_str ("not have lifetime bounds in " +:+ kind_to_string kind))
  | VisitLifetime ident =>
      if negb (String.eqb ident "static")
      then Some (endpoint_must name_str ("not have lifetime parameters in " +:+ kind_to_string kind)) else None
  | VisitIdent ident =>
      if String.eqb ident "Self"
      then Some (endpoint_must name_str ("not have `Self` in " +:+ kind_to_string kind)) else None
  | VisitTypeImplTrait =>
      Some (endpoint_must name_str ("not have impl Trait in " +:+ kind_to_string kind))
  end.

Fixpoint visit_all (name_str : string) (kind : ParamTyKind) (vs : list Visit) (errors : nat) : sinkM (T := Error) () :=
  match vs with
  | [] => mret ()
  | v :: vs =>
      match visit_error name_str kind v with Some e => sink_push errors e | None => mret () end;;
      visit_all name_str kind vs errors
  end.

(** ** The type of the request context *)

Inductive RqctxTyError :=
| NotTypePath
| NoPathSegments
| ArgsNotAngleBracketed
| IncorrectTypeArgCount (n : nat)
| ArgNotType.

Definition extract_rqctx_param (ty : SynType) : rust RqctxTyError (option SynType) :=
  match ty with
  | TPath _ _ segments =>
      match last segments with
      | None => Err NoPathSegments
      | Some (_, arguments) =>
          match arguments with
          | PNone => Ok None
          | AngleBracketed args =>
              if negb (Nat.eqb (length args) 1) then Err (IncorrectTypeArgCount (length args))
              else match head args with Some (inl tp) => Ok (Some tp) | _ => Err ArgNotType end
          | Parenthesized _ => Err ArgsNotAngleBracketed
          end
      end
  | _ => Err NotTypePath
  end.

(** [extract_rqctx_param_mut] and an assignment through the reference that it
    returns. *)
Definition set_rqctx_param (ty new : SynType) : SynType :=
  match ty with
  | TPath qself leading segments =>
      match last segments with
      | Some (i, AngleBracketed [inl _]) =>
          TPath qself leading (removelast segments ++ [(i, AngleBracketed [inl new])])
      | _ => ty
      end
  | _ => ty
  end.

Inductive RqctxTy :=
| RqctxFunction (ty : SynType)
| RqctxTrait (orig transformed_unit transformed_server_impl : SynType).

Inductive RqctxKind :=
| KindFunction
| KindTrait (trait_ident context_ident : string).

Definition to_error_message (self : RqctxKind) (name_str : string) : Error :=
  match self with
  | KindFunction => endpoint_must name_str "accept a RequestContext<T> as its first argument"
  | KindTrait _ context_ident =>
      endpoint_must name_str
        ("accept RequestContext<Self::" +:+ context_ident +:+ "> as its first argument")
  end.

Definition transformed_unit_type (self : RqctxTy) : SynType :=
  match self with RqctxFunction ty => ty | RqctxTrait _ transformed_unit _ => transformed_unit end.
Definition transformed_server_impl_type (self : RqctxTy) : SynType :=
  match self with RqctxFunction ty => ty | RqctxTrait _ _ transformed => transformed end.

Definition two_arguments_error (name_str : string) : Error :=
  endpoint_must name_str "have at least two arguments: RequestContext and WebsocketConnection".

Section validator.
(** The overridden methods that [syn::visit::visit_type] calls, in order. *)
Context (type_visits : SynType → list Visit).

Definition validate_param_ty (ty : SynType) (kind : ParamTyKind) (name_str : string) (errors : nat) :
    sinkM (T := Error) (option SynType) :=
  errors ← sink_child errors;
  visit_all name_str kind (type_visits ty) errors;;
  failed ← sink_has_errors errors;
  mret (if negb failed then Some ty else None).

(** [RqctxTy::new]. *)
Definition rqctx_ty_new (name_str : string) (rqctx_kind : RqctxKind) (ty : SynType) (errors : nat) :
    sinkM (T := Error) (option RqctxTy) :=
  match rqctx_kind with
  | KindFunction =>
      match extract_rqctx_param ty with
      | Ok (Some param) =>
          r ← validate_param_ty param RequestContextTy name_str errors;
          mret ((λ _, RqctxFunction ty) <$> r)
      | Ok None => mret (Some (RqctxFunction ty))
      | _ => sink_push errors (to_error_message rqctx_kind name_str);; mret None
      end
  | KindTrait trait_ident context_ident =>
      match extract_rqctx_param ty with
      | Ok (Some param) =>
          let self_context := plain_path ["Self"; context_ident] in
          let self_as_trait_context := qualified (plain_path ["Self"]) trait_ident context_ident in
          if bool_decide (param ≠ self_context) && bool_decide (param ≠ self_as_trait_context)
          then sink_push errors (to_error_message rqctx_kind name_str);; mret None
          else
            let transformed_unit := set_rqctx_param ty unit_type in
            match extract_rqctx_param ty with
            | Ok (Some _) =>
                mret (Some (RqctxTrait ty transformed_unit
                  (set_rqctx_param ty (qualified (plain_path ["ServerImpl"]) trait_ident context_ident))))
            | _ => sink_panic "other cases already bailed above"
            end
      | _ => sink_push errors (to_error_message rqctx_kind name_str);; mret None
      end
  end.

(** ** [ParamValidator] *)

Definition maybe_discard_self_arg (name_str : string) (inputs : list FnArg) (errors : nat) :
    sinkM (T := Error) (list FnArg) :=
  match inputs with
  | Receiver :: inputs => sink_push errors (endpoint_must name_str "not have a `self` argument");; mret inputs
  | _ => mret inputs
  end.

Definition next_rqctx_arg (name_str : string) (rqctx_kind : RqctxKind) (inputs : list FnArg) (errors : nat) :
    sinkM (T := Error) (option RqctxTy * list FnArg) :=
  match inputs with
  | Typed ty :: inputs => r ← rqctx_ty_new name_str rqctx_kind ty errors; mret (r, inputs)
  | _ =>
      sink_push errors (endpoint_must name_str "have at least one RequestContext argument");;
      mret (None, tail inputs)
  end.

(** [next] and then [next_back]. *)
Definition next_rqctx_and_last_websocket_args (name_str : string) (rqctx_kind : RqctxKind) (inputs : list FnArg)
    (errors : nat) : sinkM (T := Error) (option RqctxTy * option SynType * list FnArg) :=
  let rqctx := head inputs in
  let websocket := last (tail inputs) in
  let rest := removelast (tail inputs) in
  match rqctx, websocket with
  | Some (Typed rqctx_ty), Some (Typed websocket_ty) =>
      r ← rqctx_ty_new name_str rqctx_kind rqctx_ty errors;
      mret (r, Some websocket_ty, rest)
  | _, _ => sink_push errors (two_arguments_error name_str);; mret (None, None, rest)
  end.

Fixpoint rest_extractor_args (name_str : string) (inputs : list FnArg) (errors : nat) :
    sinkM (T := Error) (list SynType) :=
  match inputs with
  | Typed ty :: inputs =>
      r ← validate_param_ty ty ExtractorTy name_str errors;
      extractors ← rest_extractor_args name_str inputs errors;
      mret (match r with Some ty => ty :: extractors | None => extractors end)
  | _ => mret []
  end.

Definition return_type (sig : Signature) (name_str : string) (errors : nat) : sinkM (T := Error) (option SynType) :=
  match output sig with
  | DefaultReturn => sink_push errors (endpoint_must name_str "return a Result");; mret None
  | ReturnTy ty => validate_param_ty ty ReturnKind name_str errors
  end.

(** ** [EndpointParams] *)

Record EndpointParams := mk_params {
  ep_dropshot : TokenStream;
  ep_rqctx_ty : RqctxTy;
  ep_shared_extractors : list SynType;
  ep_exclusive_extractor : option SynType;
  ep_ret_ty : SynType;
}.

Definition endpoint_params_new (dropshot : TokenStream) (sig : Signature) (rqctx_kind : RqctxKind) (errors : nat) :
    sinkM (T := Error) (option EndpointParams) :=
  let name_str := ident sig in
  errors ← sink_child errors;
  validate_fn_ast sig name_str errors;;
  inputs ← maybe_discard_self_arg name_str (inputs sig) errors;
  '(rqctx_ty, inputs) ← next_rqctx_arg name_str rqctx_kind inputs errors;
  extractors ← rest_extractor_args name_str inputs errors;
  ret_ty ← return_type sig name_str errors;
  failed ← sink_has_errors errors;
  if failed : bool then mret None
  else match rqctx_ty, ret_ty with
       | Some rqctx_ty, Some ret_ty =>
           mret (Some (mk_params dropshot rqctx_ty (removelast extractors) (last extractors) ret_ty))
       | _, _ => sink_panic "no param errors, but rqctx_ty or ret_ty is None"
       end.

Definition extractor_types (self : EndpointParams) : list SynType :=
  ep_shared_extractors self ++ option_list (ep_exclusive_extractor self).

Definition arg_types (self : EndpointParams) : list SynType :=
  transformed_unit_type (ep_rqctx_ty self) :: extractor_types self.

Definition arg_name (i : nat) : string := "arg" +:+ show_N (N.of_nat i).

Definition arg_names (self : EndpointParams) : list string :=
  arg_name <$> seq 0 (1 + length (ep_shared_extractors self)
                      + match ep_exclusive_extractor self with Some _ => 1 | None => 0 end).

(** ** [ChannelParams] *)

Record ChannelParams := mk_channel_params {
  cp_dropshot : TokenStream;
  cp_rqctx_ty : RqctxTy;
  cp_shared_extractors : list SynType;
  cp_websocket_conn : SynType;
  cp_ret_ty : SynType;
  cp_adapter_name : string;
  cp_websocket_upgrade_ty : SynType;
  cp_endpoint_result_ty : SynType;
}.

Definition channel_params_new (dropshot : TokenStream) (sig : Signature) (rqctx_kind : RqctxKind) (errors : nat) :
    sinkM (T := Error) (option ChannelParams) :=
  let name_str := ident sig in
  errors ← sink_child errors;
  validate_fn_ast sig name_str errors;;
  inputs ← maybe_discard_self_arg name_str (inputs sig) errors;
  '(rqctx_ty, websocket_conn_ty, inputs) ← next_rqctx_and_last_websocket_args name_str rqctx_kind inputs errors;
  shared_extractors ← rest_extractor_args name_str inputs errors;
  websocket_conn ← match websocket_conn_ty with
    | Some ty => validate_param_ty ty WebsocketConnTy name_str errors
    | None => mret None
    end;
  ret_ty ← return_type sig name_str errors;
  let websocket_upgrade_ty := TOther (dropshot +:+ "::WebsocketUpgrade") in
  let endpoint_result_ty := TOther (dropshot +:+ "::WebsocketEndpointResult") in
  failed ← sink_has_errors errors;
  if failed : bool then mret None
  else match rqctx_ty, websocket_conn, ret_ty with
       | Some rqctx_ty, Some websocket_conn, Some ret_ty =>
           mret (Some (mk_channel_params dropshot rqctx_ty shared_extractors websocket_conn ret_ty
             (ident sig +:+ "_adapter") websocket_upgrade_ty endpoint_result_ty))
       | _, _, _ => sink_panic "no param errors, but rqctx_ty, websocket_upgrade or ret_ty is None"
       end.

Definition channel_extractor_types (self : ChannelParams) : list SynType :=
  cp_shared_extractors self ++ [cp_websocket_upgrade_ty self].

Definition channel_arg_types (self : ChannelParams) : list SynType :=
  transformed_unit_type (cp_rqctx_ty self) :: cp_shared_extractors self ++ [cp_websocket_conn self].

Definition adapter_arg_types (self : ChannelParams) : list SynType :=
  transformed_server_impl_type (cp_rqctx_ty self) :: channel_extractor_types self.

Definition channel_arg_names (self : ChannelParams) : list string :=
  (arg_name <$> seq 0 (1 + length (cp_shared_extractors self))) ++ ["__dropshot_websocket"].

(** ** What is reported *)

Definition fn_ast_errors (sig : Signature) (name_str : string) : list Error :=
  (if constness sig then [endpoint_must name_str "not be a const fn"] else [])
  ++ (if negb (asyncness sig) then [endpoint_must name_str "be async"] else [])
  ++ match safety sig with
     | SafeKw => [endpoint_must name_str "not be marked safe"]
     | UnsafeKw => [endpoint_must name_str "not be unsafe"]
     | DefaultSafety => []
     end
  ++ (if abi sig then [endpoint_must name_str "not use an alternate ABI"] else [])
  ++ (if has_any (generics_params sig) then [endpoint_must name_str "not have generics"] else [])
  ++ (if where_nonempty sig then [endpoint_must name_str "not have a where clause"] else [])
  ++ (if variadic sig then [endpoint_must name_str "not have a variadic argument"] else []).

Definition type_errors (name_str : string) (kind : ParamTyKind) (ty : SynType) : list Error :=
  omap (visit_error name_str kind) (type_visits ty).

(** The types that a context may have in a trait. *)
Definition is_self_context (trait_ident context_ident : string) (param : SynType) : Prop :=
  param = plain_path ["Self"; context_ident] ∨
  param = qualified (plain_path ["Self"]) trait_ident context_ident.

#[local] Instance is_self_context_dec t c p : Decision (is_self_context t c p).
Proof. unfold is_self_context. apply _. Defined.

Definition rqctx_errors (name_str : string) (kind : RqctxKind) (ty : SynType) : list Error :=
  match kind, extract_rqctx_param ty with
  | KindFunction, Ok (Some param) => type_errors name_str RequestContextTy param
  | KindFunction, Ok None => []
  | KindTrait t c, Ok (Some param) => if decide (is_self_context t c param) then [] else [to_error_message kind name_str]
  | _, _ => [to_error_message kind name_str]
  end.

Definition rqctx_value (kind : RqctxKind) (ty : SynType) : RqctxTy :=
  match kind with
  | KindFunction => RqctxFunction ty
  | KindTrait t c =>
      RqctxTrait ty (set_rqctx_param ty unit_type) (set_rqctx_param ty (qualified (plain_path ["ServerImpl"]) t c))
  end.

(** The arguments up to a receiver. *)
Fixpoint typed_prefix (inputs : list FnArg) : list SynType :=
  match inputs with Typed ty :: inputs => ty :: typed_prefix inputs | _ => [] end.

Definition extractor_errors (name_str : string) (tys : list SynType) : list Error :=
  tys ≫= type_errors name_str ExtractorTy.

Definition valid_extractors (name_str : string) (tys : list SynType) : list SynType :=
  omap (λ ty, unless_errors (type_errors name_str ExtractorTy ty) ty) tys.

Definition return_errors (sig : Signature) (name_str : string) : list Error :=
  match output sig with
  | DefaultReturn => [endpoint_must name_str "return a Result"]
  | ReturnTy ty => type_errors name_str ReturnKind ty
  end.

Lemma validate_fn_ast_runs sig name_str id pre :
  runs id pre (validate_fn_ast sig name_str id) () (fn_ast_errors sig name_str).
Proof.
  do 2 (apply runs_bind with (a := ()); [apply runs_push_when|]).
  apply runs_bind with (a := ()); [destruct (safety sig); apply runs_push || apply runs_ret|].
  do 3 (apply runs_bind with (a := ()); [apply runs_push_when|]). apply runs_push_when.
Qed.

Lemma visit_all_runs name_str kind vs id pre :
  runs id pre (visit_all name_str kind vs id) () (omap (visit_error name_str kind) vs).
Proof.
  revert pre. induction vs as [|v vs IH]; intros pre; simpl; [apply runs_ret|].
  destruct (visit_error name_str kind v) as [e|].
  - apply (runs_bind id pre _ _ () () [e]); [apply runs_push|apply IH].
  - eapply runs_bind_ret; [apply runs_ret|apply IH].
Qed.

Lemma validate_param_ty_runs ty kind name_str id pre :
  runs id pre (validate_param_ty ty kind name_str id)
    (unless_errors (type_errors name_str kind ty) ty) (type_errors name_str kind ty).
Proof.
  apply runs_child. intros id'. eapply runs_bind_nil; [apply visit_all_runs|].
  eapply runs_bind_ret; [apply runs_has_errors|]. fold (type_errors name_str kind ty).
  destruct (type_errors name_str kind ty); apply runs_ret.
Qed.

Lemma rqctx_ty_new_runs name_str kind ty id pre :
  runs id pre (rqctx_ty_new name_str kind ty id)
    (unless_errors (rqctx_errors name_str kind ty) (rqctx_value kind ty)) (rqctx_errors name_str kind ty).
Proof.
  assert (∀ e : Error, runs (T := Error) id pre (sink_push id e;; mret (None (A := RqctxTy))) None [e]) as Hpush.
  { intros e. eapply runs_bind_nil; [apply runs_push|apply runs_ret]. }
  unfold rqctx_ty_new, rqctx_errors. destruct kind as [|t c].
  - destruct (extract_rqctx_param ty) as [[param|]|e|msg]; [|apply runs_ret|apply Hpush..].
    eapply runs_bind_nil; [apply validate_param_ty_runs|].
    destruct (type_errors name_str RequestContextTy param); apply runs_ret.
  - destruct (extract_rqctx_param ty) as [[param|]|e|msg] eqn:E; [|apply Hpush..]. cbv zeta.
    unfold is_self_context. repeat case_bool_decide; case_decide; simpl; try tauto; apply Hpush || apply runs_ret.
Qed.

Lemma rest_extractor_args_runs name_str inputs id pre :
  runs id pre (rest_extractor_args name_str inputs id)
    (valid_extractors name_str (typed_prefix inputs)) (extractor_errors name_str (typed_prefix inputs)).
Proof.
  revert pre. induction inputs as [|[|ty] inputs IH]; intros pre; simpl; [apply runs_ret..|].
  eapply runs_bind; [apply validate_param_ty_runs|]. eapply runs_bind_nil; [apply IH|].
  destruct (type_errors name_str ExtractorTy ty); apply runs_ret.
Qed.

Definition return_value (sig : Signature) (name_str : string) : option SynType :=
  match output sig with DefaultReturn => None | ReturnTy ty => unless_errors (type_errors name_str ReturnKind ty) ty end.

Lemma return_type_runs sig name_str id pre :
  runs id pre (return_type sig name_str id) (return_value sig name_str) (return_errors sig name_str).
Proof.
  unfold return_type, return_errors, return_value. destruct (output sig) as [|ty].
  - eapply runs_bind_nil; [apply runs_push|apply runs_ret].
  - apply validate_param_ty_runs.
Qed.

Lemma return_value_Some sig name_str :
  return_errors sig name_str = [] → ∃ ty, output sig = ReturnTy ty ∧ return_value sig name_str = Some ty.
Proof.
  unfold return_errors, return_value. destruct (output sig) as [|ty]; [done|]. intros ->. by exists ty.
Qed.

Definition self_errors (sig : Signature) : list Error :=
  match inputs sig with Receiver :: _ => [endpoint_must (ident sig) "not have a `self` argument"] | _ => [] end.
Definition after_self (sig : Signature) : list FnArg :=
  match inputs sig with Receiver :: inputs => inputs | inputs => inputs end.

Lemma maybe_discard_self_arg_runs sig id pre :
  runs id pre (maybe_discard_self_arg (ident sig) (inputs sig) id) (after_self sig) (self_errors sig).
Proof.
  unfold self_errors, after_self. destruct (inputs sig) as [|[|ty] ins]; simpl; try apply runs_ret.
  eapply runs_bind_nil; [apply runs_push|apply runs_ret].
Qed.

Definition first_errors (name_str : string) (kind : RqctxKind) (ins : list FnArg) : list Error :=
  match ins with
  | Typed ty :: _ => rqctx_errors name_str kind ty
  | _ => [endpoint_must name_str "have at least one RequestContext argument"]
  end.

Definition first_value (name_str : string) (kind : RqctxKind) (ins : list FnArg) : option RqctxTy :=
  match ins with
  | Typed ty :: _ => unless_errors (rqctx_errors name_str kind ty) (rqctx_value kind ty)
  | _ => None
  end.

Lemma next_rqctx_arg_runs name_str kind ins id pre :
  runs id pre (next_rqctx_arg name_str kind ins id)
    (first_value name_str kind ins, tail ins) (first_errors name_str kind ins).
Proof.
  destruct ins as [|[|ty] ins]; simpl;
    (eapply runs_bind_nil; [apply runs_push || apply rqctx_ty_new_runs|apply runs_ret]).
Qed.

Definition endpoint_param_errors (sig : Signature) (kind : RqctxKind) : list Error :=
  fn_ast_errors sig (ident sig) ++ self_errors sig ++ first_errors (ident sig) kind (after_self sig)
  ++ extractor_errors (ident sig) (typed_prefix (tail (after_self sig))) ++ return_errors sig (ident sig).

Lemma has_any_app {T} (a b : list T) : has_any (a ++ b) = has_any a || has_any b.
Proof. by destruct a. Qed.

Lemma valid_extractors_all name_str tys : extractor_errors name_str tys = [] → valid_extractors name_str tys = tys.
Proof.
  unfold extractor_errors, valid_extractors. induction tys as [|ty tys IH]; [done|]. simpl.
  intros [-> H]%app_nil. simpl. f_equal. by apply IH.
Qed.

(** What [endpoint_params_new] finds where it reports nothing. *)
Definition endpoint_params_value (dropshot : TokenStream) (sig : Signature) (kind : RqctxKind) : option EndpointParams :=
  match after_self sig, output sig with
  | Typed rq :: rest, ReturnTy ret =>
      Some (mk_params dropshot (rqctx_value kind rq) (removelast (typed_prefix rest)) (last (typed_prefix rest)) ret)
  | _, _ => None
  end.

Lemma endpoint_params_runs dropshot sig kind id pre :
  runs id pre (endpoint_params_new dropshot sig kind id)
    (if has_any (endpoint_param_errors sig kind) then None else endpoint_params_value dropshot sig kind)
    (endpoint_param_errors sig kind).
Proof.
  apply runs_child. intros id'. eapply runs_bind; [apply validate_fn_ast_runs|].
  eapply runs_bind; [apply maybe_discard_self_arg_runs|]. eapply runs_bind; [apply next_rqctx_arg_runs|].
  eapply runs_bind; [apply rest_extractor_args_runs|]. eapply runs_bind_nil; [apply return_type_runs|].
  eapply runs_bind_ret; [apply runs_has_errors|].
  change (false || has_any ?x) with (has_any x). rewrite <-!has_any_app, <-!app_assoc.
  fold (endpoint_param_errors sig kind). destruct (endpoint_param_errors sig kind) eqn:E; simpl; [|apply runs_ret].
  apply app_nil in E as [_ [_ [H1 [H2 H3]%app_nil]%app_nil]%app_nil].
  destruct (return_value_Some sig _ H3) as (ret & Ho & ->). unfold endpoint_params_value. rewrite Ho.
  unfold first_errors, first_value in *. destruct (after_self sig) as [|[|rq] rest]; [done..|]. simpl in *.
  rewrite H1, valid_extractors_all by done. apply runs_ret.
Qed.

(** The first and the last argument of a channel. *)
Definition two_args (ins : list FnArg) : option (SynType * SynType) :=
  match head ins, last (tail ins) with Some (Typed rq), Some (Typed ws) => Some (rq, ws) | _, _ => None end.

Definition two_args_errors (name_str : string) (kind : RqctxKind) (ins : list FnArg) : list Error :=
  match two_args ins with
  | Some (rq, _) => rqctx_errors name_str kind rq
  | None => [two_arguments_error name_str]
  end.

Definition two_args_value (name_str : string) (kind : RqctxKind) (ins : list FnArg) :
    option RqctxTy * option SynType * list FnArg :=
  match two_args ins with
  | Some (rq, ws) => (unless_errors (rqctx_errors name_str kind rq) (rqctx_value kind rq), Some ws, removelast (tail ins))
  | None => (None, None, removelast (tail ins))
  end.

Lemma two_args_runs name_str kind ins id pre :
  runs id pre (next_rqctx_and_last_websocket_args name_str kind ins id)
    (two_args_value name_str kind ins) (two_args_errors name_str kind ins).
Proof.
  unfold next_rqctx_and_last_websocket_args, two_args_value, two_args_errors, two_args. cbv zeta.
  destruct (head ins) as [[|rq]|], (last (tail ins)) as [[|ws]|];
    (eapply runs_bind_nil; [apply runs_push || apply rqctx_ty_new_runs|apply runs_ret]).
Qed.

Definition websocket_errors (name_str : string) (ins : list FnArg) : list Error :=
  match two_args ins with Some (_, ws) => type_errors name_str WebsocketConnTy ws | None => [] end.

Definition channel_param_errors (sig : Signature) (kind : RqctxKind) : list Error :=
  fn_ast_errors sig (ident sig) ++ self_errors sig ++ two_args_errors (ident sig) kind (after_self sig)
  ++ extractor_errors (ident sig) (typed_prefix (removelast (tail (after_self sig))))
  ++ websocket_errors (ident sig) (after_self sig) ++ return_errors sig (ident sig).

Definition channel_params_value (dropshot : TokenStream) (sig : Signature) (kind : RqctxKind) : option ChannelParams :=
  match two_args (after_self sig), output sig with
  | Some (rq, ws), ReturnTy ret =>
      Some (mk_channel_params dropshot (rqctx_value kind rq) (typed_prefix (removelast (tail (after_self sig)))) ws ret
        (ident sig +:+ "_adapter") (TOther (dropshot +:+ "::WebsocketUpgrade"))
        (TOther (dropshot +:+ "::WebsocketEndpointResult")))
  | _, _ => None
  end.

Lemma channel_params_runs dropshot sig kind id pre :
  runs id pre (channel_params_new dropshot sig kind id)
    (if has_any (channel_param_errors sig kind) then None else channel_params_value dropshot sig kind)
    (channel_param_errors sig kind).
Proof.
  apply runs_child. intros id'. eapply runs_bind; [apply validate_fn_ast_runs|].
  eapply runs_bind; [apply maybe_discard_self_arg_runs|]. eapply runs_bind; [apply two_args_runs|].
  unfold two_args_value, channel_param_errors, two_args_errors, websocket_errors, channel_params_value.
  destruct (two_args (after_self sig)) as [[rq ws]|]; (eapply runs_bind; [apply rest_extractor_args_runs|]);
    (eapply runs_bind; [apply validate_param_ty_runs || apply runs_ret|]);
    (eapply runs_bind_nil; [apply return_type_runs|]); (eapply runs_bind_ret; [apply runs_has_errors|]);
    change (false || has_any ?x) with (has_any x); rewrite <-!has_any_app, <-!app_assoc;
    match goal with |- context [has_any ?l] => destruct l eqn:E end; simpl; try apply runs_ret.
  - apply app_nil in E as [_ [_ [H1 [H2 [H3 H4]%app_nil]%app_nil]%app_nil]%app_nil].
    destruct (return_value_Some sig _ H4) as (ret & -> & ->). rewrite H1, H3, valid_extractors_all by done. apply runs_ret.
  - by apply app_nil in E as [_ [_ [[=] _]%app_nil]%app_nil].
Qed.

(** ** What is accepted *)

Record signature_plain (sig : Signature) : Prop := {
  sp_const : constness sig = false;
  sp_async : asyncness sig = true;
  sp_safety : safety sig = DefaultSafety;
  sp_abi : abi sig = false;
  sp_generics : generics_params sig = [];
  sp_where : where_clause sig = None ∨ where_clause sig = Some [];
  sp_variadic : variadic sig = false;
}.

(** A type without lifetimes other than ['static], lifetime bounds, [Self] and
    [impl Trait]. *)
Definition visit_allowed (v : Visit) : Prop :=
  match v with
  | VisitLifetime i => i = "static"
  | VisitIdent i => i ≠ "Self"
  | VisitBoundLifetimes | VisitTypeImplTrait => False
  end.

Definition type_clean (ty : SynType) : Prop := Forall visit_allowed (type_visits ty).

(** The type of the first argument. *)
Definition rqctx_ok (kind : RqctxKind) (ty : SynType) : Prop :=
  match kind with
  | KindFunction => extract_rqctx_param ty = Ok None ∨ ∃ p, extract_rqctx_param ty = Ok (Some p) ∧ type_clean p
  | KindTrait t c => ∃ p, extract_rqctx_param ty = Ok (Some p) ∧ is_self_context t c p
  end.

Lemma fn_ast_errors_nil sig name_str : fn_ast_errors sig name_str = [] ↔ signature_plain sig.
Proof.
  unfold fn_ast_errors. rewrite !app_nil. split.
  - intros (H1 & H2 & H3 & H4 & H5 & H6 & H7). unfold where_nonempty in H6. constructor.
    + by destruct (constness sig).
    + by destruct (asyncness sig).
    + by destruct (safety sig).
    + by destruct (abi sig).
    + by destruct (generics_params sig).
    + destruct (where_clause sig) as [[|]|]; [by right|done|by left].
    + by destruct (variadic sig).
  - intros [-> -> -> -> -> Hw ->]. unfold where_nonempty. split_and!; try done. by destruct Hw as [-> | ->].
Qed.

Lemma type_errors_nil name_str kind ty : type_errors name_str kind ty = [] ↔ type_clean ty.
Proof.
  unfold type_errors, type_clean. induction (type_visits ty) as [|v vs IH]; simpl; [done|].
  rewrite Forall_cons, <-IH. clear IH. destruct v as [|i|i|]; simpl; try (split; [done|by intros [[] _]]).
  - destruct (String.eqb_spec i "static") as [->|]; simpl; [tauto|]. split; [done|by intros [? _]].
  - destruct (String.eqb_spec i "Self") as [->|]; simpl; [|tauto]. split; [done|by intros [? _]].
Qed.

Lemma rqctx_errors_nil name_str kind ty : rqctx_errors name_str kind ty = [] ↔ rqctx_ok kind ty.
Proof.
  unfold rqctx_errors, rqctx_ok. destruct kind as [|t c], (extract_rqctx_param ty) as [[p|]|e|msg] eqn:E.
  - rewrite type_errors_nil. split; [intros H; right; by exists p|]. by intros [[=]|(? & [= <-] & H)].
  - split; [by left|done].
  - split; [done|]. by intros [[=]|(? & [=] & _)].
  - split; [done|]. by intros [[=]|(? & [=] & _)].
  - case_decide as Hc; (split; [intros H|]); try done; [by exists p|]. by intros (? & [= <-] & ?).
  - split; [done|]. by intros (? & [=] & _).
  - split; [done|]. by intros (? & [=] & _).
  - split; [done|]. by intros (? & [=] & _).
Qed.

Lemma extractor_errors_nil name_str tys : extractor_errors name_str tys = [] ↔ Forall type_clean tys.
Proof.
  unfold extractor_errors. induction tys as [|ty tys IH]; simpl; [done|].
  by rewrite app_nil, Forall_cons, IH, type_errors_nil.
Qed.

Lemma return_errors_nil sig name_str :
  return_errors sig name_str = [] ↔ ∃ ret, output sig = ReturnTy ret ∧ type_clean ret.
Proof.
  unfold return_errors. destruct (output sig) as [|ret].
  - split; [done|]. by intros (? & [=] & _).
  - rewrite type_errors_nil. split; [intros H; by exists ret|]. by intros (? & [= <-] & H).
Qed.

(** ** Replacing the context of a type *)

Lemma extract_set_rqctx_param ty p new :
  extract_rqctx_param ty = Ok (Some p) →
  extract_rqctx_param (set_rqctx_param ty new) = Ok (Some new) ∧ set_rqctx_param ty p = ty.
Proof.
  destruct ty as [q l segs| | |]; simpl; [|done..]. destruct (last segs) as [[i args]|] eqn:E; [|done].
  destruct args as [|args|]; [done| |done]. destruct args as [|a [|b args]]; simpl; [done| |done].
  destruct a as [a|a]; [|done]. intros [= ->]. split.
  - simpl. by rewrite last_snoc.
  - f_equal. apply last_Some in E as [segs' ->]. by rewrite removelast_last.
Qed.

Lemma set_set_rqctx_param ty p x y :
  extract_rqctx_param ty = Ok (Some p) → set_rqctx_param (set_rqctx_param ty x) y = set_rqctx_param ty y.
Proof.
  destruct ty as [q l segs| | |]; simpl; [|done..]. destruct (last segs) as [[i args]|] eqn:E; [|done].
  destruct args as [|args|]; [done| |done]. destruct args as [|a [|b args]]; simpl; [done| |done].
  destruct a as [a|a]; [|done]. intros _. simpl. by rewrite last_snoc, removelast_last.
Qed.
End validator.

Lemma arg_name_inj i j : arg_name i = arg_name j → i = j.
Proof.
  unfold arg_name, show_N. intros H. apply (inj (String.append "arg")) in H. apply (inj pretty) in H. lia.
Qed.

Lemma arg_names_nodup n : NoDup (arg_name <$> seq 0 n).
Proof. apply (NoDup_fmap_2_strong arg_name); [intros ?? _ _; apply arg_name_inj|apply NoDup_seq]. Qed.

Lemma channel_arg_names_nodup self : NoDup (channel_arg_names self).
Proof.
  apply NoDup_app. split; [apply arg_names_nodup|]. split; [|apply NoDup_singleton].
  intros x (i & -> & _)%list_elem_of_fmap Hi%list_elem_of_singleton. done.
Qed.

Section theorems.
Context (type_visits : SynType → list Visit).

(** A function that the [endpoint] macro accepts: its request context, its
    extractors and its result. *)
Record endpoint_sig (sig : Signature) (kind : RqctxKind) (rq : SynType) (exts : list SynType) (ret : SynType) : Prop := {
  es_plain : signature_plain sig;
  es_inputs : ∃ rest, inputs sig = Typed rq :: rest ∧ exts = typed_prefix rest;
  es_output : output sig = ReturnTy ret;
  es_rqctx : rqctx_ok type_visits kind rq;
  es_clean : Forall (type_clean type_visits) (ret :: exts);
}.

Lemma endpoint_param_errors_nil sig kind :
  endpoint_param_errors type_visits sig kind = [] ↔ ∃ rq exts ret, endpoint_sig sig kind rq exts ret.
Proof.
  unfold endpoint_param_errors. rewrite !app_nil, fn_ast_errors_nil, extractor_errors_nil, return_errors_nil.
  unfold self_errors, after_self, first_errors. split.
  - intros (Hp & Hs & Hf & He & ret & Ho & Hr). destruct (inputs sig) as [|[|rq] rest] eqn:Ei; [done..|].
    apply rqctx_errors_nil in Hf. exists rq, (typed_prefix rest), ret. by constructor; eauto.
  - intros (rq & exts & ret & [Hp (rest & -> & ->) Ho Hr [Hc He]%Forall_cons]). simpl. rewrite rqctx_errors_nil.
    split_and!; try done. by exists ret.
Qed.

Lemma removelast_last_list {A} (l : list A) : removelast l ++ option_list (last l) = l.
Proof.
  destruct l as [|x l] using rev_ind; [done|]. by rewrite removelast_last, last_snoc.
Qed.

(** The macro reads the parameters of an endpoint function without a panic, and
    reports an error exactly if it gives no parameters.  It accepts the
    signatures that [endpoint_sig] describes; all extractors are kept in their
    order, the last one being the exclusive one, and the names of the generated
    function's arguments are as many as their types and all different. *)
Lemma endpoint_params_spec (dropshot : TokenStream) (sig : Signature) (kind : RqctxKind) :
  ∃ r errs, (∀ id pre, runs id pre (endpoint_params_new type_visits dropshot sig kind id) r errs) ∧
    (r = None ↔ errs ≠ []) ∧
    (∀ p, r = Some p → ∃ rq exts ret, endpoint_sig sig kind rq exts ret ∧
       ep_rqctx_ty p = rqctx_value kind rq ∧ ep_ret_ty p = ret ∧ ep_dropshot p = dropshot ∧
       extractor_types p = exts ∧ ep_exclusive_extractor p = last exts ∧
       length (arg_names p) = length (arg_types p) ∧ NoDup (arg_names p)) ∧
    (∀ rq exts ret, endpoint_sig sig kind rq exts ret → is_Some r).
Proof.
  set (errs := endpoint_param_errors type_visits sig kind).
  assert (errs = [] → ∃ rq exts ret, endpoint_sig sig kind rq exts ret ∧
    endpoint_params_value dropshot sig kind =
      Some (mk_params dropshot (rqctx_value kind rq) (removelast exts) (last exts) ret)) as Hv.
  { intros (rq & exts & ret & Hs)%endpoint_param_errors_nil. exists rq, exts, ret. split; [done|].
    destruct Hs as [_ (rest & Hi & ->) Ho _ _]. unfold endpoint_params_value, after_self. by rewrite Hi, Ho. }
  exists (if has_any errs then None else endpoint_params_value dropshot sig kind), errs.
  split; [intros; apply endpoint_params_runs|]. split; [|split].
  - destruct errs as [|e errs]; [|done]. destruct (Hv eq_refl) as (? & ? & ? & _ & E). simpl. by rewrite E.
  - intros p Hp. destruct errs as [|e errs]; [|done]. destruct (Hv eq_refl) as (rq & exts & ret & Hs & E).
    simpl in Hp. rewrite E in Hp. injection Hp as <-. exists rq, exts, ret.
    unfold arg_names. split_and!; try done.
    + apply removelast_last_list.
    + rewrite length_fmap, length_seq. simpl. unfold extractor_types. simpl. rewrite length_app.
      destruct (last exts); simpl; lia.
    + apply arg_names_nodup.
  - intros rq exts ret Hs. assert (errs = []) as Hnil by (apply endpoint_param_errors_nil; eauto).
    destruct (Hv Hnil) as (? & ? & ? & _ & E). rewrite Hnil. simpl. by rewrite E.
Qed.

(** A function that the [channel] macro accepts. *)
Record channel_sig (sig : Signature) (kind : RqctxKind) (rq : SynType) (exts : list SynType) (ws ret : SynType) : Prop := {
  cs_plain : signature_plain sig;
  cs_inputs : ∃ rest, inputs sig = Typed rq :: rest ++ [Typed ws] ∧ exts = typed_prefix rest;
  cs_output : output sig = ReturnTy ret;
  cs_rqctx : rqctx_ok type_visits kind rq;
  cs_clean : Forall (type_clean type_visits) (ret :: ws :: exts);
}.

Lemma two_args_Some ins rq ws :
  two_args ins = Some (rq, ws) ↔ ∃ rest, ins = Typed rq :: rest ++ [Typed ws] ∧ removelast (tail ins) = rest.
Proof.
  unfold two_args. split.
  - destruct ins as [|[|x] ins]; try done. simpl. destruct ins as [|y ins _] using rev_ind; [done|].
    rewrite last_snoc. destruct y as [|y]; [done|]. intros [= -> ->]. exists ins. by rewrite removelast_last.
  - intros (rest & -> & _). simpl. by rewrite last_snoc.
Qed.

Lemma channel_param_errors_nil sig kind :
  channel_param_errors type_visits sig kind = [] ↔ ∃ rq exts ws ret, channel_sig sig kind rq exts ws ret.
Proof.
  unfold channel_param_errors. rewrite !app_nil, fn_ast_errors_nil, extractor_errors_nil, return_errors_nil.
  unfold self_errors, after_self, two_args_errors, websocket_errors. split.
  - intros (Hp & Hs & Hf & He & Hw & ret & Ho & Hr). destruct (inputs sig) as [|[|x] ins] eqn:Ei; [done..|].
    destruct (two_args (Typed x :: ins)) as [[rq ws]|] eqn:E2; [|done]. apply two_args_Some in E2 as (rest & E2 & Er).
    apply rqctx_errors_nil in Hf. apply type_errors_nil in Hw. rewrite Er in He.
    exists rq, (typed_prefix rest), ws, ret. constructor; [done| |done..|by constructor; [done|constructor]].
    exists rest. by rewrite Ei, E2.
  - intros (rq & exts & ws & ret & [Hp (rest & -> & ->) Ho Hr [Hc [Hw He]%Forall_cons]%Forall_cons]).
    assert (two_args (Typed rq :: rest ++ [Typed ws]) = Some (rq, ws)) as ->.
    { apply two_args_Some. exists rest. split; [done|]. simpl. by rewrite removelast_last. }
    simpl. rewrite rqctx_errors_nil, type_errors_nil, removelast_last. split_and!; try done. by exists ret.
Qed.

Lemma channel_params_value_spec dropshot sig kind rq exts ws ret :
  channel_sig sig kind rq exts ws ret →
  channel_params_value dropshot sig kind =
    Some (mk_channel_params dropshot (rqctx_value kind rq) exts ws ret (ident sig +:+ "_adapter")
      (TOther (dropshot +:+ "::WebsocketUpgrade")) (TOther (dropshot +:+ "::WebsocketEndpointResult"))).
Proof.
  intros [_ (rest & Hi & ->) Ho _ _]. unfold channel_params_value, after_self. rewrite Hi, Ho.
  assert (two_args (Typed rq :: rest ++ [Typed ws]) = Some (rq, ws)) as ->.
  { apply two_args_Some. exists rest. split; [done|]. simpl. by rewrite removelast_last. }
  simpl. by rewrite removelast_last.
Qed.

(** Likewise for channels: the first argument is the request context, the last
    one the connection, and those between are extractors. *)
Lemma channel_params_spec (dropshot : TokenStream) (sig : Signature) (kind : RqctxKind) :
  ∃ r errs, (∀ id pre, runs id pre (channel_params_new type_visits dropshot sig kind id) r errs) ∧
    (r = None ↔ errs ≠ []) ∧
    (∀ p, r = Some p → ∃ rq exts ws ret, channel_sig sig kind rq exts ws ret ∧
       cp_rqctx_ty p = rqctx_value kind rq ∧ cp_shared_extractors p = exts ∧ cp_websocket_conn p = ws ∧
       cp_ret_ty p = ret ∧ cp_dropshot p = dropshot ∧
       length (channel_arg_names p) = length (adapter_arg_types p) ∧
       length (channel_arg_names p) = length (channel_arg_types p) ∧ NoDup (channel_arg_names p)) ∧
    (∀ rq exts ws ret, channel_sig sig kind rq exts ws ret → is_Some r).
Proof.
  set (errs := channel_param_errors type_visits sig kind).
  assert (errs = [] → ∃ rq exts ws ret, channel_sig sig kind rq exts ws ret) as Hv by apply channel_param_errors_nil.
  exists (if has_any errs then None else channel_params_value dropshot sig kind), errs.
  split; [intros; apply channel_params_runs|]. split; [|split].
  - destruct errs as [|e errs]; [|done]. destruct (Hv eq_refl) as (? & ? & ? & ? & Hs). simpl.
    by rewrite (channel_params_value_spec _ _ _ _ _ _ _ Hs).
  - intros p Hp. destruct errs as [|e errs]; [|done]. destruct (Hv eq_refl) as (rq & exts & ws & ret & Hs).
    simpl in Hp. rewrite (channel_params_value_spec _ _ _ _ _ _ _ Hs) in Hp. injection Hp as <-.
    exists rq, exts, ws, ret. split; [done|]. unfold channel_arg_names. split_and!; try done.
    + unfold adapter_arg_types, channel_extractor_types. simpl. rewrite !length_app, length_fmap, length_seq. simpl. lia.
    + unfold channel_arg_types. simpl. rewrite !length_app, length_fmap, length_seq. simpl. lia.
    + apply (channel_arg_names_nodup (mk_channel_params _ _ _ _ _ _ _ _)).
  - intros rq exts ws ret Hs. assert (errs = []) as Hnil by (apply channel_param_errors_nil; eauto 6).
    rewrite Hnil. simpl. by rewrite (channel_params_value_spec _ _ _ _ _ _ _ Hs).
Qed.
End theorems.
