(* ===== verification/MacroEndpoint.v ===== *)
(** * The [endpoint] and [channel] macros

    [do_endpoint] and [do_channel] of [dropshot_endpoint/src/endpoint.rs] and
    [channel.rs]: from an attribute and a function to the generated items, the
    checks on types and the adapter of a channel among them, and the errors.

    The generated items are data ([MacroOutput]); the item itself and spans are
    left out where they are passed through.  Parsing ([syn], [syn_parsing.rs],
    [serde_tokenstream]) is a parameter. *)
From S2P Require Import Prelude Externals ErrorStore MacroSyn MacroDoc MacroMetadata MacroParams.

(** ** What is generated for the parameters *)

(** The items that check a type ([const _: fn() = ...]). *)
Inductive TypeCheck :=
| NeedRequestContext (rqctx : SynType)
| NeedSharedExtractor (ty : SynType)
| NeedExclusiveExtractor (ty : SynType)
| NeedResult (ret : SynType)
| NeedWebsocketConnection (ty : SynType).

(** [EndpointParams::to_type_checks]; the context is [to_context] of the type. *)
Definition to_type_checks (self : EndpointParams) : list TypeCheck :=
  NeedRequestContext (transformed_unit_type (ep_rqctx_ty self))
  :: (NeedSharedExtractor <$> ep_shared_extractors self)
  ++ option_list (NeedExclusiveExtractor <$> ep_exclusive_extractor self)
  ++ [NeedResult (ep_ret_ty self)].

Definition to_trait_type_checks (self : ChannelParams) : list TypeCheck :=
  [NeedWebsocketConnection (cp_websocket_conn self)].

Definition channel_type_checks (self : ChannelParams) : list TypeCheck :=
  NeedRequestContext (transformed_unit_type (cp_rqctx_ty self))
  :: (NeedSharedExtractor <$> cp_shared_extractors self)
  ++ to_trait_type_checks self.

(** A function that calls [callee] with the arguments named. *)
Record ImplCheck := mk_impl_check {
  ic_params : list (string * SynType);
  ic_callee : TokenStream;
  ic_args : list string;
}.

Definition to_impl_checks (self : EndpointParams) (name : string) : ImplCheck :=
  mk_impl_check (zip (arg_names self) (arg_types self)) name (arg_names self).

Definition channel_impl_checks (self : ChannelParams) (name : string) : ImplCheck :=
  mk_impl_check (zip (channel_arg_names self) (channel_arg_types self)) name (channel_arg_names self).

(** The adapter: it hands a closure with the connection, named like its own last
    argument, to [handle] of that argument; the closure calls [callee]. *)
Record AdapterFn := mk_adapter {
  ad_name : string;
  ad_params : list (string * SynType);
  ad_ret : SynType;
  ad_receiver : string;
  ad_closure_param : string * SynType;
  ad_callee : TokenStream;
  ad_args : list string;
}.

Definition adapter_with (self : ChannelParams) (callee : TokenStream) : AdapterFn :=
  mk_adapter (cp_adapter_name self) (zip (channel_arg_names self) (adapter_arg_types self))
    (cp_endpoint_result_ty self) "__dropshot_websocket" ("__dropshot_websocket", cp_websocket_conn self)
    callee (channel_arg_names self).

(** [to_adapter_fn], and [to_trait_adapter_fn], which is generic in [ServerImpl]. *)
Definition to_adapter_fn (self : ChannelParams) (name : string) : AdapterFn := adapter_with self name.
Definition to_trait_adapter_fn (self : ChannelParams) (trait_ident name : string) : AdapterFn :=
  adapter_with self ("<ServerImpl as " +:+ trait_ident +:+ ">::" +:+ name).

(** ** What the adapter does *)

Section run.
Context {Value : Type}.

Fixpoint lookup_var (x : string) (env : list (string * Value)) : option Value :=
  match env with
  | [] => None
  | (y, v) :: env => if String.eqb x y then Some v else lookup_var x env
  end.

(** The arguments of the call in the closure, on the adapter's [args] and the
    connection that [handle] gives it; and the value that [handle] is called on. *)
Definition adapter_call (f : AdapterFn) (args : list Value) (conn : Value) : option (Value * list Value) :=
  let env := zip (ad_params f).*1 args in
  receiver ← lookup_var (ad_receiver f) env;
  call ← mapM (λ x, lookup_var x (((ad_closure_param f).1, conn) :: env)) (ad_args f);
  Some (receiver, call).

Lemma lookup_var_zip names values i x v :
  NoDup names → names !! i = Some x → values !! i = Some v → lookup_var x (zip names values) = Some v.
Proof.
  revert values i. induction names as [|y names IH]; intros [|w values] [|i] Hd Hx Hv; try done; simpl in *.
  - simplify_eq. by rewrite String.eqb_refl.
  - apply NoDup_cons in Hd as [Hy Hd]. destruct (String.eqb_spec x y) as [->|].
    + destruct Hy. by eapply list_elem_of_lookup_2.
    + by apply (IH values i).
Qed.

(** The adapter calls the endpoint's function with its own arguments, in their
    order, but for the last one: that is the connection that [handle] of the
    last argument gives the closure. *)
Lemma adapter_call_spec (self : ChannelParams) (callee : TokenStream) (args : list Value) (upgrade conn : Value) :
  S (length args) = length (adapter_arg_types self) →
  adapter_call (adapter_with self callee) (args ++ [upgrade]) conn = Some (upgrade, args ++ [conn]).
Proof.
  intros Hl. unfold adapter_call, adapter_with. cbn [ad_params ad_receiver ad_closure_param ad_args fst].
  set (ns := arg_name <$> seq 0 (1 + length (cp_shared_extractors self))).
  change (channel_arg_names self) with (ns ++ ["__dropshot_websocket"]).
  assert (length ns = length args) as Hns.
  { unfold ns, adapter_arg_types, channel_extractor_types in *. simpl in Hl.
    rewrite length_fmap, length_seq. rewrite length_app in Hl. simpl in Hl. lia. }
  assert (NoDup (ns ++ ["__dropshot_websocket"])) as Hd by apply channel_arg_names_nodup.
  rewrite (fst_zip _ (adapter_arg_types self)); [|rewrite length_app, <-Hl, Hns, Nat.add_1_r; done].
  rewrite (lookup_var_zip _ _ (length ns) "__dropshot_websocket" upgrade Hd);
    [cbn [mbind option_bind]|by apply list_lookup_middle|by apply list_lookup_middle].
  rewrite (proj2 (mapM_Some _ _ (args ++ [conn]))); [done|].
  apply NoDup_app in Hd as Hd'. destruct Hd' as (Hdn & Hnot & _).
  apply Forall2_app; [|by constructor]. apply Forall2_same_length_lookup_2; [done|]. intros i x v Hx Hv. simpl.
  destruct (String.eqb_spec x "__dropshot_websocket") as [->|].
  - destruct (Hnot "__dropshot_websocket"); [by eapply list_elem_of_lookup_2|by apply list_elem_of_singleton].
  - apply (lookup_var_zip _ _ i x v Hd); by apply lookup_app_l_Some.
Qed.
End run.

(** ** The macros *)

(** [ItemFnForSignature] and [TraitItemFnForSignature], as parsed. *)
Record ItemFn := mk_item_fn {
  fn_attrs : list (Attribute TokenStream);
  fn_vis : TokenStream;
  fn_sig : Signature;
}.

Record TraitItemFn := mk_trait_fn {
  tf_attrs : list (Attribute TokenStream);
  tf_sig : Signature;
  tf_block : option TokenStream;
}.

Definition endpoint_usage_str (context : string) : Error :=
  join (char_str newline)
    ["endpoint handlers must have the following signature:";
     "    async fn(";
     "        rqctx: dropshot::RequestContext<" +:+ context +:+ ">,";
     "        [query_params: Query<Q>,]";
     "        [path_params: Path<P>,]";
     "        [body_param: TypedBody<J>,]";
     "        [body_param: UntypedBody,]";
     "        [body_param: StreamingBody,]";
     "        [raw_request: RawRequest,]";
     "    ) -> Result<HttpResponse*, impl HttpResponseError>"].

Definition channel_usage_str (context : string) : Error :=
  join (char_str newline)
    ["channel handlers must have the following signature:";
     "    async fn(";
     "        rqctx: dropshot::RequestContext<" +:+ context +:+ ">,";
     "        [query_params: Query<Q>,]";
     "        [path_params: Path<P>,]";
     "        websocket_connection: dropshot::WebsocketConnection,";
     "    ) -> dropshot::WebsocketChannelResult"].

Definition trait_function_error (name : string) : Error :=
  "endpoint `" +:+ name +:+ "` appears to be a trait function" +:+ char_str newline
  +:+ "note: did you mean to use `#[dropshot::api_description]` instead?".

(** Quoting that may panic, among computations that report errors. *)
Definition sink_lift {A} (m : panics A) : sinkM (T := Error) A :=
  λ s, match m with Ok a => Some (Ok (a, s)) | Err e => match e with end | Panic msg => Some (Panic msg) end.

Lemma runs_lift {A} (m : panics A) a id pre : m = Ok a → runs id pre (sink_lift m) a [].
Proof. intros ->. apply runs_ret. Qed.

Section macros.
Context {V : Type} {Expr : Type} `{SemVer V} `{!SemVerParts V}.
Context (type_visits : SynType → list Visit) (parse_str : string → option TokenStream).

(** The impl of [From] for the endpoint: the context's type, the checks, the
    adapter of a channel, and the expression, or [unreachable!()]. *)
Record FromImpl := mk_from_impl {
  fi_rqctx : SynType;
  fi_impl_checks : ImplCheck;
  fi_adapter : option AdapterFn;
  fi_construct : option (EndpointExpr (Expr := Expr));
}.

(** The original item, nothing, or the items generated for a function. *)
Inductive MacroOutput :=
| OutItem
| OutNothing
| OutGenerated (type_checks : list TypeCheck) (visibility name comment : string) (from_impl : option FromImpl).

Definition do_endpoint_inner (metadata : EndpointMetadata (V := V) (Expr := Expr)) (f : ItemFn) (errors : nat) :
    sinkM (T := Error) (MacroOutput * bool) :=
  let dropshot := get_crate parse_str (md_dropshot_crate metadata) in
  let name := ident (fn_sig f) in
  metadata ← endpoint_validate metadata name FunctionMacro errors;
  params ← endpoint_params_new type_visits dropshot (fn_sig f) KindFunction errors;
  let doc := from_attrs (fn_attrs f) in
  match params with
  | Some params =>
      construct ← match metadata with
        | Some metadata => x ← sink_lift (to_api_endpoint_fn metadata dropshot name (Regular name) doc); mret (Some x)
        | None => mret None
        end;
      mret (OutGenerated (to_type_checks params) (fn_vis f) name (comment_text doc name)
        (Some (mk_from_impl (transformed_unit_type (ep_rqctx_ty params)) (to_impl_checks params name) None construct)),
        false)
  | None => mret (OutGenerated [] (fn_vis f) name (comment_text doc name) None, true)
  end.

Definition do_channel_inner (metadata : ChannelMetadata (V := V)) (f : ItemFn) (errors : nat) :
    sinkM (T := Error) (MacroOutput * bool) :=
  let dropshot := get_crate parse_str (ch_dropshot_crate metadata) in
  let name := ident (fn_sig f) in
  metadata ← channel_validate metadata name FunctionMacro errors;
  params ← channel_params_new type_visits dropshot (fn_sig f) KindFunction errors;
  let doc := from_attrs (fn_attrs f) in
  match params with
  | Some params =>
      construct ← match metadata with
        | Some metadata =>
            x ← sink_lift (to_api_endpoint_fn metadata dropshot name (Regular (cp_adapter_name params)) doc);
            mret (Some x)
        | None => mret None
        end;
      mret (OutGenerated (channel_type_checks params) (fn_vis f) name (comment_text doc name)
        (Some (mk_from_impl (transformed_unit_type (cp_rqctx_ty params)) (channel_impl_checks params name)
          (Some (to_adapter_fn params name)) construct)),
        false)
  | None => mret (OutGenerated [] (fn_vis f) name (comment_text doc name) None, true)
  end.

(** The part that [do_endpoint] and [do_channel] share, in the attribute's
    metadata [M]; parsing gives a value or an error. *)
Section outer.
Context {M : Type} (inner : M → ItemFn → nat → sinkM (T := Error) (MacroOutput * bool)) (usage : Error).
Context (parse_trait_fn : TokenStream → TraitItemFn + Error) (parse_item_fn : TokenStream → ItemFn + Error)
  (from_tokenstream : TokenStream → M + Error).

(** [Ok(x) => Some(x), Err(e) => { errors.push(e); None }]. *)
Definition ok_or_push {A} (r : A + Error) (errors : nat) : sinkM (T := Error) (option A) :=
  match r with inl a => mret (Some a) | inr e => sink_push errors e;; mret None end.

Definition macro_body (attr item : TokenStream) (errors : nat) : sinkM (T := Error) (MacroOutput * bool) :=
  let go :=
    metadata ← ok_or_push (from_tokenstream attr) errors;
    item_fn ← ok_or_push (parse_item_fn item) errors;
    match metadata, item_fn with
    | Some metadata, Some item_fn => inner metadata item_fn errors
    | None, Some _ => mret (OutItem, false)
    | _, None => mret (OutNothing, false)
    end in
  match parse_trait_fn item with
  | inl f => match tf_block f with
             | None => sink_push errors (trait_function_error (ident (tf_sig f)));; mret (OutItem, false)
             | Some _ => go
             end
  | inr _ => go
  end.

Definition run_macro (attr item : TokenStream) : option (panics (MacroOutput * list Error)) :=
  let '(errors, store) := store_sink store_new in
  match macro_body attr item errors store with
  | Some (Ok (output, has_param_errors, store)) =>
      let errors := into_inner store in
      Some (Ok (output, if has_param_errors : bool then usage :: errors else errors))
  | Some (Err e) => Some (Err e)
  | Some (Panic msg) => Some (Panic msg)
  | None => None
  end.
End outer.

Definition do_endpoint := run_macro do_endpoint_inner (endpoint_usage_str "MyContext").
Definition do_channel := run_macro do_channel_inner (channel_usage_str "MyContext").
End macros.

(** ** What the macros do *)

Section generic.
Context {V Expr M : Type} (inner : M → ItemFn → nat → sinkM (T := Error) (MacroOutput (Expr := Expr) * bool)) (usage : Error).
Context (parse_trait_fn : TokenStream → TraitItemFn + Error) (parse_item_fn : TokenStream → ItemFn + Error)
  (from_tokenstream : TokenStream → M + Error).
Context (output_of : M → ItemFn → MacroOutput (Expr := Expr) * bool) (errors_of : M → ItemFn → list Error).

(** The item is a trait's function without a body. *)
Definition trait_function (item : TokenStream) : option string :=
  match parse_trait_fn item with
  | inl f => match tf_block f with None => Some (ident (tf_sig f)) | Some _ => None end
  | inr _ => None
  end.

Definition parse_result (attr item : TokenStream) : MacroOutput (Expr := Expr) * bool * list Error :=
  match from_tokenstream attr, parse_item_fn item with
  | inl md, inl f => (output_of md f, errors_of md f)
  | inr e, inl _ => (OutItem, false, [e])
  | inl _, inr e => (OutNothing, false, [e])
  | inr e1, inr e2 => (OutNothing, false, [e1; e2])
  end.

Definition body_result (attr item : TokenStream) : MacroOutput (Expr := Expr) * bool * list Error :=
  match trait_function item with
  | Some name => (OutItem, false, [trait_function_error name])
  | None => parse_result attr item
  end.

Lemma ok_or_push_runs {A} (r : A + Error) id pre :
  runs id pre (ok_or_push r id) (match r with inl a => Some a | inr _ => None end)
    (match r with inl _ => [] | inr e => [e] end).
Proof. destruct r; [apply runs_ret|]. eapply runs_bind_nil; [apply runs_push|apply runs_ret]. Qed.

Lemma macro_body_runs attr item id pre :
  (∀ md f, from_tokenstream attr = inl md → ∀ id pre, runs id pre (inner md f id) (output_of md f) (errors_of md f)) →
  runs id pre (macro_body inner parse_trait_fn parse_item_fn from_tokenstream attr item id)
    (body_result attr item).1 (body_result attr item).2.
Proof.
  intros Hinner. unfold macro_body, body_result, trait_function. cbv zeta.
  assert (runs id pre
    (metadata ← ok_or_push (from_tokenstream attr) id; item_fn ← ok_or_push (parse_item_fn item) id;
     match metadata, item_fn with
     | Some metadata, Some item_fn => inner metadata item_fn id
     | None, Some _ => mret (OutItem, false)
     | _, None => mret (OutNothing, false)
     end) (parse_result attr item).1 (parse_result attr item).2) as Hgo.
  { unfold parse_result. pose proof (ok_or_push_runs (from_tokenstream attr) id pre) as H1.
    pose proof (ok_or_push_runs (parse_item_fn item) id) as H2.
    destruct (from_tokenstream attr) as [md|e1] eqn:Em, (parse_item_fn item) as [f|e2]; simpl in *.
    - eapply runs_bind_ret; [exact H1|]. eapply runs_bind_ret; [apply H2|]. by apply Hinner.
    - eapply runs_bind_ret; [exact H1|]. eapply runs_bind_nil; [apply H2|apply runs_ret].
    - eapply runs_bind_nil; [exact H1|]. eapply runs_bind_ret; [apply H2|apply runs_ret].
    - apply (runs_bind _ _ _ _ _ _ [e1] [e2] H1). eapply runs_bind_nil; [apply H2|apply runs_ret]. }
  destruct (parse_trait_fn item) as [f|e]; [|exact Hgo]. destruct (tf_block f); [exact Hgo|].
  eapply runs_bind_nil; [apply runs_push|apply runs_ret].
Qed.

Lemma run_macro_result attr item :
  (∀ md f, from_tokenstream attr = inl md → ∀ id pre, runs id pre (inner md f id) (output_of md f) (errors_of md f)) →
  run_macro inner usage parse_trait_fn parse_item_fn from_tokenstream attr item =
    let '(out, has_param_errors, errs) := body_result attr item in
    Some (Ok (out, if has_param_errors then usage :: errs else errs)).
Proof.
  intros Hinner. unfold run_macro.
  destruct (runs_store (macro_body inner parse_trait_fn parse_item_fn from_tokenstream attr item)
    (body_result attr item).1 (body_result attr item).2) as (s & Hs & He).
  { intros id. by apply macro_body_runs. }
  simpl in Hs. simpl. rewrite Hs. destruct (body_result attr item) as [[out hp] errs]. simpl in *. by rewrite He.
Qed.
End generic.

Section specs.
Context {V Expr : Type} `{SemVer V} `{!SemVerParts V}.
Context (type_visits : SynType → list Visit) (parse_str : string → option TokenStream).
Implicit Types (md : EndpointMetadata (V := V) (Expr := Expr)) (f : ItemFn).

(** Quoting a range that was parsed does not panic. *)
Lemma versions_expr_plain (r : VersionRange V) : range_plain r → ∃ x, versions_expr r = Ok x.
Proof.
  assert (∀ y : VersionSpecifier V, plain y → ∃ x, semver_expr y = Ok x) as Hs.
  { intros [v|p]; simpl; [|by eexists]. intros [Hp Hb]. unfold semver_parts. rewrite Hp, Hb. simpl.
    destruct (ver_parts v) as [[a b] c]. by eexists. }
  destruct r as [|x|y|x y]; simpl.
  - by eexists.
  - intros (e & ->)%Hs. by eexists.
  - intros (e & ->)%Hs. by eexists.
  - intros ((e1 & ->)%Hs & (e2 & ->)%Hs & _). by eexists.
Qed.

Lemma to_api_endpoint_fn_plain (m : ValidatedEndpointMetadata (V := V) (Expr := Expr)) dropshot name k doc :
  range_plain (v_versions m) → ∃ x, to_api_endpoint_fn m dropshot name k doc = Ok x.
Proof. intros (x & Hx)%versions_expr_plain. unfold to_api_endpoint_fn. rewrite Hx. by eexists. Qed.

(** The expression, of validated metadata. *)
Definition construct_of (m : option (ValidatedEndpointMetadata (V := V) (Expr := Expr))) (dropshot : TokenStream)
    (name : string) (k : ApiEndpointKind) (doc : ExtractedDoc) : option (EndpointExpr (Expr := Expr)) :=
  m ← m; match to_api_endpoint_fn m dropshot name k doc with Ok x => Some x | _ => None end.

(** What [do_endpoint_inner] generates for parameters without errors. *)
Definition endpoint_items f (params : EndpointParams) (construct : option (EndpointExpr (Expr := Expr))) : MacroOutput :=
  let name := ident (fn_sig f) in
  OutGenerated (to_type_checks params) (fn_vis f) name (comment_text (from_attrs (fn_attrs f)) name)
    (Some (mk_from_impl (transformed_unit_type (ep_rqctx_ty params)) (to_impl_checks params name) None construct)).

Definition failed_items f : MacroOutput (Expr := Expr) :=
  let name := ident (fn_sig f) in
  OutGenerated [] (fn_vis f) name (comment_text (from_attrs (fn_attrs f)) name) None.

Definition endpoint_crate md : TokenStream := get_crate parse_str (md_dropshot_crate md).

Definition endpoint_construct md f (m : option (ValidatedEndpointMetadata (V := V) (Expr := Expr))) :=
  construct_of m (endpoint_crate md) (ident (fn_sig f)) (Regular (ident (fn_sig f))) (from_attrs (fn_attrs f)).

Definition endpoint_inner_output md f : MacroOutput (Expr := Expr) * bool :=
  let merrs := endpoint_errors md (ident (fn_sig f)) FunctionMacro in
  let perrs := endpoint_param_errors type_visits (fn_sig f) KindFunction in
  match (if has_any perrs then None else endpoint_params_value (endpoint_crate md) (fn_sig f) KindFunction) with
  | Some params => (endpoint_items f params (endpoint_construct md f (unless_errors merrs (validated md))), false)
  | None => (failed_items f, true)
  end.

Definition endpoint_inner_errors md f : list Error :=
  endpoint_errors md (ident (fn_sig f)) FunctionMacro ++ endpoint_param_errors type_visits (fn_sig f) KindFunction.

Lemma endpoint_inner_runs md f :
  range_plain (default RAll (md_versions md)) →
  ∀ id pre, runs id pre (do_endpoint_inner type_visits parse_str md f id) (endpoint_inner_output md f)
    (endpoint_inner_errors md f).
Proof.
  intros Hp id pre. unfold endpoint_inner_output, endpoint_inner_errors, endpoint_construct, endpoint_crate. cbv zeta.
  eapply runs_bind; [apply endpoint_validate_runs|]. eapply runs_bind_nil; [apply endpoint_params_runs|].
  destruct (if has_any _ then None else _) as [params|]; [|apply runs_ret].
  destruct (unless_errors _ (validated md)) as [m|] eqn:Em; [|eapply runs_bind_ret; apply runs_ret].
  apply unless_errors_Some in Em as [_ ->].
  destruct (to_api_endpoint_fn_plain (validated md) (get_crate parse_str (md_dropshot_crate md)) (ident (fn_sig f))
    (Regular (ident (fn_sig f))) (from_attrs (fn_attrs f)) Hp) as [x Hx].
  unfold construct_of. simpl. rewrite Hx. eapply runs_bind_ret; [|apply runs_ret].
  eapply runs_bind_ret; [by apply runs_lift|apply runs_ret].
Qed.

Context (parse_trait_fn : TokenStream → TraitItemFn + Error) (parse_item_fn : TokenStream → ItemFn + Error).

(** A function that the macro accepts with its attribute. *)
Record endpoint_accepted (attr : EndpointMetadata (V := V) (Expr := Expr) + Error) (item : TokenStream) md f : Prop := {
  ea_trait : trait_function parse_trait_fn item = None;
  ea_attr : attr = inl md;
  ea_item : parse_item_fn item = inl f;
  ea_metadata : endpoint_valid md FunctionMacro;
  ea_signature : ∃ rq exts ret, endpoint_sig type_visits (fn_sig f) KindFunction rq exts ret;
}.

Lemma endpoint_inner_accepted md f :
  range_plain (default RAll (md_versions md)) → endpoint_valid md FunctionMacro →
  (∃ rq exts ret, endpoint_sig type_visits (fn_sig f) KindFunction rq exts ret) →
  endpoint_inner_errors md f = [] ∧
  ∃ params x, endpoint_params_value (endpoint_crate md) (fn_sig f) KindFunction = Some params ∧
    to_api_endpoint_fn (validated md) (endpoint_crate md) (ident (fn_sig f)) (Regular (ident (fn_sig f)))
      (from_attrs (fn_attrs f)) = Ok x ∧
    endpoint_inner_output md f = (endpoint_items f params (Some x), false).
Proof.
  intros Hp Hm Hs. pose proof (proj2 (endpoint_errors_nil md (ident (fn_sig f)) FunctionMacro) Hm) as Em.
  pose proof (proj2 (endpoint_param_errors_nil type_visits (fn_sig f) KindFunction) Hs) as Es.
  unfold endpoint_inner_output, endpoint_inner_errors. rewrite Em, Es. split; [done|]. cbv zeta.
  destruct Hs as (rq & exts & ret & [_ (rest & Hi & _) Ho _ _]).
  destruct (to_api_endpoint_fn_plain (validated md) (endpoint_crate md) (ident (fn_sig f))
    (Regular (ident (fn_sig f))) (from_attrs (fn_attrs f)) Hp) as [x Hx].
  unfold endpoint_params_value, after_self, endpoint_construct, construct_of. rewrite Hi, Ho. simpl. rewrite Hx.
  do 2 eexists. split_and!; done.
Qed.

Lemma endpoint_inner_rejected md f :
  ¬ (∃ rq exts ret, endpoint_sig type_visits (fn_sig f) KindFunction rq exts ret) →
  endpoint_inner_output md f = (failed_items f, true).
Proof.
  rewrite <-endpoint_param_errors_nil. intros Hs. unfold endpoint_inner_output. cbv zeta.
  by destruct (endpoint_param_errors _ _ _).
Qed.

(** C24: The [endpoint] macro ends without a panic, on metadata whose versions were
    parsed.  It reports no error exactly for functions and attributes that are
    accepted, and then generates the items with the parameters of the signature
    and the expression that builds the endpoint, never [unreachable!()].  Where
    the parameters have errors, the usage message comes before them. *)
Theorem do_endpoint_spec (from_tokenstream : TokenStream → EndpointMetadata (V := V) (Expr := Expr) + Error)
    (attr item : TokenStream) :
  (∀ md, from_tokenstream attr = inl md → range_plain (default RAll (md_versions md))) →
  ∃ out errs, do_endpoint type_visits parse_str parse_trait_fn parse_item_fn from_tokenstream attr item =
      Some (Ok (out, errs)) ∧
    (errs = [] ↔ ∃ md f, endpoint_accepted (from_tokenstream attr) item md f) ∧
    (∀ md f, endpoint_accepted (from_tokenstream attr) item md f →
       ∃ params x, endpoint_params_value (endpoint_crate md) (fn_sig f) KindFunction = Some params ∧
         to_api_endpoint_fn (validated md) (endpoint_crate md) (ident (fn_sig f)) (Regular (ident (fn_sig f)))
           (from_attrs (fn_attrs f)) = Ok x ∧
         out = endpoint_items f params (Some x)) ∧
    (∀ md f, trait_function parse_trait_fn item = None → from_tokenstream attr = inl md → parse_item_fn item = inl f →
       ¬ (∃ rq exts ret, endpoint_sig type_visits (fn_sig f) KindFunction rq exts ret) →
       out = failed_items f ∧ ∃ errs', errs = endpoint_usage_str "MyContext" :: errs').
Proof.
  intros Hplain. unfold do_endpoint.
  rewrite (run_macro_result _ _ _ _ _ endpoint_inner_output endpoint_inner_errors)
    by (intros md f E; by apply endpoint_inner_runs, Hplain).
  destruct (body_result parse_trait_fn parse_item_fn from_tokenstream endpoint_inner_output endpoint_inner_errors attr item)
    as [[out hp] errs] eqn:Eb. exists out, (if hp then endpoint_usage_str "MyContext" :: errs else errs).
  split; [done|]. unfold body_result, parse_result in Eb. split; [split|split].
  - destruct hp; [done|]. intros ->. destruct (trait_function parse_trait_fn item) eqn:Et; [by simplify_eq|].
    destruct (from_tokenstream attr) as [md|e1] eqn:Em, (parse_item_fn item) as [f|e2] eqn:Ef; try by simplify_eq.
    exists md, f. injection Eb as _ Ee. apply app_nil in Ee as [Ee1%endpoint_errors_nil Ee2%endpoint_param_errors_nil].
    by constructor.
  - intros (md & f & [Ht Ea Ef Hm Hs]). rewrite Ht, Ea, Ef in Eb.
    destruct (endpoint_inner_accepted md f (Hplain md Ea) Hm Hs) as (Ee & params & x & _ & _ & Eo).
    rewrite Ee, Eo in Eb. by simplify_eq.
  - intros md f [Ht Ea Ef Hm Hs]. rewrite Ht, Ea, Ef in Eb.
    destruct (endpoint_inner_accepted md f (Hplain md Ea) Hm Hs) as (_ & params & x & Hv & Hx & Eo).
    rewrite Eo in Eb. simplify_eq. by exists params, x.
  - intros md f Ht Ea Ef Hs. rewrite Ht, Ea, Ef, (endpoint_inner_rejected md f Hs) in Eb. simplify_eq.
    split; [done|]. by eexists.
Qed.
End specs.

(** ** Channels *)

Section channel_specs.
Context {V Expr : Type} `{SemVer V} `{!SemVerParts V}.
Context (type_visits : SynType → list Visit) (parse_str : string → option TokenStream).
Implicit Types (md : ChannelMetadata (V := V)) (f : ItemFn).

Definition channel_crate md : TokenStream := get_crate parse_str (ch_dropshot_crate md).

Definition channel_items f (params : ChannelParams) (construct : option (EndpointExpr (Expr := Expr))) : MacroOutput :=
  let name := ident (fn_sig f) in
  OutGenerated (channel_type_checks params) (fn_vis f) name (comment_text (from_attrs (fn_attrs f)) name)
    (Some (mk_from_impl (transformed_unit_type (cp_rqctx_ty params)) (channel_impl_checks params name)
       (Some (to_adapter_fn params name)) construct)).

Definition channel_inner_output md f : MacroOutput (Expr := Expr) * bool :=
  let merrs := channel_errors md (ident (fn_sig f)) FunctionMacro in
  let perrs := channel_param_errors type_visits (fn_sig f) KindFunction in
  match (if has_any perrs then None else channel_params_value (channel_crate md) (fn_sig f) KindFunction) with
  | Some params =>
      (channel_items f params
         (construct_of (unless_errors merrs (channel_validated (Expr := Expr) md)) (channel_crate md) (ident (fn_sig f))
            (Regular (cp_adapter_name params)) (from_attrs (fn_attrs f))), false)
  | None => (failed_items f, true)
  end.

Definition channel_inner_errors md f : list Error :=
  channel_errors md (ident (fn_sig f)) FunctionMacro ++ channel_param_errors type_visits (fn_sig f) KindFunction.

Lemma channel_inner_runs md f :
  range_plain (default RAll (ch_versions md)) →
  ∀ id pre, runs id pre (do_channel_inner (Expr := Expr) type_visits parse_str md f id) (channel_inner_output md f)
    (channel_inner_errors md f).
Proof.
  intros Hp id pre. unfold channel_inner_output, channel_inner_errors, channel_crate. cbv zeta.
  eapply runs_bind; [apply channel_validate_runs|]. eapply runs_bind_nil; [apply channel_params_runs|].
  destruct (if has_any _ then None else _) as [params|]; [|apply runs_ret].
  destruct (unless_errors _ (channel_validated (Expr := Expr) md)) as [m|] eqn:Em; [|eapply runs_bind_ret; apply runs_ret].
  apply unless_errors_Some in Em as [_ ->].
  destruct (to_api_endpoint_fn_plain (channel_validated (Expr := Expr) md) (get_crate parse_str (ch_dropshot_crate md))
    (ident (fn_sig f)) (Regular (cp_adapter_name params)) (from_attrs (fn_attrs f)) Hp) as [x Hx].
  unfold construct_of. simpl. rewrite Hx. eapply runs_bind_ret; [|apply runs_ret].
  eapply runs_bind_ret; [by apply runs_lift|apply runs_ret].
Qed.

Lemma channel_errors_nil md name_str :
  channel_errors md name_str FunctionMacro = [] ↔ is_wildcard_path (ch_path md) = false.
Proof. unfold channel_errors. simpl. by destruct (is_wildcard_path _). Qed.

Context (parse_trait_fn : TokenStream → TraitItemFn + Error) (parse_item_fn : TokenStream → ItemFn + Error).

Record channel_accepted (attr : ChannelMetadata (V := V) + Error) (item : TokenStream) md f : Prop := {
  ca_trait : trait_function parse_trait_fn item = None;
  ca_attr : attr = inl md;
  ca_item : parse_item_fn item = inl f;
  ca_path : is_wildcard_path (ch_path md) = false;
  ca_signature : ∃ rq exts ws ret, channel_sig type_visits (fn_sig f) KindFunction rq exts ws ret;
}.

Lemma channel_inner_accepted md f :
  range_plain (default RAll (ch_versions md)) → is_wildcard_path (ch_path md) = false →
  (∃ rq exts ws ret, channel_sig type_visits (fn_sig f) KindFunction rq exts ws ret) →
  channel_inner_errors md f = [] ∧
  ∃ params x, channel_params_value (channel_crate md) (fn_sig f) KindFunction = Some params ∧
    to_api_endpoint_fn (channel_validated (Expr := Expr) md) (channel_crate md) (ident (fn_sig f)) (Regular (cp_adapter_name params))
      (from_attrs (fn_attrs f)) = Ok x ∧
    channel_inner_output md f = (channel_items f params (Some x), false).
Proof.
  intros Hp Hw Hs. pose proof (proj2 (channel_errors_nil md (ident (fn_sig f))) Hw) as Em.
  pose proof (proj2 (channel_param_errors_nil type_visits (fn_sig f) KindFunction) Hs) as Es.
  unfold channel_inner_output, channel_inner_errors. rewrite Em, Es. split; [done|]. cbv zeta.
  destruct Hs as (rq & exts & ws & ret & Hs).
  rewrite (channel_params_value_spec type_visits (channel_crate md) _ _ _ _ _ _ Hs). simpl.
  set (params := mk_channel_params _ _ _ _ _ _ _ _).
  destruct (to_api_endpoint_fn_plain (channel_validated (Expr := Expr) md) (channel_crate md) (ident (fn_sig f))
    (Regular (cp_adapter_name params)) (from_attrs (fn_attrs f)) Hp) as [x Hx].
  exists params, x. unfold construct_of. simpl. unfold params in *. simpl in *. rewrite Hx. done.
Qed.

(** Likewise for the [channel] macro: a channel is not at a wildcard path, and
    its endpoint is built from the adapter, a [GET] without a limit on bodies. *)
Lemma do_channel_spec (from_tokenstream : TokenStream → ChannelMetadata (V := V) + Error) (attr item : TokenStream) :
  (∀ md, from_tokenstream attr = inl md → range_plain (default RAll (ch_versions md))) →
  ∃ out errs, do_channel (Expr := Expr) type_visits parse_str parse_trait_fn parse_item_fn from_tokenstream attr item =
      Some (Ok (out, errs)) ∧
    (errs = [] ↔ ∃ md f, channel_accepted (from_tokenstream attr) item md f) ∧
    (∀ md f, channel_accepted (from_tokenstream attr) item md f →
       ∃ params x, channel_params_value (channel_crate md) (fn_sig f) KindFunction = Some params ∧
         to_api_endpoint_fn (channel_validated (Expr := Expr) md) (channel_crate md) (ident (fn_sig f))
           (Regular (ad_name (to_adapter_fn params (ident (fn_sig f))))) (from_attrs (fn_attrs f)) = Ok x ∧
         x_method x = "GET" ∧ out = channel_items f params (Some x)).
Proof.
  intros Hplain. unfold do_channel.
  rewrite (run_macro_result _ _ _ _ _ channel_inner_output channel_inner_errors)
    by (intros md f E; by apply channel_inner_runs, Hplain).
  destruct (body_result parse_trait_fn parse_item_fn from_tokenstream channel_inner_output channel_inner_errors attr item)
    as [[out hp] errs] eqn:Eb. exists out, (if hp then channel_usage_str "MyContext" :: errs else errs).
  split; [done|]. unfold body_result, parse_result in Eb. split; [split|].
  - destruct hp; [done|]. intros ->. destruct (trait_function parse_trait_fn item) eqn:Et; [by simplify_eq|].
    destruct (from_tokenstream attr) as [md|e1] eqn:Em, (parse_item_fn item) as [f|e2] eqn:Ef; try by simplify_eq.
    exists md, f. injection Eb as _ Ee. apply app_nil in Ee as [Ee1%channel_errors_nil Ee2%channel_param_errors_nil].
    by constructor.
  - intros (md & f & [Ht Ea Ef Hm Hs]). rewrite Ht, Ea, Ef in Eb.
    destruct (channel_inner_accepted md f (Hplain md Ea) Hm Hs) as (Ee & params & x & _ & _ & Eo).
    rewrite Ee, Eo in Eb. by simplify_eq.
  - intros md f [Ht Ea Ef Hm Hs]. rewrite Ht, Ea, Ef in Eb.
    destruct (channel_inner_accepted md f (Hplain md Ea) Hm Hs) as (_ & params & x & Hv & Hx & Eo).
    rewrite Eo in Eb. simplify_eq. exists params, x. split_and!; try done.
    unfold to_api_endpoint_fn in Hx. by apply rust_bind_ok in Hx as (vs & _ & [= <-]).
Qed.
End channel_specs.
