(* ===== verification/MacroTrait.v ===== *)
(** * The [api_description] macro

    [dropshot_endpoint/src/api_trait.rs]: from a trait with methods marked as
    endpoints and channels to the trait without the marks and a support module,
    whose functions register the endpoints with an [ApiDescription].

    Of the generated module, [FactoryFn] is a function [api_description] or
    [stub_api_description], and [FactoryBody] its body; [run_factory] runs it with
    the definitions of [ApiDescription].  A trait is what [syn_parsing.rs] parses,
    which is a parameter like the parsing of attributes and [heck]'s case
    conversion. *)
From S2P Require Import Prelude Externals ErrorStore MacroSyn MacroDoc MacroModuleDoc MacroMetadata MacroParams MacroEndpoint.

Definition ENDPOINT_IDENT : string := "endpoint".
Definition CHANNEL_IDENT : string := "channel".

(** ** The arguments of the attribute *)

Record ApiTagExternalDocs := mk_api_tag_docs { atd_description : option string; atd_url : string }.
Record ApiTagDetails := mk_api_tag_details {
  at_description : option string;
  at_external_docs : option ApiTagExternalDocs;
}.

(** The policy is an expression; [tags] in the order of the [HashMap]. *)
Record ApiTagConfig := mk_api_tag_config {
  atc_allow_other_tags : bool;
  atc_policy : option TokenStream;
  atc_tags : list (string * ApiTagDetails);
}.

Record ApiMetadata := mk_api_metadata {
  am_context : option string;
  am_module : option string;
  am_tag_config : option ApiTagConfig;
  am_dropshot_crate : option string;
}.

Definition DEFAULT_CONTEXT_NAME : string := "Context".

Definition context_name (self : ApiMetadata) : string := default DEFAULT_CONTEXT_NAME (am_context self).

Definition module_name (to_snake_case : string → string) (self : ApiMetadata) (trait_ident : string) : string :=
  default (to_snake_case trait_ident +:+ "_mod") (am_module self).

(** ** The trait *)

Record TraitItemType := mk_item_type {
  ty_ident : string;
  ty_attrs : list (Attribute TokenStream);
  ty_generics_params : list TokenStream;
  ty_bounds : list TokenStream;
}.

(** [syn::TraitItem], of which the parser leaves functions to [TraitItemFn]. *)
Inductive OtherItem :=
| ItemConst (ident : string) (attrs : list (Attribute TokenStream))
| ItemFnOther (attrs : list (Attribute TokenStream))
| ItemType (t : TraitItemType)
| ItemMacro (path : TokenStream) (attrs : list (Attribute TokenStream))
| ItemVerbatim (text : TokenStream).

(** [TraitItemPartParsed]. *)
Inductive TraitItem :=
| TItemFn (f : TraitItemFn)
| TItemOther (o : OtherItem).

(** [syn::Visibility]: [pub], [pub(crate)] and the like with its path, or none. *)
Inductive TraitVis :=
| VisPublic
| VisRestricted (path : TokenStream)
| VisInherited.

Definition is_public (vis : TraitVis) : bool := match vis with VisPublic => true | _ => false end.

(** [ItemTraitPartParsed]. *)
Record ItemTrait := mk_item_trait {
  tr_attrs : list (Attribute TokenStream);
  tr_vis : TraitVis;
  tr_unsafety : bool;
  tr_auto : bool;
  tr_ident : string;
  tr_generics_params : list TokenStream;
  tr_where_clause : option (list TokenStream);
  tr_supertraits : list TokenStream;
  tr_items : list TraitItem;
}.

(** ** Stripping the attributes *)

Definition recognized (a : Attribute TokenStream) : bool := is_ident ENDPOINT_IDENT a || is_ident CHANNEL_IDENT a.

(** [retain]. *)
Definition strip_attrs (attrs : list (Attribute TokenStream)) : list (Attribute TokenStream) :=
  base.filter (λ a, recognized a = false) attrs.

Definition strip_fn (f : TraitItemFn) : TraitItemFn := mk_trait_fn (strip_attrs (tf_attrs f)) (tf_sig f) (tf_block f).

Definition strip_type (t : TraitItemType) : TraitItemType :=
  mk_item_type (ty_ident t) (strip_attrs (ty_attrs t)) (ty_generics_params t) (ty_bounds t).

Definition strip_other (o : OtherItem) : OtherItem :=
  match o with
  | ItemConst i attrs => ItemConst i (strip_attrs attrs)
  | ItemFnOther attrs => ItemFnOther (strip_attrs attrs)
  | ItemType t => ItemType (strip_type t)
  | ItemMacro p attrs => ItemMacro p (strip_attrs attrs)
  | ItemVerbatim t => ItemVerbatim t
  end.

Definition strip_item (i : TraitItem) : TraitItem :=
  match i with TItemFn f => TItemFn (strip_fn f) | TItemOther o => TItemOther (strip_other o) end.

(** [transform_signature]: without [async] and recognized attributes, with a
    future as its result. *)
Definition transform_signature (f : TraitItemFn) (ret_ty : SynType) : TraitItemFn :=
  let sig := tf_sig f in
  mk_trait_fn (strip_attrs (tf_attrs f))
    (mk_signature (constness sig) false (safety sig) (abi sig) (ident sig) (generics_params sig) (where_clause sig)
       (inputs sig) (variadic sig) (ReturnTy (TImplFuture ret_ty)))
    ((λ block, "async move " +:+ block) <$> tf_block f).

(** ** Checks of the trait and its context type *)

Definition api_trait_must (trait_ident what : string) : Error := "API trait `" +:+ trait_ident +:+ "` must " +:+ what.

(** [ApiItemTrait::new]: whether the trait is valid. *)
Definition api_item_trait_new (item : ItemTrait) (errors : nat) : sinkM (T := Error) bool :=
  let must := api_trait_must (tr_ident item) in
  errors ← sink_child errors;
  push_when (tr_unsafety item) errors (must "not be marked as `unsafe`");;
  push_when (tr_auto item) errors (must "not be an auto trait");;
  push_when (has_any (tr_generics_params item)) errors (must "not have generics");;
  push_when match tr_where_clause item with Some (_ :: _) => true | _ => false end errors
    (must "not have a where clause");;
  failed ← sink_has_errors errors;
  mret (negb failed).

Inductive ContextItem :=
| ContextValid (t : TraitItemType)
| ContextInvalid (t : TraitItemType)
| ContextMissing (ident : string).

Definition context_item_new (t : TraitItemType) (errors : nat) : sinkM (T := Error) ContextItem :=
  errors ← sink_child errors;
  push_when (has_any (ty_generics_params t)) errors
    ("context type `" +:+ ty_ident t +:+ "` must not have generics");;
  failed ← sink_has_errors errors;
  mret (if failed : bool then ContextInvalid t else ContextValid t).

Definition missing_context_error (context_name trait_ident : string) : Error :=
  "API trait `" +:+ trait_ident +:+ "` does not have associated type `" +:+ context_name +:+ "`" +:+ char_str newline
  +:+ "(this type specifies the shared context for endpoints)".

Definition context_item_new_missing (context_name trait_ident : string) (errors : nat) : sinkM (T := Error) ContextItem :=
  sink_push errors (missing_context_error context_name trait_ident);;
  mret (ContextMissing context_name).

Definition context_ident (c : ContextItem) : string :=
  match c with ContextValid t | ContextInvalid t => ty_ident t | ContextMissing i => i end.
Definition original_item (c : ContextItem) : option TraitItemType :=
  match c with ContextValid t | ContextInvalid t => Some t | ContextMissing _ => None end.
Definition context_valid_item (c : ContextItem) : option TraitItemType :=
  match c with ContextValid t => Some t | ContextInvalid _ | ContextMissing _ => None end.

(** The first pass: the first type with the name. *)
Fixpoint find_context (name : string) (items : list TraitItem) : option TraitItemType :=
  match items with
  | [] => None
  | TItemOther (ItemType t) :: items => if String.eqb (ty_ident t) name then Some t else find_context name items
  | _ :: items => find_context name items
  end.

Definition marked_error (kind name what : string) : Error :=
  kind +:+ " `" +:+ name +:+ "` marked as " +:+ what +:+ " is not a method".

Definition check_endpoint_or_channel_on_non_fn (kind name : string) (attrs : list (Attribute TokenStream)) (errors : nat) :
    sinkM (T := Error) () :=
  push_when (existsb (is_ident ENDPOINT_IDENT) attrs) errors (marked_error kind name "endpoint");;
  push_when (existsb (is_ident CHANNEL_IDENT) attrs) errors (marked_error kind name "channel").

(** ** The items *)

Inductive ApiAttr := AttrEndpoint (a : Attribute TokenStream) | AttrChannel (a : Attribute TokenStream).

Definition api_attr (a : Attribute TokenStream) : option ApiAttr :=
  if is_ident ENDPOINT_IDENT a then Some (AttrEndpoint a)
  else if is_ident CHANNEL_IDENT a then Some (AttrChannel a)
  else None.

(** The error for another attribute after the first one. *)
Definition repeated_error (name : string) (first attr : ApiAttr) : Error :=
  "method `" +:+ name +:+ "` marked as "
  +:+ match first, attr with
      | AttrEndpoint _, AttrEndpoint _ => "endpoint multiple times"
      | AttrChannel _, AttrChannel _ => "channel multiple times"
      | _, _ => "both endpoint and channel"
      end.

(** [InvalidApiItemKind], with [has_param_errors]. *)
Inductive InvalidApiItemKind :=
| InvalidEndpoint (has_param_errors : bool)
| InvalidChannel (has_param_errors : bool)
| InvalidUnknown.

Section items.
Context {V Expr : Type} `{SemVer V} `{!SemVerParts V}.
Context (type_visits : SynType → list Visit).
(** [from_tokenstream_spanned] at the two kinds of metadata. *)
Context (parse_endpoint : TokenStream → EndpointMetadata (V := V) (Expr := Expr) + Error)
  (parse_channel : TokenStream → ChannelMetadata (V := V) + Error).

Definition attribute_form_error (name_str kind what : string) : Error :=
  "endpoint `" +:+ name_str +:+ "` must be of the form #[" +:+ kind +:+ " { " +:+ what +:+ " = "
  +:+ (if String.eqb kind ENDPOINT_IDENT then "GET" else "WEBSOCKETS") +:+ ", path = " +:+ quoted "/path" +:+ ", ... }]".

Definition invalid_attributes_error (name_str error : string) : Error :=
  "endpoint `" +:+ name_str +:+ "` has invalid attributes: " +:+ error.

Definition parse_endpoint_metadata (name_str : string) (attr : Attribute TokenStream) (errors : nat) :
    sinkM (T := Error) (option (ValidatedEndpointMetadata (V := V) (Expr := Expr))) :=
  match attr_meta attr with
  | MetaList tokens =>
      match parse_endpoint tokens with
      | inl m => endpoint_validate m name_str TraitMacro errors
      | inr error => sink_push errors (invalid_attributes_error name_str error);; mret None
      end
  | _ => sink_push errors (attribute_form_error name_str ENDPOINT_IDENT "method");; mret None
  end.

Definition parse_channel_metadata (name_str : string) (attr : Attribute TokenStream) (errors : nat) :
    sinkM (T := Error) (option (ValidatedEndpointMetadata (V := V) (Expr := Expr))) :=
  match attr_meta attr with
  | MetaList tokens =>
      match parse_channel tokens with
      | inl m => channel_validate m name_str TraitMacro errors
      | inr error => sink_push errors (invalid_attributes_error name_str error);; mret None
      end
  | _ => sink_push errors (attribute_form_error name_str CHANNEL_IDENT "protocol");; mret None
  end.

(** [ApiEndpoint] and [ApiChannel] of the macro. *)
Record TraitEndpoint := mk_trait_endpoint {
  te_f : TraitItemFn;
  te_trait_ident : string;
  te_metadata : ValidatedEndpointMetadata (V := V) (Expr := Expr);
  te_params : EndpointParams;
}.

Record TraitChannel := mk_trait_channel {
  tc_f : TraitItemFn;
  tc_trait_ident : string;
  tc_metadata : ValidatedEndpointMetadata (V := V) (Expr := Expr);
  tc_params : ChannelParams;
}.

Inductive ApiFnItem :=
| FnEndpoint (e : TraitEndpoint)
| FnChannel (c : TraitChannel)
| FnInvalid (f : TraitItemFn) (kind : InvalidApiItemKind)
| FnUnmanaged (f : TraitItemFn).

Definition trait_endpoint_new (dropshot : TokenStream) (f : TraitItemFn) (eattr : Attribute TokenStream)
    (trait_ident context_ident : string) (errors : nat) : sinkM (T := Error) (TraitEndpoint + bool) :=
  let name_str := ident (tf_sig f) in
  metadata ← parse_endpoint_metadata name_str eattr errors;
  params ← endpoint_params_new type_visits dropshot (tf_sig f) (KindTrait trait_ident context_ident) errors;
  mret match metadata, params with
       | Some metadata, Some params => inl (mk_trait_endpoint f trait_ident metadata params)
       | _, params => inr (negb (is_some params))
       end.

Definition trait_channel_new (dropshot : TokenStream) (f : TraitItemFn) (cattr : Attribute TokenStream)
    (trait_ident context_ident : string) (errors : nat) : sinkM (T := Error) (TraitChannel + bool) :=
  let name_str := ident (tf_sig f) in
  metadata ← parse_channel_metadata name_str cattr errors;
  params ← channel_params_new type_visits dropshot (tf_sig f) (KindTrait trait_ident context_ident) errors;
  mret match metadata, params with
       | Some metadata, Some params => inl (mk_trait_channel f trait_ident metadata params)
       | _, params => inr (negb (is_some params))
       end.

Fixpoint push_repeated (name : string) (first : ApiAttr) (rest : list ApiAttr) (errors : nat) : sinkM (T := Error) () :=
  match rest with
  | [] => mret ()
  | attr :: rest => sink_push errors (repeated_error name first attr);; push_repeated name first rest errors
  end.

(** [ApiFnItem::new]. *)
Definition api_fn_item_new (dropshot : TokenStream) (f : TraitItemFn) (trait_ident context_ident : string)
    (errors : nat) : sinkM (T := Error) ApiFnItem :=
  match omap api_attr (tf_attrs f) with
  | [] => mret (FnUnmanaged f)
  | [AttrEndpoint eattr] =>
      r ← trait_endpoint_new dropshot f eattr trait_ident context_ident errors;
      mret match r with inl e => FnEndpoint e | inr summary => FnInvalid f (InvalidEndpoint summary) end
  | [AttrChannel cattr] =>
      r ← trait_channel_new dropshot f cattr trait_ident context_ident errors;
      mret match r with inl c => FnChannel c | inr summary => FnInvalid f (InvalidChannel summary) end
  | first :: rest =>
      push_repeated (ident (tf_sig f)) first rest errors;;
      mret (FnInvalid f InvalidUnknown)
  end.

Definition fn_to_out_trait_item (i : ApiFnItem) : TraitItemFn :=
  match i with
  | FnEndpoint e => transform_signature (te_f e) (ep_ret_ty (te_params e))
  | FnChannel c => transform_signature (tc_f c) (cp_ret_ty (tc_params c))
  | FnInvalid f _ | FnUnmanaged f => strip_fn f
  end.

Inductive ApiItem :=
| ApiFn (i : ApiFnItem)
| ApiOther (i : TraitItem).

Definition is_invalid (i : ApiItem) : bool := match i with ApiFn (FnInvalid _ _) => true | _ => false end.

Definition to_out_trait_item (i : ApiItem) : TraitItem :=
  match i with ApiFn f => TItemFn (fn_to_out_trait_item f) | ApiOther o => strip_item o end.

(** ** [ApiParser] *)

Record ResolvedApiMetadata := mk_resolved {
  ra_dropshot : TokenStream;
  ra_tag_config : option ApiTagConfig;
  ra_module_ident : string;
  ra_context_item : ContextItem;
}.

Record ApiParser := mk_parser {
  pa_item_trait : ItemTrait;
  pa_trait_valid : bool;
  pa_items : list ApiItem;
  pa_metadata : option ResolvedApiMetadata;
}.

Context (parse_str : string → option TokenStream) (to_snake_case : string → string).

(** The second pass over an item. *)
Definition parse_item (dropshot : TokenStream) (trait_ident context_ident context_name : string) (item : TraitItem)
    (errors : nat) : sinkM (T := Error) (list ApiItem) :=
  match item with
  | TItemFn f => i ← api_fn_item_new dropshot f trait_ident context_ident errors; mret [ApiFn i]
  | TItemOther other =>
      should_push ← match other with
        | ItemConst i attrs => check_endpoint_or_channel_on_non_fn "const" i attrs errors;; mret true
        | ItemFnOther _ => sink_panic "function items should have been handled above"
        | ItemType t =>
            check_endpoint_or_channel_on_non_fn "type" (ty_ident t) (ty_attrs t) errors;;
            mret (negb (String.eqb (ty_ident t) context_name))
        | ItemMacro p attrs => check_endpoint_or_channel_on_non_fn "macro" p attrs errors;; mret true
        | ItemVerbatim _ => mret true
        end;
      mret (if should_push : bool then [ApiOther item] else [])
  end.

Fixpoint parse_items (dropshot : TokenStream) (trait_ident context_ident context_name : string) (items : list TraitItem)
    (errors : nat) : sinkM (T := Error) (list ApiItem) :=
  match items with
  | [] => mret []
  | item :: items =>
      x ← parse_item dropshot trait_ident context_ident context_name item errors;
      xs ← parse_items dropshot trait_ident context_ident context_name items errors;
      mret (x ++ xs)
  end.

Definition parser_new (metadata : ApiMetadata) (item_trait : ItemTrait) (errors : nat) : sinkM (T := Error) ApiParser :=
  let dropshot := get_crate parse_str (am_dropshot_crate metadata) in
  let trait_ident := tr_ident item_trait in
  valid ← api_item_trait_new item_trait errors;
  let name := context_name metadata in
  context_item ← match find_context name (tr_items item_trait) with
    | Some t => context_item_new t errors
    | None => context_item_new_missing name trait_ident errors
    end;
  items ← parse_items dropshot trait_ident (context_ident context_item) name (tr_items item_trait) errors;
  mret (mk_parser item_trait valid items
    (Some (mk_resolved dropshot (am_tag_config metadata) (module_name to_snake_case metadata trait_ident) context_item))).

Definition invalid_no_metadata (item_trait : ItemTrait) (errors : nat) : sinkM (T := Error) ApiParser :=
  valid ← api_item_trait_new item_trait errors;
  mret (mk_parser item_trait valid (ApiOther <$> tr_items item_trait) None).

(** ** The output *)

(** A registration, of a channel with its adapter. *)
Record Registration := mk_registration {
  reg_adapter : option AdapterFn;
  reg_endpoint : EndpointExpr (Expr := Expr);
}.

Inductive FactoryBody :=
| FactoryPanic (msg : string)
| FactoryRegister (tag_config : option ApiTagConfig) (registrations : list Registration).

(** A public function that returns an [ApiDescription] of [ff_context], or the
    errors of building it; [api_description] has a type parameter [ServerImpl]
    with a bound. *)
Record FactoryFn := mk_factory_fn {
  ff_attrs : list (Attribute TokenStream);
  ff_name : string;
  ff_server_impl : option string;
  ff_context : TokenStream;
  ff_body : FactoryBody;
}.

(** The module has the visibility of the trait. *)
Inductive SupportModule :=
| NoModule
| EmptyModule (attrs : list (Attribute TokenStream)) (vis : TraitVis) (name : string)
| Support (attrs : list (Attribute TokenStream)) (vis : TraitVis) (name : string) (type_checks : list TypeCheck)
    (stub_api api : FactoryFn).

Inductive FactoryKind := RegularFactory | StubFactory.

Definition server_impl_path (trait_ident name : string) : TokenStream :=
  "<ServerImpl as " +:+ trait_ident +:+ ">::" +:+ name.

Definition endpoint_to_api_endpoint (self : TraitEndpoint) (dropshot : TokenStream) (kind : FactoryKind) :
    panics Registration :=
  let name := ident (tf_sig (te_f self)) in
  let target := match kind with
    | RegularFactory => Regular (server_impl_path (te_trait_ident self) name)
    | StubFactory => Stub (extractor_types (te_params self)) (ep_ret_ty (te_params self))
    end in
  x ← to_api_endpoint_fn (te_metadata self) dropshot name target (from_attrs (tf_attrs (te_f self)));
  Ok (mk_registration None x).

Definition channel_to_api_endpoint (self : TraitChannel) (dropshot : TokenStream) (kind : FactoryKind) :
    panics Registration :=
  let name := ident (tf_sig (tc_f self)) in
  let doc := from_attrs (tf_attrs (tc_f self)) in
  match kind with
  | RegularFactory =>
      x ← to_api_endpoint_fn (tc_metadata self) dropshot name
            (Regular (cp_adapter_name (tc_params self) +:+ "::<ServerImpl>")) doc;
      Ok (mk_registration (Some (to_trait_adapter_fn (tc_params self) (tc_trait_ident self) name)) x)
  | StubFactory =>
      x ← to_api_endpoint_fn (tc_metadata self) dropshot name
            (Stub (channel_extractor_types (tc_params self)) (cp_endpoint_result_ty (tc_params self))) doc;
      Ok (mk_registration None x)
  end.

Definition item_registration (dropshot : TokenStream) (kind : FactoryKind) (i : ApiItem) :
    panics (list Registration) :=
  match i with
  | ApiFn (FnEndpoint e) => r ← endpoint_to_api_endpoint e dropshot kind; Ok [r]
  | ApiFn (FnChannel c) => r ← channel_to_api_endpoint c dropshot kind; Ok [r]
  | ApiFn (FnInvalid _ _) | ApiFn (FnUnmanaged _) | ApiOther _ => Ok []
  end.

Definition has_invalid_fn_items (items : list ApiItem) : bool := existsb is_invalid items.

Definition invalid_endpoints_error (trait_ident : string) : string :=
  "invalid endpoints encountered while parsing API trait `" +:+ trait_ident +:+ "`".

Definition make_api_factory_body (dropshot : TokenStream) (tag_config : option ApiTagConfig) (trait_ident : string)
    (items : list ApiItem) (kind : FactoryKind) : panics FactoryBody :=
  if has_invalid_fn_items items then Ok (FactoryPanic (invalid_endpoints_error trait_ident))
  else rs ← try_map (item_registration dropshot kind) items; Ok (FactoryRegister tag_config (concat rs)).

Definition make_type_checks (items : list ApiItem) : list TypeCheck :=
  items ≫= λ i, match i with ApiFn (FnChannel c) => to_trait_type_checks (tc_params c) | _ => [] end.

Definition automatically_derived : Attribute TokenStream := mk_attribute (Some "automatically_derived") MetaPath.

Definition make_api_description (dropshot : TokenStream) (tag_config : option ApiTagConfig)
    (trait_ident context_ident : string) (items : list ApiItem) (doc : list (Attribute TokenStream)) : panics FactoryFn :=
  body ← make_api_factory_body dropshot tag_config trait_ident items RegularFactory;
  Ok (mk_factory_fn (doc ++ [automatically_derived]) "api_description" (Some trait_ident)
    (server_impl_path trait_ident context_ident) body).

Definition make_stub_api_description (dropshot : TokenStream) (tag_config : option ApiTagConfig)
    (trait_ident : string) (items : list ApiItem) (doc : list (Attribute TokenStream)) : panics FactoryFn :=
  body ← make_api_factory_body dropshot tag_config trait_ident items StubFactory;
  Ok (mk_factory_fn (doc ++ [automatically_derived]) "stub_api_description" None (dropshot +:+ "::StubContext") body).

Definition make_doc_comments (dropshot : TokenStream) (trait_ident context_ident module_ident : string)
    (items : list ApiItem) : ModuleDocComments :=
  if has_invalid_fn_items items then generate_invalid trait_ident
  else generate dropshot trait_ident context_ident module_ident.

(** [SupportModuleGenerator::to_tokens]. *)
Definition module_to_tokens (dropshot : TokenStream) (module_ident : string) (item_trait : ItemTrait)
    (context_item : TraitItemType) (items : list ApiItem) (tag_config : option ApiTagConfig) : panics SupportModule :=
  let trait_ident := tr_ident item_trait in
  let context_ident := ty_ident context_item in
  let doc_comments := make_doc_comments dropshot trait_ident context_ident module_ident items in
  api ← make_api_description dropshot tag_config trait_ident context_ident items (module_api_description doc_comments);
  stub_api ← make_stub_api_description dropshot tag_config trait_ident items (module_stub_api_description doc_comments);
  Ok (Support (module_outer doc_comments ++ [automatically_derived]) (tr_vis item_trait) module_ident
    (make_type_checks items) stub_api api).

Definition make_module (self : ApiParser) : panics SupportModule :=
  match pa_metadata self with
  | None => Ok NoModule
  | Some (mk_resolved dropshot tag_config module_ident context_item) =>
      match pa_trait_valid self, context_valid_item context_item with
      | true, Some context_item =>
          module_to_tokens dropshot module_ident (pa_item_trait self) context_item (pa_items self) tag_config
      | _, _ =>
          let doc := generate_invalid (tr_ident (pa_item_trait self)) in
          Ok (EmptyModule (module_outer doc) (tr_vis (pa_item_trait self)) module_ident)
      end
  end.

(** The context type gets a bound and goes first. *)
Definition make_context_trait_item (self : ApiParser) : option TraitItem :=
  metadata ← pa_metadata self;
  item ← original_item (ra_context_item metadata);
  Some (TItemOther (ItemType (mk_item_type (ty_ident item) (ty_attrs item) (ty_generics_params item)
    (ty_bounds item ++ [ra_dropshot metadata +:+ "::ServerContext"])))).

Definition allow_dead_code : Attribute TokenStream := mk_attribute (Some "allow") (MetaList "dead_code").

Definition out_trait (self : ApiParser) : ItemTrait :=
  let t := pa_item_trait self in
  mk_item_trait
    (tr_attrs t ++ (if negb (is_public (tr_vis t)) then [allow_dead_code] else []))
    (tr_vis t) (tr_unsafety t) (tr_auto t) (tr_ident t) (tr_generics_params t) (tr_where_clause t)
    (tr_supertraits t ++ ["'static"])
    (option_list (make_context_trait_item self) ++ (to_out_trait_item <$> pa_items self)).

(** [ParamErrorSummary]. *)
Record ParamErrorSummary := mk_summary { pe_context : string; pe_endpoint : bool; pe_channel : bool }.

Definition invalid_endpoint_params (i : ApiItem) : bool :=
  match i with ApiFn (FnInvalid _ (InvalidEndpoint b)) => b | _ => false end.
Definition invalid_channel_params (i : ApiItem) : bool :=
  match i with ApiFn (FnInvalid _ (InvalidChannel b)) => b | _ => false end.

Definition param_errors (self : ApiParser) : option ParamErrorSummary :=
  metadata ← pa_metadata self;
  let endpoint := existsb invalid_endpoint_params (pa_items self) in
  let channel := existsb invalid_channel_params (pa_items self) in
  if endpoint || channel
  then Some (mk_summary ("Self::" +:+ context_ident (ra_context_item metadata)) endpoint channel)
  else None.

(** [ApiOutput]: the trait and its module, or nothing. *)
Record ApiOutput := mk_api_output {
  ao_output : option (ItemTrait * SupportModule);
  ao_param_errors : option ParamErrorSummary;
}.

Definition to_output (self : ApiParser) : panics ApiOutput :=
  module ← make_module self;
  Ok (mk_api_output (Some (out_trait self, module)) (param_errors self)).

(** ** The macro *)

Context (from_tokenstream : TokenStream → ApiMetadata + Error) (parse_trait : TokenStream → ItemTrait + Error).

Definition trait_body (attr item : TokenStream) (errors : nat) : sinkM (T := Error) ApiOutput :=
  api_metadata ← ok_or_push (from_tokenstream attr) errors;
  item_trait ← ok_or_push (parse_trait item) errors;
  match api_metadata, item_trait with
  | Some api_metadata, Some item_trait =>
      parser ← parser_new api_metadata item_trait errors; sink_lift (to_output parser)
  | None, Some item_trait =>
      parser ← invalid_no_metadata item_trait errors; sink_lift (to_output parser)
  | _, None => mret (mk_api_output None None)
  end.

(** The usage messages that come first. *)
Definition usage_errors (summary : option ParamErrorSummary) : list Error :=
  match summary with
  | None => []
  | Some s =>
      (if pe_channel s then [channel_usage_str (pe_context s)] else [])
      ++ (if pe_endpoint s then [endpoint_usage_str (pe_context s)] else [])
  end.

Definition do_trait (attr item : TokenStream) : option (panics (option (ItemTrait * SupportModule) * list Error)) :=
  let '(errors, store) := store_sink store_new in
  match trait_body attr item errors store with
  | Some (Ok (output, store)) => Some (Ok (ao_output output, usage_errors (ao_param_errors output) ++ into_inner store))
  | Some (Err e) => Some (Err e)
  | Some (Panic msg) => Some (Panic msg)
  | None => None
  end.
End items.
