(* ===== verification/MacroTraitSpec.v ===== *)
(** * What the [api_description] macro does

    The traits it accepts, and the registrations that the generated functions
    make of their methods. *)
From S2P Require Import Prelude BTree Externals ErrorStore MacroSyn MacroDoc MacroModuleDoc MacroMetadata MacroParams MacroEndpoint MacroTrait.

Lemma existsb_false_Forall {A} (p : A → bool) l : existsb p l = false ↔ Forall (λ a, p a = false) l.
Proof. induction l as [|a l IH]; simpl; [done|]. by rewrite orb_false_iff, Forall_cons, IH. Qed.

Section results.
Context {V Expr : Type} `{SemVer V} `{!SemVerParts V}.
Context (type_visits : SynType → list Visit).
Context (parse_endpoint : TokenStream → EndpointMetadata (V := V) (Expr := Expr) + Error)
  (parse_channel : TokenStream → ChannelMetadata (V := V) + Error).

(** ** Results and errors of the parts *)

Definition item_trait_errors (item : ItemTrait) : list Error :=
  let must := api_trait_must (tr_ident item) in
  (if tr_unsafety item then [must "not be marked as `unsafe`"] else [])
  ++ (if tr_auto item then [must "not be an auto trait"] else [])
  ++ (if has_any (tr_generics_params item) then [must "not have generics"] else [])
  ++ (if match tr_where_clause item with Some (_ :: _) => true | _ => false end then [must "not have a where clause"] else []).

Lemma api_item_trait_new_runs item id pre :
  runs id pre (api_item_trait_new item id) (negb (has_any (item_trait_errors item))) (item_trait_errors item).
Proof.
  unfold api_item_trait_new, item_trait_errors. cbv zeta. apply runs_child. intros id'.
  do 3 (eapply runs_bind; [apply runs_push_when|]). eapply runs_bind_nil; [apply runs_push_when|].
  eapply runs_bind_ret; [apply runs_has_errors|]. change (false || has_any ?x) with (has_any x).
  rewrite <-!has_any_app, <-!app_assoc. apply runs_ret.
Qed.

Definition context_errors (name trait_ident : string) (items : list TraitItem) : list Error :=
  match find_context name items with
  | Some t => if has_any (ty_generics_params t)
              then ["context type `" +:+ ty_ident t +:+ "` must not have generics"] else []
  | None => [missing_context_error name trait_ident]
  end.

Definition context_result (name : string) (items : list TraitItem) : ContextItem :=
  match find_context name items with
  | Some t => if has_any (ty_generics_params t) then ContextInvalid t else ContextValid t
  | None => ContextMissing name
  end.

Lemma context_runs name trait_ident items id pre :
  runs id pre
    match find_context name items with
    | Some t => context_item_new t id
    | None => context_item_new_missing name trait_ident id
    end (context_result name items) (context_errors name trait_ident items).
Proof.
  unfold context_result, context_errors. destruct (find_context name items) as [t|].
  - unfold context_item_new. apply runs_child. intros id'. destruct (has_any (ty_generics_params t));
      (eapply runs_bind_nil; [apply runs_push || apply runs_ret|]);
      (eapply runs_bind_ret; [apply runs_has_errors|apply runs_ret]).
  - eapply runs_bind_nil; [apply runs_push|apply runs_ret].
Qed.

(** The context has the name that was looked for. *)
Lemma find_context_ident name items t : find_context name items = Some t → ty_ident t = name ∧ TItemOther (ItemType t) ∈ items.
Proof.
  induction items as [|[f|[| |t'| |]] items IH]; simpl; try done.
  all: try (intros H'; destruct (IH H') as [? ?]; split; [done|by apply list_elem_of_further]).
  destruct (String.eqb_spec (ty_ident t') name) as [E|E].
  - intros [= <-]. split; [done|]. apply list_elem_of_here.
  - intros H'. destruct (IH H'). split; [done|by apply list_elem_of_further].
Qed.

Lemma context_result_ident name items : context_ident (context_result name items) = name.
Proof.
  unfold context_result. destruct (find_context name items) as [t|] eqn:E; [|done].
  apply find_context_ident in E as [E _]. by destruct (has_any _).
Qed.

Definition marked_errors (kind name : string) (attrs : list (Attribute TokenStream)) : list Error :=
  (if existsb (is_ident ENDPOINT_IDENT) attrs then [marked_error kind name "endpoint"] else [])
  ++ (if existsb (is_ident CHANNEL_IDENT) attrs then [marked_error kind name "channel"] else []).

Lemma check_marked_runs kind name attrs id pre :
  runs id pre (check_endpoint_or_channel_on_non_fn kind name attrs id) () (marked_errors kind name attrs).
Proof. eapply runs_bind; [apply runs_push_when|apply runs_push_when]. Qed.

Lemma marked_errors_nil kind name attrs :
  marked_errors kind name attrs = [] ↔ Forall (λ a, recognized a = false) attrs.
Proof.
  transitivity (existsb (is_ident ENDPOINT_IDENT) attrs = false ∧ existsb (is_ident CHANNEL_IDENT) attrs = false).
  - unfold marked_errors. destruct (existsb _ _), (existsb _ _); simpl; split; try done; by intros [? ?].
  - rewrite !existsb_false_Forall, <-Forall_and. apply Forall_iff. intros a. unfold recognized. by rewrite orb_false_iff.
Qed.

(** ** Metadata in attributes *)

Definition endpoint_md_result (name : string) (a : Attribute TokenStream) :
    option (ValidatedEndpointMetadata (V := V) (Expr := Expr)) * list Error :=
  match attr_meta a with
  | MetaList tokens =>
      match parse_endpoint tokens with
      | inl m => (unless_errors (endpoint_errors m name TraitMacro) (validated m), endpoint_errors m name TraitMacro)
      | inr e => (None, [invalid_attributes_error name e])
      end
  | _ => (None, [attribute_form_error name ENDPOINT_IDENT "method"])
  end.

Lemma parse_endpoint_metadata_runs name a id pre :
  runs id pre (parse_endpoint_metadata parse_endpoint name a id) (endpoint_md_result name a).1 (endpoint_md_result name a).2.
Proof.
  unfold parse_endpoint_metadata, endpoint_md_result.
  destruct (attr_meta a) as [|tokens|v]; [|destruct (parse_endpoint tokens); [apply endpoint_validate_runs|]|];
    (eapply runs_bind_nil; [apply runs_push|apply runs_ret]).
Qed.

Definition channel_md_result (name : string) (a : Attribute TokenStream) :
    option (ValidatedEndpointMetadata (V := V) (Expr := Expr)) * list Error :=
  match attr_meta a with
  | MetaList tokens =>
      match parse_channel tokens with
      | inl m => (unless_errors (channel_errors m name TraitMacro) (channel_validated m), channel_errors m name TraitMacro)
      | inr e => (None, [invalid_attributes_error name e])
      end
  | _ => (None, [attribute_form_error name CHANNEL_IDENT "protocol"])
  end.

Lemma parse_channel_metadata_runs name a id pre :
  runs id pre (parse_channel_metadata (Expr := Expr) parse_channel name a id)
    (channel_md_result name a).1 (channel_md_result name a).2.
Proof.
  unfold parse_channel_metadata, channel_md_result.
  destruct (attr_meta a) as [|tokens|v]; [|destruct (parse_channel tokens); [apply channel_validate_runs|]|];
    (eapply runs_bind_nil; [apply runs_push|apply runs_ret]).
Qed.

(** ** Methods *)

Section method.
Context (dropshot : TokenStream) (trait_ident ctx : string).

Definition kind_of_trait : RqctxKind := KindTrait trait_ident ctx.

Definition endpoint_params_of (f : TraitItemFn) : option EndpointParams :=
  if has_any (endpoint_param_errors type_visits (tf_sig f) kind_of_trait) then None
  else endpoint_params_value dropshot (tf_sig f) kind_of_trait.

Definition channel_params_of (f : TraitItemFn) : option ChannelParams :=
  if has_any (channel_param_errors type_visits (tf_sig f) kind_of_trait) then None
  else channel_params_value dropshot (tf_sig f) kind_of_trait.

Definition fn_item_result (f : TraitItemFn) : ApiFnItem (V := V) (Expr := Expr) * list Error :=
  let name := ident (tf_sig f) in
  match omap api_attr (tf_attrs f) with
  | [] => (FnUnmanaged f, [])
  | [AttrEndpoint a] =>
      let '(m, errs) := endpoint_md_result name a in
      (match m, endpoint_params_of f with
       | Some m, Some p => FnEndpoint (mk_trait_endpoint f trait_ident m p)
       | _, p => FnInvalid f (InvalidEndpoint (negb (is_some p)))
       end, errs ++ endpoint_param_errors type_visits (tf_sig f) kind_of_trait)
  | [AttrChannel a] =>
      let '(m, errs) := channel_md_result name a in
      (match m, channel_params_of f with
       | Some m, Some p => FnChannel (mk_trait_channel f trait_ident m p)
       | _, p => FnInvalid f (InvalidChannel (negb (is_some p)))
       end, errs ++ channel_param_errors type_visits (tf_sig f) kind_of_trait)
  | first :: rest => (FnInvalid f InvalidUnknown, repeated_error name first <$> rest)
  end.

Lemma push_repeated_runs name first rest id pre :
  runs id pre (push_repeated name first rest id) () (repeated_error name first <$> rest).
Proof.
  revert pre. induction rest as [|a rest IH]; intros pre; simpl; [apply runs_ret|].
  eapply (runs_bind _ _ _ _ _ _ [repeated_error name first a]); [apply runs_push|apply IH].
Qed.

Lemma api_fn_item_new_runs f id pre :
  runs id pre (api_fn_item_new type_visits parse_endpoint parse_channel dropshot f trait_ident ctx id)
    (fn_item_result f).1 (fn_item_result f).2.
Proof.
  unfold api_fn_item_new, fn_item_result. cbv zeta.
  assert (∀ first rest, runs id pre
    (push_repeated (ident (tf_sig f)) first rest id;; mret (FnInvalid (V := V) (Expr := Expr) f InvalidUnknown))
    (FnInvalid f InvalidUnknown) (repeated_error (ident (tf_sig f)) first <$> rest)) as Hrep.
  { intros first rest. eapply runs_bind_nil; [apply push_repeated_runs|apply runs_ret]. }
  destruct (omap api_attr (tf_attrs f)) as [|[a|a] [|b rest]]; [apply runs_ret| |apply Hrep| |apply Hrep].
  - pose proof (parse_endpoint_metadata_runs (ident (tf_sig f)) a id) as Hm.
    destruct (endpoint_md_result (ident (tf_sig f)) a) as [m errs]. simpl in *.
    eapply runs_bind_nil.
    + eapply runs_bind; [apply Hm|]. eapply runs_bind_nil; [apply endpoint_params_runs|apply runs_ret].
    + fold (endpoint_params_of f). destruct m, (endpoint_params_of f); apply runs_ret.
  - pose proof (parse_channel_metadata_runs (ident (tf_sig f)) a id) as Hm.
    destruct (channel_md_result (ident (tf_sig f)) a) as [m errs]. simpl in *.
    eapply runs_bind_nil.
    + eapply runs_bind; [apply Hm|]. eapply runs_bind_nil; [apply channel_params_runs|apply runs_ret].
    + fold (channel_params_of f). destruct m, (channel_params_of f); apply runs_ret.
Qed.

(** ** Items *)

(** The parser leaves no function to [syn::TraitItem]. *)
Definition other_than_fn (item : TraitItem) : Prop :=
  match item with TItemOther (ItemFnOther _) => False | _ => True end.

Definition item_result (item : TraitItem) : list (ApiItem (V := V) (Expr := Expr)) * list Error :=
  match item with
  | TItemFn f => ([ApiFn (fn_item_result f).1], (fn_item_result f).2)
  | TItemOther (ItemConst i attrs) => ([ApiOther item], marked_errors "const" i attrs)
  | TItemOther (ItemFnOther _) => ([], [])
  | TItemOther (ItemType t) =>
      (if String.eqb (ty_ident t) ctx then [] else [ApiOther item], marked_errors "type" (ty_ident t) (ty_attrs t))
  | TItemOther (ItemMacro p attrs) => ([ApiOther item], marked_errors "macro" p attrs)
  | TItemOther (ItemVerbatim _) => ([ApiOther item], [])
  end.

Lemma parse_item_runs item id pre :
  other_than_fn item →
  runs id pre (parse_item type_visits parse_endpoint parse_channel dropshot trait_ident ctx ctx item id)
    (item_result item).1 (item_result item).2.
Proof.
  intros Hi. destruct item as [f|[i attrs|attrs|t|p attrs|text]]; simpl; [| |done|..].
  - eapply runs_bind_nil; [apply api_fn_item_new_runs|apply runs_ret].
  - eapply runs_bind_nil; [eapply runs_bind_nil; [apply check_marked_runs|apply runs_ret]|apply runs_ret].
  - eapply runs_bind_nil; [eapply runs_bind_nil; [apply check_marked_runs|apply runs_ret]|].
    destruct (String.eqb (ty_ident t) ctx); apply runs_ret.
  - eapply runs_bind_nil; [eapply runs_bind_nil; [apply check_marked_runs|apply runs_ret]|apply runs_ret].
  - eapply runs_bind_ret; apply runs_ret.
Qed.

Lemma parse_items_runs items id pre :
  Forall other_than_fn items →
  runs id pre (parse_items type_visits parse_endpoint parse_channel dropshot trait_ident ctx ctx items id)
    (items ≫= λ i, (item_result i).1) (items ≫= λ i, (item_result i).2).
Proof.
  intros Hi. revert pre. induction Hi as [|item items Hitem Hi IH]; intros pre; simpl; [apply runs_ret|].
  eapply runs_bind; [by apply parse_item_runs|]. eapply runs_bind_nil; [apply IH|apply runs_ret].
Qed.

(** ** What is accepted *)

Definition endpoint_method_ok (f : TraitItemFn) (a : Attribute TokenStream) : Prop :=
  ∃ tokens m, attr_meta a = MetaList tokens ∧ parse_endpoint tokens = inl m ∧ endpoint_valid m TraitMacro ∧
    ∃ rq exts ret, endpoint_sig type_visits (tf_sig f) kind_of_trait rq exts ret.

Definition channel_valid (m : ChannelMetadata (V := V)) : Prop :=
  ch_dropshot_crate m = None ∧ is_wildcard_path (ch_path m) = false.

Definition channel_method_ok (f : TraitItemFn) (a : Attribute TokenStream) : Prop :=
  ∃ tokens m, attr_meta a = MetaList tokens ∧ parse_channel tokens = inl m ∧ channel_valid m ∧
    ∃ rq exts ws ret, channel_sig type_visits (tf_sig f) kind_of_trait rq exts ws ret.

(** At most one mark on a method, with a list of valid arguments and a signature
    that fits; no mark on other items. *)
Definition item_accepted (item : TraitItem) : Prop :=
  match item with
  | TItemFn f =>
      match omap api_attr (tf_attrs f) with
      | [] => True
      | [AttrEndpoint a] => endpoint_method_ok f a
      | [AttrChannel a] => channel_method_ok f a
      | _ => False
      end
  | TItemOther (ItemConst _ attrs) | TItemOther (ItemMacro _ attrs) => Forall (λ a, recognized a = false) attrs
  | TItemOther (ItemType t) => Forall (λ a, recognized a = false) (ty_attrs t)
  | TItemOther (ItemFnOther _) | TItemOther (ItemVerbatim _) => True
  end.

Lemma endpoint_md_result_nil name a :
  (endpoint_md_result name a).2 = [] ↔
  ∃ tokens m, attr_meta a = MetaList tokens ∧ parse_endpoint tokens = inl m ∧ endpoint_valid m TraitMacro.
Proof.
  unfold endpoint_md_result. destruct (attr_meta a) as [|tokens|v]; simpl;
    [split; [done|by intros (? & ? & [=] & _)]| |split; [done|by intros (? & ? & [=] & _)]].
  destruct (parse_endpoint tokens) as [m|e] eqn:E; simpl.
  - rewrite endpoint_errors_nil. split; [intros Hv; by exists tokens, m|].
    intros (? & m' & [= <-] & E' & Hv). rewrite E in E'. by injection E' as <-.
  - split; [done|]. intros (? & m' & [= <-] & E' & Hv). congruence.
Qed.

Lemma channel_errors_trait_nil m name : channel_errors m name TraitMacro = [] ↔ channel_valid m.
Proof.
  unfold channel_errors, channel_valid. destruct (ch_dropshot_crate m), (is_wildcard_path (ch_path m)); simpl;
    intuition discriminate.
Qed.

Lemma channel_md_result_nil name a :
  (channel_md_result name a).2 = [] ↔
  ∃ tokens m, attr_meta a = MetaList tokens ∧ parse_channel tokens = inl m ∧ channel_valid m.
Proof.
  unfold channel_md_result. destruct (attr_meta a) as [|tokens|v]; simpl;
    [split; [done|by intros (? & ? & [=] & _)]| |split; [done|by intros (? & ? & [=] & _)]].
  destruct (parse_channel tokens) as [m|e] eqn:E; simpl.
  - rewrite channel_errors_trait_nil. split; [intros Hv; by exists tokens, m|].
    intros (? & m' & [= <-] & E' & Hv). rewrite E in E'. by injection E' as <-.
  - split; [done|]. intros (? & m' & [= <-] & E' & Hv). congruence.
Qed.

Lemma item_result_nil item : (item_result item).2 = [] ↔ item_accepted item.
Proof.
  destruct item as [f|[i attrs|attrs|t|p attrs|text]]; simpl; try apply marked_errors_nil; [|done..].
  unfold fn_item_result. cbv zeta.
  destruct (omap api_attr (tf_attrs f)) as [|[a|a] [|b rest]]; simpl; try done.
  - pose proof (endpoint_md_result_nil (ident (tf_sig f)) a) as Hm.
    destruct (endpoint_md_result (ident (tf_sig f)) a) as [m errs]. simpl in *.
    rewrite app_nil, Hm, endpoint_param_errors_nil. unfold endpoint_method_ok. split.
    + intros [(tokens & md & ? & ? & ?) Hs]. by exists tokens, md.
    + intros (tokens & md & ? & ? & ? & Hs). split; [by exists tokens, md|done].
  - pose proof (channel_md_result_nil (ident (tf_sig f)) a) as Hm.
    destruct (channel_md_result (ident (tf_sig f)) a) as [m errs]. simpl in *.
    rewrite app_nil, Hm, channel_param_errors_nil. unfold channel_method_ok. split.
    + intros [(tokens & md & ? & ? & ?) Hs]. by exists tokens, md.
    + intros (tokens & md & ? & ? & ? & Hs). split; [by exists tokens, md|done].
Qed.

(** ** The registrations of a method *)

(** The target of an endpoint and of a channel, and the channel's adapter. *)
Definition endpoint_target (kind : FactoryKind) (name : string) (p : EndpointParams) : ApiEndpointKind :=
  match kind with
  | RegularFactory => Regular (server_impl_path trait_ident name)
  | StubFactory => Stub (extractor_types p) (ep_ret_ty p)
  end.

Definition channel_target (kind : FactoryKind) (p : ChannelParams) : ApiEndpointKind :=
  match kind with
  | RegularFactory => Regular (cp_adapter_name p +:+ "::<ServerImpl>")
  | StubFactory => Stub (channel_extractor_types p) (cp_endpoint_result_ty p)
  end.

Definition channel_adapter (kind : FactoryKind) (name : string) (p : ChannelParams) : option AdapterFn :=
  match kind with RegularFactory => Some (to_trait_adapter_fn p trait_ident name) | StubFactory => None end.

(** What an accepted item adds to the factory. *)
Definition registered (kind : FactoryKind) (item : TraitItem) (regs : list (Registration (Expr := Expr))) : Prop :=
  match item with
  | TItemOther _ => regs = []
  | TItemFn f =>
      let name := ident (tf_sig f) in
      let doc := from_attrs (tf_attrs f) in
      match omap api_attr (tf_attrs f) with
      | [AttrEndpoint a] => ∃ tokens m p x, attr_meta a = MetaList tokens ∧ parse_endpoint tokens = inl m ∧
          endpoint_params_value dropshot (tf_sig f) kind_of_trait = Some p ∧
          to_api_endpoint_fn (validated m) dropshot name (endpoint_target kind name p) doc = Ok x ∧
          regs = [mk_registration None x]
      | [AttrChannel a] => ∃ tokens m p x, attr_meta a = MetaList tokens ∧ parse_channel tokens = inl m ∧
          channel_params_value dropshot (tf_sig f) kind_of_trait = Some p ∧
          to_api_endpoint_fn (channel_validated m) dropshot name (channel_target kind p) doc = Ok x ∧
          regs = [mk_registration (channel_adapter kind name p) x]
      | _ => regs = []
      end
  end.

(** The versions in attributes were parsed. *)
Definition versions_parsed : Prop :=
  (∀ tokens m, parse_endpoint tokens = inl m → range_plain (default RAll (md_versions m))) ∧
  (∀ tokens m, parse_channel tokens = inl m → range_plain (default RAll (ch_versions m))).

Lemma endpoint_item_result f a :
  omap api_attr (tf_attrs f) = [AttrEndpoint a] → endpoint_method_ok f a →
  ∃ tokens m p, attr_meta a = MetaList tokens ∧ parse_endpoint tokens = inl m ∧
    endpoint_params_value dropshot (tf_sig f) kind_of_trait = Some p ∧
    (fn_item_result f).1 = FnEndpoint (mk_trait_endpoint f trait_ident (validated m) p).
Proof.
  intros Ha (tokens & m & Hl & Hm & Hv & Hs). exists tokens, m. unfold fn_item_result. cbv zeta. rewrite Ha.
  unfold endpoint_md_result. rewrite Hl, Hm, (proj2 (endpoint_errors_nil _ _ _) Hv). unfold endpoint_params_of.
  rewrite (proj2 (endpoint_param_errors_nil type_visits _ _) Hs). simpl.
  destruct Hs as (rq & exts & ret & [_ (rest & Hi & _) Ho _ _]).
  unfold endpoint_params_value, after_self. rewrite Hi, Ho. by eexists.
Qed.

Lemma channel_item_result f a :
  omap api_attr (tf_attrs f) = [AttrChannel a] → channel_method_ok f a →
  ∃ tokens m p, attr_meta a = MetaList tokens ∧ parse_channel tokens = inl m ∧
    channel_params_value dropshot (tf_sig f) kind_of_trait = Some p ∧
    (fn_item_result f).1 = FnChannel (mk_trait_channel f trait_ident (channel_validated m) p).
Proof.
  intros Ha (tokens & m & Hl & Hm & Hv & Hs). exists tokens, m. unfold fn_item_result. cbv zeta. rewrite Ha.
  unfold channel_md_result. rewrite Hl, Hm, (proj2 (channel_errors_trait_nil _ _) Hv). unfold channel_params_of.
  rewrite (proj2 (channel_param_errors_nil type_visits _ _) Hs). simpl.
  destruct Hs as (rq & exts & ws & ret & Hs).
  rewrite (channel_params_value_spec type_visits dropshot _ _ _ _ _ _ Hs). by eexists.
Qed.

Lemma item_registration_ok kind item :
  versions_parsed → item_accepted item →
  Forall (λ i, is_invalid i = false) (item_result item).1 ∧
  ∃ rs, try_map (E := Empty_set) (item_registration dropshot kind) (item_result item).1 = Ok rs ∧
    registered kind item (concat rs).
Proof.
  intros [He Hc] Ha. destruct item as [f|o]; simpl.
  2:{ destruct o as [i attrs|attrs|t|p attrs|text]; simpl; [| |destruct (String.eqb _ _)|..]; simpl;
        (split; [by repeat constructor|]); eexists; (split; [reflexivity|done]). }
  simpl in Ha. destruct (omap api_attr (tf_attrs f)) as [|[a|a] [|b rest]] eqn:Eo; try done.
  - unfold fn_item_result. rewrite Eo. simpl. split; [by repeat constructor|]. by eexists.
  - destruct (endpoint_item_result f a Eo Ha) as (tokens & m & p & Hl & Hm & Hp & ->).
    split; [by repeat constructor|]. simpl. unfold endpoint_to_api_endpoint. simpl.
    destruct (to_api_endpoint_fn_plain (validated m) dropshot (ident (tf_sig f))
      (endpoint_target kind (ident (tf_sig f)) p) (from_attrs (tf_attrs f)) (He _ _ Hm)) as [x Hx].
    fold (endpoint_target kind (ident (tf_sig f)) p). rewrite Hx. eexists. split; [reflexivity|].
    exists tokens, m, p, x. done.
  - destruct (channel_item_result f a Eo Ha) as (tokens & m & p & Hl & Hm & Hp & ->).
    split; [by repeat constructor|]. simpl. unfold channel_to_api_endpoint. simpl.
    destruct (to_api_endpoint_fn_plain (channel_validated (Expr := Expr) m) dropshot (ident (tf_sig f))
      (channel_target kind p) (from_attrs (tf_attrs f)) (Hc _ _ Hm)) as [x Hx].
    destruct kind; simpl in *; rewrite Hx; eexists; (split; [reflexivity|]); exists tokens, m, p, x; done.
Qed.
End method.

(** ** The macro *)

Context (parse_str : string → option TokenStream) (to_snake_case : string → string).

Definition trait_crate (md : ApiMetadata) : TokenStream := get_crate parse_str (am_dropshot_crate md).

Definition items_of (md : ApiMetadata) (tr : ItemTrait) : list (ApiItem (V := V) (Expr := Expr)) :=
  tr_items tr ≫= λ i, (item_result (trait_crate md) (tr_ident tr) (context_name md) i).1.

Definition trait_errors (md : ApiMetadata) (tr : ItemTrait) : list Error :=
  item_trait_errors tr ++ context_errors (context_name md) (tr_ident tr) (tr_items tr)
  ++ (tr_items tr ≫= λ i, (item_result (trait_crate md) (tr_ident tr) (context_name md) i).2).

Definition parser_of (md : ApiMetadata) (tr : ItemTrait) : ApiParser (V := V) (Expr := Expr) :=
  mk_parser tr (negb (has_any (item_trait_errors tr))) (items_of md tr)
    (Some (mk_resolved (trait_crate md) (am_tag_config md) (module_name to_snake_case md (tr_ident tr))
       (context_result (context_name md) (tr_items tr)))).

Lemma parser_new_runs md tr id pre :
  Forall other_than_fn (tr_items tr) →
  runs id pre (parser_new type_visits parse_endpoint parse_channel parse_str to_snake_case md tr id)
    (parser_of md tr) (trait_errors md tr).
Proof.
  intros Ho. unfold parser_new, trait_errors. cbv zeta. eapply runs_bind; [apply api_item_trait_new_runs|].
  eapply runs_bind; [apply context_runs|]. rewrite context_result_ident.
  eapply runs_bind_nil; [by apply parse_items_runs|apply runs_ret].
Qed.

Record trait_plain (tr : ItemTrait) : Prop := {
  tp_unsafety : tr_unsafety tr = false;
  tp_auto : tr_auto tr = false;
  tp_generics : tr_generics_params tr = [];
  tp_where : tr_where_clause tr = None ∨ tr_where_clause tr = Some [];
}.

Lemma item_trait_errors_nil tr : item_trait_errors tr = [] ↔ trait_plain tr.
Proof.
  unfold item_trait_errors. cbv zeta. rewrite !app_nil. split.
  - intros (H1 & H2 & H3 & H4). constructor.
    + by destruct (tr_unsafety tr).
    + by destruct (tr_auto tr).
    + by destruct (tr_generics_params tr).
    + destruct (tr_where_clause tr) as [[|]|]; [by right|done|by left].
  - intros [-> -> -> [-> | ->]]; done.
Qed.

(** A trait that the macro accepts, with the arguments of its attribute. *)
Record trait_accepted (md : ApiMetadata) (tr : ItemTrait) (ctx : TraitItemType) : Prop := {
  ta_plain : trait_plain tr;
  ta_context : find_context (context_name md) (tr_items tr) = Some ctx;
  ta_context_generics : ty_generics_params ctx = [];
  ta_items : Forall (item_accepted (tr_ident tr) (context_name md)) (tr_items tr);
}.

Lemma trait_errors_nil md tr : trait_errors md tr = [] ↔ ∃ ctx, trait_accepted md tr ctx.
Proof.
  unfold trait_errors. rewrite !app_nil, item_trait_errors_nil. unfold context_errors.
  assert (∀ l, (l ≫= λ i, (item_result (trait_crate md) (tr_ident tr) (context_name md) i).2) = [] ↔
    Forall (item_accepted (tr_ident tr) (context_name md)) l) as ->.
  { induction l as [|i l IH]; simpl; [done|]. by rewrite app_nil, item_result_nil, Forall_cons, IH. }
  split.
  - intros (Hp & Hc & Hi). destruct (find_context _ _) as [ctx|] eqn:Ec; [|done].
    exists ctx. constructor; try done. by destruct (ty_generics_params ctx).
  - intros (ctx & [Hp Hc Hg Hi]). by rewrite Hc, Hg.
Qed.

Lemma try_map_app {E A B} (g : A → rust E B) l1 l2 r1 r2 :
  try_map g l1 = Ok r1 → try_map g l2 = Ok r2 → try_map g (l1 ++ l2) = Ok (r1 ++ r2).
Proof.
  revert r1. induction l1 as [|x l1 IH]; intros r1; simpl; [by intros [= <-]|].
  intros (y & -> & (ys & Hys & [= <-])%rust_bind_ok)%rust_bind_ok H2. simpl. by rewrite (IH ys Hys H2).
Qed.

Lemma items_registrations md tr kind :
  versions_parsed → Forall (item_accepted (tr_ident tr) (context_name md)) (tr_items tr) →
  has_invalid_fn_items (items_of md tr) = false ∧
  ∃ rs regs, try_map (E := Empty_set) (item_registration (trait_crate md) kind) (items_of md tr) = Ok rs ∧
    Forall2 (registered (trait_crate md) (tr_ident tr) (context_name md) kind) (tr_items tr) regs ∧
    concat rs = concat regs.
Proof.
  intros Hv. unfold items_of. induction 1 as [|i items Hi _ IH]; simpl.
  { split; [done|]. exists [], []. by split_and!. }
  destruct IH as [Hinv (rs & regs & Hrs & Hf & Hc)].
  destruct (item_registration_ok (trait_crate md) (tr_ident tr) (context_name md) kind i Hv Hi) as [Hni (r & Hr & Hreg)].
  split.
  - unfold has_invalid_fn_items in *. rewrite existsb_app. apply orb_false_iff. split; [|exact Hinv].
    by apply existsb_false_Forall.
  - exists (r ++ rs), (concat r :: regs). split; [by apply try_map_app|]. split; [by constructor|].
    simpl. by rewrite concat_app, Hc.
Qed.

Context (from_tokenstream : TokenStream → ApiMetadata + Error) (parse_trait : TokenStream → ItemTrait + Error).

(** The generated module of an accepted trait, with its documentation. *)
Definition module_docs (md : ApiMetadata) (tr : ItemTrait) : ModuleDocComments :=
  generate (trait_crate md) (tr_ident tr) (context_name md) (module_name to_snake_case md (tr_ident tr)).

Definition factory_fn (md : ApiMetadata) (tr : ItemTrait) (kind : FactoryKind)
    (registrations : list (list (Registration (Expr := Expr)))) : FactoryFn (Expr := Expr) :=
  let body := FactoryRegister (am_tag_config md) (concat registrations) in
  match kind with
  | RegularFactory => mk_factory_fn (module_api_description (module_docs md tr) ++ [automatically_derived])
      "api_description" (Some (tr_ident tr)) (server_impl_path (tr_ident tr) (context_name md)) body
  | StubFactory => mk_factory_fn (module_stub_api_description (module_docs md tr) ++ [automatically_derived])
      "stub_api_description" None (trait_crate md +:+ "::StubContext") body
  end.

Definition support_module (md : ApiMetadata) (tr : ItemTrait) (stubs regs : list (list (Registration (Expr := Expr)))) :
    SupportModule (Expr := Expr) :=
  Support (module_outer (module_docs md tr) ++ [automatically_derived]) (tr_vis tr)
    (module_name to_snake_case md (tr_ident tr)) (make_type_checks (items_of md tr))
    (factory_fn md tr StubFactory stubs) (factory_fn md tr RegularFactory regs).

Lemma make_module_accepted md tr ctx :
  versions_parsed → trait_accepted md tr ctx →
  ∃ stubs regs,
    Forall2 (registered (trait_crate md) (tr_ident tr) (context_name md) StubFactory) (tr_items tr) stubs ∧
    Forall2 (registered (trait_crate md) (tr_ident tr) (context_name md) RegularFactory) (tr_items tr) regs ∧
    make_module (parser_of md tr) = Ok (support_module md tr stubs regs).
Proof.
  intros Hv [Hp Hc Hg Hi]. destruct (items_registrations md tr StubFactory Hv Hi) as [Hinv (rs1 & stubs & Hr1 & Hf1 & Hc1)].
  destruct (items_registrations md tr RegularFactory Hv Hi) as [_ (rs2 & regs & Hr2 & Hf2 & Hc2)].
  exists stubs, regs. split; [done|]. split; [done|]. apply item_trait_errors_nil in Hp.
  unfold make_module, parser_of, context_result. cbn [pa_metadata pa_trait_valid pa_item_trait pa_items].
  rewrite Hp, Hc, Hg. cbn [has_any negb context_valid_item].
  unfold module_to_tokens, make_doc_comments, make_api_description, make_stub_api_description, make_api_factory_body.
  cbv zeta. destruct (find_context_ident _ _ _ Hc) as [Hctx _].
  rewrite Hinv, Hr1, Hr2. cbn [mbind rust_bind]. by rewrite Hc1, Hc2, Hctx.
Qed.

Lemma to_output_summary (p : ApiParser (V := V) (Expr := Expr)) out :
  to_output p = Ok out → ∃ m, make_module p = Ok m ∧ ao_output out = Some (out_trait p, m) ∧ ao_param_errors out = param_errors p.
Proof. unfold to_output. intros (m & Hm & [= <-])%rust_bind_ok. by exists m. Qed.

(** Items that are not invalid have no errors of parameters. *)
Lemma param_errors_valid (p : ApiParser (V := V) (Expr := Expr)) :
  has_invalid_fn_items (pa_items p) = false → param_errors p = None.
Proof.
  intros Hi. unfold param_errors. destruct (pa_metadata p) as [m|]; [|done]. simpl.
  assert (existsb invalid_endpoint_params (pa_items p) = false ∧ existsb invalid_channel_params (pa_items p) = false) as [-> ->];
    [|done]. unfold has_invalid_fn_items in Hi. induction (pa_items p) as [|i l IH]; simpl in *; [done|].
  apply orb_false_iff in Hi as [Hi Hl]. destruct (IH Hl) as [-> ->]. destruct i as [[| | |]|]; simpl in *; done.
Qed.

(** Quoting the registrations does not panic, whether other items are accepted
    or not. *)
Lemma item_registration_total dropshot trait_ident ctx kind item :
  versions_parsed →
  ∃ rs, try_map (E := Empty_set) (item_registration dropshot kind) (item_result dropshot trait_ident ctx item).1 = Ok rs.
Proof.
  intros [He Hc].
  assert (∀ i : ApiItem (V := V) (Expr := Expr), (∃ r, item_registration dropshot kind i = Ok r) →
    ∃ rs, try_map (E := Empty_set) (item_registration dropshot kind) [i] = Ok rs) as Hone.
  { intros i (r & Hr). simpl. rewrite Hr. by eexists. }
  destruct item as [f|o].
  2: { destruct o as [i attrs|attrs|t|p attrs|text]; simpl; [| |destruct (String.eqb _ _)|..]; by eexists. }
  apply Hone. unfold fn_item_result. cbv zeta. destruct (omap api_attr (tf_attrs f)) as [|[a|a] [|b rest]]; try by eexists.
  - unfold endpoint_md_result. destruct (attr_meta a) as [|tokens|v]; [by eexists| |by eexists].
    destruct (parse_endpoint tokens) as [m|e] eqn:Em; [|by eexists].
    destruct (unless_errors _ (validated m)) as [v|] eqn:Ev; [|by eexists]. apply unless_errors_Some in Ev as [_ ->].
    destruct (endpoint_params_of _ _ _ f) as [p|]; [|by eexists]. simpl. unfold endpoint_to_api_endpoint. simpl.
    destruct (to_api_endpoint_fn_plain (validated m) dropshot (ident (tf_sig f))
      (endpoint_target trait_ident kind (ident (tf_sig f)) p) (from_attrs (tf_attrs f)) (He _ _ Em)) as [x Hx].
    fold (endpoint_target trait_ident kind (ident (tf_sig f)) p). rewrite Hx. by eexists.
  - unfold channel_md_result. destruct (attr_meta a) as [|tokens|v]; [by eexists| |by eexists].
    destruct (parse_channel tokens) as [m|e] eqn:Em; [|by eexists].
    destruct (unless_errors _ (channel_validated m)) as [v|] eqn:Ev; [|by eexists]. apply unless_errors_Some in Ev as [_ ->].
    destruct (channel_params_of _ _ _ f) as [p|]; [|by eexists]. simpl. unfold channel_to_api_endpoint. simpl.
    destruct (to_api_endpoint_fn_plain (channel_validated (Expr := Expr) m) dropshot (ident (tf_sig f))
      (channel_target kind p) (from_attrs (tf_attrs f)) (Hc _ _ Em)) as [x Hx].
    destruct kind; simpl in *; rewrite Hx; by eexists.
Qed.

Lemma items_registration_total md tr kind :
  versions_parsed → ∃ rs, try_map (E := Empty_set) (item_registration (trait_crate md) kind) (items_of md tr) = Ok rs.
Proof.
  intros Hv. unfold items_of. induction (tr_items tr) as [|i items [rs IH]]; [by exists []|].
  destruct (item_registration_total (trait_crate md) (tr_ident tr) (context_name md) kind i Hv) as [r Hr].
  exists (r ++ rs). by apply try_map_app.
Qed.

Lemma to_output_total md tr : versions_parsed → ∃ out, to_output (parser_of md tr) = Ok out.
Proof.
  intros Hv. unfold to_output. assert (∃ m, make_module (parser_of md tr) = Ok m) as [m Hm]; [|rewrite Hm; by eexists].
  unfold make_module, parser_of, module_to_tokens, make_api_description, make_stub_api_description, make_api_factory_body.
  cbn [pa_metadata pa_trait_valid pa_item_trait pa_items].
  destruct (items_registration_total md tr StubFactory Hv) as [rs1 E1].
  destruct (items_registration_total md tr RegularFactory Hv) as [rs2 E2].
  destruct (negb (has_any (item_trait_errors tr))), (context_valid_item (context_result (context_name md) (tr_items tr))),
    (has_invalid_fn_items (items_of md tr)); rewrite ?E1, ?E2; by eexists.
Qed.

(** The parts of an output that fit a trait without metadata. *)
Definition unresolved_parser (tr : ItemTrait) : ApiParser (V := V) (Expr := Expr) :=
  mk_parser tr (negb (has_any (item_trait_errors tr))) (ApiOther <$> tr_items tr) None.

Lemma invalid_no_metadata_runs tr id pre :
  runs id pre (invalid_no_metadata (V := V) (Expr := Expr) tr id) (unresolved_parser tr) (item_trait_errors tr).
Proof. eapply runs_bind_nil; [apply api_item_trait_new_runs|apply runs_ret]. Qed.

(** What the macro is to give for an attribute and an item. *)
Record trait_outcome (attr item : TokenStream) (out : option (ItemTrait * SupportModule (Expr := Expr))) (errs : list Error) : Prop := {
  to_errors : errs = [] ↔ ∃ md tr ctx, from_tokenstream attr = inl md ∧ parse_trait item = inl tr ∧ trait_accepted md tr ctx;
  to_accepted : ∀ md tr ctx, from_tokenstream attr = inl md → parse_trait item = inl tr → trait_accepted md tr ctx →
    ∃ stubs regs,
      Forall2 (registered (trait_crate md) (tr_ident tr) (context_name md) StubFactory) (tr_items tr) stubs ∧
      Forall2 (registered (trait_crate md) (tr_ident tr) (context_name md) RegularFactory) (tr_items tr) regs ∧
      out = Some (out_trait (parser_of md tr), support_module md tr stubs regs);
}.

Lemma parsed_outcome attr item md tr out :
  versions_parsed → from_tokenstream attr = inl md → parse_trait item = inl tr → to_output (parser_of md tr) = Ok out →
  trait_outcome attr item (ao_output out) (usage_errors (ao_param_errors out) ++ trait_errors md tr).
Proof.
  intros Hv Ea Et (m & Hm & -> & ->)%to_output_summary. constructor.
  - split.
    + intros [_ (ctx & Hacc)%trait_errors_nil]%app_nil. by exists md, tr, ctx.
    + intros (md' & tr' & ctx & Ea' & Et' & Hacc). rewrite Ea in Ea'. rewrite Et in Et'.
      injection Ea' as <-. injection Et' as <-. apply app_nil. split; [|apply trait_errors_nil; by exists ctx].
      rewrite param_errors_valid; [done|]. by apply (items_registrations md tr RegularFactory), Hacc.
  - intros md' tr' ctx Ea' Et' Hacc. rewrite Ea in Ea'. rewrite Et in Et'. injection Ea' as <-. injection Et' as <-.
    destruct (make_module_accepted md tr ctx Hv Hacc) as (stubs & regs & Hf1 & Hf2 & E). exists stubs, regs.
    split_and!; [done..|]. congruence.
Qed.

Lemma unparsed_outcome attr item out errs :
  errs ≠ [] → (∀ md tr, from_tokenstream attr = inl md → parse_trait item = inl tr → False) →
  trait_outcome attr item out errs.
Proof.
  intros He Hn. constructor; [|intros md tr ? Ea Et; by destruct (Hn md tr)].
  split; [done|]. intros (md & tr & ? & Ea & Et & _). by destruct (Hn md tr).
Qed.

Lemma trait_body_runs attr item :
  versions_parsed → (∀ tr, parse_trait item = inl tr → Forall other_than_fn (tr_items tr)) →
  ∃ out errs, (∀ id, runs id false
      (trait_body type_visits parse_endpoint parse_channel parse_str to_snake_case from_tokenstream parse_trait attr item id)
      out errs) ∧
    trait_outcome attr item (ao_output out) (usage_errors (ao_param_errors out) ++ errs).
Proof.
  intros Hv Ho. unfold trait_body. pose proof (λ id pre, ok_or_push_runs (from_tokenstream attr) id pre) as Ha.
  pose proof (λ id pre, ok_or_push_runs (parse_trait item) id pre) as Ht.
  destruct (from_tokenstream attr) as [md|e1] eqn:Ea, (parse_trait item) as [tr|e2] eqn:Et; simpl in *.
  - destruct (to_output_total md tr Hv) as [out Hout]. exists out, (trait_errors md tr). split; [|by apply parsed_outcome].
    intros id. eapply runs_bind_ret; [apply Ha|]. eapply runs_bind_ret; [apply Ht|].
    eapply runs_bind_nil; [by apply parser_new_runs, Ho|by apply runs_lift].
  - exists (mk_api_output None None), [e2]. split; [|apply unparsed_outcome; [done|congruence]].
    intros id. eapply runs_bind_ret; [apply Ha|]. eapply runs_bind_nil; [apply Ht|apply runs_ret].
  - destruct (to_output (unresolved_parser tr)) as [out| |]
      eqn:E; [|done..].
    exists out, ([e1] ++ item_trait_errors tr). split; [|apply unparsed_outcome; [|congruence]].
    + intros id. eapply runs_bind; [apply Ha|]. eapply runs_bind_ret; [apply Ht|].
      eapply runs_bind_nil; [apply invalid_no_metadata_runs|by apply runs_lift].
    + intros [_ [=]]%app_nil.
  - exists (mk_api_output None None), [e1; e2]. split; [|apply unparsed_outcome; [done|congruence]].
    intros id. eapply (runs_bind _ _ _ _ _ _ [e1] [e2]); [apply Ha|]. eapply runs_bind_nil; [apply Ht|apply runs_ret].
Qed.

(** C18: The [api_description] macro ends without a panic, on a trait as it was
    parsed.  It reports no error exactly if the trait, its context type and all
    marked methods are accepted.  Then the trait that it generates has the
    context type first and the items in their order, without the marks, and the
    functions of its support module, which has the trait's visibility and
    documentation that names it, register the endpoint or channel of each
    marked method, in the order of the trait, and nothing else. *)
Theorem do_trait_spec (attr item : TokenStream) :
  versions_parsed →
  (∀ tr, parse_trait item = inl tr → Forall other_than_fn (tr_items tr)) →
  ∃ out errs,
    do_trait type_visits parse_endpoint parse_channel parse_str to_snake_case from_tokenstream parse_trait attr item =
      Some (Ok (out, errs)) ∧
    (errs = [] ↔ ∃ md tr ctx, from_tokenstream attr = inl md ∧ parse_trait item = inl tr ∧ trait_accepted md tr ctx) ∧
    (∀ md tr ctx, from_tokenstream attr = inl md → parse_trait item = inl tr → trait_accepted md tr ctx →
       ∃ stubs regs,
         Forall2 (registered (trait_crate md) (tr_ident tr) (context_name md) StubFactory) (tr_items tr) stubs ∧
         Forall2 (registered (trait_crate md) (tr_ident tr) (context_name md) RegularFactory) (tr_items tr) regs ∧
         out = Some (out_trait (parser_of md tr), support_module md tr stubs regs)).
Proof.
  intros Hv Ho. destruct (trait_body_runs attr item Hv Ho) as (out & errs & Hr & [Herr Hout]).
  destruct (runs_store _ out errs Hr) as (s & Hs & Hi). exists (ao_output out), (usage_errors (ao_param_errors out) ++ errs).
  split; [|done]. unfold do_trait. simpl in Hs. simpl. rewrite Hs. by rewrite Hi.
Qed.
End results.
