(* ===== verification/MacroEntry.v ===== *)
(** * The attribute macros

    The functions that the compiler calls, in [dropshot_endpoint/src/lib.rs]: what
    [do_endpoint], [do_channel] and [do_trait] give, with a [compile_error!] for
    each error.  Tokens of [proc_macro] and of [proc_macro2] are the same here. *)
From S2P Require Import Prelude Externals ErrorStore MacroSyn MacroDoc MacroMetadata MacroParams MacroEndpoint MacroTrait.

(** What the macro is replaced by: items, and [compile_error!]s. *)
Inductive MacroTokens (T : Type) :=
| Generated (tokens : T)
| CompileError (e : Error).
Arguments Generated {T} tokens.
Arguments CompileError {T} e.

Definition to_compile_error {T} (err : Error) : MacroTokens T := CompileError err.

Definition do_output {T} (result : T * list Error) : list (MacroTokens T) :=
  let '(endpoint, errors) := result in Generated endpoint :: (to_compile_error <$> errors).

(** A run of the macro, which may panic. *)
Definition expand {T} (run : option (panics (T * list Error))) : option (panics (list (MacroTokens T))) :=
  match run with Some result => Some (do_output <$> result) | None => None end.

Section entry.
Context {V Expr : Type} `{SemVer V} `{!SemVerParts V}.
Context (type_visits : SynType → list Visit) (parse_str : string → option TokenStream) (to_snake_case : string → string).
Context (parse_trait_fn : TokenStream → TraitItemFn + Error) (parse_item_fn : TokenStream → ItemFn + Error)
  (parse_trait : TokenStream → ItemTrait + Error).
Context (parse_endpoint : TokenStream → EndpointMetadata (V := V) (Expr := Expr) + Error)
  (parse_channel : TokenStream → ChannelMetadata (V := V) + Error) (parse_api : TokenStream → ApiMetadata + Error).

Definition endpoint (attr item : TokenStream) : option (panics (list (MacroTokens (MacroOutput (Expr := Expr))))) :=
  expand (do_endpoint type_visits parse_str parse_trait_fn parse_item_fn parse_endpoint attr item).

Definition channel (attr item : TokenStream) : option (panics (list (MacroTokens (MacroOutput (Expr := Expr))))) :=
  expand (do_channel type_visits parse_str parse_trait_fn parse_item_fn parse_channel attr item).

Definition api_description (attr item : TokenStream) :
    option (panics (list (MacroTokens (option (ItemTrait * SupportModule (Expr := Expr)))))) :=
  expand (do_trait type_visits parse_endpoint parse_channel parse_str to_snake_case parse_api parse_trait attr item).
End entry.

(** A use of a macro compiles, as far as the macro is concerned, exactly if there are
    no errors; and each error is shown, in the order in which they were made. *)
Definition shown_errors {T} (tokens : list (MacroTokens T)) : list Error :=
  omap (λ t, match t with CompileError e => Some e | Generated _ => None end) tokens.

Lemma expand_ok {T} (run : option (panics (T * list Error))) tokens :
  expand run = Some (Ok tokens) ↔
  ∃ out errors, run = Some (Ok (out, errors)) ∧ tokens = Generated out :: (CompileError <$> errors).
Proof.
  unfold expand. destruct run as [[[out errors]|[]|msg]|]; simpl; [|naive_solver..].
  split; [intros [= <-]; by exists out, errors|by intros (? & ? & [= <- <-] & ->)].
Qed.

Lemma shown_errors_of {T} (out : T) errors : shown_errors (do_output (out, errors)) = errors.
Proof. induction errors as [|e errors IH]; [done|]. unfold shown_errors in *. simpl in *. by f_equal. Qed.

Lemma expand_errors {T} (run : option (panics (T * list Error))) tokens :
  expand run = Some (Ok tokens) → ∃ out, run = Some (Ok (out, shown_errors tokens)).
Proof.
  intros (out & errors & -> & ->)%expand_ok. exists out.
  by rewrite (shown_errors_of out errors : shown_errors (Generated out :: (CompileError <$> errors)) = errors).
Qed.
