(* ===== verification/MacroFactory.v ===== *)
(** * Running the generated functions

    The [api_description] and [stub_api_description] functions that the
    [api_description] macro generates ([make_api_factory_body] and
    [make_tag_config] of [dropshot_endpoint/src/api_trait.rs]), run with the
    definitions of [ApiDescription]: each registration is evaluated and
    registered, errors are collected. *)
From S2P Require Import Prelude BTree Externals Versions HttpError Schema ApiEndpoint Router ApiDescription.
From S2P Require Import RouterSpec MacroSyn MacroDoc MacroMetadata MacroParams MacroEndpoint MacroTrait MacroTraitSpec.

Section factory.
Context `{Crates} `{!SemVerParts Version} {Expr : Type} (fuel : nat).
(** The program's functions and types, constants and expressions. *)
Context (target : ApiEndpointKind → EndpointFn) (eval_path : TokenStream → Version) (eval_expr : Expr → N)
  (eval_policy : TokenStream → EndpointTagPolicy).

(** [make_tag_config]: the details in the program's data. *)
Definition eval_tag_details (d : ApiTagDetails) : TagDetails :=
  mk_tag_details (at_description d)
    ((λ ed, mk_tag_docs (atd_description ed) (atd_url ed)) <$> at_external_docs d).

Definition eval_tag_config (c : ApiTagConfig) : TagConfig :=
  mk_tag_config (atc_allow_other_tags c)
    match atc_policy c with Some p => eval_policy p | None => AnyTags end
    (fold_left (λ tags '(tag, details), bt_insert tag (eval_tag_details details) tags) (atc_tags c) []).

Definition initial_description (c : option ApiTagConfig) : ApiDescription :=
  match c with
  | Some c => with_tag_config description_new (eval_tag_config c)
  | None => description_new
  end.

(** The blocks, one for each endpoint. *)
Fixpoint run_registrations (api : ApiDescription) (errors : list ApiDescriptionRegisterError)
    (regs : list (Registration (Expr := Expr))) :
    option (panics (ApiDescription * list ApiDescriptionRegisterError)) :=
  match regs with
  | [] => Some (Ok (api, errors))
  | r :: regs =>
      match eval_endpoint target eval_path eval_expr (reg_endpoint r) with
      | Ok endpoint =>
          match register fuel api endpoint with
          | Some (Ok api) => run_registrations api errors regs
          | Some (Err error) => run_registrations api (errors ++ [error]) regs
          | Some (Panic msg) => Some (Panic msg)
          | None => None
          end
      | Err e => match e with end
      | Panic msg => Some (Panic msg)
      end
  end.

Definition run_factory (body : FactoryBody (Expr := Expr)) : option (rust ApiDescriptionBuildErrors ApiDescription) :=
  match body with
  | FactoryPanic msg => Some (Panic msg)
  | FactoryRegister tag_config regs =>
      match run_registrations (initial_description tag_config) [] regs with
      | Some (Ok (api, [])) => Some (Ok api)
      | Some (Ok (_, errors)) => Some (Err (mk_build_errors errors))
      | Some (Err e) => match e with end
      | Some (Panic msg) => Some (Panic msg)
      | None => None
      end
  end.

(** ** What the result is *)

(** The endpoints that the registrations build. *)
Definition builds (r : Registration (Expr := Expr)) (e : ApiEndpoint) : Prop :=
  eval_endpoint target eval_path eval_expr (reg_endpoint r) = Ok e.

Lemma run_registrations_errors api errors regs api' errors' :
  run_registrations api errors regs = Some (Ok (api', errors')) → ∃ more, errors' = errors ++ more.
Proof.
  revert api errors. induction regs as [|r regs IH]; intros api errors; simpl.
  - intros [= _ <-]. exists []. by rewrite app_nil_r.
  - destruct (eval_endpoint _ _ _ _) as [e|[]|msg]; [|done]. destruct (register fuel api e) as [[api1|err|msg]|]; try done.
    + apply IH.
    + intros (more & ->)%IH. exists (err :: more). by rewrite <-app_assoc.
Qed.

Lemma run_registrations_all api regs eps api' errors errors' :
  Forall2 builds regs eps → run_registrations api errors regs = Some (Ok (api', errors')) →
  (errors' = errors → register_all fuel api eps = Some (Ok api')) ∧
  (∀ err more, errors' = errors ++ err :: more → register_all fuel api eps = Some (Err err)).
Proof.
  intros Hb. revert api. induction Hb as [|r e regs eps Hr _ IH]; intros api; simpl.
  - intros [= <- <-]. split; [done|]. intros err more E. apply (f_equal length) in E. rewrite length_app in E. simpl in E. lia.
  - rewrite Hr. destruct (register fuel api e) as [[api1|err|msg]|]; try done; [apply IH|].
    intros (more & ->)%run_registrations_errors. rewrite <-app_assoc. split.
    + intros E. apply (f_equal length) in E. rewrite length_app in E. simpl in E. lia.
    + intros err' more' E. apply app_inv_head in E. by injection E as -> _.
Qed.

Lemma run_registrations_ok api regs eps api' :
  Forall2 builds regs eps → register_all fuel api eps = Some (Ok api') →
  ∀ errors, run_registrations api errors regs = Some (Ok (api', errors)).
Proof.
  intros Hb. revert api. induction Hb as [|r e regs eps Hr _ IH]; intros api; simpl; [by intros [= <-]|].
  rewrite Hr. destruct (register fuel api e) as [[api1|err|msg]|]; try done. apply IH.
Qed.

(** C20: The generated function returns a description exactly if all endpoints can be
    registered one after the other, and then returns that description; the
    first of the errors that it returns otherwise is the one that ends the
    registration. *)
Theorem run_factory_spec (tag_config : option ApiTagConfig) (regs : list Registration) (eps : list ApiEndpoint) :
  Forall2 builds regs eps →
  (∀ api, run_factory (FactoryRegister tag_config regs) = Some (Ok api) ↔
     register_all fuel (initial_description tag_config) eps = Some (Ok api)) ∧
  (∀ errs, run_factory (FactoryRegister tag_config regs) = Some (Err errs) →
     ∃ err more, be_errors errs = err :: more ∧
       register_all fuel (initial_description tag_config) eps = Some (Err err)).
Proof.
  intros Hb. unfold run_factory. split.
  - intros api. split.
    + destruct (run_registrations _ _ _) as [[[api' errors]|[]|msg]|] eqn:E; try done.
      destruct errors as [|err errors]; [|done]. intros [= <-].
      by apply (run_registrations_all _ _ _ _ _ _ Hb E).
    + intros Hr. by rewrite (run_registrations_ok _ _ _ _ Hb Hr).
  - intros errs. destruct (run_registrations _ _ _) as [[[api' errors]|[]|msg]|] eqn:E; try done.
    destruct errors as [|err errors]; [done|]. intros [= <-]. exists err, errors. split; [done|].
    by apply (run_registrations_all _ _ _ _ _ _ Hb E) with errors.
Qed.

Lemma run_registrations_builds api errors regs r :
  run_registrations api errors regs = Some (Ok r) → ∃ eps, Forall2 builds regs eps.
Proof.
  revert api errors. induction regs as [|reg regs IH]; intros api errors; simpl; [by exists []|].
  destruct (eval_endpoint _ _ _ _) as [e|[]|msg] eqn:E; [|done]. intros H'.
  assert (∃ eps, Forall2 builds regs eps) as [eps Hb].
  { destruct (register fuel api e) as [[api1|err|msg]|]; try done; by eapply IH. }
  exists (e :: eps). by constructor.
Qed.

Lemma run_factory_ok tag_config regs api :
  run_factory (FactoryRegister tag_config regs) = Some (Ok api) →
  ∃ eps, Forall2 builds regs eps ∧ register_all fuel (initial_description tag_config) eps = Some (Ok api).
Proof.
  unfold run_factory. destruct (run_registrations _ _ _) as [[[api' errors]|[]|msg]|] eqn:E; try done.
  destruct errors as [|err errors]; [|done]. intros [= <-].
  destruct (run_registrations_builds _ _ _ _ E) as [eps Hb]. exists eps. split; [done|].
  by apply (run_registrations_all _ _ _ _ _ _ Hb E).
Qed.

Lemma builds_of regs eps r : Forall2 builds regs eps → r ∈ regs → ∃ e, builds r e ∧ e ∈ eps.
Proof.
  intros Hb (i & Hi)%list_elem_of_lookup. destruct (Forall2_lookup_l _ _ _ _ _ Hb Hi) as (e & He & Hr).
  exists e. split; [done|]. by eapply list_elem_of_lookup_2.
Qed.

Context (type_visits : SynType → list Visit).
Context (parse_endpoint : TokenStream → EndpointMetadata (V := Version) (Expr := Expr) + Error)
  (parse_channel : TokenStream → ChannelMetadata (V := Version) + Error).
Context `{!SemVerPartsLaws Version}.

(** A method that an accepted trait marks as an endpoint is in the API: where the
    generated function (or the stub) returns a description, its router was built
    from a list of endpoints in which there is the one that the attribute
    describes, with the method's name, its documentation and the handler of the
    implementation (or the stub's). *)
Lemma trait_method_registered (dropshot : TokenStream) (trait_ident ctx : string) (kind : FactoryKind)
    (items : list TraitItem) regs tag_config api (f : TraitItemFn) (a : Attribute TokenStream) tokens m :
  versions_parsed parse_endpoint parse_channel →
  Forall2 (registered parse_endpoint parse_channel dropshot trait_ident ctx kind) items regs →
  run_factory (FactoryRegister tag_config (concat regs)) = Some (Ok api) →
  TItemFn f ∈ items → omap api_attr (tf_attrs f) = [AttrEndpoint a] →
  attr_meta a = MetaList tokens → parse_endpoint tokens = inl m →
  ∃ eps p fm, build eps = Ok (router api) ∧
    endpoint_params_value dropshot (tf_sig f) (KindTrait trait_ident ctx) = Some p ∧
    described_endpoint target eval_path eval_expr (validated m) (ident (tf_sig f))
      (endpoint_target trait_ident kind (ident (tf_sig f)) p) (from_attrs (tf_attrs f)) fm ∈ eps.
Proof.
  intros [He _] Hf Hrun (i & Hi)%list_elem_of_lookup Ha Hl Hm. destruct (run_factory_ok _ _ _ Hrun) as (eps & Hb & Hall).
  destruct (Forall2_lookup_l _ _ _ _ _ Hf Hi) as (rs & Hrs & Hreg). simpl in Hreg. rewrite Ha in Hreg.
  destruct Hreg as (tokens' & m' & p & x & Hl' & Hm' & Hp & Hx & ->).
  assert (tokens' = tokens) as -> by congruence. assert (m' = m) as -> by congruence.
  destruct (builds_of (concat regs) eps (mk_registration None x) Hb) as (ep & Hep & Hin).
  { apply list_elem_of_In, in_concat. exists [mk_registration None x]. rewrite <-!list_elem_of_In.
    split; [by eapply list_elem_of_lookup_2|by apply list_elem_of_singleton]. }
  destruct (to_api_endpoint_fn_eval_inv target eval_path eval_expr (validated m) _ _ _ _ _ _ (He _ _ Hm) Hx Hep) as (fm & -> & _).
  exists eps, p, fm. split; [|done]. apply register_all_insert in Hall. unfold build.
  by destruct tag_config.
Qed.
End factory.
