(* ===== verification/MacroStub.v ===== *)
(** * The stub of an API trait

    The [api_description] macro generates two functions ([api_trait.rs]): one for an
    implementation of the trait, and one with stub handlers, which programs use to
    write the OpenAPI document without an implementation.  They are registered alike,
    and give the same documents. *)
From S2P Require Import Prelude BTree Externals Versions HttpError Schema OpenApi ApiEndpoint TypeUtil Router ApiDescription RouterSpec.
From S2P Require Import GenOpenApi HandlerErasure MacroSyn MacroDoc MacroMetadata MacroParams MacroEndpoint MacroTrait MacroFactory.

Lemma ok_inj {E A} (a b : A) : @Ok E A a = Ok b → a = b.
Proof. by intros [= ->]. Qed.

Lemma some_ok_inj {E A} (a b : A) : Some (@Ok E A a) = Some (Ok b) → a = b.
Proof. by intros [= ->]. Qed.

Section stub.
Context `{Crates} `{!SemVerParts Version} {Expr : Type} (fuel : nat).
Context (target : ApiEndpointKind → EndpointFn) (eval_path : TokenStream → Version) (eval_expr : Expr → N)
  (eval_policy : TokenStream → EndpointTagPolicy).
Implicit Types (x : EndpointExpr (Expr := Expr)) (r : Registration (Expr := Expr)) (i : ApiItem (V := Version) (Expr := Expr)).

(** A function and the types of a stub are of the same parameters, response and
    error. *)
Record same_types (k k' : ApiEndpointKind) : Prop := {
  same_extractors : ∀ ct, fn_extractors (target k) ct = fn_extractors (target k') ct;
  same_response : fn_response (target k) = fn_response (target k');
  same_error : fn_error (target k) = fn_error (target k');
}.

(** What the two functions make a method's endpoint of: the implementation's method,
    or the adapter of a channel; and the types of the trait. *)
Definition item_targets i : option (ApiEndpointKind * ApiEndpointKind) :=
  match i with
  | ApiFn (FnEndpoint e) =>
      Some (Regular (server_impl_path (te_trait_ident e) (ident (tf_sig (te_f e)))),
            Stub (extractor_types (te_params e)) (ep_ret_ty (te_params e)))
  | ApiFn (FnChannel c) =>
      Some (Regular (cp_adapter_name (tc_params c) +:+ "::<ServerImpl>"),
            Stub (channel_extractor_types (tc_params c)) (cp_endpoint_result_ty (tc_params c)))
  | _ => None
  end.

(** An implementation's methods have the types that the trait says. *)
Definition implements_trait (items : list ApiItem) : Prop :=
  ∀ i k k', i ∈ items → item_targets i = Some (k, k') → same_types k k'.

(** ** Expressions that differ in their target *)

Definition with_target x (k : ApiEndpointKind) : EndpointExpr :=
  mk_expr (x_dropshot x) k (x_operation_id x) (x_method x) (x_content_type x) (x_path x) (x_versions x) (x_calls x).

Lemma to_api_endpoint_fn_target v dropshot name k k' doc :
  to_api_endpoint_fn v dropshot name k' doc = (λ x, with_target x k') <$> to_api_endpoint_fn v dropshot name k doc.
Proof. unfold to_api_endpoint_fn. by destruct (versions_expr (v_versions v)) as [vs|[]|msg]. Qed.

Context (h : Handler).

Lemma eval_call_erase e c : erase h (eval_call eval_expr e c) = eval_call eval_expr (erase h e) c.
Proof. by destruct c. Qed.

Lemma eval_calls_erase calls e :
  erase h (fold_left (eval_call eval_expr) calls e) = fold_left (eval_call eval_expr) calls (erase h e).
Proof. revert e. induction calls as [|c calls IH]; intros e; [done|]. simpl. by rewrite IH, eval_call_erase. Qed.

Lemma endpoint_new_erase op a m ct p v exts resp err :
  erase h <$> endpoint_new op a m ct p v exts resp err = endpoint_new op h m ct p v exts resp err.
Proof.
  unfold endpoint_new. destruct (from_mime_type ct) as [c| |]; [|done..]. cbn [mbind rust_bind].
  by destruct (request_extractor_metadata _) as [md|[]|msg].
Qed.

Lemma endpoint_new_ext op a m ct p v exts exts' resp err :
  (∀ ct, exts ct = exts' ct) → endpoint_new op a m ct p v exts resp err = endpoint_new op a m ct p v exts' resp err.
Proof. intros E. unfold endpoint_new. destruct (from_mime_type ct); [|done..]. cbn [mbind rust_bind]. by rewrite E. Qed.

Lemma eval_endpoint_target x k k' :
  x_target x = k → same_types k k' →
  erase h <$> eval_endpoint target eval_path eval_expr x = erase h <$> eval_endpoint target eval_path eval_expr (with_target x k').
Proof.
  intros Hk [He Hr Herr]. unfold eval_endpoint. cbn [with_target x_versions x_target x_operation_id x_method x_content_type x_path x_calls].
  destruct (eval_versions eval_path (x_versions x)) as [vs|[]|msg]; [|done]. cbn [mbind rust_bind]. rewrite Hk.
  assert (∀ a a', erase h <$> endpoint_new (x_operation_id x) a (x_method x) (x_content_type x) (x_path x) vs
      (fn_extractors (target k)) (fn_response (target k)) (fn_error (target k)) =
    erase h <$> endpoint_new (x_operation_id x) a' (x_method x) (x_content_type x) (x_path x) vs
      (fn_extractors (target k')) (fn_response (target k')) (fn_error (target k'))) as E2.
  { intros a a'. rewrite !endpoint_new_erase, Hr, Herr. by apply endpoint_new_ext. }
  specialize (E2 (fn_handler (target k)) (fn_handler (target k'))).
  destruct (endpoint_new _ (fn_handler (target k)) _ _ _ _ _ _ _) as [e|[]|msg], (endpoint_new _ (fn_handler (target k')) _ _ _ _ _ _ _) as [e'|[]|msg'];
    try done; cbn [mbind rust_bind fmap rust_fmap] in E2 |- *.
  pose proof (ok_inj _ _ E2) as E3. by rewrite !eval_calls_erase, E3.
Qed.

(** ** The registrations of both *)

(** They build endpoints that differ in the handler. *)
Definition same_endpoint r r' : Prop :=
  erase h <$> eval_endpoint target eval_path eval_expr (reg_endpoint r) =
  erase h <$> eval_endpoint target eval_path eval_expr (reg_endpoint r').

Lemma item_registration_same dropshot i rs rs' :
  (∀ k k', item_targets i = Some (k, k') → same_types k k') →
  item_registration dropshot RegularFactory i = Ok rs → item_registration dropshot StubFactory i = Ok rs' →
  Forall2 same_endpoint rs rs'.
Proof.
  intros Hst. destruct i as [[e|c|f k|f]|o]; cbn [item_registration]; try (by intros [= <-] [= <-]).
  - unfold endpoint_to_api_endpoint. set (k := Regular _). set (k' := Stub _ _).
    rewrite (to_api_endpoint_fn_target _ _ _ k k'). intros (r & (x & Hx & [= <-])%rust_bind_ok & [= <-])%rust_bind_ok.
    rewrite Hx. intros [= <-]. apply Forall2_cons. split; [|constructor]. apply (eval_endpoint_target x k k'); [|by apply Hst].
    unfold to_api_endpoint_fn in Hx. by apply rust_bind_ok in Hx as (vs & _ & [= <-]).
  - unfold channel_to_api_endpoint. set (k := Regular _). set (k' := Stub _ _).
    rewrite (to_api_endpoint_fn_target _ _ _ k k'). intros (r & (x & Hx & [= <-])%rust_bind_ok & [= <-])%rust_bind_ok.
    rewrite Hx. intros [= <-]. apply Forall2_cons. split; [|constructor]. apply (eval_endpoint_target x k k'); [|by apply Hst].
    unfold to_api_endpoint_fn in Hx. by apply rust_bind_ok in Hx as (vs & _ & [= <-]).
Qed.

Lemma items_registration_same dropshot items rss rss' :
  implements_trait items →
  try_map (item_registration dropshot RegularFactory) items = Ok rss →
  try_map (item_registration dropshot StubFactory) items = Ok rss' →
  Forall2 same_endpoint (concat rss) (concat rss').
Proof.
  intros Hi Hr%try_map_ok. revert rss'. induction Hr as [|i rs items rss Hrs _ IH]; intros rss' Hr'%try_map_ok.
  - apply Forall2_nil_inv_l in Hr' as ->. constructor.
  - apply Forall2_cons_inv_l in Hr' as (rs' & rss2 & Hrs' & Hr2 & ->). simpl. apply Forall2_app.
    + eapply item_registration_same; [|done..]. intros k k'. apply Hi. by left.
    + apply IH; [|by apply try_map_ok]. intros j k k' Hj. apply Hi. by right.
Qed.

(** ** Running them *)

Definition erase_run (p : ApiDescription * list ApiDescriptionRegisterError) : ApiDescription * list ApiDescriptionRegisterError :=
  (erase_api h p.1, p.2).

Definition erase_result (m : panics (ApiDescription * list ApiDescriptionRegisterError)) :
    panics (ApiDescription * list ApiDescriptionRegisterError) := erase_run <$> m.

Lemma run_registrations_same regs regs' api api' errors :
  Forall2 same_endpoint regs regs' → erase_api h api = erase_api h api' →
  erase_result <$> run_registrations fuel target eval_path eval_expr api errors regs =
  erase_result <$> run_registrations fuel target eval_path eval_expr api' errors regs'.
Proof.
  intros Hs. revert api api' errors. induction Hs as [|r r' regs regs' Hr _ IH]; intros api api' errors Ha; simpl.
  - unfold erase_result, erase_run. cbn. by rewrite Ha.
  - unfold same_endpoint in Hr.
    destruct (eval_endpoint _ _ _ (reg_endpoint r)) as [e|[]|msg], (eval_endpoint _ _ _ (reg_endpoint r')) as [e'|[]|msg'];
      try done; [|cbn in Hr; by injection Hr as ->]. pose proof (ok_inj _ _ Hr) as He.
    pose proof (register_erase h fuel api e) as E. rewrite Ha, He, register_erase in E.
    destruct (register fuel api e) as [[a|err|msg]|], (register fuel api' e') as [[a'|err'|msg']|]; try done; cbn in E.
    + apply IH, (some_ok_inj (E := ApiDescriptionRegisterError)). by symmetry.
    + injection E as ->. by apply IH.
    + by injection E as ->.
Qed.
End stub.

(** ** The two functions *)

Section module.
Context `{Crates} `{!SemVerParts Version} {Expr : Type} (fuel : nat).
Context (target : ApiEndpointKind → EndpointFn) (eval_path : TokenStream → Version) (eval_expr : Expr → N)
  (eval_policy : TokenStream → EndpointTagPolicy).
Context (generator_new : SchemaGenerator) (root_definitions : SchemaGenerator → btree Schema)
  (hash_set_iter : gset string → list string).

(** Both fail, with the same errors, or both return a description, of the same
    documents. *)
Definition same_documents (r r' : option (rust ApiDescriptionBuildErrors ApiDescription)) : Prop :=
  match r, r' with
  | Some (Ok api), Some (Ok api') => ∀ n fuel info ver,
      gen_openapi generator_new root_definitions hash_set_iter n fuel api info ver =
      gen_openapi generator_new root_definitions hash_set_iter n fuel api' info ver
  | Some (Err errors), Some (Err errors') => errors = errors'
  | Some (Panic msg), Some (Panic msg') => msg = msg'
  | None, None => True
  | _, _ => False
  end.

Lemma same_documents_refl r : same_documents r r.
Proof. by destruct r as [[]|]. Qed.

(** C19: The document of a trait does not need an implementation.  Where the macro
    generates the functions [api_description] and [stub_api_description] for a
    trait, they do the same for every implementation, whose methods have the types
    of the trait: both return a description, and then any version's document made
    from one is that made from the other; or both return the same errors, or both
    panic with the same message. *)
Theorem stub_has_same_documents (self : ApiParser (V := Version) (Expr := Expr)) attrs vis name type_checks stub_api api :
  make_module self = Ok (Support attrs vis name type_checks stub_api api) → implements_trait target (pa_items self) →
  same_documents (run_factory fuel target eval_path eval_expr eval_policy (ff_body stub_api))
    (run_factory fuel target eval_path eval_expr eval_policy (ff_body api)).
Proof.
  unfold make_module. destruct (pa_metadata self) as [[dropshot tag_config module_ident context_item]|]; [|done].
  destruct (pa_trait_valid self); [|done]. destruct (context_valid_item context_item); [|done].
  unfold module_to_tokens, make_api_description, make_stub_api_description, make_api_factory_body.
  destruct (has_invalid_fn_items (pa_items self)).
  { intros [= _ _ _ _ <- <-] _. apply same_documents_refl. }
  destruct (try_map (item_registration dropshot RegularFactory) _) as [rss|[]|msg] eqn:Er; [|done].
  destruct (try_map (item_registration dropshot StubFactory) _) as [rss'|[]|msg] eqn:Er'; [|done].
  intros [= _ _ _ _ <- <-] Hi. set (h := fn_handler (target (Regular ""))).
  pose proof (items_registration_same target eval_path eval_expr h _ _ _ _ Hi Er Er') as Hs.
  pose proof (run_registrations_same fuel target eval_path eval_expr h _ _ (initial_description eval_policy tag_config) _ [] Hs eq_refl) as E.
  cbn [run_factory ff_body].
  destruct (run_registrations _ _ _ _ _ _ (concat rss)) as [[[a errs]|[]|msg]|], (run_registrations _ _ _ _ _ _ (concat rss')) as [[[a' errs']|[]|msg']|];
    try done; [|cbn in E; by injection E as ->].
  apply (some_ok_inj (E := Empty_set) (erase_run h (a, errs)) (erase_run h (a', errs'))), pair_equal_spec in E as [Ha He].
  cbn [fst snd] in Ha, He. subst errs'. destruct errs as [|err errs]; [|done]. intros n fuel' info ver.
  by rewrite <-(gen_openapi_erase h), <-Ha, gen_openapi_erase.
Qed.
End module.
