(* ===== verification/MacroParsing.v ===== *)
(** * Parsing of traits and functions

    [dropshot_endpoint/src/syn_parsing.rs]: traits whose methods are parsed up to
    their bodies, and functions whose bodies may have syntax errors; and the
    printing of the former.

    The parsers and printers of the [syn] crate that the code calls are a class
    ([SynCrate]).  Its laws say that each parser reads back what is printed, before
    the tokens that can follow it in a trait; they are the grammar of Rust.  The
    spacing of punctuation and the positions of tokens are left out. *)
From S2P Require Import Prelude.

(** ** Tokens *)

Inductive Delimiter := Parenthesis | Brace | Bracket.

(** [proc_macro2::TokenTree]. *)
Inductive TokenTree :=
| TGroup (d : Delimiter) (stream : list TokenTree)
| TIdent (i : string)
| TPunct (c : ascii)
| TLiteral (text : string).

Definition Tokens : Type := list TokenTree.

(** A parser of the crate: a value and the tokens after it, or an error. *)
Definition parser (A : Type) : Type := Tokens → A * Tokens + string.

Definition peek_ident (k : string) (input : Tokens) : bool :=
  match input with TIdent i :: _ => String.eqb i k | _ => false end.
Definition peek_punct (c : ascii) (input : Tokens) : bool :=
  match input with TPunct p :: _ => Ascii.eqb p c | _ => false end.
Definition peek_brace (input : Tokens) : bool :=
  match input with TGroup Brace _ :: _ => true | _ => false end.
(** [peek(Token![#]) && peek2(Token![!])]. *)
Definition peek_inner (input : Tokens) : bool :=
  peek_punct "#"%char input && match input with _ :: rest => peek_punct "!"%char rest | [] => false end.

Class SynCrate := {
  Meta : Type; Visibility : Type; SynSignature : Type; Abi : Type;
  Generics : Type; WhereClause : Type; TypeParamBound : Type;
  (** [syn::TraitItem]. *)
  SynTraitItem : Type;
  item_is_fn : SynTraitItem → bool;
  vis_inherited : Visibility;
  vis_is_inherited : Visibility → bool;
  (** A word that is an identifier and not reserved. *)
  accept_as_ident : string → bool;
  parse_meta : parser Meta;
  parse_outer : parser (list (bool * Meta));
  parse_visibility : parser Visibility;
  parse_signature : parser SynSignature;
  parse_abi : parser (option Abi);
  parse_generics : parser Generics;
  parse_where : parser (option WhereClause);
  parse_bound : parser TypeParamBound;
  parse_trait_item : parser SynTraitItem;
  print_meta : Meta → Tokens;
  print_attr : bool * Meta → Tokens;
  print_visibility : Visibility → Tokens;
  print_signature : SynSignature → Tokens;
  print_abi : option Abi → Tokens;
  print_generics : Generics → Tokens;
  print_where : option WhereClause → Tokens;
  print_bound : TypeParamBound → Tokens;
  print_trait_item : SynTraitItem → Tokens;
}.

Section parsing.
Context `{SynCrate}.

(** [syn::Attribute]: whether it is an inner one, and its content. *)
Definition SynAttribute : Type := bool * Meta.

Definition unexpected : string := "unexpected token".

(** ** The crate's parsers as computations *)

Definition run {A} (p : parser A) (input : Tokens) : rust string (A * Tokens) :=
  match p input with inl r => Ok r | inr e => Err e end.

(** [Option<Token![k]>], [Token![k]], [Token![c]] and [Ident]. *)
Definition opt_ident (k : string) (input : Tokens) : bool * Tokens :=
  if peek_ident k input then (true, drop 1 input) else (false, input).
Definition opt_punct (c : ascii) (input : Tokens) : bool * Tokens :=
  if peek_punct c input then (true, drop 1 input) else (false, input).
Definition token_ident (k : string) (input : Tokens) : rust string Tokens :=
  if peek_ident k input then Ok (drop 1 input) else Err ("expected `" +:+ k +:+ "`").
Definition token_punct (c : ascii) (input : Tokens) : rust string Tokens :=
  if peek_punct c input then Ok (drop 1 input) else Err ("expected `" +:+ char_str c +:+ "`").
Definition parse_ident (input : Tokens) : rust string (string * Tokens) :=
  match input with
  | TIdent i :: rest => if accept_as_ident i then Ok (i, rest) else Err "expected identifier"
  | _ => Err "expected identifier"
  end.

(** [braced!] and [bracketed!]: the content, and the tokens after the group. *)
Definition braced (input : Tokens) : rust string (Tokens * Tokens) :=
  match input with TGroup Brace content :: rest => Ok (content, rest) | _ => Err "expected curly braces" end.
Definition bracketed (input : Tokens) : rust string (Tokens * Tokens) :=
  match input with TGroup Bracket content :: rest => Ok (content, rest) | _ => Err "expected square brackets" end.

(** A content or an input has to be read to its end. *)
Definition at_end {A} (r : A * Tokens) : rust string A :=
  match r with (a, []) => Ok a | _ => Err unexpected end.

(** ** Data *)

(** The body of a function, between its braces. *)
Definition UnparsedBlock : Type := Tokens.

Record TraitItemFnForSignature := mk_part_fn {
  pf_attrs : list SynAttribute;
  pf_sig : SynSignature;
  pf_block : option UnparsedBlock;
  pf_semi_token : bool;
}.

Inductive TraitItemPartParsed :=
| PartFn (f : TraitItemFnForSignature)
| PartOther (item : SynTraitItem).

(** [supertraits] is punctuated, with or without a last [+]. *)
Record ItemTraitPartParsed := mk_part_trait {
  pt_attrs : list SynAttribute;
  pt_vis : Visibility;
  pt_unsafety : bool;
  pt_auto_token : bool;
  pt_ident : string;
  pt_generics : Generics;
  pt_where_clause : option WhereClause;
  pt_colon_token : bool;
  pt_supertraits : list TypeParamBound;
  pt_trailing_punct : bool;
  pt_items : list TraitItemPartParsed;
}.

Record ItemFnForSignature := mk_part_item_fn {
  if_attrs : list SynAttribute;
  if_vis : Visibility;
  if_sig : SynSignature;
  if_block : Tokens;
}.

(** ** Parsing *)

Definition single_parse_inner (input : Tokens) : rust string (SynAttribute * Tokens) :=
  input ← token_punct "#"%char input;
  input ← token_punct "!"%char input;
  '(content, input) ← bracketed input;
  meta ← run parse_meta content ≫= at_end;
  Ok ((true, meta), input).

Definition out_of_fuel : string := "out of fuel".

(** The [while] loop; the fuel is the number of tokens. *)
Fixpoint parse_inner_loop (fuel : nat) (attrs : list SynAttribute) (input : Tokens) :
    rust string (list SynAttribute * Tokens) :=
  if peek_inner input then
    match fuel with
    | 0 => Panic out_of_fuel
    | S fuel => '(a, input) ← single_parse_inner input; parse_inner_loop fuel (attrs ++ [a]) input
    end
  else Ok (attrs, input).

Definition parse_inner (attrs : list SynAttribute) (input : Tokens) : rust string (list SynAttribute * Tokens) :=
  parse_inner_loop (length input) attrs input.

(** [peek_signature] on a fork. *)
Definition peek_signature (input : Tokens) : bool :=
  let '(_, fork) := opt_ident "const" input in
  let '(_, fork) := opt_ident "async" fork in
  let '(_, fork) := opt_ident "unsafe" fork in
  match parse_abi fork with
  | inl (_, fork) => peek_ident "fn" fork
  | inr _ => false
  end.

Definition parse_trait_fn (input : Tokens) : rust string (TraitItemFnForSignature * Tokens) :=
  '(attrs, input) ← run parse_outer input;
  '(sig, input) ← run parse_signature input;
  if peek_brace input then
    '(content, input) ← braced input;
    '(attrs, tokens) ← parse_inner attrs content;
    Ok (mk_part_fn attrs sig (Some tokens) false, input)
  else if peek_punct ";"%char input then Ok (mk_part_fn attrs sig None true, drop 1 input)
  else Err "expected curly braces or `;`".

Definition handled_separately : string :=
  "functions should have been handled separately, we should never get here".

Definition parse_part_item (begin : Tokens) : rust string (TraitItemPartParsed * Tokens) :=
  '(attrs, input) ← run parse_outer begin;
  '(vis, input) ← run parse_visibility input;
  let '(defaultness, input) := opt_ident "default" input in
  if vis_is_inherited vis && negb defaultness && (peek_ident "fn" input || peek_signature input) then
    '(fn_item, input) ← parse_trait_fn input;
    Ok (PartFn (mk_part_fn (attrs ++ pf_attrs fn_item) (pf_sig fn_item) (pf_block fn_item) (pf_semi_token fn_item)), input)
  else
    '(other, input) ← run parse_trait_item begin;
    if item_is_fn other then Err handled_separately else Ok (PartOther other, input).

(** The loop over the supertraits; the last component says whether the last
    one is followed by a [+]. *)
Fixpoint parse_supertraits (fuel : nat) (supertraits : list TypeParamBound) (trailing : bool) (input : Tokens) :
    rust string (list TypeParamBound * bool * Tokens) :=
  if peek_ident "where" input || peek_brace input then Ok (supertraits, trailing, input)
  else
    match fuel with
    | 0 => Panic out_of_fuel
    | S fuel =>
        '(bound, input) ← run parse_bound input;
        if peek_ident "where" input || peek_brace input then Ok (supertraits ++ [bound], false, input)
        else input ← token_punct "+"%char input; parse_supertraits fuel (supertraits ++ [bound]) true input
    end.

(** [while !content.is_empty()]. *)
Fixpoint parse_items (fuel : nat) (items : list TraitItemPartParsed) (content : Tokens) :
    rust string (list TraitItemPartParsed) :=
  match content with
  | [] => Ok items
  | _ =>
      match fuel with
      | 0 => Panic out_of_fuel
      | S fuel => '(item, content) ← parse_part_item content; parse_items fuel (items ++ [item]) content
      end
  end.

Definition parse_rest_of_trait (input : Tokens) (attrs : list SynAttribute) (vis : Visibility) (unsafety auto_token : bool)
    (ident : string) (generics : Generics) : rust string (ItemTraitPartParsed * Tokens) :=
  let '(colon_token, input) := opt_punct ":"%char input in
  '(supertraits, trailing, input) ←
    if colon_token then parse_supertraits (S (length input)) [] false input else Ok ([], false, input);
  '(where_clause, input) ← run parse_where input;
  '(content, input) ← braced input;
  '(attrs, content) ← parse_inner attrs content;
  items ← parse_items (length content) [] content;
  Ok (mk_part_trait attrs vis unsafety auto_token ident generics where_clause colon_token supertraits trailing items, input).

Definition parse_item_trait (input : Tokens) : rust string (ItemTraitPartParsed * Tokens) :=
  '(outer_attrs, input) ← run parse_outer input;
  '(vis, input) ← run parse_visibility input;
  let '(unsafety, input) := opt_ident "unsafe" input in
  let '(auto_token, input) := opt_ident "auto" input in
  input ← token_ident "trait" input;
  '(ident, input) ← parse_ident input;
  '(generics, input) ← run parse_generics input;
  parse_rest_of_trait input outer_attrs vis unsafety auto_token ident generics.

Definition parse_item_fn (input : Tokens) : rust string (ItemFnForSignature * Tokens) :=
  '(attrs, input) ← run parse_outer input;
  '(vis, input) ← run parse_visibility input;
  '(sig, input) ← run parse_signature input;
  Ok (mk_part_item_fn attrs vis sig input, []).

(** [syn::parse2]. *)
Definition parse2 {A} (p : Tokens → rust string (A * Tokens)) (input : Tokens) : rust string A := p input ≫= at_end.

(** ** Printing *)

Definition is_inner (a : SynAttribute) : bool := a.1.
Definition outer (l : list SynAttribute) : list SynAttribute := List.filter (λ a, negb (is_inner a)) l.
Definition inner (l : list SynAttribute) : list SynAttribute := List.filter is_inner l.
Definition print_attrs (l : list SynAttribute) : Tokens := l ≫= print_attr.

Definition print_block (b : UnparsedBlock) : Tokens := [TGroup Brace b].

(** [TokensOrDefault] prints the token whether it is there or not. *)
Definition print_trait_fn (f : TraitItemFnForSignature) : Tokens :=
  print_attrs (outer (pf_attrs f)) ++ print_signature (pf_sig f) ++
  match pf_block f with Some block => print_block block | None => [TPunct ";"%char] end.

Definition print_part_item (i : TraitItemPartParsed) : Tokens :=
  match i with PartFn f => print_trait_fn f | PartOther o => print_trait_item o end.

Fixpoint print_supertraits (l : list TypeParamBound) (trailing : bool) : Tokens :=
  match l with
  | [] => []
  | [b] => print_bound b ++ (if trailing then [TPunct "+"%char] else [])
  | b :: l => print_bound b ++ TPunct "+"%char :: print_supertraits l trailing
  end.

Definition keyword (b : bool) (k : string) : Tokens := if b then [TIdent k] else [].

Definition print_item_trait (t : ItemTraitPartParsed) : Tokens :=
  print_attrs (outer (pt_attrs t)) ++ print_visibility (pt_vis t) ++ keyword (pt_unsafety t) "unsafe" ++
  keyword (pt_auto_token t) "auto" ++ [TIdent "trait"; TIdent (pt_ident t)] ++ print_generics (pt_generics t) ++
  match pt_supertraits t with
  | [] => []
  | l => TPunct ":"%char :: print_supertraits l (pt_trailing_punct t)
  end ++
  print_where (pt_where_clause t) ++
  [TGroup Brace (print_attrs (inner (pt_attrs t)) ++ (pt_items t ≫= print_part_item))].
End parsing.

(** ** The grammar *)

(** What the code relies on, for data as it was parsed: each parser reads back what
    is printed, and stops before the tokens that follow it in a trait. *)
Class SynLaws `{SynCrate} : Prop := {
  meta_roundtrip : ∀ m, parse_meta (print_meta m) = inl (m, []);
  attr_tokens : ∀ b m,
    print_attr (b, m) = TPunct "#"%char :: (if b then [TPunct "!"%char] else []) ++ [TGroup Bracket (print_meta m)];
  outer_roundtrip : ∀ l rest, Forall (λ a, a.1 = false) l → peek_punct "#"%char rest = false →
    parse_outer ((l ≫= print_attr) ++ rest) = inl (l, rest);
  vis_tokens : ∀ v, print_visibility v = [] ∨ ∃ tail, print_visibility v = TIdent "pub" :: tail;
  vis_roundtrip : ∀ v i rest, i ≠ "pub" →
    parse_visibility (print_visibility v ++ TIdent i :: rest) = inl (v, TIdent i :: rest);
  vis_inherited_tokens : print_visibility vis_inherited = [];
  vis_is_inherited_spec : ∀ v, vis_is_inherited v = true ↔ v = vis_inherited;
  abi_tokens : ∀ o, print_abi o = [] ∨ ∃ tail, print_abi o = TIdent "extern" :: tail;
  abi_roundtrip : ∀ o rest, parse_abi (print_abi o ++ TIdent "fn" :: rest) = inl (o, TIdent "fn" :: rest);
  sig_tokens : ∀ s, ∃ c a u o tail, print_signature s =
    keyword c "const" ++ keyword a "async" ++ keyword u "unsafe" ++ print_abi o ++ TIdent "fn" :: tail;
  sig_roundtrip : ∀ s rest, peek_brace rest || peek_punct ";"%char rest = true →
    parse_signature (print_signature s ++ rest) = inl (s, rest);
  generics_roundtrip : ∀ g rest, peek_punct ":"%char rest || peek_ident "where" rest || peek_brace rest = true →
    parse_generics (print_generics g ++ rest) = inl (g, rest);
  where_tokens : ∀ w, print_where w = [] ∨ ∃ tail, print_where w = TIdent "where" :: tail;
  where_roundtrip : ∀ w rest, peek_brace rest = true → parse_where (print_where w ++ rest) = inl (w, rest);
  bound_tokens : ∀ b, ∃ t tail, print_bound b = t :: tail ∧ peek_ident "where" [t] = false ∧ peek_brace [t] = false;
  bound_roundtrip : ∀ b rest, peek_punct "+"%char rest || peek_ident "where" rest || peek_brace rest = true →
    parse_bound (print_bound b ++ rest) = inl (b, rest);
  item_roundtrip : ∀ i rest, parse_trait_item (print_trait_item i ++ rest) = inl (i, rest);
  item_tokens : ∀ i rest, print_trait_item i ≠ [] ∧ peek_inner (print_trait_item i ++ rest) = false;
  (** Items that are not functions do not start like one. *)
  item_other : ∀ i rest, item_is_fn i = false → ∃ attrs input v input',
    parse_outer (print_trait_item i ++ rest) = inl (attrs, input) ∧ parse_visibility input = inl (v, input') ∧
    (vis_is_inherited v = true → peek_ident "default" input' = false →
     peek_ident "fn" input' = false ∧ peek_signature input' = false);
}.

(** Parsers do not make input, and an item takes some. *)
Class SynConsumes `{SynCrate} : Prop := {
  outer_rest : ∀ ts a rest, parse_outer ts = inl (a, rest) → length rest ≤ length ts;
  vis_rest : ∀ ts a rest, parse_visibility ts = inl (a, rest) → length rest ≤ length ts;
  sig_rest : ∀ ts a rest, parse_signature ts = inl (a, rest) → length rest ≤ length ts;
  bound_rest : ∀ ts a rest, parse_bound ts = inl (a, rest) → length rest ≤ length ts;
  item_rest : ∀ ts a rest, parse_trait_item ts = inl (a, rest) → length rest < length ts;
}.

(** ** The parsers end *)

Section termination.
Context `{SynCrate} `{!SynConsumes}.

Lemma no_panic_run {A} (p : parser A) ts : no_panic (run p ts).
Proof. unfold run. by destruct (p ts). Qed.

Lemma run_ok {A} (p : parser A) ts r : run p ts = Ok r ↔ p ts = inl r.
Proof. unfold run. destruct (p ts); naive_solver. Qed.

Lemma no_panic_bind {E A B} (m : rust E A) (k : A → rust E B) :
  no_panic m → (∀ a, m = Ok a → no_panic (k a)) → no_panic (m ≫= k).
Proof. destruct m as [a| |]; simpl; [|done..]. intros _ Hk. by apply Hk. Qed.

Lemma no_panic_if {E A} (b : bool) (m1 m2 : rust E A) : no_panic m1 → no_panic m2 → no_panic (if b then m1 else m2).
Proof. by destruct b. Qed.

Lemma token_ident_no_panic k ts : no_panic (token_ident k ts).
Proof. unfold token_ident. by destruct (peek_ident k ts). Qed.
Lemma token_punct_no_panic c ts : no_panic (token_punct c ts).
Proof. unfold token_punct. by destruct (peek_punct c ts). Qed.
Lemma parse_ident_no_panic ts : no_panic (parse_ident ts).
Proof. unfold parse_ident. destruct ts as [|[] ts]; try done. by destruct (accept_as_ident _). Qed.
Lemma braced_no_panic ts : no_panic (braced ts).
Proof. by destruct ts as [|[[]| | |] ts]. Qed.
Lemma bracketed_no_panic ts : no_panic (bracketed ts).
Proof. by destruct ts as [|[[]| | |] ts]. Qed.
Lemma at_end_no_panic {A} (r : A * Tokens) : no_panic (at_end r).
Proof. by destruct r as [a [|]]. Qed.

Lemma token_punct_ok c ts rest : token_punct c ts = Ok rest → length rest < length ts.
Proof.
  unfold token_punct. destruct ts as [|t ts]; [done|]. destruct (peek_punct c (t :: ts)); [|done]. intros [= <-]. rewrite length_drop. simpl. lia.
Qed.

Lemma bracketed_ok ts content rest : bracketed ts = Ok (content, rest) → length rest < length ts.
Proof. destruct ts as [|[[]| | |] ts]; try done. intros [= _ <-]. simpl. lia. Qed.

Lemma single_parse_inner_ok ts a rest : single_parse_inner ts = Ok (a, rest) → length rest < length ts.
Proof.
  unfold single_parse_inner. intros (t1 & H1%token_punct_ok & E)%rust_bind_ok.
  apply rust_bind_ok in E as (t2 & H2%token_punct_ok & E). apply rust_bind_ok in E as ([c t3] & H3%bracketed_ok & E).
  apply rust_bind_ok in E as (m & _ & [= _ <-]). lia.
Qed.

Lemma parse_inner_no_panic attrs ts : no_panic (parse_inner attrs ts).
Proof.
  unfold parse_inner. remember (length ts) as fuel eqn:E. assert (length ts ≤ fuel) as Hf by lia. clear E.
  revert attrs ts Hf. induction fuel as [|fuel IH]; intros attrs ts Hf; simpl.
  - destruct ts; [done|simpl in Hf; lia].
  - apply no_panic_if; [|done]. apply no_panic_bind.
    + unfold single_parse_inner. repeat first [apply token_punct_no_panic|apply bracketed_no_panic|apply at_end_no_panic
        |apply no_panic_run|done|apply no_panic_bind; [|intros ? ?]|case_match].
    + intros [a rest] Ha%single_parse_inner_ok. apply IH. lia.
Qed.

Lemma parse_trait_fn_rest ts f rest : parse_trait_fn ts = Ok (f, rest) → length rest < length ts.
Proof.
  unfold parse_trait_fn. intros ([attrs t1] & Ho%run_ok%outer_rest & E)%rust_bind_ok.
  apply rust_bind_ok in E as ([sig t2] & Hs%run_ok%sig_rest & E).
  destruct (peek_brace t2) eqn:Eb.
  - apply rust_bind_ok in E as ([content t3] & Hb & E). apply rust_bind_ok in E as ([? ?] & _ & [= _ <-]).
    destruct t2 as [|[[]| | |] t2]; try done. injection Hb as _ <-. simpl in *. lia.
  - destruct t2 as [|t t2]; [done|]. destruct (peek_punct _ (t :: t2)); [|done]. injection E as _ <-. rewrite length_drop. simpl in *. lia.
Qed.

Lemma opt_ident_rest k ts : length (opt_ident k ts).2 ≤ length ts.
Proof. unfold opt_ident. destruct (peek_ident k ts); cbn [snd]; [|done]. rewrite length_drop. lia. Qed.

Lemma parse_part_item_rest ts i rest : parse_part_item ts = Ok (i, rest) → length rest < length ts.
Proof.
  unfold parse_part_item. intros ([attrs t1] & Ho%run_ok%outer_rest & E)%rust_bind_ok.
  apply rust_bind_ok in E as ([v t2] & Hv%run_ok%vis_rest & E).
  pose proof (opt_ident_rest "default" t2) as Hd. destruct (opt_ident "default" t2) as [d t3].
  destruct (_ && _ && _).
  - apply rust_bind_ok in E as ([f t4] & Hf%parse_trait_fn_rest & [= _ <-]). simpl in *. lia.
  - apply rust_bind_ok in E as ([o t4] & Hp%run_ok%item_rest & E). destruct (item_is_fn o); [done|]. by injection E as _ <-.
Qed.

Lemma parse_trait_fn_no_panic ts : no_panic (parse_trait_fn ts).
Proof.
  unfold parse_trait_fn. apply no_panic_bind; [apply no_panic_run|]. intros [attrs t1] _.
  apply no_panic_bind; [apply no_panic_run|]. intros [sig t2] _. apply no_panic_if; [|by apply no_panic_if].
  apply no_panic_bind; [apply braced_no_panic|]. intros [content t3] _.
  apply no_panic_bind; [apply parse_inner_no_panic|]. by intros [? ?] _.
Qed.

Lemma parse_part_item_no_panic ts : no_panic (parse_part_item ts).
Proof.
  unfold parse_part_item. apply no_panic_bind; [apply no_panic_run|]. intros [attrs t1] _.
  apply no_panic_bind; [apply no_panic_run|]. intros [v t2] _. destruct (opt_ident "default" t2) as [d t3].
  apply no_panic_if; (apply no_panic_bind; [first [apply parse_trait_fn_no_panic|apply no_panic_run]|]); intros [x t4] _; [done|].
  by apply no_panic_if.
Qed.

Lemma parse_items_no_panic fuel items ts : length ts ≤ fuel → no_panic (parse_items fuel items ts).
Proof.
  revert items ts. induction fuel as [|fuel IH]; intros items ts Hf; (destruct ts as [|t ts]; [done|]; simpl in Hf); [lia|].
  cbn [parse_items]. apply no_panic_bind; [apply parse_part_item_no_panic|].
  intros [i rest] Hi%parse_part_item_rest. apply IH. simpl in *. lia.
Qed.

Lemma parse_supertraits_no_panic fuel l b ts : length ts < fuel → no_panic (parse_supertraits fuel l b ts).
Proof.
  revert l b ts. induction fuel as [|fuel IH]; intros l b ts Hf; simpl; (apply no_panic_if; [done|]).
  - lia.
  - apply no_panic_bind; [apply no_panic_run|]. intros [x t1] Hx%run_ok%bound_rest. apply no_panic_if; [done|].
    apply no_panic_bind; [apply token_punct_no_panic|]. intros t2 Ht%token_punct_ok. apply IH. lia.
Qed.

Lemma parse_item_trait_no_panic ts : no_panic (parse_item_trait ts).
Proof.
  unfold parse_item_trait, parse_rest_of_trait. apply no_panic_bind; [apply no_panic_run|]. intros [attrs t1] _.
  apply no_panic_bind; [apply no_panic_run|]. intros [v t2] _.
  destruct (opt_ident "unsafe" t2) as [u t3], (opt_ident "auto" t3) as [a t4].
  apply no_panic_bind; [apply token_ident_no_panic|]. intros t5 _.
  apply no_panic_bind; [apply parse_ident_no_panic|]. intros [i t6] _.
  apply no_panic_bind; [apply no_panic_run|]. intros [g t7] _. destruct (opt_punct _ t7) as [colon t8].
  apply no_panic_bind; [apply no_panic_if; [apply parse_supertraits_no_panic; lia|done]|]. intros [[l b] t9] _.
  apply no_panic_bind; [apply no_panic_run|]. intros [w t10] _.
  apply no_panic_bind; [apply braced_no_panic|]. intros [content t11] _.
  apply no_panic_bind; [apply parse_inner_no_panic|]. intros [attrs' content'] _.
  apply no_panic_bind; [by apply parse_items_no_panic|]. by intros items _.
Qed.
End termination.

(** ** Reading back what is printed *)

Section roundtrip.
Context `{SynCrate} `{!SynLaws} `{!SynConsumes}.

(** A trait as it comes back: outer attributes go before inner ones, those inside of
    a function's body are gone, and separators are where they are needed. *)
Definition normal_fn (f : TraitItemFnForSignature) : TraitItemFnForSignature :=
  mk_part_fn (outer (pf_attrs f)) (pf_sig f) (pf_block f) (match pf_block f with Some _ => false | None => true end).

Definition normal_item (i : TraitItemPartParsed) : TraitItemPartParsed :=
  match i with PartFn f => PartFn (normal_fn f) | PartOther o => PartOther o end.

Definition normal_trait (t : ItemTraitPartParsed) : ItemTraitPartParsed :=
  let some := match pt_supertraits t with [] => false | _ => true end in
  mk_part_trait (outer (pt_attrs t) ++ inner (pt_attrs t)) (pt_vis t) (pt_unsafety t) (pt_auto_token t) (pt_ident t)
    (pt_generics t) (pt_where_clause t) some (pt_supertraits t) (some && pt_trailing_punct t) (normal_item <$> pt_items t).

(** What holds of a trait that was parsed. *)
Definition item_parsed (i : TraitItemPartParsed) : Prop :=
  match i with
  | PartFn f => match pf_block f with Some b => peek_inner b = false | None => True end
  | PartOther o => item_is_fn o = false
  end.

Definition trait_parsed (t : ItemTraitPartParsed) : Prop :=
  accept_as_ident (pt_ident t) = true ∧ Forall item_parsed (pt_items t).

Lemma outer_Forall l : Forall (λ a : SynAttribute, a.1 = false) (outer l).
Proof. apply Forall_forall. intros a Ha. apply list_elem_of_In, filter_In in Ha as [_ Ha]. by apply negb_true_iff in Ha. Qed.

Lemma inner_Forall l : Forall (λ a : SynAttribute, a.1 = true) (inner l).
Proof. apply Forall_forall. intros a Ha. by apply list_elem_of_In, filter_In in Ha as [_ Ha]. Qed.

Lemma single_parse_inner_print m rest : single_parse_inner (print_attr (true, m) ++ rest) = Ok ((true, m), rest).
Proof. rewrite attr_tokens. unfold single_parse_inner, run, token_punct. simpl. by rewrite meta_roundtrip. Qed.

Lemma parse_inner_loop_print l rest attrs fuel :
  Forall (λ a : SynAttribute, a.1 = true) l → peek_inner rest = false → length l ≤ fuel →
  parse_inner_loop fuel attrs (print_attrs l ++ rest) = Ok (attrs ++ l, rest).
Proof.
  intros Hl Hr. revert attrs fuel. induction Hl as [|[b m] l Hb Hl IH]; intros attrs fuel Hf.
  { rewrite app_nil_r. simpl. destruct fuel; simpl; by rewrite Hr. }
  simpl in Hb. subst b. unfold print_attrs. rewrite bind_cons, <-app_assoc.
  destruct fuel as [|fuel]; [simpl in Hf; lia|]. cbn [parse_inner_loop].
  assert (peek_inner (print_attr (true, m) ++ print_attrs l ++ rest) = true) as Hp by by rewrite attr_tokens.
  unfold print_attrs in *. rewrite Hp, single_parse_inner_print. cbn [mbind rust_bind]. cbv beta iota.
  etrans; [apply IH; simpl in Hf; lia|]. by rewrite <-app_assoc.
Qed.

Lemma print_attrs_length l : length l ≤ length (print_attrs l).
Proof.
  unfold print_attrs. induction l as [|[b m] l IH]; [done|].
  rewrite bind_cons, attr_tokens, length_app. simpl. lia.
Qed.

Lemma parse_inner_print l rest attrs :
  Forall (λ a : SynAttribute, a.1 = true) l → peek_inner rest = false →
  parse_inner attrs (print_attrs l ++ rest) = Ok (attrs ++ l, rest).
Proof.
  intros Hl Hr. apply parse_inner_loop_print; [done..|]. pose proof (print_attrs_length l). rewrite length_app. lia.
Qed.

Lemma sig_start s : ∃ k tail, print_signature s = TIdent k :: tail ∧ k ∈ ["const"; "async"; "unsafe"; "extern"; "fn"].
Proof.
  destruct (sig_tokens s) as (c & a & u & o & tail & ->). unfold keyword.
  assert (∀ k tail', k ∈ ["const"; "async"; "unsafe"; "extern"; "fn"] → ∃ k' tail'',
    TIdent k :: tail' = TIdent k' :: tail'' ∧ k' ∈ ["const"; "async"; "unsafe"; "extern"; "fn"]) as Hk by (by intros; do 2 eexists).
  destruct c; [apply Hk; set_solver|]. destruct a; [apply Hk; set_solver|]. destruct u; [apply Hk; set_solver|].
  destruct (abi_tokens o) as [->|[? ->]]; apply Hk; set_solver.
Qed.

Lemma opt_keyword b k rest : peek_ident k rest = false → opt_ident k (keyword b k ++ rest) = (b, rest).
Proof. intros Hk. unfold opt_ident. destruct b; simpl; [by rewrite String.eqb_refl|by rewrite Hk]. Qed.

Lemma peek_ident_other k i rest : i ≠ k → peek_ident k (TIdent i :: rest) = false.
Proof. intros Hi. simpl. by destruct (String.eqb_spec i k). Qed.

Lemma abi_start o rest k : k ≠ "extern" → k ≠ "fn" → peek_ident k (print_abi o ++ TIdent "fn" :: rest) = false.
Proof. intros He Hf. destruct (abi_tokens o) as [->|[? ->]]; by apply peek_ident_other. Qed.

Lemma sig_peek s rest : peek_signature (print_signature s ++ rest) = true.
Proof.
  destruct (sig_tokens s) as (c & a & u & o & tail & ->). unfold peek_signature.
  rewrite <-!app_assoc. cbn [app].
  assert (∀ k, k ≠ "extern" → k ≠ "fn" → k ≠ "unsafe" →
    peek_ident k (keyword u "unsafe" ++ print_abi o ++ TIdent "fn" :: tail ++ rest) = false) as Hu.
  { intros k He Hf Hk. destruct u; [by apply peek_ident_other|by apply abi_start]. }
  rewrite opt_keyword; [|by destruct a; [|by apply Hu]].
  rewrite opt_keyword by by apply Hu. rewrite opt_keyword by by apply abi_start.
  by rewrite abi_roundtrip.
Qed.

Lemma run_inl {A} (p : parser A) ts r : p ts = inl r → run p ts = Ok r.
Proof. apply run_ok. Qed.

Lemma outer_run l rest :
  peek_punct "#"%char rest = false → run parse_outer (print_attrs (outer l) ++ rest) = Ok (outer l, rest).
Proof. intros Hr. apply run_inl, outer_roundtrip; [apply outer_Forall|done]. Qed.

(** After the attributes of a function comes its signature. *)
Lemma sig_no_attr s rest : peek_punct "#"%char (print_signature s ++ rest) = false.
Proof. by destruct (sig_start s) as (k & tail & -> & _). Qed.

Lemma parse_trait_fn_print f rest :
  item_parsed (PartFn f) →
  parse_trait_fn (print_signature (pf_sig f) ++ match pf_block f with Some b => print_block b | None => [TPunct ";"%char] end ++ rest) =
  Ok (mk_part_fn [] (pf_sig f) (pf_block f) (match pf_block f with Some _ => false | None => true end), rest).
Proof.
  intros Hf. simpl in Hf. unfold parse_trait_fn.
  rewrite (run_inl parse_outer _ ([], _)) by (apply (outer_roundtrip []); [done|apply sig_no_attr]). cbn [mbind rust_bind].
  rewrite (run_inl parse_signature _ (pf_sig f, match pf_block f with Some b => print_block b | None => [TPunct ";"%char] end ++ rest))
    by (apply sig_roundtrip; by destruct (pf_block f)).
  cbn [mbind rust_bind]. destruct (pf_block f) as [b|]; [|done]. cbn [print_block app peek_brace braced mbind rust_bind].
  change (parse_inner [] b) with (parse_inner [] (print_attrs [] ++ b)). by rewrite (parse_inner_print [] b []).
Qed.

Lemma parse_fn_print f rest :
  item_parsed (PartFn f) → parse_part_item (print_trait_fn f ++ rest) = Ok (PartFn (normal_fn f), rest).
Proof.
  intros Hf. unfold parse_part_item, print_trait_fn. rewrite <-!app_assoc.
  rewrite outer_run by apply sig_no_attr. cbn [mbind rust_bind].
  destruct (sig_start (pf_sig f)) as (k & tail & Es & Hk).
  set (after := match pf_block f with Some b => print_block b | None => [TPunct ";"%char] end ++ rest).
  assert (run parse_visibility (print_signature (pf_sig f) ++ after) = Ok (vis_inherited, print_signature (pf_sig f) ++ after)) as Hv.
  { apply run_inl. rewrite Es. cbn [app]. pose proof (vis_roundtrip vis_inherited k (tail ++ after)) as Hr.
    rewrite vis_inherited_tokens in Hr. apply Hr. intros ->. set_solver. }
  assert (opt_ident "default" (print_signature (pf_sig f) ++ after) = (false, print_signature (pf_sig f) ++ after)) as Hd.
  { unfold opt_ident. rewrite Es. cbn [app]. rewrite peek_ident_other by (intros ->; set_solver). done. }
  rewrite Hv. cbn [mbind rust_bind]. rewrite Hd, sig_peek, orb_true_r.
  rewrite (proj2 (vis_is_inherited_spec vis_inherited)) by done. cbn [andb negb].
  unfold after. rewrite (parse_trait_fn_print f rest Hf). cbn [mbind rust_bind pf_attrs pf_sig pf_block pf_semi_token].
  by rewrite app_nil_r.
Qed.

Lemma parse_item_print i rest :
  item_parsed i → parse_part_item (print_part_item i ++ rest) = Ok (normal_item i, rest).
Proof.
  destruct i as [f|o]; [apply parse_fn_print|]. intros Ho. cbn [print_part_item normal_item]. unfold parse_part_item.
  destruct (item_other o rest Ho) as (attrs & ts & v & ts' & E1 & E2 & Hn).
  rewrite (run_inl _ _ _ E1). cbn [mbind rust_bind]. rewrite (run_inl _ _ _ E2). cbn [mbind rust_bind].
  assert ((let '(defaultness, input) := opt_ident "default" ts' in
    vis_is_inherited v && negb defaultness && (peek_ident "fn" input || peek_signature input)) = false) as Hc.
  { unfold opt_ident. destruct (vis_is_inherited v); [|by destruct (peek_ident "default" ts')].
    destruct (peek_ident "default" ts') eqn:Ed; [done|]. by destruct (Hn eq_refl eq_refl) as [-> ->]. }
  destruct (opt_ident "default" ts') as [d ts'']. rewrite Hc.
  rewrite (run_inl _ _ _ (item_roundtrip o rest)). cbn [mbind rust_bind]. by rewrite Ho.
Qed.

Lemma print_item_start i rest : item_parsed i → print_part_item i ≠ [] ∧ peek_inner (print_part_item i ++ rest) = false.
Proof.
  destruct i as [f|o]; [|intros _; by apply item_tokens]. intros _. cbn [print_part_item]. unfold print_trait_fn.
  pose proof (outer_Forall (pf_attrs f)) as Ho. destruct (sig_start (pf_sig f)) as (k & tail & -> & _).
  destruct (outer (pf_attrs f)) as [|[b m] l]; [done|]. apply Forall_cons in Ho as [Hb _]. simpl in Hb. subst b.
  unfold print_attrs. rewrite bind_cons, attr_tokens. done.
Qed.

Lemma print_items_inner l : Forall item_parsed l → peek_inner (l ≫= print_part_item) = false.
Proof. destruct 1 as [|i l Hi _]; [done|]. rewrite bind_cons. by apply print_item_start. Qed.

Lemma parse_items_print l items fuel :
  Forall item_parsed l → length l ≤ fuel → parse_items fuel items (l ≫= print_part_item) = Ok (items ++ (normal_item <$> l)).
Proof.
  intros Hl. revert items fuel. induction Hl as [|i l Hi Hl IH]; intros items fuel Hf.
  { rewrite app_nil_r. by destruct fuel. }
  rewrite bind_cons. destruct (print_item_start i (l ≫= print_part_item) Hi) as [Hne _].
  destruct fuel as [|fuel]; [simpl in Hf; lia|]. cbn [parse_items].
  pose proof (parse_item_print i (l ≫= print_part_item) Hi) as Hp.
  destruct (print_part_item i) as [|t ts]; [done|]. cbn [app] in *. rewrite Hp. cbn [mbind rust_bind].
  rewrite IH by (simpl in Hf; lia). by rewrite <-app_assoc.
Qed.

Lemma print_items_length l : Forall item_parsed l → length l ≤ length (l ≫= print_part_item).
Proof.
  induction 1 as [|i l Hi Hl IH]; [done|]. rewrite bind_cons, length_app.
  destruct (print_item_start i [] Hi) as [Hne _]. destruct (print_part_item i); [done|]. simpl. lia.
Qed.

(** The tokens after the supertraits. *)
Definition bounds_end (rest : Tokens) : Prop := peek_ident "where" rest || peek_brace rest = true.

Lemma bound_not_end b rest : peek_ident "where" (print_bound b ++ rest) || peek_brace (print_bound b ++ rest) = false.
Proof. destruct (bound_tokens b) as (t & tail & -> & Hw & Hb). simpl in *. destruct t as [[]| | |]; try done; by rewrite Hw. Qed.

Lemma bound_run b rest :
  peek_punct "+"%char rest || peek_ident "where" rest || peek_brace rest = true →
  run parse_bound (print_bound b ++ rest) = Ok (b, rest).
Proof. intros Hr. by apply run_inl, bound_roundtrip. Qed.

Lemma token_punct_eq c rest : token_punct c (TPunct c :: rest) = Ok rest.
Proof. unfold token_punct. cbn [peek_punct]. by rewrite Ascii.eqb_refl. Qed.

Lemma parse_supertraits_print l acc b trailing rest fuel :
  bounds_end rest → l ≠ [] → length l < fuel →
  parse_supertraits fuel acc b (print_supertraits l trailing ++ rest) = Ok (acc ++ l, trailing, rest).
Proof.
  intros Hr. revert acc b fuel. induction l as [|x l IH]; intros acc b fuel Hne Hf; [done|].
  destruct fuel as [|fuel]; [lia|]. cbn [parse_supertraits].
  destruct l as [|y l].
  - cbn [print_supertraits]. rewrite <-app_assoc, bound_not_end. destruct trailing; cbn [app].
    + rewrite bound_run by done. cbn [mbind rust_bind peek_ident peek_brace orb].
      rewrite token_punct_eq. cbn [mbind rust_bind]. destruct fuel as [|fuel]; [simpl in Hf; lia|]. cbn [parse_supertraits].
      unfold bounds_end in Hr. by rewrite Hr.
    + unfold bounds_end in Hr. rewrite bound_run by (rewrite <-orb_assoc, Hr; by rewrite orb_true_r). cbn [mbind rust_bind]. by rewrite Hr.
  - change (print_supertraits (x :: y :: l) trailing) with (print_bound x ++ TPunct "+"%char :: print_supertraits (y :: l) trailing).
    rewrite <-app_assoc, bound_not_end. cbn [app]. rewrite bound_run by done. cbn [mbind rust_bind peek_ident peek_brace orb].
    rewrite token_punct_eq. cbn [mbind rust_bind].
    rewrite IH by (simpl in *; first [done|lia]). by rewrite <-app_assoc.
Qed.

Lemma print_supertraits_length l trailing : length l ≤ length (print_supertraits l trailing).
Proof.
  induction l as [|x [|y l] IH]; [done|..].
  - cbn [print_supertraits]. destruct (bound_tokens x) as (t & tail & -> & _). simpl. lia.
  - change (print_supertraits (x :: y :: l) trailing) with (print_bound x ++ TPunct "+"%char :: print_supertraits (y :: l) trailing).
    rewrite length_app. simpl in *. lia.
Qed.

Lemma where_end w content : bounds_end (print_where w ++ [TGroup Brace content]).
Proof. unfold bounds_end. by destruct (where_tokens w) as [->|[? ->]]. Qed.

Lemma where_no_colon w content : peek_punct ":"%char (print_where w ++ [TGroup Brace content]) = false.
Proof. by destruct (where_tokens w) as [->|[? ->]]. Qed.

Lemma parse_rest_print t attrs :
  trait_parsed t →
  parse_rest_of_trait
    (match pt_supertraits t with [] => [] | l => TPunct ":"%char :: print_supertraits l (pt_trailing_punct t) end ++
     print_where (pt_where_clause t) ++
     [TGroup Brace (print_attrs (inner (pt_attrs t)) ++ (pt_items t ≫= print_part_item))])
    attrs (pt_vis t) (pt_unsafety t) (pt_auto_token t) (pt_ident t) (pt_generics t) =
  Ok (mk_part_trait (attrs ++ inner (pt_attrs t)) (pt_vis t) (pt_unsafety t) (pt_auto_token t) (pt_ident t) (pt_generics t)
    (pt_where_clause t) (pt_colon_token (normal_trait t)) (pt_supertraits t) (pt_trailing_punct (normal_trait t))
    (normal_item <$> pt_items t), []).
Proof.
  intros [_ Hitems]. unfold parse_rest_of_trait. set (content := print_attrs _ ++ _).
  set (rest := print_where _ ++ _).
  assert (∀ l, run parse_where rest = Ok (pt_where_clause t, [TGroup Brace content]) ∧
    parse_inner l content = Ok (l ++ inner (pt_attrs t), pt_items t ≫= print_part_item) ∧
    parse_items (length (pt_items t ≫= print_part_item)) [] (pt_items t ≫= print_part_item) = Ok (normal_item <$> pt_items t))
    as Hend.
  { intros l. split; [by apply run_inl, where_roundtrip|]. split.
    - apply parse_inner_print; [apply inner_Forall|by apply print_items_inner].
    - apply parse_items_print; [done|by apply print_items_length]. }
  destruct (Hend attrs) as (Hw & Hi & Hp). unfold opt_punct.
  destruct (pt_supertraits t) as [|x l] eqn:Es; cbn [app].
  - unfold rest. rewrite where_no_colon. fold rest. cbn [mbind rust_bind]. rewrite Hw. cbn [mbind rust_bind braced].
    rewrite Hi. cbn [mbind rust_bind]. rewrite Hp. unfold normal_trait. cbn [mbind rust_bind pt_colon_token pt_trailing_punct]. by rewrite Es.
  - cbn [peek_punct]. rewrite Ascii.eqb_refl. rewrite skipn_cons, drop_0.
    rewrite (parse_supertraits_print (x :: l) [] false (pt_trailing_punct t) rest);
      [|apply where_end|done|rewrite length_app; pose proof (print_supertraits_length (x :: l) (pt_trailing_punct t)); lia].
    cbn [mbind rust_bind app]. rewrite Hw. cbn [mbind rust_bind braced].
    rewrite Hi. cbn [mbind rust_bind]. rewrite Hp. unfold normal_trait. cbn [mbind rust_bind pt_colon_token pt_trailing_punct]. by rewrite Es.
Qed.

(** A function is parsed whatever the tokens of its body are. *)
Lemma parse_item_fn_print attrs v k s body rest :
  k ≠ "pub" → (∃ tail, print_signature s = TIdent k :: tail) →
  parse_item_fn (print_attrs (outer attrs) ++ print_visibility v ++ print_signature s ++ TGroup Brace body :: rest) =
  Ok (mk_part_item_fn (outer attrs) v s (TGroup Brace body :: rest), []).
Proof.
  intros Hk [tail Es]. unfold parse_item_fn.
  rewrite outer_run by (rewrite Es; by destruct (vis_tokens v) as [->|[? ->]]). cbn [mbind rust_bind].
  rewrite (run_inl parse_visibility _ (v, print_signature s ++ TGroup Brace body :: rest))
    by (rewrite Es; by apply vis_roundtrip). cbn [mbind rust_bind].
  by rewrite (run_inl parse_signature _ (s, TGroup Brace body :: rest)) by by apply sig_roundtrip.
Qed.

(** C34: A trait that was parsed can be printed and parsed again, and comes back
    with its parts, but for what printing moves or leaves out ([normal_trait]):
    inner attributes come after outer ones, a colon without supertraits is gone,
    and so are the inner attributes in the bodies of functions, which the parser
    takes out of the body and the printer does not put back.  The parser always
    ends. *)
Theorem trait_roundtrip (t : ItemTraitPartParsed) (ts : Tokens) :
  (trait_parsed t → parse2 parse_item_trait (print_item_trait t) = Ok (normal_trait t)) ∧
  no_panic (parse2 parse_item_trait ts).
Proof.
  split.
  - intros Ht. unfold parse2, parse_item_trait, print_item_trait. set (rest := match pt_supertraits t with [] => _ | _ => _ end ++ _).
    assert (∀ k, k ≠ "trait" → peek_ident k ([TIdent "trait"; TIdent (pt_ident t)] ++ print_generics (pt_generics t) ++ rest) = false)
      as Hk by (intros k Hk; by apply peek_ident_other).
    assert (∃ k tail, k ≠ "pub" ∧ keyword (pt_unsafety t) "unsafe" ++ keyword (pt_auto_token t) "auto" ++
      [TIdent "trait"; TIdent (pt_ident t)] ++ print_generics (pt_generics t) ++ rest = TIdent k :: tail) as (k & tail & Hpub & Ek).
    { destruct (pt_unsafety t), (pt_auto_token t); do 2 eexists; (split; [|reflexivity]); done. }
    rewrite outer_run. 2: { rewrite Ek. by destruct (vis_tokens (pt_vis t)) as [->|[? ->]]. }
    cbn [mbind rust_bind]. rewrite Ek.
    rewrite (run_inl _ _ _ (vis_roundtrip (pt_vis t) k tail Hpub)). cbn [mbind rust_bind]. rewrite <-Ek.
    rewrite opt_keyword by (destruct (pt_auto_token t); [by apply peek_ident_other|by apply Hk]).
    rewrite opt_keyword by by apply Hk. unfold token_ident. cbn [app peek_ident]. rewrite String.eqb_refl. cbn [mbind rust_bind drop skipn parse_ident].
    destruct Ht as [Hid Hitems] eqn:E. rewrite Hid. cbn [mbind rust_bind].
    rewrite (run_inl parse_generics _ (pt_generics t, rest)).
    2: { apply generics_roundtrip. unfold rest. destruct (pt_supertraits t); [|done]. cbn [app].
         by destruct (where_tokens (pt_where_clause t)) as [->|[? ->]]. }
    cbn [mbind rust_bind]. unfold rest. rewrite (parse_rest_print t (outer (pt_attrs t)) Ht). done.
  - unfold parse2. apply no_panic_bind; [apply parse_item_trait_no_panic|]. intros r _. apply at_end_no_panic.
Qed.
End roundtrip.
