(* ===== verification/Models.v ===== *)
(** * Concrete instances of the crate interfaces

    One instance of each class of [Externals], used to evaluate the witnesses:
    they show that the laws hold together and let the definitions run.  They
    are no claim about the crates beyond the laws. *)
From Stdlib Require Import ZifyNat.
From S2P Require Import Prelude BTree Externals Body HttpError Config Schema ApiEndpoint Handler Compression.
From S2P Require Import SchemaSemantics WebSocket.

(** ** Versions: [major.minor.patch] *)

Record version := mkv { major : N; minor : N; patch : N }.

#[export] Instance version_eq_dec : EqDecision version.
Proof. solve_decision. Defined.

Definition version_compare (a b : version) : comparison :=
  match N.compare (major a) (major b) with
  | Eq => match N.compare (minor a) (minor b) with
          | Eq => N.compare (patch a) (patch b)
          | c => c
          end
  | c => c
  end.

Definition version_parse (s : string) : version + string :=
  match parse_N <$> split_on "."%char s with
  | [Some a; Some b; Some c] => inl (mkv a b c)
  | _ => inr "unexpected character while parsing version"
  end.

#[export] Instance version_semver : SemVer version := {
  ver_compare := version_compare;
  ver_to_string v :=
    show_N (major v) +:+ "." +:+ show_N (minor v) +:+ "." +:+ show_N (patch v);
  ver_parse := version_parse;
}.

Lemma version_compare_lt a b : version_compare a b = Lt ↔
  (major a < major b ∨ major a = major b ∧
    (minor a < minor b ∨ minor a = minor b ∧ patch a < patch b))%N.
Proof.
  unfold version_compare.
  destruct (N.compare_spec (major a) (major b)); [|split; [by left|done]|split; [done|lia]].
  destruct (N.compare_spec (minor a) (minor b)); [|split; [lia|done]|split; [done|lia]].
  rewrite N.compare_lt_iff. lia.
Qed.

#[export] Instance version_laws : SemVerLaws version.
Proof.
  split; simpl; [unfold version_compare..|].
  - intros [a b c] [a' b' c']; simpl.
    destruct (N.compare_spec a a'), (N.compare_spec b b'), (N.compare_spec c c');
      split; intros; simplify_eq; try done; lia.
  - intros [a b c] [a' b' c']; simpl.
    rewrite (N.compare_antisym a a'), (N.compare_antisym b b'), (N.compare_antisym c c').
    by destruct (N.compare a a'), (N.compare b b').
  - intros a b c. rewrite !version_compare_lt. lia.
Qed.

(** ** HTTP: numbers, strings and lists of pairs *)

Definition in_status_range (n : Z) : bool := ((100 <=? n) && (n <? 1000))%Z.

Definition model_status : Type := { n : Z | in_status_range n = true }.

Definition model_from_u16 (n : Z) : option model_status :=
  match decide (in_status_range n = true) with
  | left H => Some (exist _ n H)
  | right _ => None
  end.

Definition model_const (n : Z) : model_status :=
  match decide (in_status_range n = true) with
  | left H => exist _ n H
  | right _ => exist _ 500%Z eq_refl
  end.

Definition between (lo hi n : Z) : bool := ((lo <=? n) && (n <? hi))%Z.

Definition model_max_headers : nat := 32768.

Definition visible_char (a : ascii) : bool :=
  let n := Ascii.nat_of_ascii a in ((32 <=? n) && (n <? 127) || (n =? 9))%nat.

Fixpoint visible (s : string) : bool :=
  match s with "" => true | String a s => visible_char a && visible s end.

Definition model_reason (n : Z) : option string :=
  snd <$> list_find (λ p : Z * string, p.1 = n) known_reasons ≫= λ p, Some (p.1, p.2.2).

#[export] Instance model_http : HttpCrate := {
  StatusCode := model_status;
  status_from_u16 := model_from_u16;
  status_from_bytes s := n ← parse_N s; model_from_u16 (Z.of_N n);
  status_as_u16 := proj1_sig;
  status_const := model_const;
  status_is_informational s := between 100 200 (proj1_sig s);
  status_is_client_error s := between 400 500 (proj1_sig s);
  status_is_server_error s := between 500 600 (proj1_sig s);
  status_canonical_reason s := model_reason (proj1_sig s);
  status_to_string s := show_Z (proj1_sig s);
  header_name_try_from s := if is_empty_str s then None else Some (to_ascii_lowercase s);
  HeaderValue := string;
  hv_from_str s := if visible s then Some s else None;
  hv_as_bytes := id;
  hv_to_str s := if visible s then Some s else None;
  HeaderMap := list (string * string);
  hm_new := [];
  hm_get_all h n := (filter (λ p : string * string, p.1 = n) h).*2;
  hm_iter := id;
  hm_try_append h n v :=
    if bool_decide (length h < model_max_headers)%nat then Some (h ++ [(n, v)]) else None;
  hm_try_insert h n v :=
    if bool_decide (length h < model_max_headers)%nat
    then Some (filter (λ p : string * string, p.1 ≠ n) h ++ [(n, v)]) else None;
  hm_remove h n := filter (λ p : string * string, p.1 ≠ n) h;
}.

Lemma between_spec lo hi n : between lo hi n = true ↔ (lo ≤ n < hi)%Z.
Proof. unfold between. by rewrite andb_true_iff, Z.leb_le, Z.ltb_lt. Qed.

Lemma in_status_range_spec n : in_status_range n = true ↔ (100 ≤ n < 1000)%Z.
Proof. apply between_spec. Qed.

Lemma model_status_eq (s t : model_status) : proj1_sig s = proj1_sig t → s = t.
Proof. destruct s as [n Hn], t as [m Hm]; simpl. intros ->. f_equal. apply proof_irrel. Qed.

Lemma model_status_range (s : model_status) : (100 ≤ proj1_sig s < 1000)%Z.
Proof. destruct s as [n Hn]; simpl. by apply in_status_range_spec. Qed.

Lemma visible_spec s :
  (∀ i c, String.get i s = Some c →
     (32 ≤ Ascii.nat_of_ascii c < 127)%nat ∨ Ascii.nat_of_ascii c = 9) ↔ visible s = true.
Proof.
  induction s as [|a s IH]; simpl; [split; [done|]; intros _ [|i] c; done|].
  unfold visible_char. rewrite andb_true_iff, <-IH, orb_true_iff, andb_true_iff,
    Nat.leb_le, Nat.ltb_lt, Nat.eqb_eq. split.
  - intros Hs. split; [apply (Hs 0 a eq_refl)|]. intros i c Hc. apply (Hs (S i) c Hc).
  - intros [Ha Hs] [|i] c; simpl; [by intros [= <-]|apply Hs].
Qed.

Lemma filter_key_app (h : list (string * string)) n m v :
  (filter (λ p : string * string, p.1 = m) (h ++ [(n, v)])).*2 =
  if String.eqb n m then (filter (λ p : string * string, p.1 = m) h).*2 ++ [v]
  else (filter (λ p : string * string, p.1 = m) h).*2.
Proof.
  rewrite filter_app, fmap_app. destruct (String.eqb_spec n m) as [->|].
  - by rewrite filter_cons_True.
  - rewrite filter_cons_False by done. by rewrite filter_nil, app_nil_r.
Qed.

Lemma filter_key_remove (h : list (string * string)) n m :
  (filter (λ p : string * string, p.1 = m) (filter (λ p : string * string, p.1 ≠ n) h)).*2 =
  if String.eqb n m then [] else (filter (λ p : string * string, p.1 = m) h).*2.
Proof.
  rewrite list_filter_filter. destruct (String.eqb_spec n m) as [->|].
  - induction h as [|p h IH]; [done|]. rewrite filter_cons_False; [done|]. naive_solver.
  - f_equal. apply list_filter_iff. intros [k v]; simpl. naive_solver.
Qed.

#[export] Instance model_http_laws : HttpCrateLaws.
Proof.
  split; simpl.
  - intros n s. unfold model_from_u16. case_decide as Hn.
    + split.
      * intros [= <-]. simpl. by rewrite <-in_status_range_spec.
      * intros [E _]. f_equal. by apply model_status_eq.
    + split; [done|]. intros [<- Hr]. by rewrite in_status_range_spec in Hn.
  - apply model_status_range.
  - intros n Hn. unfold model_const. case_decide as E; [done|].
    by rewrite in_status_range_spec in E.
  - intros s. apply between_spec.
  - intros s. apply between_spec.
  - intros s. apply between_spec.
  - intros n r Hr. unfold known_reasons in Hr.
    repeat (apply elem_of_cons in Hr as [[= -> ->]|Hr]; [reflexivity|]).
    by apply not_elem_of_nil in Hr.
  - intros s v. by destruct (visible s); [intros [= ->]|].
  - intros s v. by destruct (visible s); [intros [= ->]|].
  - intros v. unfold id. rewrite visible_spec. destruct (visible v); naive_solver.
  - done.
  - intros h n v h' m. case_bool_decide; [|done]. intros [= <-]. apply filter_key_app.
  - intros h n v h' m. case_bool_decide; [|done]. intros [= <-].
    rewrite filter_key_app, filter_key_remove. by destruct (String.eqb n m).
  - apply filter_key_remove.
  - done.
Qed.

#[export] Instance model_header_room : HeaderMapRoom.
Proof.
  split; simpl; [done|..].
  - intros h n v h'. case_bool_decide; [|done]. intros [= <-]. unfold id. rewrite length_app. simpl. lia.
  - intros h n v h'. case_bool_decide; [|done]. intros [= <-]. unfold id. rewrite length_app. simpl.
    pose proof (length_filter (λ p : string * string, p.1 ≠ n) h). lia.
  - intros h n. unfold id. apply length_filter.
  - intros h n v Hl. rewrite bool_decide_true; [by eauto|].
    apply (Nat.lt_le_trans _ header_room); [done|]. apply Nat.leb_le. by vm_compute.
  - intros h n v Hl. rewrite bool_decide_true; [by eauto|].
    apply (Nat.lt_le_trans _ header_room); [done|]. apply Nat.leb_le. by vm_compute.
Qed.

(** ** Builders: their inner state *)

#[export] Instance model_builder : HttpBuilder := {
  Builder := option (StatusCode * HeaderMap);
  builder_inner := id;
  builder_new := Some (status_const 200, hm_new);
  builder_set_headers b h := p ← b; Some (p.1, h);
  builder_status b s := p ← b; Some (s, p.2);
  builder_header b n v :=
    p ← b; n ← header_name_try_from n; v ← hv_from_str v;
    h ← hm_try_append p.2 n v; Some (p.1, h);
}.

#[export] Instance model_builder_laws : HttpBuilderLaws.
Proof. by split. Qed.

Lemma visible_forallb s :
  forallb (λ a, let n := Ascii.nat_of_ascii a in ((32 <=? n) && (n <? 127))%nat)
    (String.list_ascii_of_string s) = true → visible s = true.
Proof.
  induction s as [|a s IH]; [done|]. cbn [String.list_ascii_of_string forallb visible].
  intros [Ha Hs]%andb_true_iff. rewrite (IH Hs). unfold visible_char. cbv zeta in *. by rewrite Ha.
Qed.

#[export] Instance model_header_names : HeaderNameLaws.
Proof.
  split; simpl.
  - intros s n. by destruct (is_empty_str s); intros [= <-].
  - intros s _ Hs _. apply is_empty_str_false in Hs as ->. eauto.
  - intros s Hs. apply visible_forallb in Hs as ->. eauto.
Qed.

(** ** Everything together: numbers are integers, handlers are names, and
    percent-decoding knows the escapes of two upper- or lower-case digits. *)

#[export] Instance model_json : JsonCrate := {
  F64 := Z;
  Number := Z;
  number_eqb := Z.eqb;
  number_eqb_spec := Z.eqb_spec;
  num_as_i64 n := Some n;
  num_as_f64 n := Some n;
  f64_as_i64 := id;
}.

Definition hex_digit (a : ascii) : option N :=
  let n := Ascii.N_of_ascii a in
  if ((48 <=? n) && (n <=? 57))%N then Some (n - 48)%N
  else if ((65 <=? n) && (n <=? 70))%N then Some (n - 55)%N
  else if ((97 <=? n) && (n <=? 102))%N then Some (n - 87)%N
  else None.

Fixpoint percent_decode_ascii (s : string) : string :=
  match s with
  | String "%"%char (String a (String b s') as s1) =>
      match hex_digit a, hex_digit b with
      | Some x, Some y => String (Ascii.ascii_of_N (16 * x + y)) (percent_decode_ascii s')
      | _, _ => String "%"%char (percent_decode_ascii s1)
      end
  | String a s => String a (percent_decode_ascii s)
  | "" => ""
  end.

#[export] Instance model_crates : Crates := {
  Version := version;
  Handler := string;
  SchemaGenerator := unit;
  percent_decode s := inl (percent_decode_ascii s);
}.

(** ** Base64 with the URL-safe alphabet *)

Definition b64_alphabet : string := "ABCDEFGHIJKLMNOPQRSTUVWXYZabcdefghijklmnopqrstuvwxyz0123456789-_".

Definition b64_char (n : nat) : ascii :=
  match String.get n b64_alphabet with Some c => c | None => "="%char end.

Fixpoint index_of (c : ascii) (s : string) : option nat :=
  match s with
  | "" => None
  | String a s => if Ascii.eqb a c then Some 0 else S <$> index_of c s
  end.

Definition b64_value (c : ascii) : option nat := index_of c b64_alphabet.

Lemma b64_value_char n : n < 64 → b64_value (b64_char n) = Some n.
Proof.
  intros Hn.
  assert (forallb (λ n, match b64_value (b64_char n) with Some m => m =? n | None => false end) (seq 0 64) = true)
    as Hall by (by vm_compute).
  rewrite forallb_forall in Hall. specialize (Hall n). rewrite in_seq in Hall. specialize (Hall ltac:(lia)).
  destruct (b64_value (b64_char n)) as [m|]; [|done]. apply Nat.eqb_eq in Hall. by subst.
Qed.

Abbreviation code := Ascii.nat_of_ascii.

(** The four sextets of three bytes, and back. *)
Definition sextets (a b c : nat) : nat * nat * nat * nat :=
  (a / 4, a mod 4 * 16 + b / 16, b mod 16 * 4 + c / 64, c mod 64).

Definition quad (a b c : nat) (k : nat) : string :=
  let '(x, y, z, w) := sextets a b c in
  String (b64_char x) (String (b64_char y)
    (String (if (k <? 2)%nat then "="%char else b64_char z) (String (if (k <? 3)%nat then "="%char else b64_char w) ""))).

Fixpoint base64_encode (s : string) : string :=
  match s with
  | "" => ""
  | String a "" => quad (code a) 0 0 1
  | String a (String b "") => quad (code a) (code b) 0 2
  | String a (String b (String c s)) => quad (code a) (code b) (code c) 3 +:+ base64_encode s
  end.

Definition byte1 (x y : nat) : ascii := Ascii.ascii_of_nat (x * 4 + y / 16).
Definition byte2 (y z : nat) : ascii := Ascii.ascii_of_nat (y mod 16 * 16 + z / 4).
Definition byte3 (z w : nat) : ascii := Ascii.ascii_of_nat (z mod 4 * 64 + w).

Fixpoint base64_decode (s : string) : option string :=
  match s with
  | "" => Some ""
  | String p (String q (String r (String t rest))) =>
      x ← b64_value p; y ← b64_value q;
      match b64_value r with
      | None => if Ascii.eqb r "="%char && Ascii.eqb t "="%char && is_empty_str rest
                then Some (String (byte1 x y) "") else None
      | Some z =>
          match b64_value t with
          | None => if Ascii.eqb t "="%char && is_empty_str rest
                    then Some (String (byte1 x y) (String (byte2 y z) "")) else None
          | Some w => tl ← base64_decode rest; Some (String (byte1 x y) (String (byte2 y z) (String (byte3 z w) tl)))
          end
      end
  | _ => None
  end.

Lemma code_bound a : code a < 256.
Proof. apply Ascii.nat_ascii_bounded. Qed.

Ltac div_mod := zify; Z.to_euclidean_division_equations; lia.

Lemma byte1_spec a b : b < 256 → byte1 (code a / 4) (code a mod 4 * 16 + b / 16) = a.
Proof.
  intros Hb. unfold byte1.
  rewrite <-(Ascii.ascii_nat_embedding a) at 3. f_equal. pose proof (code_bound a). div_mod.
Qed.

Lemma byte2_spec a b c : c < 256 → byte2 (a mod 4 * 16 + code b / 16) (code b mod 16 * 4 + c / 64) = b.
Proof.
  intros Hc. unfold byte2. rewrite <-(Ascii.ascii_nat_embedding b) at 3. f_equal. pose proof (code_bound b). div_mod.
Qed.

Lemma byte3_spec b c : byte3 (b mod 16 * 4 + code c / 64) (code c mod 64) = c.
Proof.
  unfold byte3. rewrite <-(Ascii.ascii_nat_embedding c) at 3. f_equal. pose proof (code_bound c). div_mod.
Qed.

Lemma sextets_bound a b c : a < 256 → b < 256 → c < 256 →
  a / 4 < 64 ∧ a mod 4 * 16 + b / 16 < 64 ∧ b mod 16 * 4 + c / 64 < 64 ∧ c mod 64 < 64.
Proof. intros. split_and!; div_mod. Qed.

Lemma base64_decode_full p q r t rest x y z w :
  b64_value p = Some x → b64_value q = Some y → b64_value r = Some z → b64_value t = Some w →
  base64_decode (String p (String q (String r (String t rest)))) =
  (λ tl, String (byte1 x y) (String (byte2 y z) (String (byte3 z w) tl))) <$> base64_decode rest.
Proof.
  intros Hp Hq Hr Ht. cbn [base64_decode]. rewrite Hp, Hq. cbv [mbind option_bind]. rewrite Hr, Ht.
  by destruct (base64_decode rest).
Qed.

Lemma base64_decode_two p q r x y z :
  b64_value p = Some x → b64_value q = Some y → b64_value r = Some z →
  base64_decode (String p (String q (String r "="))) = Some (String (byte1 x y) (String (byte2 y z) "")).
Proof. intros Hp Hq Hr. cbn [base64_decode]. rewrite Hp, Hq. cbv [mbind option_bind]. by rewrite Hr. Qed.

Lemma base64_decode_one p q x y :
  b64_value p = Some x → b64_value q = Some y →
  base64_decode (String p (String q "==")) = Some (String (byte1 x y) "").
Proof. intros Hp Hq. cbn [base64_decode]. by rewrite Hp, Hq. Qed.

Lemma base64_decode_encode s : base64_decode (base64_encode s) = Some s.
Proof.
  induction s as [s IH] using (well_founded_induction (well_founded_ltof _ String.length)).
  destruct s as [|a [|b [|c s]]]; [done|..].
  - pose proof (sextets_bound (code a) 0 0 (code_bound a) ltac:(lia) ltac:(lia)) as (H1 & H2 & _).
    pose proof (base64_decode_one _ _ _ _ (b64_value_char _ H1) (b64_value_char _ H2)) as E.
    rewrite byte1_spec in E by lia. exact E.
  - pose proof (sextets_bound (code a) (code b) 0 (code_bound a) (code_bound b) ltac:(lia)) as (H1 & H2 & H3 & _).
    pose proof (base64_decode_two _ _ _ _ _ _ (b64_value_char _ H1) (b64_value_char _ H2) (b64_value_char _ H3)) as E.
    rewrite byte1_spec in E by apply code_bound. rewrite byte2_spec in E by lia. exact E.
  - pose proof (sextets_bound (code a) (code b) (code c) (code_bound a) (code_bound b) (code_bound c)) as (H1 & H2 & H3 & H4).
    pose proof (base64_decode_full _ _ _ _ (base64_encode s) _ _ _ _ (b64_value_char _ H1) (b64_value_char _ H2)
      (b64_value_char _ H3) (b64_value_char _ H4)) as E.
    rewrite byte1_spec in E by apply code_bound. rewrite byte2_spec in E by apply code_bound. rewrite byte3_spec in E.
    rewrite IH in E by (unfold ltof; simpl; lia). exact E.
Qed.

Lemma base64_encode_length s : String.length (base64_encode s) = 4 * ((String.length s + 2) / 3).
Proof.
  induction s as [s IH] using (well_founded_induction (well_founded_ltof _ String.length)).
  destruct s as [|a [|b [|c s]]]; [done..|].
  change (base64_encode (String a (String b (String c s)))) with (quad (code a) (code b) (code c) 3 +:+ base64_encode s).
  transitivity (4 + String.length (base64_encode s)); [done|].
  rewrite IH by (unfold ltof; simpl; lia). cbn [String.length]. div_mod.
Qed.

#[export] Instance model_base64 : Base64Crate := {
  b64_encode := base64_encode;
  b64_decode s := match base64_decode s with Some s => inl s | None => inr "Invalid padding" end;
}.

#[export] Instance model_base64_laws : Base64Laws.
Proof. split; simpl; [intros s; by rewrite base64_decode_encode|apply base64_encode_length]. Qed.

(** ** [f32]: whole numbers in thousandths *)

#[export] Instance model_float32 : Float32 := {
  F32 := Z;
  f32_parse s := n ← parse_N s; Some (1000 * Z.of_N n)%Z;
  f32_is_finite _ := true;
  f32_clamp01 x := Z.max 0 (Z.min 1000 x);
  f32_max := Z.max;
  f32_positive := Z.ltb 0;
  f32_one := 1000%Z;
}.

#[export] Instance model_float32_laws : Float32Laws.
Proof.
  split; simpl; try done.
  - intros x _. apply eq_true_iff_eq. rewrite !Z.ltb_lt. lia.
  - intros x y _ _. apply eq_true_iff_eq. rewrite orb_true_iff, !Z.ltb_lt. lia.
Qed.

(** ** [HeaderMap::extend] *)

#[export] Instance model_header_extend : HeaderMapExtend := {
  hm_try_extend h other :=
    let h' := filter (λ p : string * string, p.1 ∉ other.*1) h ++ other in
    if bool_decide (length h' < model_max_headers)%nat then Some h' else None;
}.

Lemma filter_key_nil (other : list (string * string)) n :
  n ∉ other.*1 → (filter (λ p : string * string, p.1 = n) other).*2 = [].
Proof.
  intros Hn. induction other as [|[k v] other IH]; [done|].
  rewrite fmap_cons, not_elem_of_cons in Hn. destruct Hn as [Hk Hn].
  rewrite filter_cons_False; [by apply IH|]. intros E. by apply Hk.
Qed.

#[export] Instance model_header_extend_laws : HeaderMapExtendLaws.
Proof.
  split; simpl. intros h other h' n. case_bool_decide; [|done]. intros [= <-].
  rewrite filter_app, fmap_app, list_filter_filter. destruct (decide (n ∈ other.*1)) as [Hn|Hn].
  - assert ((filter (λ p : string * string, p.1 = n ∧ p.1 ∉ other.*1) h) = []) as E'.
    { clear -Hn. induction h as [|p h IH]; [done|]. rewrite filter_cons_False; [exact IH|]. by intros [<- ?]. }
    rewrite E'. simpl. apply list_elem_of_fmap in Hn as ([k v] & -> & Hp).
    destruct ((filter (λ p : string * string, p.1 = (k, v).1) other).*2) eqn:Eo; [|done].
    apply (f_equal length) in Eo. rewrite length_fmap in Eo. simpl in Eo. apply nil_length_inv in Eo.
    exfalso. apply (not_elem_of_nil (k, v)). rewrite <-Eo. by apply list_elem_of_filter.
  - rewrite (filter_key_nil other n Hn), app_nil_r. f_equal. apply list_filter_iff.
    intros [k v]; simpl. naive_solver.
Qed.

(** ** What JSON values schemas accept

    Numbers are whole numbers; a pattern is the prefix a string must have, a
    format says nothing. *)

#[export] Instance model_semantics : JsonSemantics := {
  num_is_integer _ := true;
  num_compare := Z.compare;
  num_compare_z := Z.compare;
  num_multiple_of n m := (Z.modulo n m =? 0)%Z;
  num_multiple_of_z n m := (Z.modulo n m =? 0)%Z;
  f64_integral _ := true;
  char_count s := N.of_nat (String.length s);
  pattern_match p s := starts_with p s;
  format_ok _ _ := true;
}.

#[export] Instance model_semantics_laws : JsonSemanticsLaws.
Proof. split; simpl; try done. congruence. Qed.

(** ** WebSocket handshakes

    The standard base64 alphabet differs from the URL-safe one in two
    characters.  Any function will do for the digest. *)

Definition standard_char (c : ascii) : ascii :=
  if Ascii.eqb c "-" then "+"%char else if Ascii.eqb c "_" then "/"%char else c.

Definition visible_byte (a : ascii) : bool := let n := code a in ((32 <=? n) && (n <? 127))%nat.

Definition visible_bytes (s : string) : bool := forallb visible_byte (String.list_ascii_of_string s).

#[export] Instance model_websocket : WebsocketCrates := {
  sha1 := id;
  b64_standard s := str_map standard_char (base64_encode s);
  OnUpgrade := unit;
  Upgraded := unit;
}.

Lemma visible_get n s c : visible_bytes s = true → String.get n s = Some c → visible_byte c = true.
Proof.
  revert n. induction s as [|a s IH]; intros [|n]; simpl; try done; unfold visible_bytes; simpl;
    intros [Ha Hs]%andb_true_iff; [by intros [= <-]|by apply IH].
Qed.

Lemma visible_b64_char n : visible_byte (standard_char (b64_char n)) = true.
Proof.
  unfold b64_char. destruct (String.get n b64_alphabet) as [c|] eqn:E; [|done].
  apply (visible_get n (str_map standard_char b64_alphabet)); [done|]. revert E. generalize b64_alphabet. intros s.
  revert n. induction s as [|a s IH]; intros [|n]; simpl; try done; [by intros [= ->]|apply IH].
Qed.

Lemma visible_four x y z w s :
  visible_byte (standard_char x) = true → visible_byte (standard_char y) = true →
  visible_byte (standard_char z) = true → visible_byte (standard_char w) = true →
  visible_bytes (str_map standard_char s) = true →
  visible_bytes (str_map standard_char (String x (String y (String z (String w s))))) = true.
Proof. unfold visible_bytes. cbn -[visible_byte standard_char]. by intros -> -> -> ->. Qed.

Lemma visible_quad a b c k s :
  visible_bytes (str_map standard_char s) = true → visible_bytes (str_map standard_char (quad a b c k +:+ s)) = true.
Proof.
  intros Hs. apply visible_four; [apply visible_b64_char..| | |exact Hs].
  - destruct (k <? 2)%nat; [done|apply visible_b64_char].
  - destruct (k <? 3)%nat; [done|apply visible_b64_char].
Qed.

#[export] Instance model_websocket_laws : WebsocketCratesLaws.
Proof.
  split. intros s. change (visible_bytes (str_map standard_char (base64_encode s)) = true).
  induction s as [s IH] using (well_founded_induction (well_founded_ltof _ String.length)).
  destruct s as [|a [|b [|c s]]]; [done|..].
  - exact (visible_quad (code a) 0 0 1 "" eq_refl).
  - exact (visible_quad (code a) (code b) 0 2 "" eq_refl).
  - change (base64_encode (String a (String b (String c s)))) with (quad (code a) (code b) (code c) 3 +:+ base64_encode s).
    apply visible_quad, IH. unfold ltof. simpl. lia.
Qed.
