(* ===== verification/Witnesses.v ===== *)
(** * Witnesses

    Each theorem of the development that has hypotheses is applied here to a
    concrete input at which they hold, with the crate interfaces instantiated
    by [Models]: no hypothesis is vacuous. *)
From S2P Require Import Prelude BTree ToMap FromMap Externals Versions StatusCodes Body HttpError Config Schema TypeUtil ApiEndpoint.
From S2P Require Import Router RouterSpec RouterLookup RouterIter Versioning Pagination ApiDescription Compression Handler Extractors Server HandlerTasks.
From S2P Require Import Models.

(** ** A small API *)

Definition v1 : version := mkv 1 0 0.
Definition v2 : version := mkv 2 0 0.

Definition no_response : ApiEndpointResponse := mk_endpoint_response None [] None None.

Definition string_param (name : string) : ApiEndpointParameter :=
  new_named LPath name None true (Static (typed_schema IString) []) [].

Definition ep (op m p : string) (ps : list ApiEndpointParameter) (v : ApiEndpointVersions version) : ApiEndpoint :=
  mk_endpoint op ("handler of " +:+ op) m p ps Json_ None no_response None None None [] NoExtension true false v.

Definition list_projects : ApiEndpoint := ep "list_projects" "GET" "/projects" [] All.
Definition get_project : ApiEndpoint := ep "get_project" "GET" "/projects/{id}" [string_param "id"] (From v1).
Definition put_project : ApiEndpoint := ep "put_project" "PUT" "/projects/{id}" [string_param "id"] (From v2).
Definition get_file : ApiEndpoint := ep "get_file" "GET" "/files/{path:.*}" [] All.
Definition list_files : ApiEndpoint := ep "list_files" "GET" "/files" [] All.

Definition api : list ApiEndpoint := [list_projects; get_project; put_project].
Definition files : list ApiEndpoint := [list_files; get_file].

(** The router [build] returns: the proof computes it. *)
Definition built (eps : list ApiEndpoint) : HttpRouter :=
  match build eps with Ok r => r | _ => router_new end.

Lemma built_ok eps : is_ok (build eps) = true → build eps = Ok (built eps).
Proof. unfold built. by destruct (build eps). Qed.

Lemma api_built : build api = Ok (built api).
Proof. apply built_ok. by vm_compute. Qed.

Lemma files_built : build files = Ok (built files).
Proof. apply built_ok. by vm_compute. Qed.

Lemma is_ok_inv {E A} (m : rust E A) : is_ok m = true → ∃ a, m = Ok a.
Proof. destruct m; simpl; eauto. all: done. Qed.

Definition project_pattern : pattern := [Literal "projects"; VarnameSegment "id"].

Lemma fits_header n : (n <? header_room) = true → n < header_room.
Proof. apply Nat.ltb_lt. Qed.

Lemma api_methods_fit : methods_fit api.
Proof. split; [repeat constructor|]. apply fits_header. by vm_compute. Qed.

Lemma files_methods_fit : methods_fit files.
Proof. split; [repeat constructor|]. apply fits_header. by vm_compute. Qed.

Lemma api_leads : leads api ["projects"; "7"] project_pattern [("id", VString "7")].
Proof.
  split; [|split].
  - right. exists get_project, project_pattern. split_and!; [by right; left|reflexivity|done].
  - reflexivity.
  - intros v [|(e & p & He & Hp & Hpre)]; [done|]. unfold api in He.
    repeat (apply elem_of_cons in He as [->|He];
      [vm_compute in Hp; injection Hp as <-; destruct Hpre as [k Hk]; discriminate Hk|]).
    by apply not_elem_of_nil in He.
Qed.

(** ** Versions and status codes *)

Lemma overlaps_with_exact_witness :
  overlaps_with (From v1) (Until v2) = true ↔
  ∃ v, matches (From v1) (Some v) = true ∧ matches (Until v2) (Some v) = true.
Proof.
  apply overlaps_with_exact; [done|done|exists v1; reflexivity|exists v1; reflexivity|].
  intros (v & [[? ?]|[? ?]]); discriminate.
Defined.


Lemma error_status_code_invariant_witness : error_wf (error_of_client (client_constant 404)).
Proof.
  apply (proj1 (proj2 (proj2 (proj2 (proj2 (proj2 (proj2 error_status_code_invariant))))))).
  split; vm_compute; congruence.
Defined.

(** ** Errors *)

Definition not_found : HttpError := mk_http_error (error_constant 404) None "Not Found" "no such project" None.

Definition print_body (b : HttpErrorResponseBody) : option string := Some (body_message b).

Lemma into_response_spec_witness :
  (∀ r, into_response print_body not_found "id-1" = Ok r →
    resp_status r = error_status (status_code not_found) ∧
    (∃ text, print_body (mk_error_body "id-1" (error_code not_found) (external_message not_found)) = Some text ∧
       resp_body r = with_content text) ∧
    (∃ j i, hv_as_bytes j = CONTENT_TYPE_JSON ∧ hv_as_bytes i = "id-1" ∧
      ∀ n, hm_get_all (resp_headers r) n =
        error_header_values not_found n ++ (if String.eqb CONTENT_TYPE n then [j] else [])
          ++ (if String.eqb HEADER_REQUEST_ID n then [i] else []))) ∧
  (∀ e', same_outside not_found e' →
    into_response print_body not_found "id-1" = into_response print_body e' "id-1").
Proof. apply (into_response_spec print_body not_found "id-1"). Defined.


(** ** Routing *)

Lemma build_spec_witness :
  (∃ r, build api = Ok r) ↔ Forall path_ok api ∧ ForallOrdPairs endpoints_compatible api.
Proof. apply (build_spec api). Defined.

Lemma lookup_route_spec_witness :
  lookup_route (built api) "get" "/projects/7" (Some v2) = Ok (result_of get_project (bt_collect [("id", VString "7")])) ∧
  (∃ err, lookup_route (built api) "DELETE" "/projects/7" (Some v2) = Err err ∧ status_of err = 405%Z) ∧
  (∃ err, lookup_route (built api) "GET" "/projects/7" (Some (mkv 0 1 0)) = Err err ∧ status_of err = 404%Z).
Proof.
  pose proof api_built as Hb.
  pose proof api_methods_fit as Hm. pose proof api_leads as Hl.
  split_and!.
  - destruct (lookup_route_spec api (built api) "get" "/projects/7" (Some v2) Hb Hm) as [Hs _].
    exact (Hs _ _ Hl).
  - destruct (lookup_route_spec api (built api) "DELETE" "/projects/7" (Some v2) Hb Hm) as [Hs _].
    exact (Hs _ _ Hl).
  - destruct (lookup_route_spec api (built api) "GET" "/projects/7" (Some (mkv 0 1 0)) Hb Hm) as [Hs _].
    exact (Hs _ _ Hl).
Defined.


Lemma registered_reachable_witness :
  ∃ e', e' ∈ candidates api project_pattern "PUT" (Some v2) ∧
    lookup_route (built api) "PUT" "/projects/7" (Some v2) = Ok (result_of e' (bt_collect [("id", VString "7")])) ∧
    (∀ v, Some v2 = Some v → (∀ a, a ∈ api → versions a ≠ FromUntil (mk_pair v v)) → e' = put_project).
Proof.
  apply (registered_reachable api (built api) put_project project_pattern "PUT" "/projects/7" ["projects"; "7"]
    [("id", VString "7")] (Some v2)); [exact api_built|exact api_methods_fit|by right; right; left|reflexivity| |reflexivity..].
  intros e' v He Hp. unfold api in He.
  repeat (apply elem_of_cons in He as [->|He]; [vm_compute in Hp; discriminate Hp|]).
  by apply not_elem_of_nil in He.
Defined.



Lemma endpoints_spec_witness :
  ∃ l, iter_collect 4 10 (endpoints (built api) (Some v1)) = Some l ∧
    l ≡ₚ (λ e, (render (iter_label <$> pattern_of e), methodname e, e)) <$>
           List.filter (λ e, matches (versions e) (Some v1)) api.
Proof.
  apply (endpoints_spec api (built api) (Some v1) 4 10); [exact api_built|simpl; lia|].
  apply Nat.leb_le. by vm_compute.
Defined.

(** A router with a wildcard. *)
Lemma route_path_roundtrip_witness :
  ∃ l, iter_collect 3 10 (endpoints (built files) (Some v1)) = Some l ∧
    (∃ pa, (pa, "GET", get_file) ∈ l) ∧
    ∀ pa m, (pa, m, get_file) ∈ l →
      ∃ q q', path_pattern (path get_file) = Ok q ∧ path_pattern pa = Ok q' ∧ printed_as q q' ∧
        VarnameWildcard "path" ∈ q ∧ q' ≠ q.
Proof.
  destruct (route_path_roundtrip files (built files) (Some v1) 3 10) as (_ & l & Hl & Hall & Hpa);
    [exact files_built|simpl; lia|apply Nat.leb_le; by vm_compute|].
  exists l. split; [exact Hl|]. split; [apply (Hall get_file); [by right; left|reflexivity]|].
  intros pa m Hin. destruct (Hpa pa m get_file Hin) as (q & q' & Hq & Hq' & Hpr). exists q, q'.
  split; [exact Hq|]. split; [exact Hq'|]. split; [exact Hpr|].
  vm_compute in Hq. injection Hq as <-. split; [by right; left|]. destruct Hpr as [[Hn _]|(p & v & Ep & ->)].
  - destruct (Hn "path"). by right; left.
  - destruct p as [|s1 [|s2 [|s3 p]]]; simpl in *; simplify_eq. discriminate.
Defined.

(** ** Request versions *)

Definition header_policy : ClientSpecifiesVersionInHeader := min_version (client_policy_new "api-version" v2) v1.

Definition request_of (version : string) : Request unit :=
  mk_request "GET" "/projects" None [("api-version", version)] ().

Lemma request_extract_version_spec_witness :
  request_extract_version id hv_as_bytes header_policy (request_of "1.5.0") = Ok (mkv 1 5 0) ∧
  (∀ e, request_extract_version id hv_as_bytes header_policy (request_of "3.0.0") = Err e → is_bad_request e).
Proof.
  split.
  - apply (request_extract_version_spec id hv_as_bytes header_policy (request_of "1.5.0")).
    left. split; [exists "1.5.0", "1.5.0"; by vm_compute|by vm_compute].
  - apply (request_extract_version_spec id hv_as_bytes header_policy (request_of "3.0.0")).
Defined.

(** ** Pagination: a selector printed as itself *)

Definition print_token (t : SerializedToken string) : string + string := inl (tok_page_start t).
Definition parse_token (s : string) : SerializedToken string + string := inl (mk_token V1 s).
(** Scan parameters: all that the query has; floating-point numbers are not read. *)
Definition no_float (_ : float_type) (_ : string) : option () := None.
Definition string_de : de () (option string) := de_str MString (λ s, Ok (Some s)).
Definition scan_de : de () (list (string * option string)) :=
  de_map (visit_map (de_str MIdentifier Ok) (λ _ _, Ok ()) (λ _ _, string_de) (λ st k v, Ok ((k, v) :: st)) [] Ok).

Lemma print_parse_token sel json : print_token (mk_token V1 sel) = inl json → parse_token json = inl (mk_token V1 sel).
Proof. by intros [= <-]. Qed.

Lemma page_token_roundtrip_witness :
  serialize_page_token print_token "item-9" = Ok "aXRlbS05" ∧
  deserialize_page_token parse_token "aXRlbS05" = Ok "item-9".
Proof.
  assert (serialize_page_token print_token "item-9" = Ok "aXRlbS05") as E by reflexivity.
  split; [exact E|].
  apply (proj1 (proj2 (page_token_roundtrip print_token parse_token print_parse_token "item-9")) _ E).
Defined.

Lemma results_page_resumes_witness :
  deserialize_whichpage no_float parse_token scan_de [("limit", "3"); ("page_token", "aXRlbS05")] = Ok (Next "item-9").
Proof.
  destruct (results_page_resumes no_float print_token parse_token scan_de print_parse_token
    ["item-8"; "item-9"] [] (λ item _, item)) as [_ Hp].
  destruct (Hp (mk_results_page (Some "aXRlbS05") ["item-8"; "item-9"]) eq_refl) as (_ & _ & Hn).
  by apply (Hn "aXRlbS05" "item-9").
Defined.

Definition default_config : ConfigDropshot string :=
  match config_default Some with Ok c => c | Err e => match e with end | Panic _ => mk_config "" 0 Detached [] NoCompression end.

(** ** Registration *)

Lemma register_answers :
  match register 10 description_new get_project with Some r => is_ok r | None => false end = true.
Proof. by vm_compute. Qed.

(** The type of its parameter is given directly. *)
Lemma get_project_ends : Forall nesting_ends (parameters get_project).
Proof.
  apply Forall_singleton. split.
  - constructor. intros t (u & subs & l & Hr & Hm & _). apply type_resolve_ok in Hr. vm_compute in Hr. injection Hr as <-. discriminate Hm.
  - intros item Hi. vm_compute in Hi. discriminate Hi.
Qed.

Lemma register_spec_witness :
  (∃ r, register 10 description_new get_project = Some r ∧
     (∀ self', r = Ok self' → Rep ([] ++ [get_project]) (root (router self')))) ∧
  ∃ fuel0 r, ∀ fuel, fuel0 ≤ fuel → register fuel description_new get_project = Some r.
Proof.
  destruct (register_spec [] description_new get_project Rep_new) as [Hok Hend]. split; [|exact (Hend get_project_ends)].
  destruct (register 10 description_new get_project) as [r|] eqn:E;
    [|pose proof register_answers as H; rewrite E in H; discriminate H].
  exists r. split; [done|]. intros self' Hs. exact (proj1 (proj2 (Hok 10 r E) self' Hs)).
Defined.

Definition registered : ApiDescription :=
  match register_all 10 description_new api with Some (Ok self) => self | _ => description_new end.

Lemma api_registered : register_all 10 description_new api = Some (Ok registered).
Proof.
  assert (match register_all 10 description_new api with Some r => is_ok r | None => false end = true) as H
    by (by vm_compute).
  unfold registered. by destruct (register_all 10 description_new api) as [[]|].
Qed.

Lemma registered_variables_witness :
  ∃ e res, e ∈ api ∧ lookup_route (router registered) "GET" "/projects/7" (Some v1) = Ok res ∧
    lr_handler res = handler e ∧
    (∀ name, name ∈ path_param_names (parameters e) ↔ name ∈ bt_keys (rem_variables (lr_endpoint res))).
Proof.
  destruct (is_ok_inv (lookup_route (router registered) "GET" "/projects/7" (Some v1))) as [res E]; [by vm_compute|].
  destruct (registered_variables 10 api registered "GET" "/projects/7" (Some v1) res api_registered E)
    as (e & He & Hh & Hv & _).
  exists e, res. done.
Defined.

(** ** Reading strings at the types of fields *)

Definition u16_field : de () (option Z) := de_int U16 (λ n, Ok (Some n)).
Definition id_fields : btree (de () (option Z)) := [("id", u16_field)].

Lemma from_map_struct_spec_witness :
  (∃ r, from_map no_float (struct_de id_fields ["id"]) [("id", "17"); ("x", "y")] = Ok r) ∧
  (∀ e, from_map no_float (struct_de id_fields ["id"]) [("id", "70000")] = Err e →
     e = "unable to parse '70000' as u16").
Proof.
  split.
  - apply (from_map_struct_spec no_float id_fields ["id"] [("id", "17"); ("x", "y")]).
    + exact (bt_wf_collect [("id", "17"); ("x", "y")]).
    + by intros k z [[= -> ->]|[[= -> ->]|?%not_elem_of_nil]%elem_of_cons]%elem_of_cons.
    + split; [|by intros k ->%list_elem_of_singleton; left].
      intros k z [[= -> ->]|[[= -> ->]|?%not_elem_of_nil]%elem_of_cons]%elem_of_cons; [by eexists|by eexists|done].
  - intros e He.
    destruct (from_map_struct_spec no_float id_fields ["id"] [("id", "70000")]) as (_ & _ & Hs).
    + exact (bt_wf_collect [("id", "70000")]).
    + by intros k z [= -> ->]%list_elem_of_singleton.
    + destruct (Hs e He) as [(k & z & [= -> ->]%list_elem_of_singleton & Hr)|(k & ->%list_elem_of_singleton & [] & _)].
      * by injection Hr.
      * left.
Defined.

Lemma from_map_no_panic_witness :
  no_panic (from_map no_float scan_de [("a", "b")]) ∧ no_panic (from_map_insensitive no_float scan_de [("a", "b")]).
Proof. apply (from_map_no_panic no_float scan_de); [by repeat split|done]. Defined.

Lemma int_parameter_spec_witness :
  run no_float (de_int U8 Ok) (DValue "255") = Ok 255%Z ∧
  run no_float (de_int U8 Ok) (DValue "256") = Err "unable to parse '256' as u8".
Proof.
  split.
  - apply (int_parameter_spec no_float U8 Ok "255" "255" 255%Z); reflexivity.
  - apply (int_parameter_spec no_float U8 Ok "256" "256" 256%Z); reflexivity.
Defined.

Definition some_fields : list (string * StringField) :=
  [("b", OptionalString None); ("a", RequiredString "x"); ("c", OptionalString (Some "y"))].

Lemma to_map_from_map_witness :
  NoDup some_fields.*1 ∧
  ∃ m, to_map (serialize_string_struct some_fields) = Ok m ∧
    (∀ k s, bt_get k m = Some s ↔ ∃ f, (k, f) ∈ some_fields ∧ field_text f = Some s) ∧
    read_string_struct no_float (type_of_fields some_fields) m = Ok (Some some_fields).
Proof.
  assert (NoDup some_fields.*1) as Hnd by (apply NoDup_ListNoDup; repeat constructor; simpl; intuition discriminate).
  split; [exact Hnd|]. exact (to_map_from_map no_float some_fields Hnd).
Defined.

Lemma registered_path_params_witness :
  ∃ e res, e ∈ api ∧ lookup_route (router registered) "GET" "/projects/7" (Some v1) = Ok res ∧
    lr_handler res = handler e.
Proof.
  destruct (is_ok_inv (lookup_route (router registered) "GET" "/projects/7" (Some v1))) as [res E]; [by vm_compute|].
  destruct (registered_path_params no_float 10 api registered "GET" "/projects/7" (Some v1) res id_fields ["id"]
    api_registered E) as (e & He & Hh & _).
  exists e, res. done.
Defined.


(** ** Compression *)

Definition gzip_request : HeaderMap := [("accept-encoding", "br, gzip; q=1, *; q=0")].

Lemma accepts_gzip_spec_witness :
  accepts_gzip_encoding gzip_request = true ∧ accepts_gzip_encoding hm_new = false.
Proof.
  split.
  - rewrite (proj1 (accepts_gzip_spec gzip_request)). by vm_compute.
  - apply (proj2 (accepts_gzip_spec hm_new)). reflexivity.
Defined.

Definition vary_before : HeaderMap := [("vary", "origin")].
Definition vary_after : HeaderMap := [("vary", "origin"); ("vary", "Accept-Encoding")].

(** ** Responses *)

Definition no_builder_error (b : @Builder (@cr_http model_crates) model_builder) : string := "invalid header".

Definition ok_with_headers : HttpResponseHeaders :=
  mk_response_headers (for_object HttpResponseOk (freeform_to_response no_builder_error (with_content "data")))
    (SStruct [("etag", SStr "1"); ("age", SNone)]) [("etag", "2")].

Definition octet_headers : HeaderMap := [("content-type", "application/octet-stream")].


(** ** Bodies *)

Definition upload : Body := mk_body [inl (Data "abc"); inl Trailers; inl (Data "defg")] None.

Lemma upload_fits : chunks_fit (body_frames upload).
Proof. repeat constructor. Qed.

Lemma streaming_body_spec_witness :
  (total_len (yields (into_stream (streaming_new upload 5))) ≤ 5)%N ∧
  into_stream (streaming_new upload 7) = [inl "abc"; inl "defg"].
Proof.
  split.
  - apply (streaming_body_spec upload 5); [reflexivity|exact upload_fits].
  - apply (streaming_body_spec upload 7); [reflexivity|exact upload_fits|]. split; [reflexivity|by vm_compute].
Defined.

Definition json_request : @Request (@cr_http model_crates) Body :=
  mk_request "PUT" "/projects/7" None [("content-type", "Application/JSON; charset=utf-8")] upload.

Lemma http_request_load_body_spec_witness :
  http_request_load_body hv_as_bytes (λ s, inl s) (λ _, inr "not a form") json_request 1024 Json_ = Ok "abcdefg".
Proof.
  apply (http_request_load_body_spec hv_as_bytes (λ s, inl s) (λ _, inr "not a form") json_request 1024 Json_);
    [reflexivity|exact upload_fits|].
  exists "abcdefg". split; [by repeat split|]. split; [|by left].
  exists "Application/JSON; charset=utf-8". by split.
Defined.

(** ** The server *)

Definition gzip_id (l : list (string + string)) : list (Frame + string) :=
  (λ x, match x with inl d => inl (Data d) | inr e => inr e end) <$> l.

(** A handler that answers with JSON. *)
Definition json_headers : HeaderMap := [("content-type", "application/json")].

Definition run_handler_model (h : Handler) (ctx : RequestContext) (request : Request Body) :
    rust HandlerError (Response Body) :=
  Ok (mk_response (status_const 200) json_headers false (mk_body [inl (Data h)] None)).

Definition server : DropshotState unit :=
  mk_state () (mk_server_config 1024 10000 100 Detached [] Gzip) (built api) Unversioned.

Definition get_request : @Request (@cr_http model_crates) Body := mk_request "GET" "/projects" None gzip_request empty_body.

Lemma server_answers :
  is_ok (http_request_handle_wrap print_body gzip_id run_handler_model server get_request "id-1" "::1") = true.
Proof. by vm_compute. Qed.

Lemma request_answered_witness :
  ∃ r, http_request_handle_wrap print_body gzip_id run_handler_model server get_request "id-1" "::1" = Ok r ∧
    (∃ v, hv_as_bytes v = "id-1" ∧ last (hm_get_all (resp_headers r) HEADER_REQUEST_ID) = Some v) ∧
    ∃ o, outcome run_handler_model server get_request "id-1" "::1" o ∧
      match o with
      | inl err => error_answer print_body err "id-1" r
      | inr resp => handler_answer gzip_id (st_config server) get_request "id-1" resp r
      end.
Proof.
  destruct (is_ok_inv _ server_answers) as [r E]. exists r. split; [exact E|].
  exact (request_answered print_body gzip_id run_handler_model server get_request "id-1" "::1" r E).
Defined.

Lemma every_request_answered_witness :
  ∃ r, http_request_handle_wrap print_body gzip_id run_handler_model server get_request "id-1" "::1" = Ok r.
Proof.
  apply (every_request_answered print_body gzip_id run_handler_model server api).
  - exact api_built.
  - exact api_methods_fit.
  - apply fits_header. by vm_compute.
  - intros request. exact I.
  - intros h ctx request. apply fits_header. by vm_compute.
  - intros b. by eexists.
  - by eexists.
Defined.

(** ** Handler tasks *)

(** A detached handler whose client has gone. *)
Definition orphan : task := drop_request (task_new Detached) Disconnected Running [].

Lemma orphan_reachable : reachable Detached (mk_system Closing [orphan]).
Proof.
  eapply rtc_l; [apply step_request; by left|]. simpl.
  eapply rtc_l; [apply (step_task Detached Serving [] (task_new Detached) orphan []); by apply step_detached_disconnect|].
  apply rtc_once. apply step_close.
Qed.

Lemma detached_handler_completes_witness :
  tk_handler orphan ≠ Dropped ∧ ∃ t', task_step Detached orphan t' ∧ tk_handler t' = Sent.
Proof.
  destruct (detached_handler_completes _ orphan orphan_reachable) as [H1 H2]; [by left|].
  split; [exact H1|]. exact (proj1 (H2 eq_refl)).
Defined.

Definition cancelled : task := drop_request (task_new CancelOnDisconnect) Disconnected Dropped [].

Lemma cancelled_reachable : reachable CancelOnDisconnect (mk_system Serving [cancelled]).
Proof.
  eapply rtc_l; [apply step_request; by left|]. simpl. apply rtc_once.
  apply (step_task CancelOnDisconnect Serving [] (task_new CancelOnDisconnect) cancelled []). by apply step_disconnect.
Qed.

Lemma cancelled_handler_stops_witness :
  (tk_handler cancelled = Running ↔ tk_request cancelled = Waiting) ∧ tk_handler cancelled ≠ Running.
Proof.
  destruct (cancelled_handler_stops _ cancelled cancelled_reachable) as [H1 H2]; [by left|].
  split; [exact H1|exact (H2 eq_refl)].
Defined.

Lemma close_waits_for_handlers_witness :
  ∃ s', rtc (step Detached) (mk_system Closing [orphan]) s' ∧ sys_phase s' = Joined ∧ length (sys_tasks s') = 1.
Proof. exact (proj2 (close_waits_for_handlers Detached _ orphan_reachable) eq_refl). Defined.

Lemma request_log_spec_witness :
  RequestCancelled ∈ tk_log orphan ↔ tk_request orphan = Disconnected ∨ tk_request orphan = Unwound.
Proof.
  apply (request_log_spec Detached _ orphan orphan_reachable). by left.
Defined.
