(* ===== verification/OpenApiWitnesses.v ===== *)
(** * Witnesses for OpenAPI documents and WebSockets

    As [Witnesses], for the theorems about schemas, metadata, documents and the
    upgrade to a WebSocket. *)
From S2P Require Import Prelude BTree Externals Versions StatusCodes Body HttpError Config Schema OpenApi SchemaUtil.
From S2P Require Import SchemaTranslate SchemaSemantics SchemaCorrect ApiEndpoint Metadata Router RouterSpec RouterIter ApiDescription.
From S2P Require Import GenOpenApi GenOpenApiSpec GenOpenApiTotal Handler WebSocket Models Witnesses.

(** ** Schemas *)

(** An object with a bounded integer, an enumeration that allows null, and a
    nullable reference. *)
Definition count_schema : Schema :=
  Object (mk_schema_object None (Some (Single IInteger)) (Some "int32") None None None
    (Some (mk_number_validation None None (Some 10%Z) (Some 1%Z) None)) None None None None []).
Definition color_schema : Schema :=
  Object (mk_schema_object None (Some (Single IString)) None (Some [JString "red"; JNull]) None None None None None None
    None [("nullable", JBool true)]).
Definition owner_schema : Schema :=
  Object (mk_schema_object None None None None None None None None None None (Some "#/components/schemas/Owner")
    [("nullable", JBool true)]).
Definition item_schema : Schema :=
  Object (mk_schema_object None (Some (Single IObject)) None None None None None None None
    (Some (mk_object_validation None None ["count"]
      [("color", color_schema); ("count", count_schema); ("owner", owner_schema)] [] (Some (Bool false)) None)) None []).

Definition no_references (_ : string) (_ : Json) : bool := false.

Lemma j2oas_schema_spec_witness :
  ∃ s, j2oas_schema None item_schema = Ok s ∧
    ref_ok no_references (oas_valid no_references) s (JObject [("color", JNull); ("count", JNumber 9%Z); ("owner", JNull)]) = true ∧
    ref_ok no_references (oas_valid no_references) s (JObject [("count", JNumber 10%Z)]) = false.
Proof.
  destruct (j2oas_schema_spec no_references None item_schema) as (s & Hs & Hv); [reflexivity|].
  exists s. split; [exact Hs|]. split; [exact (Hv _)|exact (Hv _)].
Defined.

Definition no_dereference (_ : Schema) : option Schema := None.

Lemma schema2struct_members_witness :
  (∃ ms, schema2struct_impl no_dereference 5 item_schema true = Some (Ok ms) ∧
     ∀ m, m ∈ ms ↔ Member no_dereference item_schema true m) ∧
  ∃ r fuel0, ∀ fuel, fuel0 ≤ fuel → schema2struct_impl no_dereference fuel item_schema true = Some r.
Proof.
  destruct (schema2struct_members no_dereference item_schema true) as [Hm Ht]. split.
  - eexists. split; [reflexivity|]. exact (proj1 (Hm 5 _ eq_refl)).
  - apply Ht. constructor. intros t Hin. by apply not_elem_of_nil in Hin.
Defined.

Definition dereference_none (_ : btree (@Schema (@cr_json model_crates))) (_ : @Schema (@cr_json model_crates)) :
    option (@Schema (@cr_json model_crates)) := None.

Definition item_type : @JsonSchemaType model_crates := mk_json_schema_type "Item" (λ _, (item_schema, [])).

Lemma get_metadata_spec_witness :
  ∃ r, get_metadata dereference_none (λ _, None) (λ _, None) 5 item_type LQuery = Some (Ok r) ∧
    em_extension_mode r = NoExtension ∧
    ∀ p, p ∈ em_parameters r ↔
      ∃ m, Member (dereference_none []) item_schema true m ∧ p = member_parameter LQuery [] m.
Proof.
  eexists. split; [reflexivity|].
  destruct (get_metadata_spec dereference_none (λ _, None) (λ _, None) 5 item_type LQuery item_schema [] _
    eq_refl eq_refl) as (Hm & Hp & _).
  split; [reflexivity|exact Hp].
Defined.

(** ** Documents *)

Definition first_generator : @SchemaGenerator model_crates := tt.
Definition info : Info := mk_info "projects" None None None None "1.0.0".
Definition no_definitions (_ : @SchemaGenerator model_crates) : btree (@Schema (@cr_json model_crates)) := [].
Definition set_order (s : gset string) : list string := elements s.

Definition projects_document (n fuel : nat) : option (panics OpenAPI) :=
  gen_openapi first_generator no_definitions set_order n fuel (mk_description (built api) default_tag_config) info v1.

Lemma api_small : length api < 4 ∧ node_size (root (built api)) ≤ 10.
Proof. split; [simpl; lia|]. apply Nat.leb_le. by vm_compute. Qed.

Lemma string_describable : schema_describable (typed_schema IString).
Proof. by eexists. Qed.

Lemma api_describable e : e ∈ api → endpoint_ok (λ _, False) e.
Proof.
  intros He. split.
  2:{ intros err E. unfold api in He. repeat (apply elem_of_cons in He as [->|He]; [done|]). by apply not_elem_of_nil in He. }
  unfold api in He. repeat (apply elem_of_cons in He as [->|He]; [|]); [..|by apply not_elem_of_nil in He].
  all: constructor; try done; try (by eexists).
  all: repeat constructor; apply string_describable.
Qed.

Lemma gen_openapi_total_witness : ∃ doc, projects_document 4 10 = Some (Ok doc).
Proof.
  apply (gen_openapi_total (λ _, False)) with (eps := api); try exact api_built; try apply api_small; try done.
  - intros e He _ _. by apply api_describable.
  - intros g. constructor.
Defined.

Lemma gen_openapi_spec_witness :
  ∃ result, projects_document 4 10 = Some result ∧
    ∀ doc, result = Ok doc → ∃ m op,
      method_of "GET" = Some m ∧ operation_in (oa_paths doc) "/projects/{id}" m = Some op.
Proof.
  destruct (gen_openapi_spec first_generator no_definitions set_order api (built api) default_tag_config info v1
    4 10 api_built (proj1 api_small) (proj2 api_small)) as (result & Hr & Hdoc).
  exists result. split; [exact Hr|]. intros doc E. destruct (Hdoc doc E) as (_ & _ & _ & Hc).
  apply (Hc get_project); [by right; left|reflexivity..].
Defined.

Definition tagged : ApiEndpoint := with_visible (with_tag list_projects "projects") false.
Definition tagged_items : list (string * string * ApiEndpoint) := [("/projects", "GET", tagged)].
Definition tag_config_model : TagConfig := mk_tag_config true AnyTags [("zones", mk_tag_details None None)].

Lemma gen_tags_spec_witness :
  ∃ doc, gen_document first_generator no_definitions set_order tag_config_model info tagged_items = Ok doc ∧
    StronglySorted str_lt (ot_name <$> oa_tags doc) ∧ mk_otag "projects" None None ∈ oa_tags doc.
Proof.
  destruct (is_ok_inv (gen_document first_generator no_definitions set_order tag_config_model info tagged_items))
    as [doc E]; [by vm_compute|].
  exists doc. split; [exact E|].
  destruct (gen_tags_spec first_generator no_definitions set_order (λ s, reflexivity (elements s)) tag_config_model
    tagged_items doc info E) as [Hs Ht]; [by apply NoDup_singleton|].
  split; [exact Hs|]. apply Ht. right. split; [by intros ?%list_elem_of_singleton|]. split; [reflexivity|].
  exists "/projects", "GET", tagged. split; by left.
Defined.

(** Two error types named [Error] and one named [Error2]. *)
Definition error_type (type_name : string) : ApiEndpointErrorResponse :=
  mk_endpoint_error (Static (typed_schema IString) []) type_name.

Definition no_state : gen_state := mk_gen [] first_generator [] [] ∅.

Lemma error_response_names_collide_witness :
  ∃ st1 r1 st2 r2 st3 r3,
    gen_error_response no_state (error_type "disk::Error") = Ok (st1, r1) ∧
    gen_error_response st1 (error_type "net::Error") = Ok (st2, r2) ∧
    gen_error_response st2 (error_type "Error2") = Ok (st3, r3) ∧
    gen_error_responses [] (gs_errors st3) = Panic "error response names must be unique".
Proof.
  destruct (is_ok_inv (gen_error_response no_state (error_type "disk::Error"))) as [[st1 r1] E1]; [done|].
  destruct (is_ok_inv (gen_error_response st1 (error_type "net::Error"))) as [[st2 r2] E2];
    [by injection E1 as <- <-|].
  destruct (is_ok_inv (gen_error_response st2 (error_type "Error2"))) as [[st3 r3] E3];
    [by injection E1 as <- <-; injection E2 as <- <-|].
  exists st1, r1, st2, r2, st3, r3. do 3 (split; [done|]).
  by apply (error_response_names_collide no_state (error_type "disk::Error") (error_type "net::Error")
    (error_type "Error2") "Error" st1 r1 st2 r2 st3 r3).
Defined.

(** ** WebSockets *)

Definition handshake_headers : HeaderMap :=
  [("connection", "keep-alive, Upgrade"); ("upgrade", "websocket"); ("sec-websocket-version", "13");
   ("sec-websocket-key", "dGhlIHNhbXBsZSBub25jZQ==")].

Definition handshake_request : @Request (@cr_http model_crates) Body :=
  mk_request "GET" "/ws" None handshake_headers empty_body.

Definition ws_context : RequestContext :=
  mk_request_context (mk_server_config 1024 10000 100 Detached [] NoCompression)
    (mk_request_endpoint "ws" [] Json_ None) "id-1" (request_info_new handshake_request "peer").

Lemma handshake_ok : handshake handshake_headers "dGhlIHNhbXBsZSBub25jZQ==".
Proof.
  split; [|split; [|by split]].
  - exists "keep-alive, Upgrade", "keep-alive, Upgrade", "Upgrade". split_and!; [done|done| |done]. by do 2 right; left.
  - exists "websocket", "websocket", "websocket". split_and!; [done|done| |done]. by left.
Qed.

Definition upgraded_later (_ : @Request (@cr_http model_crates) Body) : @OnUpgrade model_websocket := tt.
Definition uri_of (request : @Request (@cr_http model_crates) Body) : string := req_path request.

Definition upgrade : @WebsocketUpgradeInner model_websocket :=
  mk_upgrade tt (derive_accept_key "dGhlIHNhbXBsZSBub25jZQ==") "/ws".

Lemma websocket_from_request_spec_witness :
  websocket_from_request upgraded_later uri_of ws_context handshake_request = Ok (Some upgrade).
Proof.
  apply (websocket_from_request_spec upgraded_later uri_of ws_context handshake_request).
  eexists. split; [exact handshake_ok|reflexivity].
Defined.

Definition builder_text (_ : @Builder (@cr_http model_crates) model_builder) : string := "".

Lemma websocket_accept_spec_witness :
  ∃ rsp, switching_to_result (H := model_crates) builder_text (mk_switching (derive_accept_key "dGhlIHNhbXBsZSBub25jZQ==")) = Ok rsp ∧
    resp_status rsp = status_const 101.
Proof.
  destruct (websocket_accept_spec builder_text upgraded_later uri_of ws_context handshake_request (Some upgrade) eq_refl)
    as (key & sw & rsp & Hk & Hh & Hr & Hs & _).
  injection Hh as <-. by exists rsp.
Defined.
