(* ===== verification/MacroWitnesses.v ===== *)
(** * Witnesses for the macros

    As [Witnesses], for the theorems about [dropshot_endpoint]: small functions and
    a trait, a traversal of types and the parts of versions are the concrete
    instances of what those theorems take as parameters. *)
From S2P Require Import Prelude BTree Externals Versions HttpError Schema ErrorStore MacroSyn MacroDoc ApiEndpoint.
From S2P Require Import MacroMetadata MacroParams MacroEndpoint Router RouterSpec ApiDescription MacroTrait MacroTraitSpec MacroFactory MacroStub MacroParsing.
From S2P Require Import Models Witnesses.

(** ** Errors and documentation *)

(** Two sinks, one below the other, and one beside them. *)
Definition some_ops : list (store_op string) :=
  [OpSink; OpNew 0; OpSink; OpPush 1 "first"; OpNew 0; OpPush 2 "second"].

Lemma error_store_spec_witness :
  ops_valid 0 some_ops ∧
  ∃ hs s, run_ops some_ops [] store_new = Some (Ok (hs, s)) ∧ length hs = length (declared some_ops) ∧
    into_inner s = pushed some_ops ∧
    ∀ k id, hs !! k = Some id →
      ∃ b, has_errors id s = Ok b ∧
        (b = true ↔ ∃ k' e, OpPush k' e ∈ some_ops ∧ above (declared some_ops) k' k).
Proof. split; [simpl; lia|]. apply (error_store_spec some_ops). simpl. lia. Defined.

Definition doc_attr (s : string) : Attribute TokenStream := mk_attribute (Some "doc") (NameValue (Some s)).

Definition project_docs : list (Attribute TokenStream) :=
  [doc_attr ""; doc_attr " Fetch a project"; doc_attr ""; doc_attr " Its name"; doc_attr " is unique."; doc_attr "";
   doc_attr " See also files."].

Lemma from_attrs_spec_witness :
  Forall no_hyphen (doc_lines project_docs) ∧
  match doc_summary (from_attrs project_docs) with
  | None => Forall (λ s, s = "") (doc_lines project_docs) ∧ doc_description (from_attrs project_docs) = None
  | Some s => s ≠ "" ∧ ∃ blanks rest,
      Forall (λ s, s = "") blanks ∧ doc_lines project_docs = blanks ++ s :: rest ∧
      doc_description (from_attrs project_docs) =
        match paragraphs [] rest with [] => None | ps => Some (render_paragraphs ps) end
  end.
Proof.
  assert (Forall no_hyphen (doc_lines project_docs)) as H by (repeat constructor).
  split; [exact H|]. exact (from_attrs_spec project_docs H).
Defined.

(** ** Functions *)

#[export] Instance version_parts : SemVerParts version := {
  ver_parts v := (major v, minor v, patch v);
  ver_pre_empty _ := true;
  ver_build_empty _ := true;
  ver_new := mkv;
}.

#[export] Instance version_parts_laws : SemVerPartsLaws version.
Proof. constructor. by intros [a b c]. Qed.

(** A traversal that visits the identifiers of a path. *)
Definition path_idents (ty : SynType) : list Visit :=
  match ty with TPath _ _ segs => VisitIdent <$> segs.*1 | _ => [] end.

Definition parse_tokens (s : string) : option TokenStream := Some s.

Definition named (i : string) : SynType := TPath None false [(i, PNone)].
Definition applied (i : string) (ty : SynType) : SynType := TPath None false [(i, AngleBracketed [inl ty])].

Definition async_fn (name : string) (args : list SynType) (ret : SynType) : Signature :=
  mk_signature false true DefaultSafety false name [] None (Typed <$> args) false (ReturnTy ret).

Definition get_project_fn : ItemFn :=
  mk_item_fn project_docs "pub"
    (async_fn "get_project" [applied "RequestContext" (named "MyContext"); applied "Path" (named "ProjectPath")]
       (applied "Result" (named "Project"))).

Abbreviation EndpointMd := (@EndpointMetadata version N).

Definition project_metadata : EndpointMd :=
  mk_endpoint_metadata None GET "/projects/{id}" ["projects"] false false None None None
    (Some (RFromUntil (SLiteral v1) (SIdentifier "V2"))).

(** The tokens of its versions. *)
Definition no_path (_ : list Token) : rust Error (TokenStream * list Token) := Err "expected identifier".
Definition ident_path (input : list Token) : rust Error (TokenStream * list Token) :=
  match input with IdentTok i :: input => Ok (i, input) | _ => Err "expected identifier" end.
Definition range_tokens : list Token := [LitStr "1.0.0"; DotDot; IdentTok "V2"].

Definition attr_md (attr : TokenStream) : EndpointMd + Error :=
  if String.eqb attr "project" then inl project_metadata else inr "expected endpoint arguments".

Definition not_a_trait_fn (_ : TokenStream) : TraitItemFn + Error := inr "expected `;`".
Definition project_fn (_ : TokenStream) : ItemFn + Error := inl get_project_fn.

Lemma project_plain md : attr_md "project" = inl md → range_plain (default RAll (md_versions md)).
Proof. by intros [= <-]. Qed.

Lemma do_endpoint_spec_witness :
  ∃ out, do_endpoint path_idents parse_tokens not_a_trait_fn project_fn attr_md "project" "fn" = Some (Ok (out, [])).
Proof.
  destruct (do_endpoint_spec path_idents parse_tokens not_a_trait_fn project_fn attr_md "project" "fn" project_plain)
    as (out & errs & E & [_ Hacc] & _).
  exists out. rewrite E, Hacc; [reflexivity|]. exists project_metadata, get_project_fn. constructor; try reflexivity.
  - constructor; done.
  - do 3 eexists. constructor; [|by exists [Typed (applied "Path" (named "ProjectPath"))]|reflexivity| |].
    + constructor; try reflexivity. by left.
    + right. eexists. split; [reflexivity|]. by repeat constructor.
    + by repeat constructor.
Defined.

Definition chat_params : ChannelParams :=
  mk_channel_params "dropshot" (RqctxFunction (named "RequestContext")) [named "Query"] (named "WebsocketConnection")
    (named "WebsocketChannelResult") "chat_adapter" (TOther "dropshot::WebsocketUpgrade")
    (TOther "dropshot::WebsocketEndpointResult").

Lemma adapter_call_spec_witness :
  adapter_call (to_adapter_fn chat_params "chat") ["rqctx"; "query"; "upgrade"] "connection" =
    Some ("upgrade", ["rqctx"; "query"; "connection"]).
Proof. exact (adapter_call_spec chat_params "chat" ["rqctx"; "query"] "upgrade" "connection" eq_refl). Defined.

(** ** Building the endpoint *)

Definition project_extractors (_ : ApiEndpointBodyContentType) : list (panics (@ExtractorMetadata model_crates)) :=
  [Ok (mk_extractor_metadata NoExtension [string_param "id"])].

Definition model_target (k : ApiEndpointKind) : @EndpointFn model_crates :=
  mk_endpoint_fn match k with Regular f => "handler of " +:+ f | Stub _ _ => "stub" end
    project_extractors no_response None.

Definition constant_version (p : TokenStream) : version := if String.eqb p "V2" then v2 else v1.

Lemma macro_endpoint_spec_witness :
  ∃ v s', endpoint_validate project_metadata "get_project" FunctionMacro 0 (store_sink store_new).2 = Some (Ok (Some v, s')) ∧
  ∃ x, to_api_endpoint_fn v "dropshot" "get_project" (Regular "get_project") (from_attrs project_docs) = Ok x ∧
    eval_endpoint model_target constant_version id x =
      Ok (mk_endpoint "get_project" "handler of get_project" "GET" "/projects/{id}" [string_param "id"] Json_ None no_response
        None (Some "Fetch a project")
        (Some ("Its name is unique." +:+ paragraph_break +:+ "See also files.")) ["projects"] NoExtension true false
        (FromUntil (mk_pair v1 v2))).
Proof.
  do 2 eexists. split; [reflexivity|].
  exact (macro_endpoint_spec model_target constant_version id project_metadata "get_project" FunctionMacro 0 _ (store_sink store_new).2 _
    ident_path range_tokens [] "dropshot" (Regular "get_project") (from_attrs project_docs) _
    eq_refl eq_refl eq_refl eq_refl).
Defined.

(** ** A trait *)

Definition endpoint_attr (tokens : TokenStream) : Attribute TokenStream := mk_attribute (Some "endpoint") (MetaList tokens).

Definition get_project_method : TraitItemFn :=
  mk_trait_fn (project_docs ++ [endpoint_attr "project"])
    (async_fn "get_project" [applied "RequestContext" (plain_path ["Self"; "Context"]); applied "Path" (named "ProjectPath")]
       (applied "Result" (named "Project"))) None.

Definition helper_method : TraitItemFn := mk_trait_fn [] (async_fn "helper" [] (named "Name")) (Some "{ }").

Definition project_trait : ItemTrait :=
  mk_item_trait [] (VisRestricted "pub(crate)") false false "ProjectApi" [] None []
    [TItemFn helper_method; TItemOther (ItemType (mk_item_type "Context" [] [] [])); TItemFn get_project_method].

Definition no_channel (_ : TokenStream) : @ChannelMetadata version + Error := inr "expected channel arguments".
Definition no_arguments (_ : TokenStream) : ApiMetadata + Error := inl (mk_api_metadata None None None None).
Definition project_trait_parser (_ : TokenStream) : ItemTrait + Error := inl project_trait.

Lemma attributes_parsed : versions_parsed attr_md no_channel.
Proof.
  split; [|done]. intros tokens m. unfold attr_md. destruct (String.eqb tokens "project"); [|done]. by intros [= <-].
Qed.

Lemma project_trait_parsed tr : project_trait_parser "trait" = inl tr → Forall other_than_fn (tr_items tr).
Proof. intros [= <-]. repeat constructor. Qed.

Lemma get_project_ok : endpoint_method_ok path_idents attr_md "ProjectApi" "Context" get_project_method (endpoint_attr "project").
Proof.
  exists "project", project_metadata. split_and!; [reflexivity|reflexivity|by constructor|].
  do 3 eexists. constructor; [|by exists [Typed (applied "Path" (named "ProjectPath"))]|reflexivity| |].
  - constructor; try reflexivity. by left.
  - eexists. split; [reflexivity|]. by left.
  - by repeat constructor.
Qed.

Lemma project_trait_accepted :
  trait_accepted path_idents attr_md no_channel (mk_api_metadata None None None None) project_trait (mk_item_type "Context" [] [] []).
Proof.
  constructor; [|reflexivity..|].
  - constructor; try reflexivity. by left.
  - apply Forall_cons. split; [exact I|]. apply Forall_cons. split; [constructor|]. apply Forall_cons.
    split; [exact get_project_ok|constructor].
Qed.

Lemma do_trait_spec_witness :
  ∃ out, do_trait path_idents attr_md no_channel parse_tokens to_ascii_lowercase no_arguments project_trait_parser "" "trait" =
    Some (Ok (Some out, [])) ∧ (tr_items out.1 = [TItemOther (ItemType (mk_item_type "Context" [] [] ["dropshot::ServerContext"]));
      TItemFn helper_method; TItemFn (transform_signature get_project_method (applied "Result" (named "Project")))]).
Proof.
  destruct (do_trait_spec path_idents attr_md no_channel parse_tokens to_ascii_lowercase no_arguments project_trait_parser
    "" "trait" attributes_parsed project_trait_parsed) as (out & errs & E & [_ Herr] & Hout).
  destruct (Hout _ _ _ eq_refl eq_refl project_trait_accepted) as (stubs & regs & _ & _ & ->).
  rewrite Herr in E; [|by do 3 eexists; split_and!; [..|exact project_trait_accepted]].
  eexists. split; [exact E|]. reflexivity.
Defined.

(** ** The generated functions *)

Definition project_registration : Registration (Expr := N) :=
  match to_api_endpoint_fn (validated project_metadata) "dropshot" "get_project"
    (Regular (server_impl_path "ProjectApi" "get_project")) (from_attrs (tf_attrs get_project_method)) with
  | Ok x => mk_registration None x
  | _ => mk_registration None (mk_expr "" (Regular "") "" "" "" "" VersionsAll [])
  end.

Definition registered_project : ApiEndpoint :=
  mk_endpoint "get_project" "handler of <ServerImpl as ProjectApi>::get_project" "GET" "/projects/{id}" [string_param "id"]
    Json_ None no_response None (Some "Fetch a project")
    (Some ("Its name is unique." +:+ paragraph_break +:+ "See also files.")) ["projects"] NoExtension true false
    (FromUntil (mk_pair v1 v2)).

Lemma project_builds :
  Forall2 (builds model_target constant_version id) (concat [[]; []; [project_registration]]) [registered_project].
Proof. repeat constructor. Qed.

Definition any_policy (_ : TokenStream) : EndpointTagPolicy := AnyTags.

Definition project_factory : option (rust ApiDescriptionBuildErrors ApiDescription) :=
  run_factory 10 model_target constant_version id any_policy (FactoryRegister None (concat [[]; []; [project_registration]])).

Definition project_api : ApiDescription :=
  match project_factory with Some (Ok api) => api | _ => description_new end.

Lemma project_factory_ok :
  run_factory 10 model_target constant_version id any_policy (FactoryRegister None (concat [[]; []; [project_registration]])) =
    Some (Ok project_api).
Proof.
  unfold project_api, project_factory. set (r := run_factory _ _ _ _ _ _).
  assert (match r with Some r => is_ok r | None => false end = true) as H by (by vm_compute).
  clearbody r. by destruct r as [[]|].
Qed.

Lemma run_factory_spec_witness :
  register_all 10 (initial_description any_policy None) [registered_project] = Some (Ok project_api).
Proof.
  apply (proj1 (run_factory_spec 10 model_target constant_version id any_policy None (concat [[]; []; [project_registration]])
    [registered_project] project_builds)). exact project_factory_ok.
Defined.

Lemma project_registrations :
  Forall2 (MacroTraitSpec.registered attr_md no_channel "dropshot" "ProjectApi" "Context" RegularFactory) (tr_items project_trait)
    [[]; []; [project_registration]].
Proof.
  repeat constructor. exists "project", project_metadata. do 2 eexists. split_and!; reflexivity.
Qed.

Lemma trait_method_registered_witness :
  ∃ eps p fm, build eps = Ok (router project_api) ∧
    endpoint_params_value "dropshot" (tf_sig get_project_method) (KindTrait "ProjectApi" "Context") = Some p ∧
    described_endpoint model_target constant_version id (validated project_metadata) "get_project"
      (Regular (server_impl_path "ProjectApi" "get_project")) (from_attrs (tf_attrs get_project_method)) fm ∈ eps.
Proof.
  exact (trait_method_registered 10 model_target constant_version id any_policy attr_md no_channel "dropshot" "ProjectApi"
    "Context" RegularFactory (tr_items project_trait) _ None project_api get_project_method (endpoint_attr "project") "project"
    project_metadata attributes_parsed project_registrations project_factory_ok
    (list_elem_of_further _ _ _ (list_elem_of_further _ _ _ (list_elem_of_here _ _))) eq_refl eq_refl eq_refl).
Defined.

(** ** A small grammar

    An instance of the crate with a few forms of each kind: the laws of
    [MacroParsing] hold of it. *)
Record toy_signature := mk_toy_signature {
  ts_const : bool; ts_async : bool; ts_unsafe : bool; ts_extern : bool; ts_name : string;
}.

Definition toy_meta (ts : Tokens) : string * Tokens + string :=
  match ts with TIdent m :: rest => inl (m, rest) | _ => inr "expected a path" end.

Fixpoint toy_outer (ts : Tokens) : list (bool * string) * Tokens + string :=
  match ts with
  | TPunct c :: rest =>
      if Ascii.eqb c "#"%char then
        match rest with
        | TGroup Bracket [TIdent m] :: rest =>
            match toy_outer rest with inl (l, rest) => inl ((false, m) :: l, rest) | inr e => inr e end
        | _ => inr "expected an attribute"
        end
      else inl ([], ts)
  | _ => inl ([], ts)
  end.

Definition toy_opt_ident (k : string) (ts : Tokens) : bool * Tokens + string := inl (opt_ident k ts).

Definition toy_parse_signature (ts : Tokens) : toy_signature * Tokens + string :=
  let '(c, ts) := opt_ident "const" ts in
  let '(a, ts) := opt_ident "async" ts in
  let '(u, ts) := opt_ident "unsafe" ts in
  let '(e, ts) := opt_ident "extern" ts in
  match ts with
  | TIdent f :: TIdent name :: TGroup Parenthesis [] :: rest =>
      if String.eqb f "fn" then inl (mk_toy_signature c a u e name, rest) else inr "expected `fn`"
  | _ => inr "expected `fn`"
  end.

Definition toy_print_signature (s : toy_signature) : Tokens :=
  keyword (ts_const s) "const" ++ keyword (ts_async s) "async" ++ keyword (ts_unsafe s) "unsafe" ++
  keyword (ts_extern s) "extern" ++ [TIdent "fn"; TIdent (ts_name s); TGroup Parenthesis []].

Definition toy_option (b : bool) : option () := if b then Some () else None.
Definition toy_bool {A} (o : option A) : bool := match o with Some _ => true | None => false end.

Definition toy_optional (k : string) (ts : Tokens) : option () * Tokens + string :=
  let '(b, ts) := opt_ident k ts in inl (toy_option b, ts).

#[export] Instance toy_syn : SynCrate := {
  Meta := string; Visibility := bool; SynSignature := toy_signature; Abi := ();
  Generics := bool; WhereClause := (); TypeParamBound := string; SynTraitItem := string;
  item_is_fn _ := false;
  vis_inherited := false;
  vis_is_inherited := negb;
  accept_as_ident _ := true;
  parse_meta := toy_meta;
  parse_outer := toy_outer;
  parse_visibility := toy_opt_ident "pub";
  parse_signature := toy_parse_signature;
  parse_abi := toy_optional "extern";
  parse_generics ts := inl (match ts with TPunct "<"%char :: TPunct ">"%char :: rest => (true, rest) | _ => (false, ts) end);
  parse_where := toy_optional "where";
  parse_bound ts := match ts with TLiteral b :: rest => inl (b, rest) | _ => inr "expected a bound" end;
  parse_trait_item ts :=
    match ts with
    | TIdent "type" :: TLiteral i :: TPunct ";"%char :: rest => inl (i, rest)
    | _ => inr "expected an item"
    end;
  print_meta m := [TIdent m];
  print_attr '(b, m) := TPunct "#"%char :: (if b : bool then [TPunct "!"%char] else []) ++ [TGroup Bracket [TIdent m]];
  print_visibility b := keyword b "pub";
  print_signature := toy_print_signature;
  print_abi o := keyword (toy_bool o) "extern";
  print_generics b := if b : bool then [TPunct "<"%char; TPunct ">"%char] else [];
  print_where w := keyword (toy_bool w) "where";
  print_bound b := [TLiteral b];
  print_trait_item i := [TIdent "type"; TLiteral i; TPunct ";"%char];
}.

Lemma toy_optional_keyword k o ts :
  peek_ident k ts = false → toy_optional k (keyword (toy_bool o) k ++ ts) = inl (o, ts).
Proof. intros Hk. unfold toy_optional. rewrite MacroParsing.opt_keyword by done. by destruct o as [[]|]. Qed.

Lemma toy_outer_print l rest :
  Forall (λ a : bool * string, a.1 = false) l → peek_punct "#"%char rest = false →
  toy_outer ((l ≫= print_attr) ++ rest) = inl (l, rest).
Proof.
  intros Hl Hr. induction Hl as [|[b m] l Hb Hl IH].
  - destruct rest as [|[] rest]; try done. simpl in *. by rewrite Hr.
  - simpl in Hb. subst b. rewrite bind_cons, <-app_assoc. cbn. cbn in IH. by rewrite IH.
Qed.

#[export] Instance toy_laws : SynLaws.
Proof.
  split; try done.
  - exact toy_outer_print.
  - intros []; [right; by exists []|by left].
  - intros v i rest Hi. cbn. unfold toy_opt_ident. rewrite MacroParsing.opt_keyword; [done|by apply peek_ident_other].
  - intros []; cbn; naive_solver.
  - intros [[]|]; [right; by exists []|by left].
  - intros o rest. cbn. by apply toy_optional_keyword.
  - intros [c a u e n]. exists c, a, u, (toy_option e), [TIdent n; TGroup Parenthesis []]. cbn. by destruct e.
  - intros [c a u e n] rest _. by destruct c, a, u, e.
  - intros [] rest Hr; [done|]. cbn. destruct rest as [|[| |c|] rest]; try done. cbn in Hr.
    rewrite !orb_false_r in Hr. by apply Ascii.eqb_eq in Hr as ->.
  - intros [[]|]; [right; by exists []|by left].
  - intros w rest Hr. cbn. apply toy_optional_keyword. by destruct rest as [|[[]| | |] rest].
  - intros b. by exists (TLiteral b), [].
  - intros i rest _. by exists [], (print_trait_item i ++ rest), false, (print_trait_item i ++ rest).
Qed.

Lemma toy_outer_rest n ts l rest : length ts ≤ n → toy_outer ts = inl (l, rest) → length rest ≤ length ts.
Proof.
  revert ts l rest. induction n as [|n IH]; intros ts l rest Hn.
  - destruct ts; [|simpl in Hn; lia]. by intros [= <- <-].
  - destruct ts as [|[| |c|] ts]; try (intros [= <- <-]; done). cbn [toy_outer].
    destruct (Ascii.eqb c "#"); [|by intros [= <- <-]].
    destruct ts as [|[[] [|[|m| |] [|]]| | |] ts]; try done.
    destruct (toy_outer ts) as [[l' rest']|] eqn:E; [|done]. intros [= <- <-].
    apply IH in E; simpl in *; lia.
Qed.

Lemma toy_parse_signature_rest ts s rest : toy_parse_signature ts = inl (s, rest) → length rest ≤ length ts.
Proof.
  unfold toy_parse_signature.
  pose proof (opt_ident_rest "const" ts) as H1. destruct (opt_ident "const" ts) as [c t1].
  pose proof (opt_ident_rest "async" t1) as H2. destruct (opt_ident "async" t1) as [a t2].
  pose proof (opt_ident_rest "unsafe" t2) as H3. destruct (opt_ident "unsafe" t2) as [u t3].
  pose proof (opt_ident_rest "extern" t3) as H4. destruct (opt_ident "extern" t3) as [e t4].
  destruct t4 as [|[|f| |] [|[|nm| |] [|[[] [|]| | |] t4]]]; try done. destruct (String.eqb f "fn"); [|done].
  intros [= _ <-]. simpl in *. lia.
Qed.

#[export] Instance toy_consumes : SynConsumes.
Proof.
  split.
  - intros ts a rest. by apply (toy_outer_rest (length ts)).
  - intros ts a rest [= E]. pose proof (opt_ident_rest "pub" ts) as Hr. by rewrite E in Hr.
  - exact toy_parse_signature_rest.
  - intros [|[] ts] a rest; try done. intros [= _ <-]. simpl. lia.
  - intros ts a rest. cbn. repeat case_match; try done. intros [= _ <-]. simpl. lia.
Qed.

Definition toy_trait : ItemTraitPartParsed :=
  mk_part_trait [(true, "cfg"); (false, "doc")] true false false "Api" true (Some ()) true ["Send"; "Sync"] true
    [PartOther "Context";
     PartFn (mk_part_fn [(false, "endpoint"); (true, "allow")] (mk_toy_signature false true false false "get")
       (Some [TIdent "bug"; TPunct "?"%char]) false)].

(** The outer attribute comes first, and the one inside of the function is gone. *)
Lemma trait_roundtrip_witness :
  parse2 parse_item_trait (print_item_trait toy_trait) =
    Ok (mk_part_trait [(false, "doc"); (true, "cfg")] true false false "Api" true (Some ()) true ["Send"; "Sync"] true
      [PartOther "Context";
       PartFn (mk_part_fn [(false, "endpoint")] (mk_toy_signature false true false false "get")
         (Some [TIdent "bug"; TPunct "?"%char]) false)]) ∧
  no_panic (parse2 parse_item_trait [TIdent "trait"]).
Proof.
  split.
  - apply (proj1 (trait_roundtrip toy_trait [])). split; [reflexivity|]. repeat constructor.
  - exact (proj2 (trait_roundtrip toy_trait [TIdent "trait"])).
Defined.

(** ** The stub *)

Lemma model_target_same k k' : same_types model_target k k'.
Proof. by split. Qed.

Definition no_generator : @SchemaGenerator model_crates := tt.

Lemma stub_has_same_documents_witness :
  ∃ attrs vis name checks stub_api api,
    make_module (parser_of path_idents attr_md no_channel parse_tokens to_ascii_lowercase
      (mk_api_metadata None None None None) project_trait) = Ok (Support attrs vis name checks stub_api api) ∧
    same_documents no_generator (λ _, []) elements
      (run_factory 10 model_target constant_version id any_policy (ff_body stub_api))
      (run_factory 10 model_target constant_version id any_policy (ff_body api)).
Proof.
  destruct (make_module_accepted path_idents attr_md no_channel parse_tokens to_ascii_lowercase
    (mk_api_metadata None None None None) project_trait _ attributes_parsed project_trait_accepted) as (stubs & regs & _ & _ & E).
  do 6 eexists. split; [exact E|].
  apply (stub_has_same_documents 10 model_target constant_version id any_policy no_generator (λ _, []) elements _ _ _ _ _ _ _ E).
  intros i k k' _ _. exact (model_target_same k k').
Defined.
