(* ===== verification/ClientWitnesses.v ===== *)
(** * Witnesses for the test client

    The theorems of [TestClientSpec] at the server of [Witnesses], whose
    responses are delivered with a date, and at a small paginated collection. *)
From S2P Require Import Prelude BTree Externals StatusCodes Body HttpError Config Pagination Handler Server TestClient TestClientSpec.
From S2P Require Import Models Witnesses.

(** Every date is the time 0, and so is the clock. *)
Definition date_zero (s : string) : option Z := Some 0%Z.
Definition clock (w : nat) : Z := 0%Z.

Definition with_date (r : @Response (@cr_http model_crates) Body) : @Response (@cr_http model_crates) Body :=
  mk_response (resp_status r) (resp_headers r ++ [("date", "Thu, 01 Jan 1970 00:00:00 GMT")]) (resp_no_compression r)
    (resp_body r).

Lemma get_all_app (h1 h2 : @HeaderMap (@cr_http model_crates)) n :
  hm_get_all (h1 ++ h2 : HeaderMap) n = hm_get_all h1 n ++ hm_get_all h2 n.
Proof. exact (eq_trans (f_equal (fmap snd) (filter_app (λ p : string * string, p.1 = n) h1 h2)) (fmap_app _ _ _)). Qed.

Lemma get_all_one n v m :
  hm_get_all ([(n, v)] : @HeaderMap (@cr_http model_crates)) m = if String.eqb n m then [v] else [].
Proof.
  transitivity (snd <$> filter (λ p : string * string, p.1 = m) [(n, v)]); [done|].
  rewrite filter_cons. destruct (String.eqb_spec n m), (decide ((n, v).1 = m)); done.
Qed.

Lemma with_date_delivers (r : @Response (@cr_http model_crates) Body) :
  hm_get_all (resp_headers r) DATE = [] → delivers date_zero 0 0 r (with_date r).
Proof.
  intros Hd. split; [done|done| | |].
  - intros n v [Hin|Hin]%elem_of_app; [by left|]. apply list_elem_of_singleton in Hin as [= -> ->]. by right; left.
  - intros n Hn. cbn [with_date resp_headers]. rewrite get_all_app.
    destruct (decide (n = DATE)) as [->|Hne]; [by rewrite Hd in Hn|].
    rewrite get_all_one. destruct (String.eqb_spec "date" n) as [<-|]; [by destruct Hne|by rewrite app_nil_r].
  - intros _. eexists _, _, 0%Z. cbn [with_date resp_headers]. unfold hm_get. rewrite get_all_app, Hd.
    split_and!; try reflexivity; lia.
Qed.

(** ** An error of the server *)

Definition lost_request : @Request (@cr_http model_crates) Body := mk_request "GET" "/nowhere" None hm_new empty_body.

Definition answer_lost : @Response (@cr_http model_crates) Body :=
  match http_request_handle_wrap print_body gzip_id run_handler_model server lost_request "id-1" "::1" with
  | Ok r => r
  | _ => mk_response (status_const 200) hm_new false empty_body
  end.

Definition lost_error : HttpError :=
  match http_request_handle gzip_id run_handler_model server lost_request "id-1" "::1" with
  | Err (Dropshot e) => e
  | _ => not_found
  end.

Lemma lost_visible : visible_id "id-1".
Proof. intros [|[|[|[|i]]]] c [= <-]; vm_compute; lia. Qed.

Lemma lost_handled :
  http_request_handle gzip_id run_handler_model server lost_request "id-1" "::1" = Err (Dropshot lost_error).
Proof.
  assert (match http_request_handle gzip_id run_handler_model server lost_request "id-1" "::1" with
          | Err (Dropshot _) => true | _ => false end = true) as Ht by (by vm_compute).
  revert Ht. unfold lost_error. by destruct (http_request_handle gzip_id run_handler_model server lost_request "id-1" "::1") as [|[]|].
Qed.

Lemma lost_answered :
  http_request_handle_wrap print_body gzip_id run_handler_model server lost_request "id-1" "::1" = Ok answer_lost.
Proof.
  assert (is_ok (http_request_handle_wrap print_body gzip_id run_handler_model server lost_request "id-1" "::1") = true)
    as Ht by (by vm_compute).
  revert Ht. unfold answer_lost.
  by destruct (http_request_handle_wrap print_body gzip_id run_handler_model server lost_request "id-1" "::1") as [|[]|].
Qed.

Lemma server_error_received_witness :
  make_request_with_request (λ w _, (S w, Some (with_date answer_lost))) clock date_zero
    (λ text, Some (mk_error_body "id-1" None text)) lost_request (error_status (status_code lost_error)) 0 =
  Ok (inr (mk_error_body "id-1" (error_code lost_error) (external_message lost_error)), 1).
Proof.
  refine (proj1 (server_error_received print_body gzip_id run_handler_model (λ w _, (S w, Some (with_date answer_lost)))
    clock date_zero (λ text, Some (mk_error_body "id-1" None text)) server lost_request "id-1" "::1" lost_error
    answer_lost (with_date answer_lost) 0 1 lost_handled lost_answered eq_refl _ _ lost_visible _) _).
  - apply with_date_delivers. by vm_compute.
  - intros b text [= <-]. by vm_compute.
  - apply error_constant_wf. lia.
  - intros n v Hv. exfalso. revert Hv. by apply not_elem_of_nil.
Defined.

(** ** A collection of three items *)

(** Items are their own selectors, and a token is the base64 text of one. *)
Definition token_to_vec (t : SerializedToken string) : string + string := inl (tok_page_start t).
Definition token_from_slice (s : string) : SerializedToken string + string := inl (mk_token V1 s).

Definition letters : list string := ["a"; "b"; "c"].
Definition own_selector (x : string) (_ : ()) : string := x.

(** A page as its token, if there is one, and its items. *)
Definition show_page (p : ResultsPage string) : string := join "," (default "" (rp_next_page p) :: rp_items p).
Definition read_page (s : string) : option (ResultsPage string) :=
  match split_on ","%char s with
  | next :: items => Some (mk_results_page (if is_empty_str next then None else Some next) items)
  | [] => None
  end.

Fixpoint after (s : string) (l : list string) : list string :=
  match l with [] => [] | x :: l => if String.eqb x s then l else after s l end.

(** The server: the items after the token's, or the first ones. *)
Definition list_letters (path : string) : rust HttpError (ResultsPage string) :=
  let prefix := next_page_url "/letters" "" 2 in
  let rest := if starts_with prefix path
              then match deserialize_page_token token_from_slice (drop_prefix_len prefix path) with
                   | Ok s => after s letters
                   | _ => []
                   end
              else letters in
  results_page_new token_to_vec (take 2 rest) () own_selector.

Definition page_headers : @HeaderMap (@cr_http model_crates) :=
  [("content-type", "application/json"); ("x-request-id", "id-1")].

Definition send_letters (w : nat) (request : @Request (@cr_http model_crates) Body) :
    nat * option (@Response (@cr_http model_crates) Body) :=
  (S w, match list_letters (req_path request) with
        | Ok page => Some (with_date (mk_response (status_const 200) page_headers false (with_content (show_page page))))
        | _ => None
        end).

Definition whole_path (s : string) : option (string * option string) := Some (s, None).

Lemma letters_answer path page :
  list_letters path = Ok page → read_page (show_page page) = Some page →
  answers_page send_letters clock date_zero whole_path read_page path page.
Proof.
  intros Hp Hr w. exists path, None, (S w).
  exists (with_date (mk_response (status_const 200) page_headers false
    (with_content (show_page page)))), "id-1", "application/json", (show_page page).
  split_and!; try done; [unfold send_letters; cbn [req_path]; by rewrite Hp| |by apply read_bytes_content].
  split; [done| | |by exists "id-1"|].
  - intros n v Hin. cbn [with_date resp_headers] in Hin.
    repeat (apply elem_of_cons in Hin as [[= -> ->]|Hin]; [by apply allowed_name|]). by apply not_elem_of_nil in Hin.
  - eexists _, _, 0%Z. split_and!; try reflexivity; vm_compute; discriminate.
  - intros E. apply status_const_inj in E; lia.
Qed.

Lemma letters_token token s : deserialize_page_token token_from_slice token = Ok s →
  list_letters (next_page_url "/letters" token 2) = results_page_new token_to_vec (take 2 (after s letters)) () own_selector.
Proof.
  intros Ht. unfold list_letters.
  assert (starts_with (next_page_url "/letters" "" 2) (next_page_url "/letters" token 2) = true) as Hs.
  { change (String.prefix "" token = true). by destruct token. }
  rewrite Hs. apply prefix_split in Hs.
  change (next_page_url "/letters" token 2) with (next_page_url "/letters" "" 2 +:+ token) in Hs at 1.
  apply (inj (String.append (next_page_url "/letters" "" 2))) in Hs. by rewrite <-Hs, Ht.
Qed.

Definition letters_page (rest : list string) : ResultsPage string :=
  match results_page_new token_to_vec (take 2 rest) () own_selector with Ok p => p | _ => mk_results_page None [] end.

Lemma letters_page_ok rest page : results_page_new token_to_vec (take 2 rest) () own_selector = Ok page → page = letters_page rest.
Proof. unfold letters_page. by intros ->. Qed.

Lemma letters_split pre x rest : letters = pre ++ x :: rest → rest = after x letters ∧ rest ∈ [["b"; "c"]; ["c"]; []].
Proof.
  destruct pre as [|a [|b [|c pre]]]; intros Hit; injection Hit as; subst; [| | |by destruct pre].
  - split; [done|left].
  - split; [done|right; left].
  - split; [done|right; right; left].
Qed.

Lemma letters_paginate :
  paginates send_letters clock date_zero whole_path read_page token_to_vec token_from_slice letters () own_selector 2 "/letters" "".
Proof.
  split.
  - intros page Hp. apply letters_answer; [exact Hp|]. apply (letters_page_ok letters) in Hp as ->. by vm_compute.
  - intros token pre x rest page [Hrest Hin]%letters_split Ht Hp. apply letters_token in Ht.
    apply letters_answer; [rewrite Ht; rewrite Hrest in Hp; exact Hp|]. apply letters_page_ok in Hp as ->. clear Hrest Ht.
    repeat (apply elem_of_cons in Hin as [->|Hin]; [by vm_compute|]). by apply not_elem_of_nil in Hin.
  - intros x Hx. exists (b64_encode x). apply (proj2 (serialize_ok token_to_vec _ _)). exists x. split; [done|]. split; [done|].
    assert (Forall (λ y, String.length y = 1) letters) as Hl by by repeat constructor.
    rewrite Forall_forall in Hl. unfold own_selector. rewrite (Hl x Hx). lia.
Qed.

Lemma iter_collection_spec_witness :
  ∃ w', iter_collection send_letters clock date_zero whole_path (λ _, None) read_page 3 "/letters" "" 2 0 =
    Some (Ok (letters, 3, w')).
Proof.
  refine (iter_collection_spec send_letters clock date_zero whole_path (λ _, None) read_page token_to_vec token_from_slice
    letters () own_selector 2 _ "/letters" "" 0 3 letters_paginate _ _).
  - intros s json [= <-]. reflexivity.
  - lia.
  - simpl. lia.
Defined.
