(* ===== verification/ServerWitnesses.v ===== *)
(** * Witnesses for the server

    A file system with two files, a [rustls] whose configurations are the names of
    a certificate and a key that go together, and a network where one port is
    taken; and the theorems on accepting connections and building servers there. *)
From S2P Require Import Prelude BTree Externals Versions StatusCodes Body HttpError Config Schema TypeUtil ApiEndpoint.
From S2P Require Import Router RouterSpec RouterLookup Versioning Compression Handler ApiDescription Server Tls Acceptor ServerStart.
From S2P Require Import Tracing Models Witnesses.

(** A reader is the list of its lines; a line that is empty does not parse. *)
Definition model_lines (s : string) : list string := if String.eqb s "" then [] else [s].

Definition model_section (s : string) : string + string := if String.eqb s "?" then inr "bad section" else inl s.

#[export] Instance model_tls : TlsCrate := {
  TlsConfig := string * list string; CertificateDer := string; PrivateKeyDer := string; BufReader := list string;
  reader_new := model_lines;
  file_open path := if String.eqb path "cert.pem" then inl ["alpha"; "beta"]
    else if String.eqb path "key.pem" then inl ["alpha"] else inr (mk_io_error (OtherKind "not found") "No such file or directory");
  certs_iter r := model_section <$> r;
  keys_iter r := model_section <$> r;
  with_single_cert certs key := if bool_decide (head certs = Some key) then inl (key, []) else inr "keys may not be consistent";
  set_alpn_protocols l c := (c.1, l);
}.

#[export] Instance model_net : TcpNet := {
  SocketAddr := string; TcpListener := string;
  addr_parse := Some; addr_to_string := id;
  tcp_bind a := if String.eqb a "127.0.0.1:80" then inr (mk_io_error (OtherKind "in use") "Address in use") else inl a;
  tcp_set_nonblocking := inl; tcp_from_std := inl; tcp_local_addr := inl;
}.

(** A client negotiates with the configuration it expects. *)
Definition model_accept (config : TlsConfig) (socket : string) : string + IoError :=
  if String.eqb (fst (config : string * list string)) socket then inl ("tls " +:+ socket) else inr (mk_io_error (OtherKind "alert") "bad certificate").

Definition cfg (name : string) : TlsConfig := (name, ["h2"; "http/1.1"]).

Definition model_events : list (event (H := model_tls) (TcpStream := string) (SocketAddr := string)) :=
  [AcceptEnds (inl ("alpha", "::1")); Locked; AcceptEnds (inr (mk_io_error ConnectionReset "reset"));
   AcceptEnds (inl ("alpha", "::2")); Refresh (AsBytes "beta" "beta"); Locked; NegotiationEnds 1; NegotiationEnds 0;
   AcceptEnds (inr (mk_io_error (OtherKind "EMFILE") "Too many open files")); SleepEnds; AcceptEnds (inl ("beta", "::3"))].

Definition model_task : accept_task :=
  default (accept_task_new None) (run model_accept (accept_task_new (Some (cfg "alpha"))) model_events).

Lemma model_run : run model_accept (accept_task_new (Some (cfg "alpha"))) model_events = Some model_task.
Proof. vm_compute. reflexivity. Qed.

(** The second client waits for the lock while the configuration is replaced. *)
Lemma accept_task_spec_witness :
  tt_phase model_task = Accepting ∧
  ∃ ended pending waiting,
    [mk_negotiation (cfg "alpha") "alpha" "::1"; mk_negotiation (cfg "beta") "alpha" "::2"] ≡ₚ ended ++ pending ∧
    tt_connections model_task = omap (negotiated model_accept) ended ∧
    tt_acceptor model_task = HttpsAcceptor (mk_stream pending waiting) ∧ tt_config model_task = Some (cfg "beta").
Proof.
  destruct (accept_task_spec model_accept (Some (cfg "alpha")) model_events model_task model_run)
    as (Hp & ended & pending & waiting & Hn & _ & Hc & _ & Hs).
  split; [reflexivity|]. exists ended, pending, waiting. destruct (Hs eq_refl) as [Ha Hcfg].
  split; [exact Hn|]. split; [exact Hc|]. split; [exact Ha|exact Hcfg].
Defined.

Lemma model_config : tt_config model_task = Some (cfg "beta").
Proof. vm_compute. reflexivity. Qed.

Lemma connection_served_witness :
  ∃ es t', run model_accept model_task es = Some t' ∧
    last (tt_connections t') = Some (OverTls (tls_conn_new "tls beta" "::9")).
Proof.
  destruct (connection_served model_accept (Some (cfg "alpha")) model_events model_task "beta" "::9" model_run eq_refl)
    as (es & t' & Hr & _ & Hl).
  - intros config. rewrite model_config. intros [= <-]. exists "tls beta". reflexivity.
  - exists es, t'. split; [exact Hr|]. rewrite model_config in Hl. destruct Hl as (stream & [= <-] & Hl). exact Hl.
Defined.

(** ** Building *)

Definition builder_with (address : string) (tls : option ConfigTls) : ServerBuilder (C := unit) :=
  mk_server_builder () registered (mk_config address 1024 Detached [] NoCompression) Unversioned tls.

Lemma get_project_versioned : ∃ e, e ∈ api ∧ versions e ≠ All.
Proof. exists get_project. split; [by right; left|discriminate]. Qed.

(** The API has endpoints for some versions only, but what is wrong with the
    socket or with the files is found first. *)
Lemma build_starter_spec_witness :
  build_starter (builder_with "127.0.0.1:0" (Some (AsFile "cert.pem" "key.pem"))) = Err UnversionedServerHasVersionedRoutes ∧
  build_starter (builder_with "127.0.0.1:0" (Some (AsFile "cert.pem" "other.pem"))) =
    Err (SystemError "opening other.pem" (mk_io_error (OtherKind "not found") "No such file or directory")) ∧
  build_starter (builder_with "127.0.0.1:80" None) =
    Err (BindError "127.0.0.1:80" (mk_io_error (OtherKind "in use") "Address in use")).
Proof.
  split; [|split].
  - apply (proj2 (proj1 (proj2 (build_starter_spec 10 api (builder_with _ _) api_registered)) _)).
    right; right. split; [reflexivity|]. split; [reflexivity|].
    split; [|reflexivity]. split; [reflexivity|exact get_project_versioned].
  - apply (proj2 (proj1 (proj2 (build_starter_spec 10 api (builder_with _ _) api_registered)) _)).
    right; left. split; [reflexivity|]. eexists. split; [reflexivity|]. left. exists "other.pem". eexists.
    split; [reflexivity|]. split; reflexivity.
  - apply (proj2 (proj1 (proj2 (build_starter_spec 10 api (builder_with _ _) api_registered)) _)).
    left. reflexivity.
Defined.

(** ** Traces *)

Definition uri_text (request : @Request (@cr_http model_crates) Body) : string := req_path request.

(** A client that disconnects. *)
Lemma request_traced_witness :
  let '(tr, result) :=
    http_request_handle_traced print_body gzip_id run_handler_model true uri_text server get_request "id-1" "::1" "::2" true in
  ∃ d, List.filter is_probe tr = [RequestStart (mk_probe_request "id-1" "::1" "::2" "GET" "/projects" None); RequestDone d] ∧
    pd_id d = "id-1" ∧ pd_status_code d = 499%Z.
Proof.
  pose proof (request_traced print_body gzip_id run_handler_model true uri_text server get_request "id-1" "::1" "::2" true) as H.
  destruct (http_request_handle_traced _ _ _ _ _ _ _ _ _ _ _) as [tr result].
  destruct H as (m & d & _ & Hp & Hid & _ & _ & _ & _ & Hc & Hs). exists d. split; [exact Hp|]. split; [exact Hid|].
  apply Hs, Hc. by left.
Defined.
