(* ===== verification/TypedWitnesses.v ===== *)
(** * Witnesses for typed endpoints

    A program with one operation, [PUT /projects/{id}], that has a query, a header
    and a JSON body, and answers with a header; its document, and the theorems on
    what requests and responses have there. *)
From S2P Require Import Prelude BTree FromMap Externals Versions StatusCodes Body HttpError Config Schema OpenApi SchemaUtil.
From S2P Require Import SchemaTranslate ApiEndpoint TypeUtil Router RouterSpec RouterLookup RouterIter Versioning ApiDescription ToMap Handler Metadata.
From S2P Require Import GenOpenApi GenOpenApiSpec Extractors Responses ErrorSchema TypedExtractors Compression Server TypedEndpoints.
From S2P Require Import Models Witnesses OpenApiWitnesses.

(** ** The crates *)

#[export] Instance model_texts : ErrorTexts := {
  et_builder_error := no_builder_error; et_header_name := "bad name"; et_header_value := "bad value"; et_string_debug := id;
}.

#[export] Instance model_reader : SchemaReader := {
  sr_dereference := dereference_none; sr_pretty_schema _ := None; sr_pretty_subschemas _ := None;
}.

#[export] Instance model_schemars : Schemars := {
  subschema_for _ f := f; root_schema_for _ f _ := ((f first_generator).2, []);
  string_json_schema g := (g, typed_schema IString);
}.

(** A query is a list of pairs; no floats are read. *)
Definition query_keys (s : string) : list string := (λ p, hd "" (split_on "="%char p)) <$> split_on "&"%char s.

#[export] Instance model_values : ValueTexts := {
  vt_float := (); vt_parse_float := no_float; vt_to_str_error := id; vt_query_keys := query_keys;
}.

(** ** The types of the program *)

Definition struct_schema (names : list string) : Schema :=
  Object (mk_schema_object None (Some (Single IObject)) None None None None None None None
    (Some (mk_object_validation None None names ((λ k, (k, typed_schema IString)) <$> names) [] None None)) None []).

Definition struct_type (name : string) (names : list string) : JsonSchemaType :=
  mk_json_schema_type name (λ _, (struct_schema names, [])).

(** The members of such a structure are its fields. *)
Lemma struct_members names m :
  Member (dereference_none []) (struct_schema names) true m → sm_required m = true → sm_name m ∈ names.
Proof.
  inversion 1 as [? ? ? ? Es|? ? ? ? ? ? Es|? ? ? ? ? ? Es|? ? ? ? ? Es]; simplify_eq; try discriminate Es.
  injection Es as <- <-. simpl. by intros ?%bool_decide_eq_true.
Qed.

Definition string_de (names : list string) : de () (btree string) :=
  struct_de ((λ k, (k, string_field)) <$> names) names.

Definition ProjectPath : Type := btree string.
Definition ProjectHeaders : Type := btree string.
Definition ProjectQuery : Type := list string.
Definition ProjectBody : Type := string.
Definition ProjectView : Type := string.
Definition RateLimit : Type := string.
#[export] Typeclasses Opaque ProjectPath ProjectHeaders ProjectQuery ProjectBody ProjectView RateLimit.

#[export] Instance path_map : DeserializeMap ProjectPath := { de_type := string_de ["id"] }.
#[export] Instance path_schema : JsonSchema ProjectPath := {
  schema_name := "ProjectPath"; make_subschema_for g := (g, struct_schema ["id"]); json_schema_type := struct_type "ProjectPath" ["id"];
}.

#[export] Instance headers_map : DeserializeMap ProjectHeaders := { de_type := string_de ["X-Client"] }.
#[export] Instance headers_schema : JsonSchema ProjectHeaders := {
  schema_name := "ProjectHeaders"; make_subschema_for g := (g, struct_schema ["X-Client"]);
  json_schema_type := struct_type "ProjectHeaders" ["X-Client"];
}.

#[export] Instance query_struct_map : DeserializeQuery ProjectQuery := {
  urlencoded_from_str s := if bool_decide ("limit" ∈ query_keys s) then inl (split_on "&"%char s) else inr "missing field `limit`";
}.
#[export] Instance query_schema : JsonSchema ProjectQuery := {
  schema_name := "ProjectQuery"; make_subschema_for g := (g, struct_schema ["limit"]); json_schema_type := struct_type "ProjectQuery" ["limit"];
}.

#[export] Instance body_parse : DeserializeBody ProjectBody := {
  json_parse s := if String.eqb s "" then inr "EOF while parsing a value" else inl s; urlencoded_parse := inl;
}.
#[export] Instance body_schema : JsonSchema ProjectBody := {
  schema_name := "ProjectBody"; make_subschema_for g := (g, typed_schema IString); json_schema_type := struct_type "ProjectBody" [];
}.

#[export] Instance view_serialize : SerializeJson ProjectView := { to_json_string := inl }.
#[export] Instance view_schema : JsonSchema ProjectView := {
  schema_name := "ProjectView"; make_subschema_for g := (g, typed_schema IString); json_schema_type := struct_type "ProjectView" [];
}.

#[export] Instance rate_serialize : Serialize RateLimit := { serialize s := SStruct [("x-remaining", SStr s)] }.
#[export] Instance rate_schema : JsonSchema RateLimit := {
  schema_name := "RateLimit"; make_subschema_for g := (g, struct_schema ["x-remaining"]); json_schema_type := struct_type "RateLimit" ["x-remaining"];
}.

Lemma string_struct_derives names (Z : Type) (mv : MapValue Z) (d : map_deserializer Z) :
  FromMap.run (Z := Z) no_float (string_de names) d = id <$> FromMap.run (Z := Z) no_float (string_de names) d.
Proof. by destruct (FromMap.run _ _ d). Qed.

#[export] Instance path_derives : DerivesStruct ProjectPath.
Proof.
  split. exists string, ((λ k, (k, string_field)) <$> ["id"]), ["id"], id. split_and!.
  - apply string_struct_derives.
  - by apply NoDup_singleton.
  - by intros k Hk.
  - intros nullable schema definitions m [= <- <-]. apply struct_members.
Qed.

#[export] Instance headers_derives : DerivesStruct ProjectHeaders.
Proof.
  split. exists string, ((λ k, (k, string_field)) <$> ["X-Client"]), ["X-Client"], id. split_and!.
  - apply string_struct_derives.
  - by apply NoDup_singleton.
  - by intros k Hk.
  - intros nullable schema definitions m [= <- <-]. apply struct_members.
Qed.

#[export] Instance query_struct : QueryStruct ProjectQuery.
Proof.
  split. intros s t nullable schema definitions m Ht [= <- <-] Hm Hr. cbn in Ht. case_bool_decide as Hk; [|done].
  by apply (struct_members _ _ Hm) in Hr as ->%list_elem_of_singleton.
Qed.

#[export] Instance view_inhabited : InhabitedSchema ProjectView.
Proof. by split. Qed.

#[export] Instance rate_members : SerializesMembers RateLimit.
Proof.
  split. intros headers named schema definitions m [= <- <-] Hn Hm Hr.
  apply (struct_members _ _ Hm) in Hr as ->%list_elem_of_singleton. injection Hn as <-. by eexists.
Qed.

(** ** The program *)

Definition ProjectArguments : Type := Path ProjectPath * (Query ProjectQuery * (Header ProjectHeaders * TypedBody ProjectBody)).
Definition ProjectResponse : Type := HeadersResponse HttpResponseOk ProjectView RateLimit.

#[export] Instance error_name : TypeName HttpError := { type_name := "dropshot::HttpError" }.

Definition project_update (_ : RequestContext) (args : ProjectArguments) : rust HttpError ProjectResponse :=
  Ok (headers_response_new (coded (body_inner _ args.2.2.2)) "9").

Definition project_extractor : RequestExtractor ProjectArguments := tuple_extractor.
Definition project_response : HttpResponse ProjectResponse := headers_http_response _ _ _.
#[export] Existing Instance project_extractor.
#[export] Existing Instance project_response.

Definition run_typed (h : Handler) : RequestContext → Request Body → rust HandlerError (Response Body) :=
  if String.eqb h "project_update" then route_handle (http_route_handler_new project_update)
  else λ _ _, Panic "no handler".

Definition endpoint_or_first (r : option (panics ApiEndpoint)) : ApiEndpoint :=
  match r with Some (Ok e) => e | _ => get_project end.

Definition project_endpoint_new : option (panics ApiEndpoint) :=
  typed_endpoint_new (A := ProjectArguments) (R := ProjectResponse) (E := HttpError) 5 "project_update" "project_update" "PUT"
    "application/json" "/projects/{id}" All.

Definition typed_api : list ApiEndpoint := [endpoint_or_first project_endpoint_new].

Definition typed_description : ApiDescription :=
  match register_all 10 description_new typed_api with Some (Ok self) => self | _ => description_new end.

Definition typed_server : DropshotState () :=
  mk_state () (st_config server) (router typed_description) Unversioned.

Definition typed_document : OpenAPI :=
  match gen_openapi first_generator no_definitions set_order 3 10 typed_description info v1 with
  | Some (Ok doc) => doc
  | _ => mk_openapi "" info [] [] [] []
  end.

Definition update_request : @Request (@cr_http model_crates) Body :=
  mk_request "PUT" "/projects/7" (Some "limit=3&x=y") [("content-type", "application/json"); ("x-client", "cli")]
    (mk_body [inl (Data "alpha")] None).

Definition some_ok {E A} (r : option (rust E A)) : bool := match r with Some (Ok _) => true | _ => false end.

Lemma some_ok_inv {E A} (r : option (rust E A)) : some_ok r = true → ∃ a, r = Some (Ok a).
Proof. destruct r as [[a| |]|]; simpl; try done. by exists a. Qed.

Lemma endpoint_made : project_endpoint_new = Some (Ok (endpoint_or_first project_endpoint_new)).
Proof. destruct (some_ok_inv project_endpoint_new) as [e E]; [by vm_compute|]. by rewrite E. Qed.

Lemma typed_registered : register_all 10 description_new typed_api = Some (Ok typed_description).
Proof.
  destruct (some_ok_inv (register_all 10 description_new typed_api)) as [e E]; [by vm_compute|].
  unfold typed_description. by rewrite E.
Qed.

Lemma typed_documented :
  gen_openapi first_generator no_definitions set_order 3 10 typed_description info v1 = Some (Ok typed_document).
Proof.
  destruct (some_ok_inv (gen_openapi first_generator no_definitions set_order 3 10 typed_description info v1)) as [d E]; [by vm_compute|].
  unfold typed_document. by rewrite E.
Qed.

Lemma typed_router : typed_description = mk_description (st_router typed_server) default_tag_config.
Proof.
  assert (tag_config typed_description = default_tag_config) as Hc by (vm_compute; reflexivity).
  unfold typed_server. cbn [st_router]. rewrite <-Hc. by destruct typed_description.
Qed.

Lemma project_update_sound rqctx args r : project_update rqctx args = Ok r → keeps_content_type r.
Proof. intros [= <-]. split; [done|]. intros named [= <-]. done. Qed.

Definition project_arguments_documented : DocumentedRequest ProjectArguments := tuple_documented_request.
Definition project_response_documented : DocumentedResponse ProjectResponse := headers_documented _ _ _.

Lemma typed_functions : Forall (function_endpoint run_typed) typed_api.
Proof.
  apply Forall_singleton.
  eapply (function_endpoint_intro run_typed _ ProjectArguments ProjectResponse HttpError
    (DocumentedRequest0 := project_arguments_documented) (DocumentedResponse0 := project_response_documented)
    project_update); [exact endpoint_made|apply rtc_refl|exact project_update_sound|done].
Qed.

Lemma typed_serves : serves run_typed first_generator no_definitions set_order typed_api default_tag_config typed_server typed_document v1.
Proof.
  split.
  - exists 10. exact (eq_trans typed_registered (f_equal (λ d, Some (Ok d)) typed_router)).
  - exists info, 3, 10. split; [simpl; lia|]. split; [apply Nat.leb_le; by vm_compute|].
    rewrite <-typed_router. exact typed_documented.
  - exact typed_functions.
  - intros e v ->%list_elem_of_singleton. by vm_compute.
Qed.

(** ** The theorems there *)

Definition update_route : RouterLookupResult :=
  match lookup_route (st_router typed_server) "PUT" "/projects/7" None with
  | Ok res => res
  | _ => mk_lookup_result "" (mk_request_endpoint "" [] Json_ None)
  end.

Lemma update_routed : lookup_route (st_router typed_server) "PUT" "/projects/7" None = Ok update_route.
Proof.
  destruct (is_ok_inv (lookup_route (st_router typed_server) "PUT" "/projects/7" None)) as [res E]; [by vm_compute|].
  unfold update_route. by rewrite E.
Qed.

Definition update_context : RequestContext := context_of typed_server update_request "id-1" "::1" update_route.

Definition project_endpoint : ApiEndpoint := endpoint_or_first project_endpoint_new.

Lemma project_endpoint_facts :
  ApiEndpoint.visible project_endpoint = true ∧ path_pattern (ApiEndpoint.path project_endpoint) = Ok [Literal "projects"; VarnameSegment "id"].
Proof. split; vm_compute; reflexivity. Qed.

Lemma typed_api_elem e : e ∈ typed_api → e = project_endpoint.
Proof. apply list_elem_of_singleton. Qed.

Lemma update_answered : ∃ resp, run_typed (lr_handler update_route) update_context update_request = Ok resp.
Proof. apply is_ok_inv. vm_compute. reflexivity. Qed.

Lemma request_served_as_documented_witness :
  ∃ op resp, operation_in (oa_paths typed_document) "/projects/{id}" PUT = Some op ∧
    op_operation_id op = Some "project_update" ∧
    outcome run_typed typed_server update_request "id-1" "::1" (inr resp) ∧
    request_fits op update_context update_request ∧ response_fits op resp.
Proof.
  destruct (request_served_as_documented run_typed first_generator no_definitions set_order typed_api default_tag_config typed_server
    typed_document v1 update_request "id-1" "::1" None update_route typed_serves) as (e & q & segs & vs & He & _ & Hq & _ & _ & Hop).
  - intros p Hp. repeat (apply elem_of_cons in Hp as [->|Hp]; [reflexivity|]). by apply elem_of_nil in Hp.
  - reflexivity.
  - right. split; [reflexivity|]. vm_compute. reflexivity.
  - exact update_routed.
  - apply typed_api_elem in He. destruct project_endpoint_facts as [Hv Hp]. rewrite He in Hq, Hop. rewrite Hp in Hq. injection Hq as <-.
    destruct (Hop Hv) as (m & op & [= <-] & Hin & Hid & Hfits). destruct update_answered as [resp Hr].
    assert (outcome run_typed typed_server update_request "id-1" "::1" (inr resp)) as Ho.
    { exact (handler_answered run_typed typed_server update_request "id-1" "::1" None update_route resp eq_refl update_routed Hr). }
    exists op, resp. split; [exact Hin|]. split; [exact Hid|]. split; [exact Ho|]. exact (Hfits resp Ho).
Defined.

Definition project_metadata : ExtractorMetadata :=
  match extractor_metadata (T := ProjectArguments) 5 Json_ with
  | Some (Ok md) => md
  | _ => mk_extractor_metadata NoExtension []
  end.

Lemma project_metadata_ok : extractor_metadata (T := ProjectArguments) 5 Json_ = Some (Ok project_metadata).
Proof.
  destruct (some_ok_inv (extractor_metadata (T := ProjectArguments) 5 Json_)) as [md E]; [by vm_compute|].
  unfold project_metadata. by rewrite E.
Qed.

Lemma update_context_wf : context_wf update_context.
Proof.
  split.
  - intros p Hp. repeat (apply elem_of_cons in Hp as [->|Hp]; [reflexivity|]). by apply elem_of_nil in Hp.
  - assert (rem_variables (rc_endpoint update_context) = bt_collect [("id", VString "7")]) as -> by (vm_compute; reflexivity).
    apply bt_wf_collect.
Qed.

Definition is_err {E A} (m : rust E A) : bool := match m with Err _ => true | _ => false end.

Lemma is_err_inv {E A} (m : rust E A) : is_err m = true → ∃ e, m = Err e.
Proof. destruct m as [|e|]; try done. by exists e. Qed.

(** A body that is not there is refused, before the function. *)
Definition bodyless_request : @Request (@cr_http model_crates) Body :=
  mk_request "PUT" "/projects/7" (Some "limit=3") [("content-type", "application/json"); ("x-client", "cli")] empty_body.

Lemma handler_gets_documented_request_witness :
  (∃ args, from_request (T := ProjectArguments) update_context update_request = Ok args ∧
     all_present update_context update_request (em_parameters project_metadata)) ∧
  (∃ e, from_request (T := ProjectArguments) update_context bodyless_request = Err e ∧ is_bad_request e).
Proof.
  destruct (handler_gets_documented_request project_update to_result 5 update_context update_request project_metadata
    update_context_wf project_metadata_ok) as [Hok _].
  destruct (handler_gets_documented_request project_update to_result 5 update_context bodyless_request project_metadata
    update_context_wf project_metadata_ok) as [_ Herr]. split.
  - destruct (is_ok_inv (from_request (T := ProjectArguments) update_context update_request)) as [args E]; [by vm_compute|].
    exists args. split; [exact E|]. exact (proj1 (Hok args E)).
  - destruct (is_err_inv (from_request (T := ProjectArguments) update_context bodyless_request)) as [e E]; [by vm_compute|].
    exists e. split; [exact E|]. exact (proj1 (Herr e E)).
Defined.

Definition project_response_metadata : ApiEndpointResponse :=
  match response_metadata_of (R := ProjectResponse) 5 with
  | Some (Ok m) => m
  | _ => mk_endpoint_response None [] None None
  end.

Lemma project_response_metadata_ok : response_metadata_of (R := ProjectResponse) 5 = Some (Ok project_response_metadata).
Proof.
  destruct (some_ok_inv (response_metadata_of (R := ProjectResponse) 5)) as [m E]; [by vm_compute|].
  unfold project_response_metadata. by rewrite E.
Qed.

Lemma project_says : ∃ o, says_response project_response_metadata o.
Proof.
  destruct (is_ok_inv (gen_response first_generator [] project_response_metadata)) as [[[g d] o] E]; [by vm_compute|].
  exists o. exact (gen_response_ok _ _ _ _ _ _ E).
Qed.

Lemma responses_documented_witness :
  ∃ o resp, says_response project_response_metadata o ∧
    route_handler_handle from_request project_update to_result update_context update_request = Ok resp ∧
    conforms project_response_metadata o resp.
Proof.
  destruct project_says as [o Ho].
  destruct (is_ok_inv (route_handler_handle from_request project_update to_result update_context update_request)) as [resp E]; [by vm_compute|].
  exists o, resp. split; [exact Ho|]. split; [exact E|].
  refine (proj2 (responses_documented (T := ProjectView) HttpResponseOk from_request (λ _ args, Ok (coded (body_inner _ args.2.2.2))) project_update
    update_context update_request 5 project_response_metadata o resp Ho) _ _ _).
  - exact project_response_metadata_ok.
  - intros params r Hr. exact (project_update_sound update_context params r Hr).
  - exact E.
Defined.
